(* ===== verification/_CoqProject ===== *)
-Q . S2P
Prelude.v
RingBuffer.v
Lua.v
Serialize.v
Pthread.v
Growth.v
Fifo.v
Roundtrip.v
Object.v
DList.v
Channel.v
WorkQueue.v
Registry.v
Marshal.v
SharedTable.v
Mutex.v
Flock.v
Net.v
Cliser.v
Server.v
Connect.v
Tensor.v
Cuda.v
Fastpath.v
Map.v
Spawn.v
Ownership.v
TaskPool.v
Tree.v
Module.v
