(* ===== verification/Prelude.v ===== *)
(** * torch-ipc: threads that exchange Lua values

    torch-ipc (C, under src/src/) lets the threads of a Torch program, each with a
    Lua state of its own, exchange values.  A value never moves between two Lua
    states directly: it is serialized into a ring buffer by one thread and
    deserialized by another.  Its parts:

    - the byte ring buffer (ringbuffer.c);
    - the serializer (serialize.c), [rb_save] and [rb_load];
    - the objects built on them: channels (channel.c), workqueues (workqueue.c), marshal
      buffers (marshal.c), shared tables (sharedtable.c);
    - ipc.map (map.c), which runs a function in threads of its own and collects the results;
    - clients and servers that send values over sockets (cliser.c), and tensors without
      copying them into a buffer (generic/cliser.c);
    - mutexes with a barrier (mutex.c) and file locks (flock.c);
    - child processes with pipes (spawn.c), the module table (ipc.c);
    - helpers in Lua (lua/): pools of background tasks, and a tree of processes for allreduce.

    Workqueues, channels, mutexes, marshal buffers, shared tables and clients are boxed
    pointers with a reference count: serializing such a userdata writes the pointer and calls
    its [retain] method, which raises on a closed handle, and loading it makes a userdata that
    will release a reference when it is collected.

    ** Files

    - [Prelude]: machine integers, memory, the outcome monad of a C call made from
      Lua, tactics and lists indexed by [Z].
    - [RingBuffer]: ringbuffer.c, all of it.  [ringbuffer_t] is the struct; the bytes of
      [buf] nobody wrote are [None], out of bounds copies and divisions by zero are
      [None] results.  [ring_ok] is its invariant, [contents] the bytes it holds.
    - [Lua]: Lua values and the class [LuaApi] of the interpreter's functions, with the
      documented behaviour the proofs use in [LuaApiOk]; [RefLua] instantiates it.
    - [Serialize]: serialize.c.  [rb_save_at], [rb_load_rcsv] and their helpers follow
      the C functions case by case; [enc] is the byte format, [transported] what a value
      is after a trip.  [Roundtrip] has the theorems on it.
    - [Pthread]: mutexes and condition variables as far as the code uses them.
    - [Growth]: the push / save / pop / grow loop the components share
      ([write_loop] is the loop of channel_write and of workqueue_queue_write), and
      [holds], a ring buffer seen as a queue of Lua values.
    - [Fifo]: the interface of a queue of values, with the client's theorem; channels
      and workqueues implement it.
    - [Object]: userdata that box shared pointers, and TH's reference counts.
    - [Channel]: channel.c.  [WorkQueue]: workqueue.c, the queues and the list functions;
      [Registry]: the theorems on the list of named workqueues.
    - [Marshal]: marshal.c.  [SharedTable]: sharedtable.c.  [Mutex]: mutex.c.
      [Flock]: flock.c.
    - [DList]: doubly linked lists in a map of nodes by address, the shape of the list of
      workqueues and of the clients of a server.
    - [Net]: the class [Sockets] of system calls on connected sockets, and a network.
    - [Cliser]: cliser.c, the transfer loops, the framing of messages and the methods of
      a client.  [Server]: the list of clients of a server, its accept loop and methods.
      [Connect]: [cliser_server] and [cliser_client], which open the sockets.
    - [Tensor]: generic/cliser.c, storages and tensors of any element size.  [Cuda]: the
      same for the memory of a GPU, staged through the host or shared between processes;
      [Fastpath]: [can_use_fastpath] of cliser.c, the choice between the two.
    - [Map]: map.c, the arguments, the threads, [join] and [checkErrors].
    - [Spawn]: spawn.c, and [ipc_waitpid] of ipc.c.
    - [Ownership]: the serializer, a channel or workqueue and reference counts together: the
      interface [Counted] of objects that count their references, the interface [Carrier] of
      objects that values are sent through, their instances, and the system of userdata sent
      through a carrier.
    - [TaskPool]: lua/BackgroundTaskPool.lua, a pool of threads that run tasks, over the
      workqueue of [WorkQueue].
    - [Tree]: lua/Tree.lua, the links of the tree of nodes and a round of allReduce on it.
    - [Module]: ipc.c, the tables of functions and what [luaopen_libipc] registers, and the
      functions on processes.

    ** How the code is modelled

    A C function called from Lua is a function of type [M S A], from a state to an
    [outcome]: [Done] with its results, [Raised] for a Lua error (a longjmp: the side
    effects made stay, locks included), [Blocked] for a thread that sleeps, in the
    state it leaves, [Undef] for undefined behaviour, [NoFuel] for a loop whose budget
    ran out.  Each function is the whole C function, its guards and error returns in
    the same order.  The calls of several threads are sequences of calls, each with
    the calling thread as an argument: every method holds its object's mutex
    throughout, so that calls on one object do not interleave.  A thread put to sleep
    on a condition variable ends its call as [Blocked] after it has released the mutex;
    once woken it tests its condition again, which is the same call made again
    ([channel_read], [workqueue_queue_read]) or a definition of its own
    ([drain_woken], [barrier_woken]).  So a spurious wake-up changes nothing there; at a
    barrier, which does not test again, it is an event of its own ([spurious_wakeup]).
    A signal wakes the thread that has slept longest, one of the choices POSIX leaves open;
    no theorem depends on which.

    Integers are [Z] with their width written out: [size_t] arithmetic wraps at 2^64,
    [num_items] at 2^32, the sizes read from a buffer are the full 64 bits.  Numbers of
    Lua are their bit patterns.

    What is not under src/ is a parameter: the Lua interpreter ([LuaApi]), TH's atomic
    reference counts ([THAtomic]) and its tensors ([TH]), the Lua state of a thread of a map
    ([LuaThreads]), [qsort] ([Qsort]), CUDA ([Cuda], [CudaDevices]), and the system calls
    of flock.c ([Posix]), of cliser.c ([Sockets], [ServerSys], [NetSetup]), of spawn.c
    ([Spawns]) and of ipc.c ([Processes]).  The classes with laws have concrete instances, with
    the laws proved, that the witnesses run on.  A [send], [recv],
    [read] or [write] may move any part of what it is asked to, and a peek may see any part of
    what was sent; a [send] or [write] that has to wait for room is described by how it ends.

    The threads of a map share nothing but the array they are started from, in which each
    has an entry of its own: a schedule is the list of the threads that have run, in their
    order, when [join] or [checkErrors] is called; [pthread_join] runs the thread it waits
    for if it has not.

    Loops that are not structural take fuel.  For [rb_load] it is [load_fuel], twice the
    bytes to read plus one, and [load_terminates] shows it is never used up, on any
    bytes (which may be undefined behaviour: see the note at [rb_load_rcsv]).  For the growth loops it is one turn per value and per byte of growth
    ([loop_fuel], [marshal_fuel], [passable]), for the loops on sockets and pipes one per
    byte, for those on a list one per node, for the results of a pool one per result that is
    missing, for a tree of nodes one per node; the theorems have that fuel as a hypothesis or
    use it, and conclude that the call returns.  For connecting it is 300, one a second, which
    is enough when the clock is not set back and no signal cuts a [sleep] short
    ([seconds_pass]).

    ** What the theorems show

    - Objects sent as userdata stay alive: every userdata held or on its way in a channel or
      a workqueue points to an object that counts it ([references_keep_objects_alive]), and where no save
      is made twice there are no other objects ([objects_are_those_referred_to]); the userdata
      types that can be sent are the six that can be retained, and they keep their type
      ([userdata_keeps_type]).
    - The ring buffer is a bounded FIFO of bytes that growing and abandoned writes do
      not disturb ([ringbuffer_refines_byte_queue]).
    - Loading what was saved gives back the value: exactly for plain data, a copy
      with metatables found by name in general, closures with their upvalues; a save
      either fits, or is refused with nothing left to read after the pop (file
      [Roundtrip]).
    - A channel is a closable queue, a workqueue two queues between the owner and its
      workers, a marshal buffer a value that can be read again and again, a shared table
      a map: for every sequence of calls the answers are those of the abstract
      object, in order, with the statuses, sleeps and wake-ups the code makes
      ([channel_refines_queue], [workqueue_refines_two_queues], [marshal_reads_repeat],
      [sharedtable_refines_map]).
    - The list of named workqueues stays well linked and acts as a finite map
      ([registry_well_linked], [registry_refines_map]); objects are freed with their last
      reference ([channel_freed_with_last_reference]).
    - A map gives the results of its threads in their order, whatever order they ran in,
      or the error of the last thread that failed ([map_join_collects]).
    - The two ends of a connection are two queues of values, however the bytes travel
      ([messages_refine_queues]); a tensor arrives whole, contiguous or not
      ([tensor_roundtrip]), and so does a storage, unless the two ends disagree on the number
      or the size of its elements ([storage_roundtrip]).  Device memory moves as host memory does, without ever using
      half of the staging buffer while a copy does ([staged_write_is_host_write],
      [staged_read_is_host_read]); the table of mapped memory is what is mapped
      ([remote_entry_keeps_cache]), and each end uses it when its device reaches the other's
      ([fastpath_decided]), which need not be both.
    - The clients of a server stay well linked and counted under every sequence of calls, but
      for a closing of the server that fails half way ([server_list_well_linked]), and a
      broadcast reaches those with the tag.  Opening a connection takes one descriptor or none,
      where descriptor 0 is open ([server_owns_one_socket], [client_owns_one_socket]).
    - A child process gets its two pipes and nothing is left open when it cannot be
      started ([spawn_open_wires]); its output is read whole, in any portions
      ([stdout_reads]), its input written whole; [wait] reads its
      output to the end before it waits, ends with it and closes everything ([wait_reaps]).
    - A pool of tasks gives each task its own result, once, whatever the order in which its
      threads run, if tasks and results can be saved ([pool_gives_results]); an allreduce gives every node the values of all
      of them reduced ([allReduce_reaches_all]).
    - A barrier lets its threads through together, but for spurious wake-ups, and can be used
      again ([barrier_releases_together]); file locks leak no descriptor.
    - Where the code does not do what it means to, a theorem says what it does
      instead: e.g. [named_workqueue_freed_while_referenced],
      [closure_write_leaves_channel_locked], [refused_write_corrupts_next_call],
      [check_errors_reports], [recv_at_eof_diverges], [refused_client_raises_EBADF],
      [later_child_holds_stdin], [silent_failure], [wide_tree_misses_nodes],
      [spurious_wake_up_passes_barrier], [grown_closure_is_returned],
      [refused_write_leaks_reference], [task_added_after_close_waits],
      [failed_close_leaves_freed_clients], [ends_may_disagree].

    ** What is not modelled

    - The objects in [Server] and [Connect] as built with CUDA: there [can_use_fastpath]
      returns 0 and [destroy_copy_context] does nothing, their CUDA bodies being in
      [Fastpath] and [Cuda].  The bytes that shared device memory delivers, which CUDA
      copies.  Failures of [malloc].
    - Reports: net_stats and the readings of the clock in the statistics; the text of an
      address and the memory a Lua state uses are parameters.
    - The Lua files other than BackgroundTaskPool.lua and Tree.lua, which find the addresses of
      nodes; of Tree.lua the messages that set up its connections, and scatter.
    - The interleaving of calls on different objects, and of a call with another thread's
      use of the same descriptors.
    - Memory exhaustion: [malloc], [alloca] and the Lua stack do not fail, and a value
      nested too deeply for the C stack is not considered.
    - The Lua stack, except where its state shows: [rb_save_at] for the copy of a function it
      leaves behind, and so [marshal_open], which returns it, and [SharedTable.save_below],
      where the model stops; [rb_load_rcsv] where an ignored error leaves the stack short
      (undefined here).
    - A closed client as a value to save: its [retain] dereferences NULL.
    - The order in which Lua traverses a table: the list of its entries is one it may have.
    - Metamethods other than the ones the code calls, and sharing between tables: a table
      is a tree of entries, so that a table reachable twice is saved twice (as the code
      does) and a cyclic one is not a value of the model; [LGlobals] stands for [_G], the
      one cycle that occurs, on which the save does not end. *)
From stdpp Require Export base tactics list option numbers gmap.
From coqutil Require Export Byte Word.LittleEndianList.
From Stdlib Require Export ZArith Lia.
From Stdlib Require Strings.Byte Strings.String.
Export Stdlib.Strings.String.StringSyntax.

#[export] Set Default Goal Selector "!".

Declare Scope ipc_scope.
Delimit Scope ipc_scope with ipc.
Open Scope Z_scope.

(** ** Machine integers *)

(** [size_t] is 64 bits wide and wraps. *)
Definition SIZE_MOD : Z := 2 ^ 64.
Definition size_add (a b : Z) : Z := (a + b) mod SIZE_MOD.
Definition size_sub (a b : Z) : Z := (a - b) mod SIZE_MOD.

(** [a % b] on [size_t]: dividing by zero is undefined behaviour. *)
Definition size_mod (a b : Z) : option Z :=
  if b =? 0 then None else Some (a mod b).

(** [uint32_t] counters wrap at 32 bits. *)
Definition U32_MOD : Z := 2 ^ 32.
Definition u32_add (a b : Z) : Z := (a + b) mod U32_MOD.
Definition u32_sub (a b : Z) : Z := (a - b) mod U32_MOD.

(** [errno] values (Linux). C functions return them negated. *)
Definition EPERM : Z := 1.
Definition ENOMEM : Z := 12.
Definition EINVAL : Z := 22.

(** ** Memory *)

(** A byte of memory: [None] is a byte nobody has written since [malloc]
    (or since the local variable was declared). *)
Abbreviation cell := (option byte).

#[export] Instance byte_eq_dec : EqDecision byte := Stdlib.Strings.Byte.byte_eq_dec.

Definition zlen {A} (l : list A) : Z := Z.of_nat (length l).
Definition ztake {A} (n : Z) (l : list A) : list A := take (Z.to_nat n) l.
Definition zdrop {A} (n : Z) (l : list A) : list A := drop (Z.to_nat n) l.

(** The [k]-th element, [None] outside the list. *)
Definition nthz {A} (l : list A) (k : Z) : option A :=
  if k <? 0 then None else l !! Z.to_nat k.

(** The bytes of a string literal. *)
Definition str (s : Stdlib.Strings.String.string) : list byte :=
  Stdlib.Strings.String.list_byte_of_string s.
Arguments str s%_string_scope.

(** [malloc(n)] and uninitialised locals of [n] bytes. *)
Definition uninit (n : Z) : list cell := replicate (Z.to_nat n) None.

(** [memcpy(&dst[doff], &src[soff], n)]; leaving either object is undefined. *)
Definition memcpy (dst : list cell) (doff : Z) (src : list cell) (soff n : Z)
  : option (list cell) :=
  if (0 <=? doff) && (0 <=? n) && (doff + n <=? zlen dst)
     && (0 <=? soff) && (soff + n <=? zlen src)
  then Some (ztake doff dst ++ ztake n (zdrop soff src) ++ zdrop (doff + n) dst)
  else None.

(** ** Outcomes of a C call made from Lua *)

Inductive lua_error :=
  | ErrCode (code : Z)        (** [LUA_HANDLE_ERROR(L, code)] *)
  | ErrStr (msg : list byte)  (** [LUA_HANDLE_ERROR_STR(L, msg)] *)
  | ErrLua (msg : list byte). (** an error raised by Lua itself *)

(** [Raised] is a [longjmp] out of the C code: the side effects made so far
    stay.  [Blocked] is a thread put to sleep on a mutex or a condition
    variable, in the state it leaves behind.  [Undef] is undefined behaviour.
    [NoFuel] is a loop whose iteration budget ran out. *)
Inductive outcome (S A : Type) :=
  | Done (a : A) (s : S)
  | Raised (e : lua_error) (s : S)
  | Blocked (s : S)
  | Undef
  | NoFuel.
Arguments Done {S A} a s.
Arguments Raised {S A} e s.
Arguments Blocked {S A} s.
Arguments Undef {S A}.
Arguments NoFuel {S A}.

Definition M (S A : Type) : Type := S -> outcome S A.

Section Monad.
Context {S : Type}.

Definition mret {A} (a : A) : M S A := fun s => Done a s.
Definition raise {A} (e : lua_error) : M S A := fun s => Raised e s.
Definition undef {A} : M S A := fun _ => Undef.
Definition out_of_fuel {A} : M S A := fun _ => NoFuel.

Definition mbnd {A B} (m : M S A) (k : A -> M S B) : M S B := fun s =>
  match m s with
  | Done a s' => k a s'
  | Raised e s' => Raised e s'
  | Blocked s' => Blocked s'
  | Undef => Undef
  | NoFuel => NoFuel
  end.

Definition get_st : M S S := fun s => Done s s.
Definition put_st (s : S) : M S unit := fun _ => Done tt s.
Definition modify_st (f : S -> S) : M S unit := fun s => Done tt (f s).

(** A computation that may be undefined. *)
Definition of_opt {A} (o : option A) : M S A := fun s =>
  match o with Some a => Done a s | None => Undef end.
End Monad.

Notation "'let!' x := m 'in' k" := (mbnd m (fun x => k))
  (at level 10, x pattern, k at level 200) : ipc_scope.
Notation "m ;;; k" := (mbnd m (fun _ => k))
  (at level 199, right associativity) : ipc_scope.

(** Runs a computation on a part of the state. *)
Definition zoom {S T A} (view : S -> T) (upd : T -> S -> S) (m : M T A) : M S A :=
  fun s =>
    match m (view s) with
    | Done a t => Done a (upd t s)
    | Raised e t => Raised e (upd t s)
    | Blocked t => Blocked (upd t s)
    | Undef => Undef
    | NoFuel => NoFuel
    end.

(** The state a run ends in (the initial one when it does not return). *)
Definition end_state {S A} (m : M S A) (s : S) : S :=
  match m s with Done _ s' | Raised _ s' | Blocked s' => s' | _ => s end.

(** What a run answers, its state left out: evaluating it does not print the state. *)
Inductive reply (A : Type) := Returns (a : A) | Raises (e : lua_error) | Sleeps | Fails.
Arguments Returns {A} a.
Arguments Raises {A} e.
Arguments Sleeps {A}.
Arguments Fails {A}.

Definition reply_of {S A} (o : outcome S A) : reply A :=
  match o with
  | Done a _ => Returns a | Raised e _ => Raises e | Blocked _ => Sleeps | _ => Fails
  end.

Lemma reply_run {S A} (m : M S A) s :
  match reply_of (m s) with
  | Returns a => m s = Done a (end_state m s)
  | Raises e => m s = Raised e (end_state m s)
  | Sleeps => m s = Blocked (end_state m s)
  | Fails => True
  end.
Proof. unfold end_state. by destruct (m s). Qed.

(** ** Tactics *)

(** Splits on the boolean comparisons of the goal and the hypotheses. *)
Ltac case_cmp :=
  repeat match goal with
  | |- context [Z.ltb ?a ?b] => destruct (Z.ltb_spec a b)
  | |- context [Z.leb ?a ?b] => destruct (Z.leb_spec a b)
  | |- context [Z.eqb ?a ?b] => destruct (Z.eqb_spec a b)
  | H : context [Z.ltb ?a ?b] |- _ => destruct (Z.ltb_spec a b)
  | H : context [Z.leb ?a ?b] |- _ => destruct (Z.leb_spec a b)
  | H : context [Z.eqb ?a ?b] |- _ => destruct (Z.eqb_spec a b)
  end.

(** ** Lists indexed by [Z] *)

Create HintDb ipc.
Create Rewrite HintDb zlen.

Section ZLists.
Context {A : Type}.
Implicit Types l : list A.

Lemma zlen_nonneg l : 0 <= zlen l.
Proof. unfold zlen. lia. Qed.

#[export] Instance zlen_perm : Proper ((≡ₚ) ==> (=)) (@zlen A).
Proof. intros l k H. unfold zlen. by rewrite H. Qed.

Lemma zlen_app l1 l2 : zlen (l1 ++ l2) = zlen l1 + zlen l2.
Proof. unfold zlen. rewrite length_app. lia. Qed.

Lemma zlen_nil : zlen (@nil A) = 0.
Proof. reflexivity. Qed.

Lemma zlen_cons x l : zlen (x :: l) = 1 + zlen l.
Proof. unfold zlen. simpl length. lia. Qed.

Lemma zlen_ztake n l : 0 <= n <= zlen l -> zlen (ztake n l) = n.
Proof. unfold zlen, ztake. rewrite length_take. lia. Qed.

Lemma zlen_zdrop n l : 0 <= n <= zlen l -> zlen (zdrop n l) = zlen l - n.
Proof. unfold zlen, zdrop. rewrite length_drop. lia. Qed.

Lemma nthz_ztake n l k :
  nthz (ztake n l) k = if k <? n then nthz l k else None.
Proof.
  unfold nthz, ztake. case_cmp; try reflexivity; rewrite lookup_take; case_decide; try lia; done.
Qed.

Lemma nthz_zdrop n l k :
  0 <= n -> nthz (zdrop n l) k = if k <? 0 then None else nthz l (n + k).
Proof.
  intros. unfold nthz, zdrop. case_cmp; try lia; try done.
  rewrite lookup_drop. f_equal. lia.
Qed.

Lemma nthz_app l1 l2 k :
  nthz (l1 ++ l2) k = if k <? zlen l1 then nthz l1 k else nthz l2 (k - zlen l1).
Proof.
  unfold nthz, zlen. case_cmp; try lia; try done.
  - by rewrite lookup_app_l by lia.
  - rewrite lookup_app_r by lia. f_equal. lia.
Qed.

Lemma nthz_ge l k : zlen l <= k -> nthz l k = None.
Proof.
  unfold nthz, zlen. intros. case_cmp; [done|]. apply lookup_ge_None. lia.
Qed.

Lemma nthz_neg l k : k < 0 -> nthz l k = None.
Proof. unfold nthz. intros. case_cmp; [done | lia]. Qed.

Lemma nthz_ext l1 l2 :
  zlen l1 = zlen l2 ->
  (forall k, 0 <= k < zlen l1 -> nthz l1 k = nthz l2 k) -> l1 = l2.
Proof.
  intros Hl H. apply list_eq. intros i.
  destruct (decide (i < length l1)%nat) as [Hi|Hi].
  - specialize (H (Z.of_nat i)). unfold nthz, zlen in *.
    destruct (Z.ltb_spec (Z.of_nat i) 0); [lia|]. rewrite Nat2Z.id in H. apply H. lia.
  - rewrite !lookup_ge_None_2; [done | unfold zlen in *; lia | lia].
Qed.

Lemma ztake_ztake_app n l1 l2 : zlen l1 = n -> ztake n (l1 ++ l2) = l1.
Proof. intros <-. unfold ztake, zlen. rewrite Nat2Z.id. apply take_app_length. Qed.

Lemma zdrop_zdrop_app n l1 l2 : zlen l1 = n -> zdrop n (l1 ++ l2) = l2.
Proof. intros <-. unfold zdrop, zlen. rewrite Nat2Z.id. apply drop_app_length. Qed.

Lemma ztake_zdrop n l : ztake n l ++ zdrop n l = l.
Proof. apply take_drop. Qed.

Lemma ztake_all n l : zlen l <= n -> ztake n l = l.
Proof. unfold ztake, zlen. intros. apply take_ge. lia. Qed.
End ZLists.

Lemma forallb_map {A B} (p : B -> bool) (f : A -> B) l :
  forallb p (map f l) = forallb (fun x => p (f x)) l.
Proof. induction l as [|x l IH]; [done|]. simpl. by rewrite IH. Qed.

Lemma zlen_fmap {A B} (f : A -> B) l : zlen (f <$> l) = zlen l.
Proof. unfold zlen. by rewrite length_fmap. Qed.

Lemma ztake_fmap {A B} (f : A -> B) n l : ztake n (f <$> l) = f <$> ztake n l.
Proof. unfold ztake. symmetry. apply fmap_take. Qed.

Lemma zdrop_fmap {A B} (f : A -> B) n l : zdrop n (f <$> l) = f <$> zdrop n l.
Proof. unfold zdrop. symmetry. apply fmap_drop. Qed.

Lemma zlen_uninit n : 0 <= n -> zlen (uninit n) = n.
Proof. unfold zlen, uninit. rewrite length_replicate. lia. Qed.

(** What [memcpy] leaves in the destination, byte by byte. *)
Lemma memcpy_spec dst doff src soff n :
  0 <= doff -> 0 <= n -> doff + n <= zlen dst -> 0 <= soff -> soff + n <= zlen src ->
  exists dst', memcpy dst doff src soff n = Some dst' /\ zlen dst' = zlen dst /\
    forall k, nthz dst' k =
      if (doff <=? k) && (k <? doff + n) then nthz src (soff + (k - doff)) else nthz dst k.
Proof.
  intros. unfold memcpy.
  rewrite !(proj2 (Z.leb_le _ _)) by lia. simpl.
  eexists. split; [reflexivity|].
  assert (zlen (ztake doff dst) = doff) as E1 by (apply zlen_ztake; lia).
  assert (zlen (ztake n (zdrop soff src)) = n) as E2
    by (apply zlen_ztake; rewrite zlen_zdrop by lia; lia).
  split; [rewrite !zlen_app, E1, E2, zlen_zdrop by lia; lia|].
  intros k. rewrite !nthz_app, E1, E2, !nthz_ztake, !nthz_zdrop by lia.
  case_cmp; simpl; try lia; try (f_equal; lia); try (rewrite !nthz_neg by lia; done);
    try (rewrite (nthz_neg dst) by lia; done).
Qed.

(** Memory with the bytes [bs] stored at [pos]. *)
Definition store (out : list cell) (pos : Z) (bs : list byte) : list cell :=
  ztake pos out ++ (Some <$> bs) ++ zdrop (pos + zlen bs) out.

Lemma memcpy_store out pos bs n :
  0 <= pos -> n = zlen bs -> pos + n <= zlen out ->
  memcpy out pos (Some <$> bs) 0 n = Some (store out pos bs).
Proof.
  intros ? -> ?. unfold memcpy, store. pose proof (zlen_nonneg bs). rewrite zlen_fmap.
  rewrite !(proj2 (Z.leb_le _ _)) by lia. simpl. do 3 f_equal.
  apply ztake_all. rewrite zlen_fmap. lia.
Qed.

Lemma zlen_store out pos bs :
  0 <= pos -> pos + zlen bs <= zlen out -> zlen (store out pos bs) = zlen out.
Proof.
  intros. unfold store. pose proof (zlen_nonneg bs).
  rewrite !zlen_app, zlen_ztake, zlen_fmap, zlen_zdrop by lia. lia.
Qed.

Lemma store_nil out pos : store out pos [] = out.
Proof. unfold store. rewrite zlen_nil, Z.add_0_r. apply ztake_zdrop. Qed.

Lemma store_store out pos b1 b2 :
  0 <= pos -> pos + zlen b1 <= zlen out ->
  store (store out pos b1) (pos + zlen b1) b2 = store out pos (b1 ++ b2).
Proof.
  intros ? Hl. unfold store at 1 3. pose proof (zlen_nonneg b1). pose proof (zlen_nonneg b2).
  assert (store out pos b1 = (ztake pos out ++ (Some <$> b1)) ++ zdrop (pos + zlen b1) out) as E
    by (unfold store; by rewrite app_assoc).
  assert (zlen (ztake pos out ++ (Some <$> b1)) = pos + zlen b1) as Hp
    by (rewrite zlen_app, zlen_ztake, zlen_fmap by lia; lia).
  rewrite E, ztake_ztake_app by done. rewrite fmap_app, zlen_app, <- !app_assoc. do 3 f_equal.
  rewrite app_assoc. unfold zdrop, zlen in *. rewrite drop_app_ge by lia.
  rewrite drop_drop. f_equal. lia.
Qed.

Lemma nthz_store out pos bs k : 0 <= pos -> pos + zlen bs <= zlen out ->
  nthz (store out pos bs) k =
  if (pos <=? k) && (k <? pos + zlen bs) then nthz (Some <$> bs) (k - pos) else nthz out k.
Proof.
  intros Hp Hl. pose proof (zlen_nonneg bs).
  destruct (memcpy_spec out pos (Some <$> bs) 0 (zlen bs)) as (dst & E & _ & Hn);
    [lia | lia | lia | lia | rewrite zlen_fmap; lia |].
  rewrite memcpy_store in E by lia. injection E as <-. rewrite Hn. by rewrite Z.add_0_l.
Qed.

Lemma mapM_id_Some {A} (l : list A) : mapM id (Some <$> l) = Some l.
Proof. apply mapM_Some_2. induction l; constructor; done. Qed.

(** The little-endian image of a [size_t] determines it. *)
Lemma le_roundtrip (n : nat) (z : Z) :
  0 <= z < 2 ^ (Z.of_nat n * 8) -> le_combine (le_split n z) = z.
Proof. intros. rewrite le_combine_split. by apply Z.mod_small. Qed.

Lemma zlen_le_split n z : zlen (le_split n z) = Z.of_nat n.
Proof. unfold zlen. by rewrite length_le_split. Qed.

#[export] Hint Rewrite @zlen_app @zlen_nil @zlen_cons zlen_le_split @zlen_fmap : zlen.

#[global] Opaque le_split le_combine.
