(* ===== verification/RingBuffer.v ===== *)
(** * The byte ring buffer ([src/ringbuffer.c], [src/ringbuffer.h]). *)
From S2P Require Import Prelude.

Record ringbuffer_t := mk_rb {
  buf : list cell;
  cb : Z;
  rp : Z;
  wp : Z;
  rcb : Z;
  saved_wp : Z;
  saved_rcb : Z;
}.

Definition ringbuffer_create (n : Z) : ringbuffer_t :=
  {| buf := uninit n; cb := n; rp := 0; wp := 0; rcb := 0;
     saved_wp := 0; saved_rcb := 0 |}.

Definition min (a b : Z) : Z := if a <? b then a else b.

(** [inp] is [None] for a NULL [in]: the positions move and no byte is copied.
    The result is [None] on undefined behaviour. *)
Definition ringbuffer_write (rb : ringbuffer_t) (inp : option (list cell)) (n : Z)
  : option (Z * ringbuffer_t) :=
  let i := min n (size_sub (cb rb) (rcb rb)) in
  if size_add (wp rb) i <? cb rb then
    buf' ← (match inp with
            | Some in8 => memcpy (buf rb) (wp rb) in8 0 i
            | None => Some (buf rb)
            end);
    Some (i, mk_rb buf' (cb rb) (rp rb) (size_add (wp rb) i) (size_add (rcb rb) i)
               (saved_wp rb) (saved_rcb rb))
  else
    size2 ← size_mod (size_add (wp rb) i) (cb rb);
    let size1 := size_sub i size2 in
    buf' ← (match inp with
            | Some in8 => b1 ← memcpy (buf rb) (wp rb) in8 0 size1;
                          memcpy b1 0 in8 size1 size2
            | None => Some (buf rb)
            end);
    Some (i, mk_rb buf' (cb rb) (rp rb) size2 (size_add (rcb rb) i)
               (saved_wp rb) (saved_rcb rb)).

(** [out] is the caller's memory; the result has the count returned, that
    memory after the call and the ring buffer. *)
Definition ringbuffer_read (rb : ringbuffer_t) (out : list cell) (n : Z)
  : option (Z * list cell * ringbuffer_t) :=
  let i := min n (rcb rb) in
  if size_add (rp rb) i <? cb rb then
    out' ← memcpy out 0 (buf rb) (rp rb) i;
    Some (i, out', mk_rb (buf rb) (cb rb) (size_add (rp rb) i) (wp rb)
                     (size_sub (rcb rb) i) (saved_wp rb) (saved_rcb rb))
  else
    size2 ← size_mod (size_add (rp rb) i) (cb rb);
    let size1 := size_sub i size2 in
    out1 ← memcpy out 0 (buf rb) (rp rb) size1;
    out' ← memcpy out1 size1 (buf rb) 0 size2;
    Some (i, out', mk_rb (buf rb) (cb rb) size2 (wp rb)
                     (size_sub (rcb rb) i) (saved_wp rb) (saved_rcb rb)).

Definition ringbuffer_grow_by (rb : ringbuffer_t) (n : Z) : option ringbuffer_t :=
  let new_cb := size_add (cb rb) n in
  let new_buf := uninit new_cb in
  '(rcb', new_buf', _) ← ringbuffer_read rb new_buf new_cb;
  Some {| buf := new_buf'; cb := new_cb; rp := 0; wp := rcb'; rcb := rcb';
          saved_wp := 0; saved_rcb := 0 |}.

Definition ringbuffer_peek (rb : ringbuffer_t) : Z := rcb rb.

Definition ringbuffer_push_write_pos (rb : ringbuffer_t) : ringbuffer_t :=
  mk_rb (buf rb) (cb rb) (rp rb) (wp rb) (rcb rb) (wp rb) (rcb rb).

Definition ringbuffer_pop_write_pos (rb : ringbuffer_t) : ringbuffer_t :=
  mk_rb (buf rb) (cb rb) (rp rb) (saved_wp rb) (saved_rcb rb) (saved_wp rb) (saved_rcb rb).

Definition ringbuffer_reset_read_pos (rb : ringbuffer_t) : ringbuffer_t :=
  mk_rb (buf rb) (cb rb) 0 (wp rb) (rcb rb) (saved_wp rb) (saved_rcb rb).

(** [ringbuffer_buf_ptr] hands out the storage itself. *)
Definition ringbuffer_buf_ptr (rb : ringbuffer_t) : list cell := buf rb.

(** The clone shares [buf]: the two records name the same storage, which the
    reads made through the clone do not modify. *)
Definition ringbuffer_clone (rb : ringbuffer_t) : ringbuffer_t :=
  mk_rb (buf rb) (cb rb) (rp rb) (wp rb) (rcb rb) (saved_wp rb) (saved_rcb rb).

(** ** Abstraction: the queue of bytes the buffer holds *)

Definition contents (rb : ringbuffer_t) : list cell :=
  ztake (rcb rb) (zdrop (rp rb) (buf rb) ++ ztake (rp rb) (buf rb)).

(** The position [k] bytes after [p], around the ring. *)
Definition wrap_pos (rb : ringbuffer_t) (p k : Z) : Z :=
  if p + k <? cb rb then p + k else p + k - cb rb.

(** Bounds every operation keeps.  [cb] fits [ptrdiff_t], as every object does. *)
Record rb_bounds (rb : ringbuffer_t) : Prop := {
  rb_len : zlen (buf rb) = cb rb;
  rb_cb : 0 < cb rb < 2 ^ 63;
  rb_rp : 0 <= rp rb < cb rb;
  rb_wp : 0 <= wp rb < cb rb;
  rb_rcb : 0 <= rcb rb <= cb rb;
}.

(** The ring invariant: the write position is [rcb] bytes after the read one. *)
Record ring_ok (rb : ringbuffer_t) : Prop := {
  ring_bounds : rb_bounds rb;
  ring_wp : wp rb = wrap_pos rb (rp rb) (rcb rb);
}.

Definition free_space (rb : ringbuffer_t) : Z := cb rb - rcb rb.

Ltac rb_unfold :=
  unfold size_add, size_sub, SIZE_MOD, wrap_pos, free_space in *; simpl in *.

(** Arithmetic that does not wrap. *)
Ltac no_wrap :=
  repeat match goal with
  | |- context [?a mod (2 ^ 64)] => rewrite (Z.mod_small a (2 ^ 64)) by lia
  end.

Lemma min_spec a b : min a b = Z.min a b.
Proof. unfold min. case_cmp; lia. Qed.

Lemma zlen_contents rb : rb_bounds rb -> zlen (contents rb) = rcb rb.
Proof.
  intros []. unfold contents. apply zlen_ztake.
  rewrite zlen_app, zlen_zdrop, zlen_ztake by lia. lia.
Qed.

Lemma nthz_contents rb k :
  rb_bounds rb -> 0 <= k < rcb rb ->
  nthz (contents rb) k = nthz (buf rb) (wrap_pos rb (rp rb) k).
Proof.
  intros [] Hk. unfold contents, wrap_pos.
  rewrite nthz_ztake, nthz_app, nthz_zdrop, nthz_ztake, zlen_zdrop by lia.
  case_cmp; try lia; f_equal; lia.
Qed.

(** The remainder the two wrapping branches compute. *)
Lemma wrap_mod a c : c <> 0 -> c <= a < 2 * c -> a mod c = a - c.
Proof. intros. symmetry. apply (Z.mod_unique a c 1); lia. Qed.

Lemma ringbuffer_write_spec rb in8 n :
  rb_bounds rb -> 0 <= n -> n <= zlen in8 ->
  let i := Z.min n (free_space rb) in
  exists rb', ringbuffer_write rb (Some in8) n = Some (i, rb') /\
    rb_bounds rb' /\ cb rb' = cb rb /\ rp rb' = rp rb /\ rcb rb' = rcb rb + i /\
    wp rb' = wrap_pos rb (wp rb) i /\
    saved_wp rb' = saved_wp rb /\ saved_rcb rb' = saved_rcb rb /\
    (forall k, 0 <= k < cb rb -> nthz (buf rb') k =
       (if (wp rb <=? k) && (k <? wp rb + i) then nthz in8 (k - wp rb)
        else if k <? wp rb + i - cb rb then nthz in8 (cb rb - wp rb + k)
        else nthz (buf rb) k)).
Proof.
  intros [Hl Hcb Hrp Hwp Hrcb] Hn Hin i. unfold ringbuffer_write.
  rewrite min_spec. rb_unfold.
  rewrite (Z.mod_small (cb rb - rcb rb)) by lia. fold i.
  assert (0 <= i <= cb rb - rcb rb /\ i <= n) as [Hi Hin'] by (subst i; lia).
  rewrite !(Z.mod_small (wp rb + i)) by lia. rewrite (Z.mod_small (rcb rb + i)) by lia.
  destruct (Z.ltb_spec (wp rb + i) (cb rb)) as [Hlt|Hge].
  - destruct (memcpy_spec (buf rb) (wp rb) in8 0 i) as (b' & -> & Hlen & Hnth); try lia.
    simpl. eexists. split; [reflexivity|]. repeat split; simpl; try lia.
    intros k Hk. rewrite Hnth. case_cmp; simpl; try lia; try f_equal; lia.
  - unfold size_mod. destruct (Z.eqb_spec (cb rb) 0); [lia|]. simpl.
    rewrite wrap_mod by lia. rewrite (Z.mod_small (i - _)) by lia.
    destruct (memcpy_spec (buf rb) (wp rb) in8 0 (i - (wp rb + i - cb rb)))
      as (b1 & -> & Hlen1 & Hnth1); try lia. simpl.
    destruct (memcpy_spec b1 0 in8 (i - (wp rb + i - cb rb)) (wp rb + i - cb rb))
      as (b2 & -> & Hlen2 & Hnth2); try lia. simpl.
    eexists. split; [reflexivity|]. repeat split; simpl; try lia.
    intros k Hk. rewrite Hnth2, Hnth1. case_cmp; simpl; try lia; try f_equal; lia.
Qed.

(** ** The operations on the queue of bytes *)

(** [rb'] is [rb] with [l] appended to its contents and nothing else changed
    that a reader or [ringbuffer_pop_write_pos] can see. *)
Record appended (rb : ringbuffer_t) (l : list cell) (rb' : ringbuffer_t) : Prop := {
  app_ok : ring_ok rb';
  app_contents : contents rb' = contents rb ++ l;
  app_cb : cb rb' = cb rb;
  app_rp : rp rb' = rp rb;
  app_saved_wp : saved_wp rb' = saved_wp rb;
  app_saved_rcb : saved_rcb rb' = saved_rcb rb;
}.

Lemma appended_rcb rb l rb' : ring_ok rb -> appended rb l rb' -> rcb rb' = rcb rb + zlen l.
Proof.
  intros Hok [Hok' Hc _ _ _ _]. pose proof (zlen_contents rb (ring_bounds rb Hok)) as H1.
  pose proof (zlen_contents rb' (ring_bounds rb' Hok')) as H2.
  rewrite Hc, zlen_app in H2. lia.
Qed.

Lemma appended_nil rb : ring_ok rb -> appended rb [] rb.
Proof. intros. split; try done. by rewrite app_nil_r. Qed.

Lemma appended_trans rb l1 rb1 l2 rb2 :
  appended rb l1 rb1 -> appended rb1 l2 rb2 -> appended rb (l1 ++ l2) rb2.
Proof.
  intros [] []. split; try congruence. by rewrite app_contents1, app_contents0, app_assoc.
Qed.

Lemma write_appends rb in8 n :
  ring_ok rb -> 0 <= n -> n <= zlen in8 ->
  let i := Z.min n (free_space rb) in
  exists rb', ringbuffer_write rb (Some in8) n = Some (i, rb') /\ appended rb (ztake i in8) rb'.
Proof.
  intros [Hb Hw] Hn Hin i.
  destruct (ringbuffer_write_spec rb in8 n Hb Hn Hin)
    as (rb' & -> & Hb' & Hcb & Hrp & Hrcb & Hwp & Hs1 & Hs2 & Hbuf).
  exists rb'. split; [reflexivity|]. fold i in Hrcb, Hwp, Hbuf.
  assert (0 <= i <= free_space rb) as Hi
    by (destruct Hb; subst i; unfold free_space in *; lia).
  assert (i <= n) by (subst i; lia).
  split; try done.
  - split; [done|]. destruct Hb. rb_unfold. rewrite Hwp, Hw, Hcb, Hrp, Hrcb. case_cmp; lia.
  - apply nthz_ext.
    + rewrite zlen_app, !zlen_contents, zlen_ztake by (done || lia). lia.
    + rewrite zlen_contents by done. intros k Hk.
      rewrite nthz_contents by (done || lia). unfold wrap_pos in *. rewrite Hrp, Hcb.
      rewrite nthz_app, zlen_contents, nthz_ztake by done.
      pose proof Hb as []. unfold free_space in *. rewrite Hbuf by (case_cmp; lia).
      destruct (Z.ltb_spec k (rcb rb)).
      * rewrite nthz_contents by (done || lia). unfold wrap_pos. rewrite Hw.
        case_cmp; simpl; try lia; f_equal; lia.
      * rewrite Hw. case_cmp; simpl; try lia; f_equal; lia.
Qed.

Lemma write_fits rb in8 :
  ring_ok rb -> zlen in8 <= free_space rb ->
  exists rb', ringbuffer_write rb (Some in8) (zlen in8) = Some (zlen in8, rb')
    /\ appended rb in8 rb'.
Proof.
  intros Hok Hfit. pose proof (zlen_nonneg in8). pose proof (ring_bounds rb Hok) as [].
  destruct (write_appends rb in8 (zlen in8) Hok) as (rb' & E & Happ); [lia | lia |].
  rewrite Z.min_l in E, Happ by lia. rewrite ztake_all in Happ by lia. eauto.
Qed.

(** Moving the read position [i] bytes on drops [i] bytes of the contents. *)
Lemma contents_advance rb rb' i :
  rb_bounds rb -> rb_bounds rb' -> 0 <= i <= rcb rb ->
  buf rb' = buf rb -> cb rb' = cb rb -> rp rb' = wrap_pos rb (rp rb) i ->
  rcb rb' = rcb rb - i -> contents rb' = zdrop i (contents rb).
Proof.
  intros Hb Hb' Hi E1 E2 E3 E4. pose proof Hb as []. apply nthz_ext.
  - rewrite zlen_zdrop, !zlen_contents by (try rewrite zlen_contents; done || lia). lia.
  - rewrite zlen_contents by done. intros k Hk.
    rewrite nthz_zdrop, !nthz_contents by (done || lia). unfold wrap_pos in *.
    rewrite E1, E2, E3. case_cmp; try lia; f_equal; lia.
Qed.

(** A destination that holds the first [i] readable bytes, and its own after. *)
Lemma copied_contents rb out out' i :
  rb_bounds rb -> 0 <= i <= rcb rb -> i <= zlen out -> zlen out' = zlen out ->
  (forall k, 0 <= k < zlen out -> nthz out' k =
     if k <? i then nthz (buf rb) (wrap_pos rb (rp rb) k) else nthz out k) ->
  out' = ztake i (contents rb) ++ zdrop i out.
Proof.
  intros Hb Hi Hio E H. pose proof Hb as []. apply nthz_ext.
  - rewrite zlen_app, zlen_ztake, zlen_zdrop by (try rewrite zlen_contents; done || lia). lia.
  - intros k Hk. rewrite H by lia. rewrite nthz_app, zlen_ztake, nthz_ztake, nthz_zdrop
      by (try rewrite zlen_contents; done || lia).
    case_cmp; try lia; [by rewrite nthz_contents by (done || lia) | f_equal; lia].
Qed.

Lemma ringbuffer_read_spec rb out n :
  rb_bounds rb -> 0 <= n -> Z.min n (rcb rb) <= zlen out ->
  let i := Z.min n (rcb rb) in
  exists rb', ringbuffer_read rb out n = Some (i, ztake i (contents rb) ++ zdrop i out, rb') /\
    rb_bounds rb' /\ contents rb' = zdrop i (contents rb) /\
    buf rb' = buf rb /\ cb rb' = cb rb /\ rp rb' = wrap_pos rb (rp rb) i /\ wp rb' = wp rb /\
    rcb rb' = rcb rb - i /\ saved_wp rb' = saved_wp rb /\ saved_rcb rb' = saved_rcb rb.
Proof.
  intros Hb Hn Hout i. pose proof Hb as [Hl Hcb Hrp Hwp Hrcb]. unfold ringbuffer_read.
  rewrite min_spec. fold i.
  assert (0 <= i <= rcb rb /\ i <= n) as [Hi Hin'] by (subst i; lia).
  assert (i <= zlen out) as Hio by (subst i; lia).
  rb_unfold. rewrite !(Z.mod_small (rp rb + i)) by lia. rewrite (Z.mod_small (rcb rb - i)) by lia.
  destruct (Z.ltb_spec (rp rb + i) (cb rb)) as [Hlt|Hge].
  - destruct (memcpy_spec out 0 (buf rb) (rp rb) i) as (o' & -> & Hlen & Hnth); try lia.
    simpl. rewrite (copied_contents rb out o' i) by (try done; intros; rewrite Hnth;
      unfold wrap_pos; case_cmp; simpl; try lia; f_equal; lia).
    eexists. split; [reflexivity|].
    match goal with |- rb_bounds ?r /\ _ => assert (rb_bounds r) by (split; simpl; lia) end.
    split; [done|]. split; [apply contents_advance; rb_unfold; try done; case_cmp; lia|].
    repeat split; simpl; lia.
  - unfold size_mod. destruct (Z.eqb_spec (cb rb) 0); [lia|]. simpl.
    rewrite wrap_mod by lia. rewrite !(Z.mod_small (i - _)) by lia.
    destruct (memcpy_spec out 0 (buf rb) (rp rb) (i - (rp rb + i - cb rb)))
      as (o1 & -> & Hlen1 & Hnth1); try lia. simpl.
    destruct (memcpy_spec o1 (i - (rp rb + i - cb rb)) (buf rb) 0 (rp rb + i - cb rb))
      as (o2 & -> & Hlen2 & Hnth2); try lia. simpl.
    rewrite (copied_contents rb out o2 i) by (try done; try lia; intros; rewrite Hnth2, Hnth1;
      unfold wrap_pos; case_cmp; simpl; try lia; f_equal; lia).
    eexists. split; [reflexivity|].
    match goal with |- rb_bounds ?r /\ _ => assert (rb_bounds r) by (split; simpl; lia) end.
    split; [done|]. split; [apply contents_advance; rb_unfold; try done; case_cmp; lia|].
    repeat split; simpl; lia.
Qed.

(** Reading keeps the ring invariant. *)
Lemma read_drops rb out n :
  ring_ok rb -> 0 <= n -> Z.min n (rcb rb) <= zlen out ->
  let i := Z.min n (rcb rb) in
  exists rb', ringbuffer_read rb out n = Some (i, ztake i (contents rb) ++ zdrop i out, rb') /\
    ring_ok rb' /\ contents rb' = zdrop i (contents rb) /\ cb rb' = cb rb /\
    saved_wp rb' = saved_wp rb /\ saved_rcb rb' = saved_rcb rb.
Proof.
  intros [Hb Hw] Hn Hout i.
  destruct (ringbuffer_read_spec rb out n Hb Hn Hout)
    as (rb' & E & Hb' & Hc & _ & Hcb & Hrp & Hwp & Hrcb & ? & ?). fold i in E, Hc, Hrp, Hrcb.
  exists rb'. repeat split; try done; try apply Hb'.
  destruct Hb. assert (0 <= i <= rcb rb) by (subst i; lia).
  rb_unfold. rewrite Hwp, Hw, Hcb, Hrp, Hrcb. case_cmp; lia.
Qed.

Lemma grow_keeps rb n :
  ring_ok rb -> 0 <= n -> rcb rb < cb rb + n -> cb rb + n < 2 ^ 63 ->
  exists rb', ringbuffer_grow_by rb n = Some rb' /\ ring_ok rb' /\
    contents rb' = contents rb /\ cb rb' = cb rb + n /\ rp rb' = 0.
Proof.
  intros Hok Hn Hroom Hmax. pose proof (ring_bounds rb Hok) as Hb. pose proof Hb as [].
  unfold ringbuffer_grow_by. unfold size_add, SIZE_MOD. rewrite Z.mod_small by lia.
  destruct (read_drops rb (uninit (cb rb + n)) (cb rb + n) Hok) as (rb1 & -> & _);
    [lia | rewrite zlen_uninit; lia |].
  rewrite Z.min_r by lia. simpl.
  rewrite ztake_all by (rewrite zlen_contents by done; lia).
  assert (zlen (contents rb ++ zdrop (rcb rb) (uninit (cb rb + n))) = cb rb + n) as Hlen
    by (rewrite zlen_app, zlen_contents, zlen_zdrop, zlen_uninit by
          (try rewrite zlen_uninit; done || lia); lia).
  eexists. split; [reflexivity|]. repeat split; simpl; try lia.
  - unfold wrap_pos; simpl. case_cmp; lia.
  - set (X := contents rb ++ _) in *. change (ztake (rcb rb) (X ++ []) = contents rb).
    rewrite app_nil_r. apply ztake_ztake_app. by apply zlen_contents.
Qed.

(** [rb'] is [rb] after [n] bytes were read: only the read position moved. *)
Record consumed (rb : ringbuffer_t) (n : Z) (rb' : ringbuffer_t) : Prop := {
  con_bounds : rb_bounds rb';
  con_n : 0 <= n <= rcb rb;
  con_buf : buf rb' = buf rb;
  con_cb : cb rb' = cb rb;
  con_rp : rp rb' = wrap_pos rb (rp rb) n;
  con_wp : wp rb' = wp rb;
  con_rcb : rcb rb' = rcb rb - n;
  con_saved_wp : saved_wp rb' = saved_wp rb;
  con_saved_rcb : saved_rcb rb' = saved_rcb rb;
}.

Lemma consumed_refl rb : rb_bounds rb -> consumed rb 0 rb.
Proof. intros Hb. pose proof Hb as []. split; try done; rb_unfold; case_cmp; lia. Qed.

Lemma consumed_trans rb n rb1 m rb2 :
  rb_bounds rb -> consumed rb n rb1 -> consumed rb1 m rb2 -> consumed rb (n + m) rb2.
Proof.
  intros [] [] []. split; try congruence; try done; rb_unfold; [lia| |lia].
  rewrite con_rp1, con_rp0, con_cb0. case_cmp; lia.
Qed.

Lemma consumed_contents rb n rb' :
  rb_bounds rb -> consumed rb n rb' -> contents rb' = zdrop n (contents rb).
Proof. intros Hb []. by apply contents_advance. Qed.

Lemma consumed_ring rb n rb' : ring_ok rb -> consumed rb n rb' -> ring_ok rb'.
Proof.
  intros [[] Hw] []. split; [done|]. rb_unfold.
  rewrite con_wp0, Hw, con_rp0, con_rcb0, con_cb0. case_cmp; lia.
Qed.

Lemma read_consumes rb out n :
  rb_bounds rb -> 0 <= n -> Z.min n (rcb rb) <= zlen out ->
  let i := Z.min n (rcb rb) in
  exists rb', ringbuffer_read rb out n = Some (i, ztake i (contents rb) ++ zdrop i out, rb') /\
    consumed rb i rb'.
Proof.
  intros Hb Hn Hout i.
  destruct (ringbuffer_read_spec rb out n Hb Hn Hout) as (rb' & E & ? & _ & ? & ? & ? & ? & ? & ? & ?).
  exists rb'. split; [done|]. pose proof Hb as []. split; try done. subst i. lia.
Qed.

(** Whatever the destination, a read that is defined moves the same positions. *)
Lemma read_state rb out n i out' rb' :
  rb_bounds rb -> 0 <= n -> ringbuffer_read rb out n = Some (i, out', rb') ->
  i = Z.min n (rcb rb) /\ consumed rb i rb'.
Proof.
  intros Hb Hn E. pose proof Hb as [].
  destruct (read_consumes rb (uninit (rcb rb)) n Hb Hn) as (rb2 & E2 & C);
    [rewrite zlen_uninit; lia|].
  assert (i = Z.min n (rcb rb) /\ rb' = rb2) as [-> ->]; [|done].
  revert E E2. unfold ringbuffer_read. rewrite min_spec.
  destruct (_ <? cb rb).
  - destruct (memcpy out _ _ _ _), (memcpy (uninit _) _ _ _ _); simpl; by intros; simplify_eq.
  - destruct (size_mod _ _) as [s2|]; simpl; [|done].
    destruct (memcpy out _ _ _ _) as [o1|], (memcpy (uninit _) _ _ _ _) as [o2|]; simpl; try done.
    destruct (memcpy o1 _ _ _ _), (memcpy o2 _ _ _ _); simpl; by intros; simplify_eq.
Qed.

(** *** Saving and restoring the write position *)

Lemma push_same rb : contents (ringbuffer_push_write_pos rb) = contents rb.
Proof. reflexivity. Qed.

Lemma push_ok rb : ring_ok rb -> ring_ok (ringbuffer_push_write_pos rb).
Proof. intros [[] ?]. repeat split; simpl; try done; lia. Qed.

(** Popping after any run of writes that started at the push gives back the
    contents of the push: what the writes touched was free space. *)
Lemma pop_restores rb l rb' :
  ring_ok rb -> appended (ringbuffer_push_write_pos rb) l rb' ->
  ring_ok (ringbuffer_pop_write_pos rb') /\
  contents (ringbuffer_pop_write_pos rb') = contents rb /\
  cb (ringbuffer_pop_write_pos rb') = cb rb /\ rp (ringbuffer_pop_write_pos rb') = rp rb.
Proof.
  intros Hok Happ. pose proof (appended_rcb _ _ _ (push_ok rb Hok) Happ) as Hr.
  destruct Happ as [[Hb' Hw'] Hc Hcb Hrp Hs1 Hs2]. pose proof (ring_bounds rb Hok) as Hb.
  destruct Hok as [_ Hw]. simpl in *. pose proof (zlen_nonneg l).
  assert (rb_bounds (ringbuffer_pop_write_pos rb')) as Hp.
  { destruct Hb, Hb'. split; simpl in *; try rewrite ?Hs1, ?Hs2; lia. }
  repeat split; simpl; try done; try apply Hp.
  - unfold wrap_pos in *. simpl in *. rewrite Hs1, Hs2, Hrp, Hcb, Hw. done.
  - change (contents (ringbuffer_push_write_pos rb)) with (contents rb) in Hc.
    apply nthz_ext; rewrite !zlen_contents by done; simpl; [done|].
    intros k Hk. rewrite nthz_contents by done.
    transitivity (nthz (contents rb') k).
    + rewrite nthz_contents by (done || lia). done.
    + rewrite Hc, nthz_app, zlen_contents by done. case_cmp; [done | lia].
Qed.

(** ** Refinement: a bounded queue of bytes *)

Module ByteQueue.

(** The specification: a capacity and the bytes written and not yet read. *)
Record byteq := mk_q { q_cap : Z; q_data : list byte }.

Inductive op :=
  | OpWrite (bs : list byte)            (** write these bytes *)
  | OpRead (n : Z)                      (** read up to [n] bytes *)
  | OpGrow (n : Z)                      (** grow the capacity by [n] *)
  | OpPeek                              (** count the readable bytes *)
  | OpAbort (ws : list (list byte)).    (** push, write each, pop *)

Definition q_write (q : byteq) (bs : list byte) : Z * byteq :=
  let i := Z.min (zlen bs) (q_cap q - zlen (q_data q)) in
  (i, mk_q (q_cap q) (q_data q ++ ztake i bs)).

Definition q_step (q : byteq) (o : op) : Z * list byte * byteq :=
  match o with
  | OpWrite bs => let '(i, q') := q_write q bs in (i, [], q')
  | OpRead n => let i := Z.min n (zlen (q_data q)) in
                (i, ztake i (q_data q), mk_q (q_cap q) (zdrop i (q_data q)))
  | OpGrow n => (0, [], mk_q (q_cap q + n) (q_data q))
  | OpPeek => (zlen (q_data q), [], q)
  | OpAbort _ => (0, [], q)
  end.

Fixpoint q_run (q : byteq) (os : list op) : list (Z * list byte) * byteq :=
  match os with
  | [] => ([], q)
  | o :: os' => let '(i, bs, q1) := q_step q o in
                let '(obs, q2) := q_run q1 os' in ((i, bs) :: obs, q2)
  end.

(** The ring buffer's side: the calls a client makes for each operation. *)
Definition rb_put (rb : ringbuffer_t) (bs : list byte) : option (Z * ringbuffer_t) :=
  ringbuffer_write rb (Some (Some <$> bs)) (zlen bs).

Fixpoint rb_puts (rb : ringbuffer_t) (ws : list (list byte)) : option ringbuffer_t :=
  match ws with
  | [] => Some rb
  | bs :: ws' => '(_, rb') ← rb_put rb bs; rb_puts rb' ws'
  end.

Definition rb_step (rb : ringbuffer_t) (o : op) : option (Z * list cell * ringbuffer_t) :=
  match o with
  | OpWrite bs => '(i, rb') ← rb_put rb bs; Some (i, [], rb')
  | OpRead n => '(i, out, rb') ← ringbuffer_read rb (uninit n) n; Some (i, ztake i out, rb')
  | OpGrow n => rb' ← ringbuffer_grow_by rb n; Some (0, [], rb')
  | OpPeek => Some (ringbuffer_peek rb, [], rb)
  | OpAbort ws => rb' ← rb_puts (ringbuffer_push_write_pos rb) ws;
                  Some (0, [], ringbuffer_pop_write_pos rb')
  end.

Fixpoint rb_run (rb : ringbuffer_t) (os : list op)
  : option (list (Z * list cell) * ringbuffer_t) :=
  match os with
  | [] => Some ([], rb)
  | o :: os' => '(i, bs, rb1) ← rb_step rb o;
                '(obs, rb2) ← rb_run rb1 os'; Some ((i, bs) :: obs, rb2)
  end.

(** Sizes that fit the machine: a capacity below [2^63] bytes, growth by at
    least one byte. *)
Definition op_ok (cap : Z) (o : op) : bool :=
  match o with
  | OpWrite _ | OpAbort _ => true
  | OpRead n => 0 <=? n
  | OpGrow n => (0 <? n) && (cap + n <? 2 ^ 63)
  | OpPeek => true
  end.

Fixpoint ops_ok (cap : Z) (os : list op) : bool :=
  match os with
  | [] => true
  | o :: os' =>
      op_ok cap o && ops_ok (match o with OpGrow n => cap + n | _ => cap end) os'
  end.

(** The refinement relation. *)
Definition refines (rb : ringbuffer_t) (q : byteq) : Prop :=
  ring_ok rb /\ cb rb = q_cap q /\ contents rb = Some <$> q_data q.

Lemma refines_rcb rb q : refines rb q -> rcb rb = zlen (q_data q).
Proof.
  intros (Hok & _ & Hc). rewrite <- (zlen_contents rb) by apply Hok.
  by rewrite Hc, zlen_fmap.
Qed.

Lemma put_appends rb bs :
  ring_ok rb ->
  exists rb', rb_put rb bs = Some (Z.min (zlen bs) (free_space rb), rb') /\
    appended rb (Some <$> ztake (Z.min (zlen bs) (free_space rb)) bs) rb'.
Proof.
  intros Hok. pose proof (zlen_nonneg bs).
  destruct (write_appends rb (Some <$> bs) (zlen bs) Hok) as (rb' & E & Happ);
    [lia | rewrite zlen_fmap; lia |].
  exists rb'. split; [exact E|]. by rewrite <- ztake_fmap.
Qed.

Lemma puts_append rb ws :
  ring_ok rb ->
  exists l rb', rb_puts rb ws = Some rb' /\ appended rb l rb'.
Proof.
  revert rb. induction ws as [|bs ws IH]; intros rb Hok; simpl in *.
  - exists [], rb. split; [done|]. by apply appended_nil.
  - destruct (put_appends rb bs Hok) as (rb1 & -> & Happ). simpl.
    destruct (IH rb1 (app_ok _ _ _ Happ)) as (l & rb2 & -> & Happ2).
    eexists _, rb2. split; [done|]. eapply appended_trans; eassumption.
Qed.

Lemma step_refines rb q o :
  refines rb q -> op_ok (q_cap q) o = true ->
  exists rb', rb_step rb o = Some ((q_step q o).1.1, Some <$> (q_step q o).1.2, rb') /\
    refines rb' (q_step q o).2 /\
    q_cap (q_step q o).2 = (match o with OpGrow n => q_cap q + n | _ => q_cap q end).
Proof.
  intros HR Hop. pose proof (refines_rcb rb q HR) as Hrcb. destruct HR as (Hok & Hcap & Hc).
  destruct o as [bs|n|n| |ws]; simpl in *.
  - destruct (put_appends rb bs Hok) as (rb' & -> & []). unfold free_space in *.
    rewrite Hcap, Hrcb in *. simpl. eexists. split; [reflexivity|]. split; [|done].
    repeat split; simpl; try apply app_ok0; try congruence.
    by rewrite app_contents0, Hc, fmap_app.
  - apply Z.leb_le in Hop.
    destruct (read_drops rb (uninit n) n Hok Hop) as (rb' & -> & Hok' & Hc' & Hcb & _);
      [rewrite zlen_uninit by lia; lia|]. rewrite Hrcb. simpl.
    rewrite Hc, ztake_fmap, ztake_ztake_app
      by (rewrite zlen_fmap, zlen_ztake; pose proof (zlen_nonneg (q_data q)); lia).
    eexists. split; [reflexivity|]. repeat split; simpl; try apply Hok'; try congruence.
    by rewrite Hc', Hrcb, Hc, zdrop_fmap.
  - apply andb_prop in Hop as [H1 H2]. apply Z.ltb_lt in H1, H2.
    destruct (grow_keeps rb n Hok) as (rb' & -> & Hok' & Hc' & Hcb & _);
      [lia | destruct (ring_bounds rb Hok); lia | lia |].
    simpl. eexists. split; [reflexivity|]. repeat split; simpl; try apply Hok'; congruence.
  - exists rb. by rewrite <- Hrcb.
  - destruct (puts_append _ ws (push_ok rb Hok)) as (l & rb' & -> & Happ). simpl.
    destruct (pop_restores rb l rb' Hok Happ) as (Hok' & Hc' & Hcb & _).
    eexists. split; [reflexivity|]. split; [|done]. split; [done|]. split; congruence.
Qed.

(** What a client sees of a step: the count returned and the bytes read. *)
Definition obs_cells (o : Z * list byte) : Z * list cell := (o.1, Some <$> o.2).

Lemma run_refines os : forall rb q,
  refines rb q -> ops_ok (q_cap q) os = true ->
  exists rb', rb_run rb os = Some (map obs_cells (q_run q os).1, rb') /\
    refines rb' (q_run q os).2.
Proof.
  induction os as [|o os IH]; intros rb q HR Hops; simpl in *; [by exists rb|].
  apply andb_prop in Hops as [Ho Hops].
  destruct (step_refines rb q o HR Ho) as (rb1 & -> & HR1 & Hcap1).
  destruct (q_step q o) as [[i bs] q1]. simpl in *.
  destruct (IH rb1 q1 HR1) as (rb2 & -> & HR2); [congruence|].
  destruct (q_run q1 os) as [obs q2]. simpl in *. by exists rb2.
Qed.
End ByteQueue.

Lemma create_ok n : 0 < n < 2 ^ 63 -> ring_ok (ringbuffer_create n).
Proof.
  intros. unfold ringbuffer_create.
  repeat split; simpl; try lia; [apply zlen_uninit; lia | unfold wrap_pos; simpl; case_cmp; lia].
Qed.

Lemma create_empty n : contents (ringbuffer_create n) = [].
Proof. reflexivity. Qed.

(** ** Theorems *)

(** C1: every sequence of ring buffer calls from [ringbuffer_create] runs
    without undefined behaviour, returns the counts and the bytes the bounded
    byte queue returns, and leaves the same bytes to read: the buffer is a FIFO
    of bytes, growing keeps the bytes in order, and writes abandoned by
    [ringbuffer_pop_write_pos] leave no trace. *)
Theorem ringbuffer_refines_byte_queue (n : Z) (os : list ByteQueue.op) :
  0 < n < 2 ^ 63 -> ByteQueue.ops_ok n os = true ->
  exists rb', ByteQueue.rb_run (ringbuffer_create n) os =
      Some (map ByteQueue.obs_cells (ByteQueue.q_run (ByteQueue.mk_q n []) os).1, rb') /\
    ring_ok rb' /\
    contents rb' = Some <$> ByteQueue.q_data (ByteQueue.q_run (ByteQueue.mk_q n []) os).2.
Proof.
  intros Hn Hos.
  destruct (ByteQueue.run_refines os (ringbuffer_create n) (ByteQueue.mk_q n []))
    as (rb' & E & Hok & _ & Hc); [|done|by exists rb'].
  split; [by apply create_ok|]. done.
Qed.

Lemma ringbuffer_refines_byte_queue_witness :
  let os := [ByteQueue.OpWrite [Byte.x01; Byte.x02; Byte.x03]; ByteQueue.OpRead 2;
             ByteQueue.OpWrite [Byte.x04; Byte.x05; Byte.x06; Byte.x07];
             ByteQueue.OpAbort [[Byte.x08]]; ByteQueue.OpGrow 2;
             ByteQueue.OpWrite [Byte.x09]; ByteQueue.OpRead 9] in
  exists rb', ByteQueue.rb_run (ringbuffer_create 4) os =
      Some ([(3, []); (2, [Some Byte.x01; Some Byte.x02]); (3, []); (0, []); (0, []); (1, []);
             (5, Some <$> [Byte.x03; Byte.x04; Byte.x05; Byte.x06; Byte.x09])], rb').
Proof.
  destruct (ringbuffer_refines_byte_queue 4
    [ByteQueue.OpWrite [Byte.x01; Byte.x02; Byte.x03]; ByteQueue.OpRead 2;
     ByteQueue.OpWrite [Byte.x04; Byte.x05; Byte.x06; Byte.x07];
     ByteQueue.OpAbort [[Byte.x08]]; ByteQueue.OpGrow 2;
     ByteQueue.OpWrite [Byte.x09]; ByteQueue.OpRead 9]) as (rb' & E & _);
    [lia | reflexivity | exists rb'; exact E].
Defined.

(** On a ring buffer of capacity 0 the first write or read divides by zero, even
    of no bytes at all. *)
Theorem zero_capacity_divides_by_zero (n : Z) (in8 : option (list cell)) (out : list cell) :
  ringbuffer_write (ringbuffer_create 0) in8 n = None /\
  ringbuffer_read (ringbuffer_create 0) out n = None.
Proof.
  assert (forall a b, (size_add a b <? 0) = false) as H.
  { intros a b. apply Z.ltb_ge. by apply Z.mod_pos_bound. }
  unfold ringbuffer_write, ringbuffer_read. cbn [cb ringbuffer_create]. by rewrite !H.
Qed.
