(* ===== verification/Lua.v ===== *)
(** * Lua values as the C code sees them, and the Lua API it calls.

    The interpreter is not part of the repository: what the code needs of it is
    the class [LuaApi] (parameters) with the laws [LuaApiOk] (documented
    behaviour).  Two concrete interpreters at the end show the laws can hold. *)
From S2P Require Import Prelude.

(** What the code asks a metatable: its [luaT] type name, what its
    [metatablename] method answers, and whether it has a [retain] method. *)
Record metatable := mk_mt {
  mt_typename : option (list byte);
  mt_metatablename : option (list byte);
  mt_retain : bool;
}.

(** A Lua value.  Numbers are the 64-bit patterns the code copies; a table is
    the list of its entries in traversal order; a closure is its bytecode with
    its upvalues by name; a full userdata holds the pointer it boxes; [LGlobals]
    is the table [_G]. *)
Inductive lua_value :=
  | LNil
  | LBoolean (b : bool)
  | LLightUserdata (p : Z)
  | LNumber (n : Z)
  | LInteger (n : Z)
  | LString (s : list byte)
  | LTable (es : list (lua_value * lua_value)) (mt : option metatable)
  | LGlobals
  | LFunction (is_lua : bool) (code : list byte) (ups : list (list byte * lua_value))
  | LUserdata (ptr : Z) (mt : option metatable)
  | LThread.

Section Induction.
Variable P : lua_value -> Prop.
Hypothesis Hnil : P LNil.
Hypothesis Hbool : forall b, P (LBoolean b).
Hypothesis Hlight : forall p, P (LLightUserdata p).
Hypothesis Hnum : forall n, P (LNumber n).
Hypothesis Hint : forall n, P (LInteger n).
Hypothesis Hstr : forall s, P (LString s).
Hypothesis Htab : forall es mt, Forall (fun e => P e.1 /\ P e.2) es -> P (LTable es mt).
Hypothesis Hglob : P LGlobals.
Hypothesis Hfun : forall l c ups, Forall (fun u => P u.2) ups -> P (LFunction l c ups).
Hypothesis Hud : forall p mt, P (LUserdata p mt).
Hypothesis Hthr : P LThread.

Fixpoint lua_value_rect' (v : lua_value) : P v :=
  match v with
  | LNil => Hnil
  | LBoolean b => Hbool b
  | LLightUserdata p => Hlight p
  | LNumber n => Hnum n
  | LInteger n => Hint n
  | LString s => Hstr s
  | LTable es mt => Htab es mt
      ((fix go es : Forall (fun e => P e.1 /\ P e.2) es :=
          match es with
          | [] => List.Forall_nil _
          | e :: es' => List.Forall_cons _ e es'
              (conj (lua_value_rect' e.1) (lua_value_rect' e.2)) (go es')
          end) es)
  | LGlobals => Hglob
  | LFunction l c ups => Hfun l c ups
      ((fix go us : Forall (fun u => P u.2) us :=
          match us with
          | [] => List.Forall_nil _
          | u :: us' => List.Forall_cons _ u us' (lua_value_rect' u.2) (go us')
          end) ups)
  | LUserdata p mt => Hud p mt
  | LThread => Hthr
  end.
End Induction.

Definition is_nil (v : lua_value) : bool :=
  match v with LNil => true | _ => false end.

Definition is_function (v : lua_value) : bool :=
  match v with LFunction _ _ _ => true | _ => false end.

(** C strings: the bytes before the first NUL. *)
Fixpoint cstr (s : list byte) : list byte :=
  match s with
  | [] => []
  | b :: s' => if bool_decide (b = Byte.x00) then [] else b :: cstr s'
  end.

Definition str_ENV : list byte := str "_ENV".

Definition is_ENV (name : list byte) : bool := bool_decide (name = str_ENV).

(** ** The interpreter *)

Class LuaApi := {
  LUA_VERSION_NUM : Z;
  (** The blocks [lua_dump] hands to the writer for this bytecode. *)
  lua_dump : list byte -> list (list byte);
  (** Whether these bytes are a whole precompiled chunk. *)
  lua_complete : list byte -> bool;
  (** Whether [lua_load] reads until its reader returns NULL (LuaJIT) or stops
      as soon as it holds a whole chunk. *)
  lua_reads_to_end : bool;
  (** The names of a bytecode's upvalues. *)
  lua_upvalue_names : list byte -> list (list byte);
  (** The metatable registered under a name, by [luaL_newmetatable] and by
      [luaT_newmetatable]. *)
  luaL_getmetatable : list byte -> option metatable;
  luaT_pushmetatable : list byte -> option metatable;
  (** [lua_rawequal] on values no two of which share an object. *)
  lua_rawequal : lua_value -> lua_value -> bool;
  (** Whether a value may be a table key (not nil and not NaN). *)
  lua_key_ok : lua_value -> bool;
  (** [lua_settable] on a table without a metatable; [None] raises.  The list of entries stands
      for the table: Lua promises no order of traversal, and the list a table has here is one of
      those it may be traversed in. *)
  lua_settable : list (lua_value * lua_value) -> lua_value -> lua_value ->
    option (list (lua_value * lua_value));
  (** The [lua_Number] of an integer, and [lua_tointeger] of a [lua_Number]. *)
  lua_number_of_integer : Z -> Z;
  lua_tointeger_number : Z -> Z;
}.

(** Bytecode as [lua_dump] makes it: a whole chunk no prefix of which is whole. *)
Definition bytecode `{LuaApi} (c : list byte) : bool :=
  lua_complete c && forallb (fun n => negb (lua_complete (take n c))) (seq 0 (length c)).

Lemma bytecode_prefix `{LuaApi} c c1 c2 :
  bytecode c = true -> c = c1 ++ c2 -> c2 <> [] -> lua_complete c1 = false.
Proof.
  intros [_ Hp]%andb_prop -> Hne. rewrite forallb_forall in Hp.
  assert (In (length c1) (seq 0 (length (c1 ++ c2)))) as Hin.
  { apply list_elem_of_In, elem_of_seq. rewrite length_app. destruct c2; [done | simpl; lia]. }
  specialize (Hp _ Hin). rewrite take_app_length in Hp. by destruct (lua_complete c1).
Qed.

Class LuaApiOk `(L : LuaApi) : Prop := {
  lua_dump_concat c : concat (lua_dump c) = c;
  (** A new key is one entry more.  Where it comes in the traversal is not promised; a value
      loaded is described by the list in which its entries were set. *)
  lua_settable_fresh es k v :
    lua_key_ok k = true -> is_nil v = false ->
    forallb (fun e => negb (lua_rawequal e.1 k)) es = true ->
    lua_settable es k v = Some (es ++ [(k, v)]);
  lua_key_integer i : lua_key_ok (LInteger i) = true;
  lua_key_number i : 0 < i < 256 -> lua_key_ok (LNumber (lua_number_of_integer i)) = true;
  lua_rawequal_integer i j :
    lua_rawequal (LInteger i) (LInteger j) = bool_decide (i = j);
  lua_rawequal_number i j : 0 < i < 256 -> 0 < j < 256 ->
    lua_rawequal (LNumber (lua_number_of_integer i)) (LNumber (lua_number_of_integer j))
    = bool_decide (i = j);
  lua_number_range i : 0 < i < 256 -> 0 <= lua_number_of_integer i < 2 ^ 64;
  lua_number_roundtrip i : 0 < i < 256 -> lua_tointeger_number (lua_number_of_integer i) = i;
}.

(** Type tags ([lua.h]). *)
Definition LUA_TNIL : Z := 0.
Definition LUA_TBOOLEAN : Z := 1.
Definition LUA_TLIGHTUSERDATA : Z := 2.
Definition LUA_TNUMBER : Z := 3.
Definition LUA_TSTRING : Z := 4.
Definition LUA_TTABLE : Z := 5.
Definition LUA_TFUNCTION : Z := 6.
Definition LUA_TUSERDATA : Z := 7.
Definition LUA_TTHREAD : Z := 8.

Definition lua_type (v : lua_value) : Z :=
  match v with
  | LNil => LUA_TNIL
  | LBoolean _ => LUA_TBOOLEAN
  | LLightUserdata _ => LUA_TLIGHTUSERDATA
  | LNumber _ | LInteger _ => LUA_TNUMBER
  | LString _ => LUA_TSTRING
  | LTable _ _ | LGlobals => LUA_TTABLE
  | LFunction _ _ _ => LUA_TFUNCTION
  | LUserdata _ _ => LUA_TUSERDATA
  | LThread => LUA_TTHREAD
  end.

(** ** Two interpreters, for evaluation *)

Module RefLua.

(** The double of an integer [0 < i < 2^53], and back. *)
Definition double_of (i : Z) : Z :=
  let e := Z.log2 i in (1023 + e) * 2 ^ 52 + (i - 2 ^ e) * 2 ^ (52 - e).
Definition int_of (d : Z) : Z :=
  let e := d / 2 ^ 52 - 1023 in 2 ^ e + (d mod 2 ^ 52) / 2 ^ (52 - e).

Definition is_nan (d : Z) : bool := 9218868437227405312 <? d mod 2 ^ 63.

Definition key_ok (v : lua_value) : bool :=
  match v with LNil => false | LNumber d => negb (is_nan d) | _ => true end.

(** Objects are compared by identity: no two of them are the same. *)
Definition rawequal (a b : lua_value) : bool :=
  match a, b with
  | LNil, LNil => true
  | LBoolean x, LBoolean y => Bool.eqb x y
  | LLightUserdata x, LLightUserdata y | LInteger x, LInteger y => bool_decide (x = y)
  | LNumber x, LNumber y =>
      bool_decide (x = y) || ((x mod 2 ^ 63 =? 0) && (y mod 2 ^ 63 =? 0))
  | LString x, LString y => bool_decide (x = y)
  | _, _ => false
  end.

Definition settable (es : list (lua_value * lua_value)) (k v : lua_value)
  : option (list (lua_value * lua_value)) :=
  if key_ok k then
    Some (List.filter (fun e => negb (rawequal e.1 k)) es
            ++ (if is_nil v then [] else [(k, v)]))
  else None.

(** A toy bytecode: its first byte is its length, each other byte names an
    upvalue, [00] the upvalue [_ENV]. *)
Definition complete (c : list byte) : bool :=
  match c with [] => false | b :: _ => byte.unsigned b =? zlen c end.
Definition names (c : list byte) : list (list byte) :=
  (fun b => if bool_decide (b = Byte.x00) then str_ENV else [b]) <$> tail c.

(** The metatables [luaopen_libipc] registers answer their own name. *)
Definition ipc_metatable (name : list byte) : option metatable :=
  Some (mk_mt None (Some name) true).
Definition luaT_metatable (name : list byte) : option metatable :=
  Some (mk_mt (Some name) None true).

Definition api (version : Z) (to_end : bool) : LuaApi := {|
  LUA_VERSION_NUM := version;
  lua_dump c := [take 1 c; drop 1 c];
  lua_complete := complete;
  lua_reads_to_end := to_end;
  lua_upvalue_names := names;
  luaL_getmetatable := ipc_metatable;
  luaT_pushmetatable := luaT_metatable;
  lua_rawequal := rawequal;
  lua_key_ok := key_ok;
  lua_settable := settable;
  lua_number_of_integer := double_of;
  lua_tointeger_number := int_of;
|}.

(** The facts about small integers, checked on all of them. *)
Definition small : list Z := Z.of_nat <$> seq 1 255.

Lemma small_spec i : 0 < i < 256 -> In i small.
Proof.
  intros. unfold small. apply list_elem_of_In, list_elem_of_fmap.
  exists (Z.to_nat i). split; [lia|]. apply elem_of_seq. lia.
Qed.

Lemma small_check (p : Z -> bool) i : forallb p small = true -> 0 < i < 256 -> p i = true.
Proof. intros H Hi. rewrite forallb_forall in H. by apply H, small_spec. Qed.

Lemma double_facts i : 0 < i < 256 ->
  2 ^ 61 < double_of i < 2 ^ 62 + 2 ^ 60 /\ int_of (double_of i) = i.
Proof.
  intros Hi.
  assert ((2 ^ 61 <? double_of i) && (double_of i <? 2 ^ 62 + 2 ^ 60)
          && (int_of (double_of i) =? i) = true) as H.
  { apply (small_check (fun i => (2 ^ 61 <? double_of i) && (double_of i <? 2 ^ 62 + 2 ^ 60)
             && (int_of (double_of i) =? i)) i); [vm_compute; reflexivity | done]. }
  apply andb_prop in H as [[H1 H2]%andb_prop H3]. lia.
Qed.

#[export] Instance api_ok version to_end : LuaApiOk (api version to_end).
Proof.
  split; cbn [LUA_VERSION_NUM lua_dump lua_complete lua_reads_to_end lua_upvalue_names
    luaL_getmetatable luaT_pushmetatable lua_rawequal lua_key_ok lua_settable
    lua_number_of_integer lua_tointeger_number api].
  - intros c. cbn [concat]. rewrite app_nil_r. apply take_drop.
  - intros es k v Hk Hv Hes. unfold settable. rewrite Hk, Hv. f_equal. f_equal.
    induction es as [|e es IH]; [done|]. simpl in *. apply andb_prop in Hes as [-> Hes].
    simpl. by rewrite IH.
  - done.
  - intros i Hi. destruct (double_facts i Hi). unfold key_ok, is_nan.
    rewrite Z.mod_small by lia. case_cmp; [lia | done].
  - done.
  - intros i j Hi Hj. destruct (double_facts i Hi) as [? Ei], (double_facts j Hj) as [? Ej].
    unfold rawequal. rewrite !Z.mod_small by lia.
    rewrite (proj2 (Z.eqb_neq (double_of i) 0)) by lia. simpl. rewrite orb_false_r.
    apply bool_decide_ext. split; congruence.
  - intros i Hi. destruct (double_facts i Hi). lia.
  - intros i Hi. by apply double_facts.
Qed.
End RefLua.
