(* ===== verification/Serialize.v ===== *)
(** * Serialization of Lua values into a ring buffer ([src/serialize.c]). *)
From S2P Require Import Prelude RingBuffer Lua.

#[local] Open Scope ipc_scope.

Definition EXTRA_LUA_TINTEGER : Z := 127.
Definition CHUNK_SIZE : Z := 8192.

(** The bytes of a [char], an [int], a [size_t] (little-endian, LP64). *)
Definition char_bytes (c : Z) : list byte := le_split 1 c.
Definition int_bytes (n : Z) : list byte := le_split 4 n.
Definition size_bytes (n : Z) : list byte := le_split 8 n.

(** A byte read back as a [char], four as an [int]: both are signed. *)
Definition char_of (bs : list byte) : Z :=
  let n := le_combine bs in if n <? 2 ^ 7 then n else n - 2 ^ 8.
Definition int_of_bytes (bs : list byte) : Z :=
  let n := le_combine bs in if n <? 2 ^ 31 then n else n - 2 ^ 32.
(** Eight bytes read back as a [lua_Integer]. *)
Definition integer_of_bytes (bs : list byte) : Z :=
  let n := le_combine bs in if n <? 2 ^ 63 then n else n - 2 ^ 64.

(** ** Saving *)

(** The ring buffer, and the log of the boxed pointers whose [retain] method
    was called, oldest first. *)
Record save_state := mk_sv { sv_rb : ringbuffer_t; sv_retained : list Z }.

(** [if (ret) return ret;] *)
Definition and_then {S} (m k : M S Z) : M S Z :=
  let! ret := m in if ret =? 0 then k else mret ret.
Notation "m >>? k" := (and_then m k) (at level 62, right associativity) : ipc_scope.

Definition RB_WRITE (bs : list byte) : M save_state Z := fun st =>
  match ringbuffer_write (sv_rb st) (Some (Some <$> bs)) (zlen bs) with
  | Some (n, rb') =>
      Done (if negb (n =? zlen bs) then - ENOMEM else 0) (mk_sv rb' (sv_retained st))
  | None => Undef
  end.

(** The loop of [rb_lua_writer]: every turn takes at least one byte. *)
Fixpoint rb_lua_writer_loop (fuel : nat) (inp : list byte) : M save_state Z :=
  if 0 <? zlen inp then
    match fuel with
    | O => out_of_fuel
    | S fuel' =>
        let ccb := if CHUNK_SIZE <? zlen inp then CHUNK_SIZE else zlen inp in
        RB_WRITE (size_bytes ccb) >>?
        RB_WRITE (ztake ccb inp) >>?
        rb_lua_writer_loop fuel' (zdrop ccb inp)
    end
  else mret 0.

Definition rb_lua_writer (inp : list byte) : M save_state Z :=
  rb_lua_writer_loop (length inp) inp.

(** [lua_dump] calls the writer on each block and stops at an error. *)
Fixpoint dump_blocks (blocks : list (list byte)) : M save_state Z :=
  match blocks with
  | [] => mret 0
  | b :: blocks' => rb_lua_writer b >>? dump_blocks blocks'
  end.

(** The name that identifies a table's metatable. *)
Definition table_name (mt : option metatable) : list byte :=
  match mt with
  | None => []
  | Some m =>
      match mt_typename m with
      | Some s => cstr s
      | None => match mt_metatablename m with Some s => cstr s | None => [] end
      end
  end.

(** The type tag and name a userdata is saved with. *)
Definition userdata_name (mt : option metatable) : option (Z * list byte) :=
  m ← mt;
  match mt_typename m with
  | Some s => Some (LUA_TUSERDATA, cstr s)
  | None => s ← mt_metatablename m; Some (- LUA_TUSERDATA, cstr s)
  end.

Definition str_c_function : list byte := str "attempt to persist a C function".
Definition str_stack_key : list byte :=
  str "Stack wasn't correctly reset in write table key".
Definition str_not_open : list byte := str "not open".
Definition str_closure : list byte := str "Attempt to serialize closure with upvalues".

(** The index of [_ENV] among the upvalues, -1 without one (the last one if the
    name is repeated). *)
Fixpoint env_index (i : Z) (ups : list (list byte * lua_value)) (envIdx : Z) : Z :=
  match ups with
  | [] => envIdx
  | u :: ups' => env_index (i + 1) ups' (if is_ENV u.1 then i else envIdx)
  end.

Section Save.
Context `{L : LuaApi}.

(** A number key or value, by the interpreter's version. *)
Definition save_integer (n : Z) : M save_state Z :=
  if 503 <=? LUA_VERSION_NUM then
    RB_WRITE (char_bytes EXTRA_LUA_TINTEGER) >>? RB_WRITE (le_split 8 n)
  else
    RB_WRITE (char_bytes LUA_TNUMBER) >>? RB_WRITE (le_split 8 (lua_number_of_integer n)).

(** [luaL_callmeta(L, index, "retain")], which counts a reference.  On a closed handle, which
    boxes NULL, the methods of workqueues, marshal buffers and channels raise.  (That of a
    client dereferences it: a closed client is not a value of the model.  Mutexes and shared
    tables are never closed.) *)
Definition callmeta_retain (ptr : Z) (mt : option metatable) : M save_state Z :=
  if negb (from_option mt_retain false mt) then mret (- EINVAL) else
  if ptr =? 0 then raise (ErrLua str_not_open) else
  fun st => Done 0 (mk_sv (sv_rb st) (sv_retained st ++ [ptr])).

(** A table around the saving of its entries. *)
Definition save_table (entries : M save_state Z) (name : list byte) : M save_state Z :=
  RB_WRITE (char_bytes LUA_TTABLE) >>?
  entries >>?
  RB_WRITE (char_bytes LUA_TNIL) >>?
  RB_WRITE (size_bytes (zlen name)) >>?
  RB_WRITE name.

(** The [lua_next] loop over a table; [save] is told whether it saves a key. *)
Definition save_entries (save : bool -> lua_value -> M save_state Z)
  : list (lua_value * lua_value) -> M save_state Z :=
  fix go es :=
    match es with
    | [] => mret 0
    | (k, x) :: es' => save true k >>? save false x >>? go es'
    end.

(** The same loop over the table of upvalues [rb_save] has built: upvalue [i]
    under the key [i], without [_ENV] and, as in any table, without nils. *)
Definition save_upvalues (save : lua_value -> M save_state Z)
  : Z -> list (list byte * lua_value) -> M save_state Z :=
  fix go i us :=
    match us with
    | [] => mret 0
    | (name, x) :: us' =>
        if is_ENV name || is_nil x then go (i + 1) us' else
        save_integer i >>? save x >>? go (i + 1) us'
    end.

(** [rb_save] returns 0 or a negated [errno]; it raises on C functions, on closed handles
    and, when [upval] is 0, on closures with upvalues other than [_ENV].

    [is_key] is true for the call the table loop makes on a key.  A key is not at
    the top of the Lua stack, so the function case works on a copy it has pushed,
    and the return on a failure inside the upvalue table leaves that copy on the
    stack: the [rb_stackCheck] of the table loop then raises. *)
Fixpoint rb_save_at (is_key : bool) (oop upval : Z) (v : lua_value) : M save_state Z :=
  match v with
  | LNil => RB_WRITE (char_bytes LUA_TNIL)
  | LBoolean b =>
      RB_WRITE (char_bytes LUA_TBOOLEAN) >>? RB_WRITE (char_bytes (if b then 1 else 0))
  | LNumber n => RB_WRITE (char_bytes LUA_TNUMBER) >>? RB_WRITE (le_split 8 n)
  | LInteger n => save_integer n
  | LString s =>
      RB_WRITE (char_bytes LUA_TSTRING) >>?
      RB_WRITE (size_bytes (zlen s)) >>?
      RB_WRITE s
  | LTable es mt =>
      save_table (save_entries (fun key => rb_save_at key oop upval) es) (table_name mt)
  | LGlobals => out_of_fuel (* [_G] contains itself: the recursion has no end *)
  | LFunction is_lua code ups =>
      RB_WRITE (char_bytes LUA_TFUNCTION) >>?
      if negb is_lua then raise (ErrLua str_c_function) else
      dump_blocks (lua_dump code) >>?
      RB_WRITE (size_bytes 0) >>?
      let nups := zlen ups in
      let only_one := (upval =? 0) && (nups =? 1) in
      let env := if only_one && forallb (fun u => is_ENV u.1) ups then 1 else 0 in
      RB_WRITE (int_bytes (if only_one then env else upval)) >>?
      if (upval =? 1) || (env =? 1) then
        RB_WRITE (int_bytes (env_index 1 ups (-1))) >>?
        let! ret := save_table (save_upvalues (rb_save_at false oop upval) 1 ups) [] in
        if negb (ret =? 0) && is_key then raise (ErrLua str_stack_key) else mret ret
      else if 0 <? nups then raise (ErrLua str_closure)
      else mret 0
  | LUserdata ptr mt =>
      if negb (oop =? 0) then mret (- EPERM) else
      match userdata_name mt with
      | None => mret (- EINVAL)
      | Some (type, str) =>
          RB_WRITE (char_bytes type) >>?
          RB_WRITE (size_bytes (zlen str)) >>?
          RB_WRITE str >>?
          RB_WRITE (le_split 8 ptr) >>?
          callmeta_retain ptr mt
      end
  | LLightUserdata _ | LThread => mret (- EPERM)
  end.

Definition rb_save : Z -> Z -> lua_value -> M save_state Z := rb_save_at false.

(** Whether a save that returns leaves something on the Lua stack: for a function that is not
    at the top, the copy it has pushed, when the save of the upvalue table fails.  That is
    where the save of a key, which is not at the top, has the stack check of the table loop
    raise. *)
Definition leaves_copy (oop upval : Z) (v : lua_value) (st : save_state) : bool :=
  match rb_save_at false oop upval v st, rb_save_at true oop upval v st with
  | Done _ _, Raised _ _ => true
  | _, _ => false
  end.

(** Whether the save of a value has an upvalue table of its own. *)
Definition upvalue_table (upval : Z) (v : lua_value) : bool :=
  match v with
  | LFunction _ _ ups =>
      (upval =? 1) || ((upval =? 0) && (zlen ups =? 1) && forallb (fun u => is_ENV u.1) ups)
  | _ => false
  end.

(** The table of a closure's upvalues that [rb_save] builds. *)
Fixpoint upvalue_entries (i : Z) (ups : list (list byte * lua_value))
  : list (lua_value * lua_value) :=
  match ups with
  | [] => []
  | (name, x) :: us' =>
      if is_ENV name || is_nil x then upvalue_entries (i + 1) us'
      else (LInteger i, x) :: upvalue_entries (i + 1) us'
  end.
End Save.

(** ** Loading *)

Inductive load_ret :=
  | LdErr (code : Z)        (** a negative return *)
  | LdEnd                   (** 0: the nil that ends a table *)
  | LdVal (v : lua_value).  (** 1: [v] was pushed *)

(** [RB_READ] into a local of [n] bytes; [None] for the [-ENOMEM] return.
    Using a byte nobody wrote is undefined. *)
Definition RB_READ (n : Z) : M ringbuffer_t (option (list byte)) := fun rb =>
  match ringbuffer_read rb (uninit n) n with
  | Some (i, out, rb') =>
      if negb (i =? n) then Done None rb'
      else match mapM id out with Some bs => Done (Some bs) rb' | None => Undef end
  | None => Undef
  end.

Notation "'read!' x := n 'in' k" :=
  (let! o := RB_READ n in match o with None => mret (LdErr (- ENOMEM)) | Some x => k end)
  (at level 10, x name, k at level 200) : ipc_scope.

(** [alloca(str_len + 1)]: when the sum wraps there is no room for the string. *)
Definition alloca_str (n : Z) : M ringbuffer_t unit :=
  if size_add n 1 =? 0 then undef else mret tt.

(** [rb_lua_reader]: the chunk handed to the interpreter, [None] for NULL, and
    the value left in [read_last]. *)
Definition rb_lua_reader : M ringbuffer_t (option (list byte) * bool) := fun rb =>
  match RB_READ 8 rb with
  | Done (Some bs) rb1 =>
      let size := le_combine bs in
      if size =? 0 then Done (None, true) rb1 else
      match ringbuffer_read rb1 (uninit CHUNK_SIZE) size with
      | Some (n, out, rb2) =>
          if negb (n =? size) then Done (None, false) rb2
          else match mapM id (ztake size out) with
               | Some chunk => Done (Some chunk, false) rb2
               | None => Undef
               end
      | None => Undef
      end
  | Done None rb1 => Done (None, false) rb1
  | _ => Undef
  end.

(** The [n]-th upvalue of a closure; out of range [lua_setupvalue] leaves the
    value on the stack, and every later index is off by one. *)
Definition lua_setupvalue (ups : list (list byte * lua_value)) (n : Z) (v : lua_value)
  : option (list (list byte * lua_value)) :=
  u ← nthz ups (n - 1); Some (<[Z.to_nat (n - 1) := (u.1, v)]> ups).

Section Load.
Context `{L : LuaApi}.

(** [lua_load] pulling chunks from [rb_lua_reader]. *)
Fixpoint lua_load (fuel : nat) (acc : list byte)
  : M ringbuffer_t (option (list byte) * bool) :=
  match fuel with
  | O => out_of_fuel
  | S fuel' =>
      if negb lua_reads_to_end && lua_complete acc then mret (Some acc, false) else
      let! r := rb_lua_reader in
      match r with
      | (Some chunk, _) => lua_load fuel' (acc ++ chunk)
      | (None, last) => mret (if lua_complete acc then Some acc else None, last)
      end
  end.

(** Before Lua 5.3 every number is a [lua_Number]. *)
Definition lua_pushinteger (n : Z) : lua_value :=
  if 503 <=? LUA_VERSION_NUM then LInteger n else LNumber (lua_number_of_integer n).

Definition lua_tointeger (v : lua_value) : Z :=
  match v with LInteger n => n | LNumber d => lua_tointeger_number d | _ => 0 end.

(** The upvalues of a function [lua_load] has just made: nil, except that from
    Lua 5.2 on the first one is the global environment. *)
Definition fresh_upvalues (code : list byte) : list (list byte * lua_value) :=
  let ups := (fun name => (name, LNil)) <$> lua_upvalue_names code in
  match ups with
  | u :: us => if 502 <=? LUA_VERSION_NUM then (u.1, LGlobals) :: us else ups
  | [] => []
  end.

Fixpoint set_upvalues (ups : list (list byte * lua_value))
    (es : list (lua_value * lua_value)) : option (list (list byte * lua_value)) :=
  match es with
  | [] => Some ups
  | (k, x) :: es' => ups' ← lua_setupvalue ups (lua_tointeger k) x; set_upvalues ups' es'
  end.

Definition set_env (ups : list (list byte * lua_value)) (envIdx : Z)
  : option (list (list byte * lua_value)) :=
  if 0 <? envIdx then lua_setupvalue ups envIdx LGlobals else Some ups.

(** A nested load that fails pushes nothing, and the code does not look: the next call,
    [lua_settable(L, -3)] or [lua_setupvalue(L, -3, ...)], takes a value that is not the
    loader's from the stack of its caller, and [lua_settable] pops values the loop has not
    pushed.  What that does depends on what the callers left there; it is undefined here,
    and so is whether the [while (1)] then ends. *)
Fixpoint rb_load_rcsv (fuel : nat) (is_key : bool) : M ringbuffer_t load_ret :=
  match fuel with
  | O => out_of_fuel
  | S fuel' =>
      read! t := 1 in
      let type := char_of t in
      if type =? LUA_TNIL then mret (if is_key then LdEnd else LdVal LNil)
      else if type =? LUA_TBOOLEAN then
        read! b := 1 in mret (LdVal (LBoolean (negb (char_of b =? 0))))
      else if type =? LUA_TNUMBER then
        read! n := 8 in mret (LdVal (LNumber (le_combine n)))
      else if type =? EXTRA_LUA_TINTEGER then
        read! n := 8 in mret (LdVal (lua_pushinteger (integer_of_bytes n)))
      else if type =? LUA_TSTRING then
        read! n := 8 in
        read! str := le_combine n in mret (LdVal (LString str))
      else if type =? LUA_TTABLE then
        let! es := rb_load_entries fuel' [] in
        read! n := 8 in
        alloca_str (le_combine n) ;;;
        read! str := le_combine n in
        mret (LdVal (LTable es
          (if 0 <? le_combine n then luaL_getmetatable (cstr str) else None)))
      else if type =? LUA_TFUNCTION then
        let! r := lua_load fuel' [] in
        match r with
        | (None, _) => mret (LdErr (- EINVAL))
        | (Some code, read_last) =>
            let! m := (if read_last then mret (Some []) else RB_READ 8) in
            match m with
            | None => mret (LdErr (- ENOMEM))
            | Some _ =>
                read! u := 4 in
                if int_of_bytes u =? 1 then
                  read! e := 4 in
                  let! t := rb_load_rcsv fuel' false in
                  match t with
                  | LdVal (LTable es _) =>
                      let! ups := of_opt (
                        ups ← set_env (fresh_upvalues code) (int_of_bytes e);
                        set_upvalues ups es) in
                      mret (LdVal (LFunction true code ups))
                  | _ => undef
                  end
                else mret (LdVal (LFunction true code (fresh_upvalues code)))
            end
        end
      else if (type =? LUA_TUSERDATA) || (type =? - LUA_TUSERDATA) then
        read! n := 8 in
        alloca_str (le_combine n) ;;;
        read! str := le_combine n in
        read! p := 8 in
        mret (LdVal (LUserdata (le_combine p)
          (if 0 <=? type then luaT_pushmetatable (cstr str)
           else luaL_getmetatable (cstr str))))
      else mret (LdErr (- EINVAL))
  end
with rb_load_entries (fuel : nat) (acc : list (lua_value * lua_value))
  : M ringbuffer_t (list (lua_value * lua_value)) :=
  match fuel with
  | O => out_of_fuel
  | S fuel' =>
      let! k := rb_load_rcsv fuel' true in
      match k with
      | LdEnd => mret acc
      | LdErr _ => undef
      | LdVal key =>
          let! x := rb_load_rcsv fuel' false in
          match x with
          | LdVal val =>
              match lua_settable acc key val with
              | Some acc' => rb_load_entries fuel' acc'
              | None => raise (ErrLua [])
              end
          | _ => undef
          end
      end
  end.

(** Every value read takes a byte at least, and a table two levels of calls per
    value: the bytes there are to read bound the depth (see
    [Roundtrip.load_terminates]). *)
Definition load_fuel (rb : ringbuffer_t) : nat := S (2 * Z.to_nat (rcb rb)).

Definition rb_load : M ringbuffer_t load_ret := fun rb =>
  rb_load_rcsv (load_fuel rb) false rb.
End Load.

(** ** What a successful save writes *)

Fixpoint enc_block_loop (fuel : nat) (inp : list byte) : list byte :=
  if 0 <? zlen inp then
    match fuel with
    | O => []
    | S fuel' =>
        let ccb := if CHUNK_SIZE <? zlen inp then CHUNK_SIZE else zlen inp in
        size_bytes ccb ++ ztake ccb inp ++ enc_block_loop fuel' (zdrop ccb inp)
    end
  else [].

Definition enc_block (inp : list byte) : list byte := enc_block_loop (length inp) inp.

Definition enc_blocks (blocks : list (list byte)) : list byte := concat (map enc_block blocks).

Definition enc_table (entries : list byte) (name : list byte) : list byte :=
  char_bytes LUA_TTABLE ++ entries ++ char_bytes LUA_TNIL ++ size_bytes (zlen name) ++ name.

Section Encoding.
Context `{L : LuaApi}.

Definition enc_integer (n : Z) : list byte :=
  if 503 <=? LUA_VERSION_NUM then char_bytes EXTRA_LUA_TINTEGER ++ le_split 8 n
  else char_bytes LUA_TNUMBER ++ le_split 8 (lua_number_of_integer n).

Definition enc_entries (e : lua_value -> option (list byte))
  : list (lua_value * lua_value) -> option (list byte) :=
  fix go es :=
    match es with
    | [] => Some []
    | (k, x) :: es' => bk ← e k; bx ← e x; b ← go es'; Some (bk ++ bx ++ b)
    end.

Definition enc_upvalues (e : lua_value -> option (list byte))
  : Z -> list (list byte * lua_value) -> option (list byte) :=
  fix go i us :=
    match us with
    | [] => Some []
    | (name, x) :: us' =>
        if is_ENV name || is_nil x then go (i + 1) us' else
        bx ← e x; b ← go (i + 1) us'; Some (enc_integer i ++ bx ++ b)
    end.

(** The bytes of a value; [None] for a value [rb_save] refuses. *)
Fixpoint enc (oop upval : Z) (v : lua_value) : option (list byte) :=
  match v with
  | LNil => Some (char_bytes LUA_TNIL)
  | LBoolean b => Some (char_bytes LUA_TBOOLEAN ++ char_bytes (if b then 1 else 0))
  | LNumber n => Some (char_bytes LUA_TNUMBER ++ le_split 8 n)
  | LInteger n => Some (enc_integer n)
  | LString s => Some (char_bytes LUA_TSTRING ++ size_bytes (zlen s) ++ s)
  | LTable es mt =>
      body ← enc_entries (enc oop upval) es;
      Some (enc_table body (table_name mt))
  | LFunction is_lua code ups =>
      let nups := zlen ups in
      let only_one := (upval =? 0) && (nups =? 1) in
      let env := if only_one && forallb (fun u => is_ENV u.1) ups then 1 else 0 in
      let head := char_bytes LUA_TFUNCTION ++ enc_blocks (lua_dump code) ++ size_bytes 0
                    ++ int_bytes (if only_one then env else upval) in
      if negb is_lua then None
      else if (upval =? 1) || (env =? 1) then
        body ← enc_upvalues (enc oop upval) 1 ups;
        Some (head ++ int_bytes (env_index 1 ups (-1)) ++ enc_table body [])
      else if 0 <? nups then None
      else Some head
  | LUserdata ptr mt =>
      if negb (oop =? 0) then None else
      '(type, str) ← userdata_name mt;
      if from_option mt_retain false mt && negb (ptr =? 0) then
        Some (char_bytes type ++ size_bytes (zlen str) ++ str ++ le_split 8 ptr)
      else None
  | LGlobals | LLightUserdata _ | LThread => None
  end.

(** The pointers a successful save retains, in order. *)
Fixpoint retains (v : lua_value) : list Z :=
  match v with
  | LTable es _ => concat (map (fun e => retains e.1 ++ retains e.2) es)
  | LFunction _ _ ups =>
      concat (map (fun u => if is_ENV u.1 || is_nil u.2 then [] else retains u.2) ups)
  | LUserdata ptr _ => [ptr]
  | _ => []
  end.
End Encoding.

(** How a save that does not fit ends: with [-ENOMEM] or, for a value that is not
    [strict], with an error raised. *)
Definition fails (strict : bool) (m : M save_state Z) (st st' : save_state) : Prop :=
  m st = Done (- ENOMEM) st' \/ (strict = false /\ exists e, m st = Raised e st').

(** [m] writes [bs] and retains [rs] when [bs] fits, and fails otherwise; either way
    it only appends. *)
Definition writes (strict : bool) (m : M save_state Z) (bs : list byte) (rs : list Z) : Prop :=
  forall st, ring_ok (sv_rb st) ->
  (zlen bs <= free_space (sv_rb st) ->
     exists rb', m st = Done 0 (mk_sv rb' (sv_retained st ++ rs)) /\
       appended (sv_rb st) (Some <$> bs) rb') /\
  (free_space (sv_rb st) < zlen bs ->
     exists l st', fails strict m st st' /\ appended (sv_rb st) l (sv_rb st')).

Lemma writes_ret s : writes s (mret 0) [] [].
Proof.
  intros [rb rs] Hok. split; simpl.
  - intros _. exists rb. rewrite app_nil_r. split; [done|]. by apply appended_nil.
  - destruct (ring_bounds rb Hok). unfold free_space, zlen. simpl. lia.
Qed.

Lemma writes_WRITE s bs : writes s (RB_WRITE bs) bs [].
Proof.
  intros [rb rs] Hok. unfold fails, RB_WRITE. simpl. pose proof (zlen_nonneg bs).
  destruct (write_appends rb (Some <$> bs) (zlen bs) Hok) as (rb' & -> & Happ);
    [lia | rewrite zlen_fmap; lia |].
  split; intros Hf.
  - rewrite Z.min_l in * by lia. rewrite Z.eqb_refl. simpl. exists rb'. rewrite app_nil_r.
    split; [done|]. by rewrite ztake_all in Happ by (rewrite zlen_fmap; lia).
  - rewrite Z.min_r in * by lia. destruct (Z.eqb_spec (free_space rb) (zlen bs)); [lia|].
    eexists _, _. split; [left; reflexivity|]. exact Happ.
Qed.

(** A failure ends the sequence. *)
Lemma fails_seq s m1 m2 st st' : fails s m1 st st' -> fails s (m1 >>? m2) st st'.
Proof.
  unfold fails, and_then, mbnd. intros [-> | [Hs [e ->]]]; [by left|]. right. eauto.
Qed.

Lemma free_appended rb l rb' :
  ring_ok rb -> appended rb l rb' -> free_space rb' = free_space rb - zlen l.
Proof.
  intros Hok H. pose proof (appended_rcb _ _ _ Hok H). destruct H. unfold free_space. lia.
Qed.

Lemma writes_seq s m1 b1 r1 m2 b2 r2 :
  writes s m1 b1 r1 -> writes s m2 b2 r2 -> writes s (m1 >>? m2) (b1 ++ b2) (r1 ++ r2).
Proof.
  intros H1 H2 st Hok. rewrite zlen_app.
  destruct (H1 st Hok) as [F1 N1]. pose proof (zlen_nonneg b1). pose proof (zlen_nonneg b2).
  destruct (Z.le_gt_cases (zlen b1) (free_space (sv_rb st))) as [Hfit|Hno].
  - destruct (F1 Hfit) as (rb1 & E1 & A1).
    assert (forall x, (m1 >>? m2) st = x <-> m2 (mk_sv rb1 (sv_retained st ++ r1)) = x) as Eseq.
    { intros x. unfold and_then, mbnd. by rewrite E1. }
    destruct (H2 (mk_sv rb1 (sv_retained st ++ r1)) (app_ok _ _ _ A1)) as [F2 N2]. simpl in *.
    rewrite (free_appended _ _ _ Hok A1), zlen_fmap in F2, N2. split; intros Hf.
    + destruct F2 as (rb2 & E2 & A2); [lia|]. exists rb2. rewrite app_assoc, fmap_app.
      split; [by apply Eseq|]. by eapply appended_trans.
    + destruct N2 as (l & st2 & E2 & A2); [lia|]. eexists _, st2.
      split; [|by eapply appended_trans]. unfold fails in *. setoid_rewrite Eseq. exact E2.
  - destruct (N1 Hno) as (l & st1 & E1 & A1). split; [lia|]. intros _.
    exists l, st1. split; [by apply fails_seq | done].
Qed.

Lemma writes_seq0 s m1 b1 m2 b2 rs :
  writes s m1 b1 [] -> writes s m2 b2 rs -> writes s (m1 >>? m2) (b1 ++ b2) rs.
Proof. apply writes_seq. Qed.

#[export] Hint Resolve writes_ret writes_WRITE writes_seq0 : ipc.

(** The last call of a block: nothing is written after it. *)
Lemma writes_seq_r s m1 b1 r1 m2 :
  writes s m1 b1 r1 -> writes s m2 [] [] -> writes s (m1 >>? m2) b1 r1.
Proof.
  intros H1 H2. rewrite <- (app_nil_r b1), <- (app_nil_r r1). by apply writes_seq.
Qed.

Lemma writes_writer s fuel inp :
  (length inp <= fuel)%nat -> writes s (rb_lua_writer_loop fuel inp) (enc_block_loop fuel inp) [].
Proof.
  revert inp. induction fuel as [|fuel IH]; intros inp Hf; simpl.
  - destruct inp; [apply writes_ret | simpl in Hf; lia].
  - destruct (Z.ltb_spec 0 (zlen inp)); [|apply writes_ret].
    set (ccb := if CHUNK_SIZE <? zlen inp then CHUNK_SIZE else zlen inp).
    assert (1 <= ccb) by (subst ccb; unfold CHUNK_SIZE; case_cmp; lia).
    do 2 (apply writes_seq0; [apply writes_WRITE|]). apply IH.
    unfold zdrop. rewrite length_drop. lia.
Qed.

Lemma writes_blocks s blocks : writes s (dump_blocks blocks) (enc_blocks blocks) [].
Proof.
  induction blocks as [|b blocks IH]; [apply writes_ret|].
  apply writes_seq0; [by apply writes_writer | exact IH].
Qed.

#[export] Hint Resolve writes_blocks : ipc.

Section SaveSpec.
Context `{L : LuaApi}.

Lemma writes_integer s n : writes s (save_integer n) (enc_integer n) [].
Proof. unfold save_integer, enc_integer. case_cmp; auto with ipc. Qed.

Lemma writes_table s m b rs name :
  writes s m b rs -> writes s (save_table m name) (enc_table b name) rs.
Proof.
  intros H. unfold save_table, enc_table. apply writes_seq0; [apply writes_WRITE|].
  rewrite <- (app_nil_r rs). apply writes_seq; auto with ipc.
Qed.

Lemma writes_entries s save e es :
  Forall (fun x => (forall bs, e x.1 = Some bs -> writes s (save true x.1) bs (retains x.1)) /\
                   (forall bs, e x.2 = Some bs -> writes s (save false x.2) bs (retains x.2))) es ->
  forall body, enc_entries e es = Some body ->
  writes s (save_entries save es) body (concat (map (fun x => retains x.1 ++ retains x.2) es)).
Proof.
  induction 1 as [|[k x] es [Hk Hx] _ IH]; intros body E; simpl in *; simplify_eq;
    [apply writes_ret|].
  apply bind_Some in E as (bk & Ek & E). apply bind_Some in E as (bx & Ex & E).
  apply bind_Some in E as (b & E & [= <-]). rewrite <- app_assoc. auto using writes_seq.
Qed.

Lemma writes_upvalues s save e us :
  Forall (fun u => forall bs, e u.2 = Some bs -> writes s (save u.2) bs (retains u.2)) us ->
  forall i body, enc_upvalues e i us = Some body ->
  writes s (save_upvalues save i us) body
    (concat (map (fun u => if is_ENV u.1 || is_nil u.2 then [] else retains u.2) us)).
Proof.
  induction 1 as [|[name x] us Hx _ IH]; intros i body E; simpl in *; simplify_eq;
    [apply writes_ret|].
  destruct (is_ENV name || is_nil x); [by apply IH|].
  apply bind_Some in E as (bx & Ex & E). apply bind_Some in E as (b & E & [= <-]).
  apply writes_seq0; [apply writes_integer|]. auto using writes_seq.
Qed.

(** The values [rb_save] leaves the Lua stack balanced on, whatever it returns. *)
Fixpoint no_function_keys (v : lua_value) : bool :=
  match v with
  | LTable es _ =>
      forallb (fun e => negb (is_function e.1) && no_function_keys e.1
                        && no_function_keys e.2) es
  | LFunction _ _ ups => forallb (fun u => no_function_keys u.2) ups
  | _ => true
  end.

(** Outside a key, a failed upvalue table is just an error returned. *)
Lemma writes_unchecked s key m b rs :
  s && key = false -> writes s m b rs ->
  writes s (let! ret := m in
          if negb (ret =? 0) && key then raise (ErrLua str_stack_key) else mret ret) b rs.
Proof.
  intros Hs H st Hok. destruct (H st Hok) as [F N]. unfold mbnd. split; intros Hf.
  - destruct (F Hf) as (rb' & -> & A). eauto.
  - destruct (N Hf) as (l & st' & E & A). exists l, st'. split; [|done].
    unfold fails. destruct E as [-> | [-> [e ->]]]; [|right; eauto].
    destruct key; [|by left]. destruct s; [done|]. right. split; [done|].
    by exists (ErrLua str_stack_key).
Qed.

Lemma save_writes_at s key oop upval v : forall bs,
  s && negb (no_function_keys v) = false -> s && key && is_function v = false ->
  enc oop upval v = Some bs -> writes s (rb_save_at key oop upval v) bs (retains v).
Proof.
  revert key.
  induction v as [| | | | | |es mt IH| |is_lua code ups IH|ptr mt|] using lua_value_rect';
    intros key bs Hfk Hkey E; simpl in E |- *; simplify_eq; eauto with ipc.
  - apply writes_integer.
  - apply bind_Some in E as (body & E & [= <-]). eapply writes_table, writes_entries; [|done].
    rewrite List.Forall_forall in *. intros e He. destruct (IH e He) as [IHk IHx].
    destruct s; [|split; intros bs Eb; [apply IHk | apply IHx]; done].
    cbn [no_function_keys] in Hfk. apply negb_false_iff in Hfk.
    rewrite forallb_forall in Hfk.
    specialize (Hfk e He). apply andb_prop in Hfk as [[Hf Hk]%andb_prop Hx].
    split; intros bs Eb; [apply IHk | apply IHx]; rewrite ?Hk, ?Hx; try done.
    by destruct (is_function e.1).
  - destruct is_lua; [simpl in *|done].
    set (only_one := (upval =? 0) && (zlen ups =? 1)) in *.
    set (env := if only_one && forallb _ ups then 1 else 0) in *.
    destruct ((upval =? 1) || (env =? 1)).
    + apply bind_Some in E as (body & E & [= <-]). rewrite <- !app_assoc.
      do 5 (apply writes_seq0; [auto with ipc|]).
      apply writes_unchecked; [by destruct s, key|].
      eapply writes_table, writes_upvalues; [|done].
      rewrite List.Forall_forall in *. intros u Hu bs Eb. apply (IH u Hu); [|by destruct s|done].
      destruct s; [|done]. cbn [no_function_keys] in Hfk. apply negb_false_iff in Hfk.
      rewrite forallb_forall in Hfk. by rewrite (Hfk u Hu).
    + destruct (Z.ltb_spec 0 (zlen ups)) as [|Hn]; [done|]. simplify_eq.
      assert (ups = []) as -> by (destruct ups; [done | rewrite zlen_cons in Hn;
        pose proof (zlen_nonneg ups); lia]).
      do 3 (apply writes_seq0; [auto with ipc|]). apply writes_seq_r; auto with ipc.
  - destruct (oop =? 0); simpl in *; [|done].
    apply bind_Some in E as ([type str] & E1 & E). rewrite E1.
    unfold callmeta_retain.
    destruct (from_option mt_retain false mt), (ptr =? 0); simplify_eq/=.
    do 3 (apply writes_seq0; [auto with ipc|]).
    rewrite <- (app_nil_r (le_split 8 ptr)).
    apply writes_seq0; [auto with ipc|]. intros [rb rs] Hok. split; simpl.
    + intros _. exists rb. split; [done|]. by apply appended_nil.
    + destruct (ring_bounds rb Hok). unfold free_space, zlen. simpl. lia.
Qed.

Lemma save_writes oop upval v bs :
  enc oop upval v = Some bs -> writes (no_function_keys v) (rb_save oop upval v) bs (retains v).
Proof.
  intros. apply save_writes_at; [by destruct (no_function_keys v) | | done].
  by rewrite andb_false_r.
Qed.

(** When a save of an encodable value returns 0, its bytes have been appended. *)
Lemma save_saved oop upval v bs st st' :
  ring_ok (sv_rb st) -> enc oop upval v = Some bs -> rb_save oop upval v st = Done 0 st' ->
  appended (sv_rb st) (Some <$> bs) (sv_rb st') /\
  sv_retained st' = sv_retained st ++ retains v.
Proof.
  intros Hok Eb E. destruct (save_writes oop upval v bs Eb st Hok) as [F N].
  destruct (Z.le_gt_cases (zlen bs) (free_space (sv_rb st))) as [Hf|Hf].
  - destruct (F Hf) as (rb' & E' & A). rewrite E in E'. by simplify_eq/=.
  - destruct (N Hf) as (l & st1 & [E'|[_ [e E']]] & A); rewrite E in E'; by simplify_eq.
Qed.
End SaveSpec.

(** ** Every save only appends, whatever it returns *)

(** On a ring, [m] has no undefined behaviour and leaves the ring with bytes
    appended at most: the bytes that were there to read still are.  ([NoFuel] is
    the endless recursion on [_G].) *)
Definition only_appends (m : M save_state Z) : Prop :=
  forall st, ring_ok (sv_rb st) ->
  match m st with
  | Done _ st' | Raised _ st' => exists l, appended (sv_rb st) l (sv_rb st')
  | NoFuel => True
  | Undef | Blocked _ => False
  end.

Lemma only_appends_keep m :
  (forall st, exists r st', m st = Done r st' /\ sv_rb st' = sv_rb st) -> only_appends m.
Proof.
  intros H st Hok. destruct (H st) as (r & st' & -> & ->). exists []. by apply appended_nil.
Qed.

Lemma only_appends_ret r : only_appends (mret r).
Proof. apply only_appends_keep. by intros st; exists r, st. Qed.

Lemma only_appends_raise e : only_appends (raise e).
Proof. intros st Hok. exists []. by apply appended_nil. Qed.

Lemma only_appends_writes s m bs rs : writes s m bs rs -> only_appends m.
Proof.
  intros H st Hok. destruct (H st Hok) as [F N].
  destruct (Z.le_gt_cases (zlen bs) (free_space (sv_rb st))) as [Hf|Hf].
  - destruct (F Hf) as (rb' & -> & A). eauto.
  - destruct (N Hf) as (l & st' & [-> | [_ [e ->]]] & A); eauto.
Qed.

Lemma only_appends_WRITE bs : only_appends (RB_WRITE bs).
Proof. eapply only_appends_writes, (writes_WRITE true). Qed.

Lemma only_appends_seq m1 m2 : only_appends m1 -> only_appends m2 -> only_appends (m1 >>? m2).
Proof.
  intros H1 H2 st Hok. specialize (H1 st Hok). unfold and_then, mbnd.
  destruct (m1 st) as [r st1|e st1|st1| |]; try done.
  destruct H1 as [l1 A1]. destruct (r =? 0); [|by exists l1].
  specialize (H2 st1 (app_ok _ _ _ A1)).
  destruct (m2 st1) as [r2 st2|e2 st2|st2| |]; try done;
    destruct H2 as [l2 A2]; exists (l1 ++ l2); by eapply appended_trans.
Qed.

Lemma only_appends_blocks blocks : only_appends (dump_blocks blocks).
Proof. eapply only_appends_writes, (writes_blocks true). Qed.

#[export] Hint Resolve only_appends_ret only_appends_raise only_appends_WRITE
  only_appends_seq only_appends_blocks : ipc.

Section SaveAll.
Context `{L : LuaApi}.

Lemma only_appends_integer n : only_appends (save_integer n).
Proof. eapply only_appends_writes, (writes_integer true). Qed.

#[local] Hint Resolve only_appends_integer : ipc.

Lemma only_appends_table m name : only_appends m -> only_appends (save_table m name).
Proof. intros. unfold save_table. auto 10 with ipc. Qed.

Lemma only_appends_unchecked (c : bool) m :
  only_appends m ->
  only_appends (let! ret := m in
                if negb (ret =? 0) && c then raise (ErrLua str_stack_key) else mret ret).
Proof.
  intros H st Hok. specialize (H st Hok). unfold mbnd.
  destruct (m st) as [r st1|e st1|st1| |]; try done. by destruct (negb _ && c).
Qed.

Lemma save_at_only_appends key oop upval v : only_appends (rb_save_at key oop upval v).
Proof.
  revert key. induction v as [| | | | | |es mt IH| |is_lua code ups IH|ptr mt|] using lua_value_rect';
    intros key; simpl; auto 10 with ipc.
  - apply only_appends_table.
    induction IH as [|[k x] es [Hk Hx] _ IH]; simpl in *; auto with ipc.
  - by intros st Hok.
  - apply only_appends_seq; [auto with ipc|]. destruct (negb is_lua); [auto with ipc|].
    do 3 (apply only_appends_seq; [auto with ipc|]).
    destruct (_ || _); [|destruct (0 <? zlen ups); auto with ipc].
    apply only_appends_seq; [auto with ipc|].
    apply only_appends_unchecked, only_appends_table. generalize 1.
    induction IH as [|[name x] us Hx _ IH]; intros i; simpl in *; [auto with ipc|].
    destruct (is_ENV name || is_nil x); auto with ipc.
  - destruct (negb (oop =? 0)); [auto with ipc|].
    destruct (userdata_name mt) as [[type str]|]; [|auto with ipc].
    do 4 (apply only_appends_seq; [auto with ipc|]).
    unfold callmeta_retain. destruct (from_option mt_retain false mt), (ptr =? 0); cbn [negb];
      auto with ipc. all: apply only_appends_keep. intros st. by eexists _, _.
Qed.

Lemma save_only_appends oop upval v : only_appends (rb_save oop upval v).
Proof. apply save_at_only_appends. Qed.
End SaveAll.

(** ** A save that returns 0 has saved the whole value *)

Lemma and_then_zero {S} (m k : M S Z) st st' :
  (m >>? k) st = Done 0 st' -> exists st1, m st = Done 0 st1 /\ k st1 = Done 0 st'.
Proof.
  unfold and_then, mbnd. destruct (m st) as [r st1| | | |]; try done.
  destruct (Z.eqb_spec r 0) as [->|Hr]; [by exists st1|]. unfold mret. intros [= -> _]. done.
Qed.

Lemma unchecked_zero {S} (c : bool) e (m : M S Z) st st' :
  (let! ret := m in if negb (ret =? 0) && c then raise e else mret ret) st = Done 0 st' ->
  m st = Done 0 st'.
Proof.
  unfold mbnd. destruct (m st) as [r st1| | | |]; try done.
  by destruct (negb (r =? 0) && c).
Qed.

Ltac zero_steps :=
  repeat match goal with
  | H : (_ >>? _) _ = Done 0 _ |- _ => apply and_then_zero in H as (? & ? & ?)
  end.

Section SaveZero.
Context `{L : LuaApi}.

Lemma entries_zero save e es :
  Forall (fun x => (forall st st', save true x.1 st = Done 0 st' -> is_Some (e x.1)) /\
                   (forall st st', save false x.2 st = Done 0 st' -> is_Some (e x.2))) es ->
  forall st st', save_entries save es st = Done 0 st' -> is_Some (enc_entries e es).
Proof.
  induction 1 as [|[k x] es [Hk Hx] _ IH]; intros st st' E; simpl in *; [done|]. zero_steps.
  edestruct Hk as [bk ->]; [eassumption|]. edestruct Hx as [bx ->]; [eassumption|].
  edestruct IH as [b ->]; [eassumption|]. done.
Qed.

Lemma upvalues_zero save e us :
  Forall (fun u => forall st st', save u.2 st = Done 0 st' -> is_Some (e u.2)) us ->
  forall i st st', save_upvalues save i us st = Done 0 st' -> is_Some (enc_upvalues e i us).
Proof.
  induction 1 as [|[name x] us Hx _ IH]; intros i st st' E; simpl in *; [done|].
  destruct (is_ENV name || is_nil x); [by eapply IH|]. zero_steps.
  edestruct Hx as [bx ->]; [eassumption|]. edestruct IH as [b ->]; [eassumption|]. done.
Qed.

Lemma save_at_zero key oop upval v : forall st st',
  rb_save_at key oop upval v st = Done 0 st' -> is_Some (enc oop upval v).
Proof.
  revert key. induction v as [| | | | | |es mt IH| |is_lua code ups IH|ptr mt|] using lua_value_rect';
    intros key st st' E; simpl in E |- *; try done; unfold save_table in E; zero_steps.
  - edestruct (entries_zero (fun key => rb_save_at key oop upval)) as [b ->];
      [|eassumption|done].
    eapply List.Forall_impl; [|exact IH]. intros e [Hk Hx]. split; intros; eauto.
  - destruct is_lua; simpl in *; [|done]. zero_steps.
    destruct ((upval =? 1) || _); zero_steps.
    + match goal with H : mbnd _ _ _ = Done 0 _ |- _ => apply unchecked_zero in H end.
      unfold save_table in *. zero_steps.
      edestruct (upvalues_zero (rb_save_at false oop upval)) as [b ->]; [|eassumption|done].
      eapply List.Forall_impl; [|exact IH]. intros u Hu. intros; eauto.
    + by destruct (0 <? zlen ups).
  - destruct (oop =? 0); simpl in *; [|done].
    destruct (userdata_name mt) as [[type str]|]; simpl; [|done]. zero_steps.
    unfold callmeta_retain in *. by destruct (from_option mt_retain false mt), (ptr =? 0).
Qed.

Lemma save_zero oop upval v st st' :
  rb_save oop upval v st = Done 0 st' -> is_Some (enc oop upval v).
Proof. apply save_at_zero. Qed.
End SaveZero.

(** ** What a load reads back *)

(** [m] reads the bytes [bs] and returns [a], whatever follows them. *)
Definition loads {A} (m : M ringbuffer_t A) (bs : list byte) (a : A) : Prop :=
  forall rb rest, rb_bounds rb -> contents rb = (Some <$> bs) ++ rest ->
  exists rb', m rb = Done a rb' /\ consumed rb (zlen bs) rb'.

Lemma loads_ret {A} (a : A) : loads (mret a) [] a.
Proof. intros rb rest Hb _. exists rb. split; [done|]. by apply consumed_refl. Qed.

Lemma loads_bind {A B} (m : M ringbuffer_t A) (k : A -> M ringbuffer_t B) b1 a b2 b :
  loads m b1 a -> loads (k a) b2 b -> loads (mbnd m k) (b1 ++ b2) b.
Proof.
  intros H1 H2 rb rest Hb Hc. rewrite fmap_app, <- app_assoc in Hc.
  destruct (H1 rb _ Hb Hc) as (rb1 & E1 & C1). unfold mbnd. rewrite E1.
  destruct (H2 rb1 rest (con_bounds _ _ _ C1)) as (rb2 & E2 & C2).
  - rewrite (consumed_contents _ _ _ Hb C1), Hc. apply zdrop_zdrop_app. apply zlen_fmap.
  - exists rb2. split; [done|]. rewrite zlen_app. by eapply consumed_trans.
Qed.

(** A read of [n] bytes into room for [n] or more. *)
Lemma read_exact rb bs rest room :
  rb_bounds rb -> contents rb = (Some <$> bs) ++ rest -> zlen bs <= zlen room ->
  exists rb', ringbuffer_read rb room (zlen bs)
      = Some (zlen bs, (Some <$> bs) ++ zdrop (zlen bs) room, rb') /\
    consumed rb (zlen bs) rb'.
Proof.
  intros Hb Hc Hroom. pose proof (zlen_nonneg bs).
  assert (zlen bs <= rcb rb) as Hle by (rewrite <- (zlen_contents rb), Hc, zlen_app, zlen_fmap
    by done; pose proof (zlen_nonneg rest); lia).
  destruct (read_consumes rb room (zlen bs) Hb) as (rb' & E & C); [lia | lia |].
  rewrite Z.min_l in * by lia. rewrite Hc, ztake_ztake_app in E by apply zlen_fmap. eauto.
Qed.

Lemma loads_READ n bs : zlen bs = n -> loads (RB_READ n) bs (Some bs).
Proof.
  intros <- rb rest Hb Hc. unfold RB_READ. pose proof (zlen_nonneg bs).
  destruct (read_exact rb bs rest (uninit (zlen bs)) Hb Hc) as (rb' & -> & C);
    [rewrite zlen_uninit; lia|].
  rewrite Z.eqb_refl. simpl.
  replace (zdrop (zlen bs) (uninit (zlen bs))) with (@nil cell).
  - rewrite app_nil_r, mapM_id_Some. eauto.
  - unfold zdrop, uninit. symmetry. apply drop_ge. rewrite length_replicate. lia.
Qed.

Lemma loads_read n bs (k : list byte -> M ringbuffer_t load_ret) b2 b :
  zlen bs = n -> loads (k bs) b2 b ->
  loads (read! x := n in k x) (bs ++ b2) b.
Proof. intros Hn Hk. eapply loads_bind; [by apply loads_READ | exact Hk]. Qed.

Lemma loads_read_last n bs (k : list byte -> M ringbuffer_t load_ret) b :
  zlen bs = n -> loads (k bs) [] b ->
  loads (read! x := n in k x) bs b.
Proof.
  intros. rewrite <- (app_nil_r bs). eapply loads_bind; [by apply loads_READ | done].
Qed.

Lemma loads_alloca {A} n (k : M ringbuffer_t A) bs a :
  0 <= n < 2 ^ 63 -> loads k bs a -> loads (alloca_str n ;;; k) bs a.
Proof.
  intros Hn Hk. unfold alloca_str, size_add, SIZE_MOD. rewrite Z.mod_small by lia.
  case_cmp; [lia|]. apply (loads_bind _ _ [] tt); [apply loads_ret | done].
Qed.

(** *** The chunks of a dumped function *)

Fixpoint chunks_loop (fuel : nat) (inp : list byte) : list (list byte) :=
  if 0 <? zlen inp then
    match fuel with
    | O => []
    | S fuel' =>
        let ccb := if CHUNK_SIZE <? zlen inp then CHUNK_SIZE else zlen inp in
        ztake ccb inp :: chunks_loop fuel' (zdrop ccb inp)
    end
  else [].

Definition enc_chunk (c : list byte) : list byte := size_bytes (zlen c) ++ c.

Definition chunk_ok (c : list byte) : Prop := 0 < zlen c <= CHUNK_SIZE.

Lemma chunks_spec fuel inp :
  (length inp <= fuel)%nat ->
  enc_block_loop fuel inp = concat (map enc_chunk (chunks_loop fuel inp)) /\
  concat (chunks_loop fuel inp) = inp /\ Forall chunk_ok (chunks_loop fuel inp).
Proof.
  revert inp. induction fuel as [|fuel IH]; intros inp Hf; cbn [enc_block_loop chunks_loop].
  - destruct inp; [done | simpl in Hf; lia].
  - destruct (Z.ltb_spec 0 (zlen inp)) as [Hpos|Hz].
    + set (ccb := if CHUNK_SIZE <? zlen inp then CHUNK_SIZE else zlen inp).
      assert (0 < ccb <= CHUNK_SIZE /\ ccb <= zlen inp) as [? ?]
        by (subst ccb; unfold CHUNK_SIZE; case_cmp; lia).
      destruct (IH (zdrop ccb inp)) as (E1 & E2 & E3);
        [unfold zdrop; rewrite length_drop; lia|].
      cbn [map concat]. unfold enc_chunk at 1. rewrite zlen_ztake by lia.
      rewrite E1, E2, ztake_zdrop, <- app_assoc. split; [done|]. split; [done|].
      constructor; [|done]. unfold chunk_ok. rewrite zlen_ztake by lia. lia.
    + destruct inp; [done | rewrite zlen_cons in Hz; pose proof (zlen_nonneg inp); lia].
Qed.

Definition chunks (blocks : list (list byte)) : list (list byte) :=
  concat (map (fun b => chunks_loop (length b) b) blocks).

Lemma blocks_chunks blocks :
  enc_blocks blocks = concat (map enc_chunk (chunks blocks)) /\
  concat (chunks blocks) = concat blocks /\ Forall chunk_ok (chunks blocks).
Proof.
  unfold chunks, enc_blocks. induction blocks as [|b blocks (E1 & E2 & E3)]; [done|].
  destruct (chunks_spec (length b) b) as (F1 & F2 & F3); [done|]. cbn [map concat].
  rewrite map_app, !concat_app, E1, E2, F2. unfold enc_block at 1. rewrite F1.
  split; [done|]. split; [done|]. by apply Forall_app.
Qed.

Lemma size_bytes_combine n : 0 <= n < 2 ^ 64 -> le_combine (size_bytes n) = n.
Proof. intros. by apply (le_roundtrip 8). Qed.

Lemma zlen_size_bytes n : zlen (size_bytes n) = 8.
Proof. apply zlen_le_split. Qed.

Lemma loads_chunk c : chunk_ok c -> loads rb_lua_reader (enc_chunk c) (Some c, false).
Proof.
  intros [H1 H2] rb rest Hb Hc. unfold enc_chunk in *. unfold CHUNK_SIZE in *.
  rewrite fmap_app, <- app_assoc in Hc. unfold rb_lua_reader.
  destruct (loads_READ 8 _ (zlen_size_bytes (zlen c)) rb _ Hb Hc) as (rb1 & -> & C1).
  rewrite size_bytes_combine by lia. destruct (Z.eqb_spec (zlen c) 0); [lia|].
  assert (contents rb1 = (Some <$> c) ++ rest) as Hc1.
  { rewrite (consumed_contents _ _ _ Hb C1), Hc. apply zdrop_zdrop_app. apply zlen_fmap. }
  destruct (read_exact rb1 c rest (uninit CHUNK_SIZE) (con_bounds _ _ _ C1) Hc1)
    as (rb2 & -> & C2); [rewrite zlen_uninit; unfold CHUNK_SIZE; lia|].
  rewrite Z.eqb_refl. cbn [negb].
  rewrite ztake_ztake_app, mapM_id_Some by apply zlen_fmap.
  exists rb2. split; [done|]. rewrite zlen_app. by eapply consumed_trans.
Qed.

Lemma loads_marker : loads rb_lua_reader (size_bytes 0) (None, true).
Proof.
  intros rb rest Hb Hc. unfold rb_lua_reader.
  destruct (loads_READ 8 _ (zlen_size_bytes 0) rb _ Hb Hc) as (rb1 & -> & C1).
  rewrite size_bytes_combine by lia. rewrite Z.eqb_refl. eauto.
Qed.

Section LoadSpec.
Context `{L : LuaApi} {Lok : LuaApiOk L}.

Definition end_marker : list byte := if lua_reads_to_end then size_bytes 0 else [].

Lemma loads_lua_load code cs : forall acc fuel,
  bytecode code = true -> acc ++ concat cs = code -> Forall chunk_ok cs ->
  (length cs < fuel)%nat ->
  loads (lua_load fuel acc) (concat (map enc_chunk cs) ++ end_marker)
    (Some code, lua_reads_to_end).
Proof.
  induction cs as [|c cs IH]; intros acc fuel Hbc Hacc Hcs Hf;
    (destruct fuel as [|fuel]; [simpl in Hf; lia|]); cbn [lua_load map concat].
  - simpl in Hacc. rewrite app_nil_r in Hacc. subst acc. rewrite app_nil_l.
    assert (lua_complete code = true) as Hcomp by (by apply andb_prop in Hbc as [? _]).
    rewrite Hcomp. unfold end_marker. destruct lua_reads_to_end; cbn [negb andb].
    + rewrite <- (app_nil_r (size_bytes 0)).
      eapply loads_bind; [apply loads_marker | apply loads_ret].
    + apply loads_ret.
  - apply List.Forall_cons_iff in Hcs as [Hc Hcs]. cbn [concat] in Hacc.
    rewrite (bytecode_prefix code acc (c ++ concat cs)); try done.
    + rewrite andb_false_r, <- app_assoc. eapply loads_bind; [by apply loads_chunk|].
      apply IH; try done; [by rewrite <- app_assoc | simpl in Hf; lia].
    + destruct c; [destruct Hc as [Hc _]; by cbv in Hc | done].
Qed.

(** *** The value a reader gets *)

(** The key of upvalue [i]. *)
Definition integer_key (i : Z) : lua_value := lua_pushinteger i.

(** The entries of the upvalue table as they are loaded. *)
Definition loaded_upvalues (tr : lua_value -> lua_value)
  : Z -> list (list byte * lua_value) -> list (lua_value * lua_value) :=
  fix go i us :=
    match us with
    | [] => []
    | (name, x) :: us' =>
        if is_ENV name || is_nil x then go (i + 1) us'
        else (integer_key i, tr x) :: go (i + 1) us'
    end.

(** A closure's upvalues after the trip: [_ENV] is the reader's [_G], and the
    saved ones are set over those of a fresh function. *)
Definition rebuild_upvalues (code : list byte) (envIdx : Z)
    (es : list (lua_value * lua_value)) : option (list (list byte * lua_value)) :=
  ups ← set_env (fresh_upvalues code) envIdx; set_upvalues ups es.

(** What [rb_load] makes of what [rb_save] wrote for [v]: a copy, with the
    metatables the reader's registry has under the saved names. *)
Fixpoint transported (v : lua_value) : lua_value :=
  match v with
  | LTable es mt =>
      LTable (map (fun e => (transported e.1, transported e.2)) es)
        (if 0 <? zlen (table_name mt) then luaL_getmetatable (table_name mt) else None)
  | LFunction l code ups =>
      LFunction l code (default []
        (rebuild_upvalues code (env_index 1 ups (-1)) (loaded_upvalues transported 1 ups)))
  | LUserdata ptr mt =>
      LUserdata ptr
        (match userdata_name mt with
         | Some (type, name) =>
             if 0 <=? type then luaT_pushmetatable name else luaL_getmetatable name
         | None => None
         end)
  | _ => v
  end.

Fixpoint distinct (ks : list lua_value) : bool :=
  match ks with
  | [] => true
  | k :: ks' => forallb (fun k' => negb (lua_rawequal k k')) ks' && distinct ks'
  end.

(** Values as an interpreter makes them: machine-width numbers, sizes that fit
    an object, table keys that are distinct and not nil (nor NaN), no nil in a
    table, at most 255 upvalues, named as the bytecode names them. *)
Fixpoint wf (v : lua_value) : bool :=
  match v with
  | LNumber n => (0 <=? n) && (n <? 2 ^ 64)
  | LInteger n => (503 <=? LUA_VERSION_NUM) && (- 2 ^ 63 <=? n) && (n <? 2 ^ 63)
  | LString s => zlen s <? 2 ^ 63
  | LTable es mt =>
      forallb (fun e => wf e.1 && wf e.2 && negb (is_nil e.1) && negb (is_nil e.2)
                        && lua_key_ok (transported e.1)) es
      && distinct (map (fun e => transported e.1) es)
      && (zlen (table_name mt) <? 2 ^ 63)
  | LFunction _ code ups =>
      bytecode code && (zlen code <? 2 ^ 63) && (zlen ups <? 256)
      && bool_decide (lua_upvalue_names code = map fst ups)
      && forallb (fun u => is_ENV u.1 || wf u.2) ups
  | LUserdata ptr mt =>
      (0 <=? ptr) && (ptr <? 2 ^ 64)
      && (match userdata_name mt with Some (_, name) => zlen name <? 2 ^ 63 | None => true end)
  | _ => true
  end.

Lemma transported_nil v : is_nil (transported v) = is_nil v.
Proof. by destruct v. Qed.

Lemma cstr_cstr s : cstr (cstr s) = cstr s.
Proof.
  induction s as [|b s IH]; [done|]. simpl. case_bool_decide; [done|]. simpl.
  by rewrite bool_decide_false, IH.
Qed.

Lemma cstr_table_name mt : cstr (table_name mt) = table_name mt.
Proof.
  destruct mt as [[[s|] [s'|] ?]|]; simpl; try apply cstr_cstr; done.
Qed.

Lemma cstr_userdata_name mt type name :
  userdata_name mt = Some (type, name) ->
  cstr name = name /\ (type = LUA_TUSERDATA \/ type = - LUA_TUSERDATA).
Proof.
  destruct mt as [[[s|] [s'|] ?]|]; simpl; intros; simplify_eq;
    rewrite cstr_cstr; auto.
Qed.

Lemma distinct_snoc_fresh ks k ks' :
  distinct (ks ++ k :: ks') = true -> forallb (fun x => negb (lua_rawequal x k)) ks = true.
Proof.
  induction ks as [|x ks IH]; [done|]. simpl. rewrite forallb_app. simpl.
  intros [[H1 [H2 _]%andb_prop]%andb_prop H3]%andb_prop. by rewrite H2, IH.
Qed.

(** *** Machine integers read back *)

Lemma char_of_char c : - 2 ^ 7 <= c < 2 ^ 7 -> char_of (char_bytes c) = c.
Proof.
  intros. unfold char_of, char_bytes. rewrite le_combine_split.
  change (2 ^ (Z.of_nat 1 * 8)) with 256. pose proof (Z.mod_pos_bound c 256).
  destruct (Z.le_gt_cases 0 c); [rewrite Z.mod_small by lia; case_cmp; lia|].
  replace (c mod 256) with (c + 256) by (apply (Z.mod_unique c 256 (-1)); lia).
  case_cmp; lia.
Qed.

Lemma int_of_int n : - 2 ^ 31 <= n < 2 ^ 31 -> int_of_bytes (int_bytes n) = n.
Proof.
  intros. unfold int_of_bytes, int_bytes. rewrite le_combine_split.
  change (2 ^ (Z.of_nat 4 * 8)) with (2 ^ 32). pose proof (Z.mod_pos_bound n (2 ^ 32)).
  destruct (Z.le_gt_cases 0 n); [rewrite Z.mod_small by lia; case_cmp; lia|].
  replace (n mod 2 ^ 32) with (n + 2 ^ 32) by (apply (Z.mod_unique n (2 ^ 32) (-1)); lia).
  case_cmp; lia.
Qed.

Lemma integer_of_integer n : - 2 ^ 63 <= n < 2 ^ 63 -> integer_of_bytes (le_split 8 n) = n.
Proof.
  intros. unfold integer_of_bytes. rewrite le_combine_split.
  change (2 ^ (Z.of_nat 8 * 8)) with (2 ^ 64). pose proof (Z.mod_pos_bound n (2 ^ 64)).
  destruct (Z.le_gt_cases 0 n); [rewrite Z.mod_small by lia; case_cmp; lia|].
  replace (n mod 2 ^ 64) with (n + 2 ^ 64) by (apply (Z.mod_unique n (2 ^ 64) (-1)); lia).
  case_cmp; lia.
Qed.

Lemma le8_combine n : 0 <= n < 2 ^ 64 -> le_combine (le_split 8 n) = n.
Proof. intros. by apply (le_roundtrip 8). Qed.

Lemma zlen_char c : zlen (char_bytes c) = 1.
Proof. apply zlen_le_split. Qed.

Lemma zlen_le8 n : zlen (le_split 8 n) = 8.
Proof. apply zlen_le_split. Qed.

Lemma zlen_int n : zlen (int_bytes n) = 4.
Proof. apply zlen_le_split. Qed.
End LoadSpec.

(** Reads the tag of a value and selects its case. *)
Ltac load_tag :=
  first [apply loads_read; [apply zlen_char|] | apply loads_read_last; [apply zlen_char|]];
  rewrite char_of_char by (cbv; split; congruence);
  cbv [LUA_TNIL LUA_TBOOLEAN LUA_TNUMBER LUA_TSTRING LUA_TTABLE LUA_TFUNCTION LUA_TUSERDATA
    EXTRA_LUA_TINTEGER];
  cbn [Z.eqb Pos.eqb Z.opp orb Z.leb Z.compare].

Section LoadValues.
Context `{L : LuaApi} {Lok : LuaApiOk L}.

Lemma loads_integer i fuel key :
  0 < i < 256 -> (0 < fuel)%nat ->
  loads (rb_load_rcsv fuel key) (enc_integer i) (LdVal (integer_key i)).
Proof.
  intros Hi Hf. destruct fuel as [|fuel]; [lia|]. unfold enc_integer, integer_key, lua_pushinteger.
  destruct (503 <=? LUA_VERSION_NUM) eqn:Hver; cbn [rb_load_rcsv]; load_tag;
    (apply loads_read_last; [apply zlen_le8|]).
  - rewrite integer_of_integer by lia. unfold lua_pushinteger. rewrite Hver. apply loads_ret.
  - rewrite le8_combine by (by apply lua_number_range). apply loads_ret.
Qed.

(** An encoded entry: the bytes and the value of its key, those of its value. *)
Definition entry := (list byte * lua_value * (list byte * lua_value))%type.

Definition entry_bytes (e : entry) : list byte := e.1.1 ++ e.2.1.
Definition entry_pair (e : entry) : lua_value * lua_value := (e.1.2, e.2.2).

Definition entry_ok (e : entry) : Prop :=
  let '((bk, k), (bx, x)) := e in
  bk <> [] /\
  (forall fuel, (length bk <= fuel)%nat -> loads (rb_load_rcsv fuel true) bk (LdVal k)) /\
  (forall fuel, (length bx <= fuel)%nat -> loads (rb_load_rcsv fuel false) bx (LdVal x)) /\
  lua_key_ok k = true /\ is_nil x = false.

Lemma loads_entries items : forall acc fuel,
  Forall entry_ok items ->
  distinct (map fst acc ++ map (fun e => (entry_pair e).1) items) = true ->
  (length (concat (map entry_bytes items)) + 2 <= fuel)%nat ->
  loads (rb_load_entries fuel acc)
    (concat (map entry_bytes items) ++ char_bytes LUA_TNIL) (acc ++ map entry_pair items).
Proof.
  induction items as [|[[bk k] [bx x]] items IH]; intros acc fuel Hok Hd Hf;
    (destruct fuel as [|fuel]; [simpl in Hf; lia|]); cbn [rb_load_entries map concat].
  - rewrite app_nil_l, (app_nil_r acc), <- (app_nil_r (char_bytes LUA_TNIL)).
    apply (loads_bind _ _ _ LdEnd); [|apply loads_ret].
    destruct fuel as [|fuel]; [simpl in Hf; lia|]. cbn [rb_load_rcsv]. load_tag.
    apply loads_ret.
  - apply List.Forall_cons_iff in Hok as [(Hne & Hk & Hx & Hkey & Hnil) Hok].
    unfold entry_bytes at 1. cbn [fst snd]. rewrite <- !app_assoc.
    cbn [map concat] in Hf, Hd. unfold entry_bytes at 1 in Hf.
    cbn [fst snd] in Hf, Hd. rewrite !length_app in Hf.
    assert (1 <= length bk)%nat by (destruct bk; [done | simpl; lia]).
    eapply loads_bind; [apply Hk; lia|]. cbn beta iota.
    eapply loads_bind; [apply Hx; lia|]. cbn beta iota.
    rewrite lua_settable_fresh; try done.
    + rewrite (cons_middle (entry_pair _)), app_assoc. apply IH; [done| |lia].
      by rewrite map_app, <- app_assoc.
    + apply distinct_snoc_fresh in Hd. by rewrite forallb_map in Hd.
Qed.

Lemma loads_table items name fuel key :
  Forall entry_ok items ->
  distinct (map (fun e => (entry_pair e).1) items) = true -> zlen name < 2 ^ 63 ->
  cstr name = name ->
  (length (enc_table (concat (map entry_bytes items)) name) <= fuel)%nat ->
  loads (rb_load_rcsv fuel key) (enc_table (concat (map entry_bytes items)) name)
    (LdVal (LTable (map entry_pair items)
      (if 0 <? zlen name then luaL_getmetatable name else None))).
Proof.
  intros Hok Hd Hn Hc Hf. pose proof (zlen_nonneg name).
  unfold enc_table in *. rewrite !length_app in Hf. unfold char_bytes, size_bytes in Hf.
  rewrite !length_le_split in Hf.
  destruct fuel as [|fuel]; [lia|]. cbn [rb_load_rcsv]. load_tag.
  rewrite app_assoc.
  eapply loads_bind; [apply (loads_entries items []); [done | done | lia]|].
  cbn beta. apply loads_read; [apply zlen_size_bytes|].
  rewrite size_bytes_combine by lia. apply loads_alloca; [lia|]. apply loads_read_last; [done|].
  rewrite app_nil_l, Hc. apply loads_ret.
Qed.

(** The statement of the induction: [v] comes back as [transported v]. *)
Definition loads_back (oop upval : Z) (v : lua_value) : Prop :=
  forall bs fuel key,
  enc oop upval v = Some bs -> wf v = true -> (length bs <= fuel)%nat ->
  key && is_nil v = false ->
  loads (rb_load_rcsv fuel key) bs (LdVal (transported v)).

Lemma enc_nonempty oop upval v bs : enc oop upval v = Some bs -> bs <> [].
Proof.
  intros E ->. apply (f_equal (fmap length)) in E. revert E.
  unfold enc; fold (@enc L oop upval).
  destruct v as [| | | | | |es mt| |is_lua code ups|ptr mt|]; simpl; try done;
    unfold enc_integer; try (case_cmp; done).
  - destruct (enc_entries (enc oop upval) es); done.
  - destruct is_lua; simpl; [|done].
    destruct (_ || _); [destruct (enc_upvalues (enc oop upval) 1 ups); done|].
    destruct (0 <? zlen ups); done.
  - destruct (oop =? 0); simpl; [|done].
    destruct (userdata_name mt) as [[? ?]|]; simpl; [|done].
    destruct (_ && _); done.
Qed.

Lemma entry_bytes_cons bk k bx x items :
  concat (map entry_bytes ((bk, k, (bx, x)) :: items))
  = bk ++ bx ++ concat (map entry_bytes items).
Proof. cbn [map concat]. unfold entry_bytes at 1. cbn [fst snd]. by rewrite <- app_assoc. Qed.

(** The entries of a table as encoded entries. *)
Lemma entries_items oop upval es :
  Forall (fun e => loads_back oop upval e.1 /\ loads_back oop upval e.2) es ->
  forall body, enc_entries (enc oop upval) es = Some body ->
  forallb (fun e => wf e.1 && wf e.2 && negb (is_nil e.1) && negb (is_nil e.2)
                    && lua_key_ok (transported e.1)) es = true ->
  exists items, Forall entry_ok items /\ concat (map entry_bytes items) = body /\
    map entry_pair items = map (fun e => (transported e.1, transported e.2)) es.
Proof.
  induction 1 as [|[k x] es [Hk Hx] _ IH]; intros body E Hwf; simpl in *.
  - simplify_eq. by exists [].
  - apply bind_Some in E as (bk & Ek & E). apply bind_Some in E as (bx & Ex & E).
    apply bind_Some in E as (b & E & [= <-]).
    apply andb_prop in Hwf as [[[[[W1 W2]%andb_prop N1]%andb_prop N2]%andb_prop K]%andb_prop Hwf].
    destruct (IH b E Hwf) as (items & Hok & <- & <-).
    exists (((bk, transported k), (bx, transported x)) :: items).
    split; [|split; [apply entry_bytes_cons | done]]. constructor; [|done].
    apply negb_true_iff in N1, N2. unfold loads_back in Hk, Hx.
    repeat split; auto; [by eapply enc_nonempty | by rewrite transported_nil].
Qed.

(** The same for the upvalues, under their integer keys. *)
Lemma upvalues_items oop upval us :
  Forall (fun u => loads_back oop upval u.2) us ->
  forall i body, enc_upvalues (enc oop upval) i us = Some body ->
  0 < i -> i + zlen us <= 256 -> forallb (fun u => is_ENV u.1 || wf u.2) us = true ->
  exists items, Forall entry_ok items /\ concat (map entry_bytes items) = body /\
    map entry_pair items = loaded_upvalues transported i us.
Proof.
  induction 1 as [|[name x] us Hx _ IH]; intros i body E Hi Hlen Hwf; simpl in *.
  - simplify_eq. by exists [].
  - rewrite zlen_cons in Hlen. pose proof (zlen_nonneg us).
    apply andb_prop in Hwf as [W Hwf].
    destruct (is_ENV name) eqn:He; simpl in *; [apply IH; try done; lia|].
    destruct (is_nil x) eqn:Hn; simpl in *; [apply IH; try done; lia|].
    apply bind_Some in E as (bx & Ex & E). apply bind_Some in E as (b & E & [= <-]).
    destruct (IH (i + 1) b E) as (items & Hok & <- & <-); [lia | lia | done |].
    exists (((enc_integer i, integer_key i), (bx, transported x)) :: items).
    split; [|split; [apply entry_bytes_cons | done]]. constructor; [|done].
    assert (enc_integer i <> []) as Hne
      by (apply (enc_nonempty oop upval (LInteger i)); done).
    split; [done|]. split; [|split; [by intros; apply Hx|split; [|by rewrite transported_nil]]].
    + intros fuel Hf. apply loads_integer; [lia|]. destruct (enc_integer i); simpl in Hf; [done|lia].
    + unfold integer_key, lua_pushinteger. case_cmp; [apply lua_key_integer | apply lua_key_number; lia].
Qed.

(** *** Rebuilding the upvalues *)

Lemma tointeger_key i : 0 < i < 256 -> lua_tointeger (integer_key i) = i.
Proof.
  intros. unfold integer_key, lua_pushinteger. case_cmp; [done|]. by apply lua_number_roundtrip.
Qed.

Lemma upvalue_keys us : forall i, 0 < i -> i + zlen us <= 256 ->
  Forall (fun e => exists j, i <= j < i + zlen us /\ e.1 = integer_key j)
    (loaded_upvalues transported i us).
Proof.
  induction us as [|[name x] us IH]; intros i Hi Hlen; [constructor|].
  rewrite zlen_cons in *. pose proof (zlen_nonneg us).
  assert (Forall (fun e => exists j, i <= j < i + (1 + zlen us) /\ e.1 = integer_key j)
    (loaded_upvalues transported (i + 1) us)) as Hrest.
  { eapply List.Forall_impl; [|apply IH; lia]. intros e (j & Hj & ->). exists j. split; [lia|done]. }
  simpl. destruct (is_ENV name || is_nil x); [done|]. constructor; [|done].
  exists i. split; [lia|done].
Qed.

Lemma upvalue_keys_distinct us : forall i, 0 < i -> i + zlen us <= 256 ->
  distinct (map fst (loaded_upvalues transported i us)) = true.
Proof.
  induction us as [|[name x] us IH]; intros i Hi Hlen; [done|].
  rewrite zlen_cons in *. pose proof (zlen_nonneg us). simpl.
  destruct (is_ENV name || is_nil x); [apply IH; lia|]. cbn [map fst distinct].
  apply andb_true_intro. split; [|apply IH; lia]. rewrite forallb_map.
  apply forallb_forall. intros e He%list_elem_of_In.
  pose proof (upvalue_keys us (i + 1) ltac:(lia) ltac:(lia)) as Hk.
  rewrite Forall_forall in Hk. destruct (Hk e He) as (j & Hj & ->).
  unfold integer_key, lua_pushinteger. case_cmp; [rewrite lua_rawequal_integer | rewrite lua_rawequal_number by lia];
    rewrite bool_decide_false by lia; done.
Qed.

Lemma setupvalue_in ups n v :
  1 <= n <= zlen ups ->
  exists ups', lua_setupvalue ups n v = Some ups' /\ zlen ups' = zlen ups.
Proof.
  intros Hn. unfold lua_setupvalue.
  destruct (nthz ups (n - 1)) as [u|] eqn:E.
  - simpl. eexists. split; [done|]. unfold zlen. by rewrite length_insert.
  - unfold nthz, zlen in *. destruct (Z.ltb_spec (n - 1) 0); [lia|].
    apply lookup_ge_None in E. lia.
Qed.

Lemma set_upvalues_in es : forall ups,
  Forall (fun e => exists j, 1 <= j <= zlen ups /\ 0 < j < 256 /\ e.1 = integer_key j) es ->
  is_Some (set_upvalues ups es).
Proof.
  induction es as [|[k x] es IH]; intros ups Hes; simpl; [done|].
  apply List.Forall_cons_iff in Hes as [(j & Hj & Hj' & Hk) Hes]. simpl in Hk. subst k.
  rewrite tointeger_key by done.
  destruct (setupvalue_in ups j x Hj) as (ups' & -> & Hlen). simpl. apply IH.
  by rewrite Hlen.
Qed.

Lemma env_index_range us : forall i e,
  env_index i us e = e \/ i <= env_index i us e < i + zlen us.
Proof.
  induction us as [|[name x] us IH]; intros i e; [by left|]. rewrite zlen_cons. simpl.
  pose proof (zlen_nonneg us).
  destruct (is_ENV name); [destruct (IH (i + 1) i) | destruct (IH (i + 1) e)]; lia.
Qed.

Lemma zlen_fresh code : zlen (fresh_upvalues code) = zlen (lua_upvalue_names code).
Proof.
  unfold fresh_upvalues. destruct (lua_upvalue_names code) as [|n ns]; [done|]. simpl.
  case_cmp; rewrite !zlen_cons, zlen_fmap; done.
Qed.

Lemma rebuild_defined code ups :
  lua_upvalue_names code = map fst ups -> zlen ups < 256 ->
  is_Some (rebuild_upvalues code (env_index 1 ups (-1)) (loaded_upvalues transported 1 ups)).
Proof.
  intros Hn Hlen.
  assert (zlen (fresh_upvalues code) = zlen ups) as Hf
    by (rewrite zlen_fresh, Hn; apply zlen_fmap).
  assert (exists u, set_env (fresh_upvalues code) (env_index 1 ups (-1)) = Some u
            /\ zlen u = zlen ups) as (u & Hu & Hul).
  { unfold set_env. destruct (Z.ltb_spec 0 (env_index 1 ups (-1))); [|eauto].
    rewrite <- Hf. apply setupvalue_in. rewrite Hf.
    destruct (env_index_range ups 1 (-1)); lia. }
  unfold rebuild_upvalues. rewrite Hu. simpl. apply set_upvalues_in.
  eapply List.Forall_impl; [|apply (upvalue_keys ups 1); lia].
  intros e (j & Hj & ->). exists j. repeat split; lia.
Qed.

(** *** The round trip *)

Lemma chunks_count cs : (length cs <= length (concat (map enc_chunk cs)))%nat.
Proof.
  induction cs as [|c cs IH]; [done|]. cbn [map concat length]. rewrite length_app.
  unfold enc_chunk at 1. rewrite length_app. unfold size_bytes. rewrite length_le_split. lia.
Qed.

(** The bytecode and the zero that ends it, whichever of [lua_load] and
    [rb_load] reads the zero. *)
Lemma loads_code code fuel (k : list byte -> M ringbuffer_t load_ret) b2 v :
  bytecode code = true -> (length (enc_blocks (lua_dump code)) < fuel)%nat ->
  loads (k code) b2 v ->
  loads (let! r := lua_load fuel [] in
         match r with
         | (None, _) => mret (LdErr (- EINVAL))
         | (Some code, read_last) =>
             let! m := (if read_last then mret (Some []) else RB_READ 8) in
             match m with None => mret (LdErr (- ENOMEM)) | Some _ => k code end
         end)
    (enc_blocks (lua_dump code) ++ size_bytes 0 ++ b2) v.
Proof.
  intros Hbc Hf Hk. destruct (blocks_chunks (lua_dump code)) as (Ec & Ecc & Eok).
  rewrite lua_dump_concat in Ecc. rewrite Ec in *.
  pose proof (chunks_count (chunks (lua_dump code))).
  pose proof (loads_lua_load code (chunks (lua_dump code)) [] fuel Hbc Ecc Eok) as Hl.
  unfold end_marker in Hl. destruct lua_reads_to_end.
  - rewrite app_assoc. eapply loads_bind; [apply Hl; lia|]. cbn beta iota.
    rewrite <- (app_nil_l b2). by eapply loads_bind; [apply loads_ret|].
  - rewrite app_nil_r in Hl. eapply loads_bind; [apply Hl; lia|]. cbn beta iota.
    by eapply loads_bind; [apply loads_READ, zlen_size_bytes|].
Qed.

Lemma loads_function oop upval code ups :
  upval = 0 \/ upval = 1 -> Forall (fun u => loads_back oop upval u.2) ups ->
  loads_back oop upval (LFunction true code ups).
Proof.
  intros Hup IH bs fuel key E Hwf Hf _. cbn [enc negb] in E. cbn [wf] in Hwf.
  apply andb_prop in Hwf as [[[[Hbc Hcl]%andb_prop Hul]%andb_prop Hnames]%andb_prop Huw].
  apply bool_decide_eq_true in Hnames. apply Z.ltb_lt in Hcl, Hul.
  set (only_one := (upval =? 0) && (zlen ups =? 1)) in *.
  set (env := if only_one && forallb _ ups then 1 else 0) in *.
  destruct (rebuild_defined code ups Hnames Hul) as [ups' Hups].
  cbn [transported]. rewrite Hups. cbn [default].
  destruct ((upval =? 1) || (env =? 1)) eqn:Hsaved.
  - assert ((if only_one then env else upval) = 1) as Hword.
    { subst only_one env. destruct Hup as [-> | ->]; [|done]. simpl in *.
      destruct (zlen ups =? 1); [|done]. simpl in *. by destruct (forallb _ ups). }
    rewrite Hword in E. apply bind_Some in E as (body & Eb & [= <-]).
    destruct (upvalues_items oop upval ups IH 1 body Eb) as (items & Hok & <- & Hpairs);
      [lia | lia | done |].
    rewrite <- !app_assoc in *. rewrite !length_app in Hf.
    destruct fuel as [|fuel]; [unfold char_bytes in Hf; rewrite length_le_split in Hf; lia|].
    cbn [rb_load_rcsv]. load_tag.
    unfold char_bytes, int_bytes, size_bytes in Hf. rewrite !length_le_split in Hf.
    apply loads_code; [done | lia |]. cbn beta.
    apply loads_read; [apply zlen_int|]. rewrite int_of_int by lia. cbn [Z.eqb Pos.eqb].
    apply loads_read; [apply zlen_int|].
    rewrite <- (app_nil_r (enc_table _ _)). eapply loads_bind.
    + apply (loads_table items []); try done; [|lia].
      rewrite <- map_map, Hpairs. apply upvalue_keys_distinct; lia.
    + cbn beta iota. rewrite Hpairs, int_of_int by (destruct (env_index_range ups 1 (-1)); lia).
      intros rb rest Hb Hc. unfold mbnd, of_opt. fold (rebuild_upvalues code
        (env_index 1 ups (-1)) (loaded_upvalues transported 1 ups)). rewrite Hups.
      by apply (loads_ret _ rb rest).
  - destruct (Z.ltb_spec 0 (zlen ups)) as [|Hn]; [done|]. simplify_eq.
    assert (ups = []) as -> by (destruct ups; [done | rewrite zlen_cons in Hn;
      pose proof (zlen_nonneg ups); lia]).
    assert (upval = 0) as -> by (destruct Hup; [done | by subst]).
    subst only_one env. cbn in Hups, Hnames |- *.
    assert (ups' = []) as ->.
    { unfold rebuild_upvalues, fresh_upvalues in Hups. rewrite Hnames in Hups. by simplify_eq/=. }
    rewrite !length_app in Hf. unfold char_bytes, int_bytes, size_bytes in Hf.
    rewrite !length_le_split in Hf.
    destruct fuel as [|fuel]; [lia|]. cbn [rb_load_rcsv]. load_tag.
    apply loads_code; [done | lia |]. cbn beta.
    apply loads_read_last; [apply zlen_int|]. change (zlen [] =? 1) with false. cbn [andb].
    rewrite int_of_int by lia. cbn [Z.eqb].
    unfold fresh_upvalues. rewrite Hnames. apply loads_ret.
Qed.

Lemma load_back oop upval v : upval = 0 \/ upval = 1 -> loads_back oop upval v.
Proof.
  intros Hup.
  induction v as [| | | | | |es mt IH| |is_lua code ups IH|ptr mt|] using lua_value_rect';
    intros bs fuel key E Hwf Hf Hkey;
    (destruct fuel as [|fuel]; [apply enc_nonempty in E; destruct bs; simpl in *; [done|lia]|]);
    cbn [enc] in E; simplify_eq; cbn [wf] in Hwf.
  - cbn [rb_load_rcsv]. load_tag. destruct key; [done|]. apply loads_ret.
  - cbn [rb_load_rcsv]. load_tag. apply loads_read_last; [apply zlen_char|].
    rewrite char_of_char by (destruct b; lia). destruct b; apply loads_ret.
  - cbn [rb_load_rcsv]. load_tag. apply loads_read_last; [apply zlen_le8|].
    rewrite le8_combine by lia. apply loads_ret.
  - unfold enc_integer in *. destruct (503 <=? LUA_VERSION_NUM) eqn:Hver; [|done].
    cbn [rb_load_rcsv]. load_tag. apply loads_read_last; [apply zlen_le8|].
    rewrite integer_of_integer by lia. unfold lua_pushinteger. rewrite Hver. apply loads_ret.
  - cbn [rb_load_rcsv]. load_tag. apply loads_read; [apply zlen_size_bytes|].
    pose proof (zlen_nonneg s). rewrite size_bytes_combine by lia.
    apply loads_read_last; [done|]. apply loads_ret.
  - apply bind_Some in E as (body & Eb & [= <-]).
    apply andb_prop in Hwf as [[Hes Hd]%andb_prop Hn].
    destruct (entries_items oop upval es IH body Eb Hes) as (items & Hok & <- & Hpairs).
    cbn [transported]. rewrite <- Hpairs. apply loads_table; try done; [|lia|apply cstr_table_name].
    rewrite <- map_map, Hpairs, map_map. done.
  - destruct is_lua; [|done]. by eapply loads_function.
  - destruct (oop =? 0); cbn [negb] in E; [|done].
    apply bind_Some in E as ([type name] & En & E). rewrite En in Hwf.
    destruct (_ && _); simplify_eq.
    apply andb_prop in Hwf as [Hp Hn]. pose proof (zlen_nonneg name).
    destruct (cstr_userdata_name mt type name En) as [Hc Ht]. cbn [transported]. rewrite En.
    cbn [rb_load_rcsv]. destruct Ht as [-> | ->]; load_tag;
      (apply loads_read; [apply zlen_size_bytes|]); rewrite size_bytes_combine by lia;
      (apply loads_alloca; [lia|]); (apply loads_read; [done|]); (apply loads_read_last; [apply zlen_le8|]);
      rewrite le8_combine by lia; rewrite Hc; apply loads_ret.
Qed.
End LoadValues.

(** ** Loading terminates on any bytes *)

(** From at most [b] readable bytes, [m] ends, and returning [a] leaves at most
    [post a]. *)
Definition ends {A} (m : M ringbuffer_t A) (b : Z) (post : A -> Z) : Prop :=
  forall rb, rb_bounds rb -> rcb rb <= b ->
  match m rb with
  | Done a rb' => rb_bounds rb' /\ rcb rb' <= post a
  | NoFuel | Blocked _ => False
  | Raised _ _ | Undef => True
  end.

Lemma ends_vacuous {A} (m : M ringbuffer_t A) b post : b < 0 -> ends m b post.
Proof. intros Hb rb [] Hr. lia. Qed.

Lemma ends_ret {A} (a : A) b post : b <= post a -> ends (mret a) b post.
Proof. intros Hp rb Hb Hr. split; [done|]. lia. Qed.

Lemma ends_undef {A} b (post : A -> Z) : ends undef b post.
Proof. by intros rb. Qed.

Lemma ends_raise {A} e b (post : A -> Z) : ends (raise e) b post.
Proof. by intros rb. Qed.

Lemma ends_of_opt {A} (o : option A) b : ends (of_opt o) b (fun _ => b).
Proof. intros rb Hb Hr. unfold of_opt. by destruct o. Qed.

Lemma ends_bind {A B} (m : M ringbuffer_t A) (k : A -> M ringbuffer_t B) b p q :
  ends m b p -> (forall a, ends (k a) (p a) q) -> ends (mbnd m k) b q.
Proof.
  intros Hm Hk rb Hb Hr. specialize (Hm rb Hb Hr). unfold mbnd.
  destruct (m rb) as [a rb'| | | |]; try done. destruct Hm as [Hb' Hr']. by apply Hk.
Qed.

Lemma ends_weaken {A} (m : M ringbuffer_t A) b p q :
  ends m b p -> (forall a, p a <= q a) -> ends m b q.
Proof.
  intros Hm Hpq rb Hb Hr. specialize (Hm rb Hb Hr).
  destruct (m rb) as [a rb'| | | |]; try done. destruct Hm. split; [done|].
  specialize (Hpq a). lia.
Qed.

Lemma ends_READ n b :
  0 <= n -> ends (RB_READ n) b (fun o => match o with Some _ => b - n | None => b end).
Proof.
  intros Hn rb Hb Hr. unfold RB_READ. pose proof Hb as [].
  destruct (read_consumes rb (uninit n) n Hb Hn) as (rb' & -> & C);
    [rewrite zlen_uninit; lia|].
  pose proof (con_rcb _ _ _ C). pose proof (con_bounds _ _ _ C).
  destruct (Z.eqb_spec (Z.min n (rcb rb)) n); cbn [negb].
  - destruct (mapM id _); [split; [done|lia] | done].
  - split; [done|lia].
Qed.

(** [read!]: the rest runs on the bytes left. *)
Lemma ends_read n (k : list byte -> M ringbuffer_t load_ret) b post :
  0 <= n -> b <= post (LdErr (- ENOMEM)) -> (forall bs, ends (k bs) (b - n) post) ->
  ends (read! x := n in k x) b post.
Proof.
  intros Hn He Hk. eapply ends_bind; [by apply ends_READ|].
  intros [bs|]; [apply Hk | by apply ends_ret].
Qed.

(** The same without counting the bytes read. *)
Lemma ends_read_any n (k : list byte -> M ringbuffer_t load_ret) b post :
  0 <= n -> b <= post (LdErr (- ENOMEM)) -> (forall bs, ends (k bs) b post) ->
  ends (read! x := n in k x) b post.
Proof.
  intros Hn He Hk. apply ends_read; [done|done|]. intros bs rb Hb Hr. apply Hk; [done|lia].
Qed.

Lemma le_combine_nonneg bs : 0 <= le_combine bs.
Proof. apply le_combine_bound. Qed.

Lemma ends_reader b :
  ends rb_lua_reader b (fun r => match r with (Some _, _) => b - 1 | _ => b end).
Proof.
  intros rb Hb Hr. unfold rb_lua_reader. pose proof (ends_READ 8 b ltac:(lia) rb Hb Hr) as H8.
  destruct (RB_READ 8 rb) as [[bs|] rb1| | | |]; try done. destruct H8 as [Hb1 Hr1].
  pose proof (le_combine_nonneg bs) as Hs.
  destruct (Z.eqb_spec (le_combine bs) 0) as [|Hz]; [split; [done|lia]|].
  destruct (ringbuffer_read rb1 (uninit CHUNK_SIZE) (le_combine bs)) as [[[i out] rb2]|] eqn:E;
    [|done].
  destruct (read_state _ _ _ _ _ _ Hb1 Hs E) as [-> C].
  pose proof (con_rcb _ _ _ C). pose proof (con_bounds _ _ _ C). destruct Hb1.
  destruct (negb _); [split; [done|]; lia|].
  destruct (mapM id _); [split; [done|]; lia | done].
Qed.

Lemma ends_alloca {A} n (k : M ringbuffer_t A) b post :
  ends k b post -> ends (alloca_str n ;;; k) b post.
Proof.
  intros Hk. unfold alloca_str. apply (ends_bind _ _ _ (fun _ => b)); [|by intros].
  case_cmp; [apply ends_undef | by apply ends_ret].
Qed.

Ltac read_any :=
  try apply ends_alloca;
  apply ends_read_any; [first [lia | apply le_combine_nonneg] | simpl; lia | intros ?].

Section LoadEnds.
Context `{L : LuaApi}.

Lemma ends_lua_load fuel : forall acc b,
  b < Z.of_nat fuel -> ends (lua_load fuel acc) b (fun _ => b).
Proof.
  induction fuel as [|fuel IH]; intros acc b Hb; [apply ends_vacuous; lia|].
  cbn [lua_load]. destruct (_ && _); [by apply ends_ret|].
  eapply ends_bind; [apply ends_reader|]. intros [[chunk|] last]; [|by apply ends_ret].
  eapply ends_weaken; [apply IH; lia|]. intros; simpl; lia.
Qed.

(** A value takes a byte at least. *)
Definition left (b : Z) (r : load_ret) : Z :=
  match r with LdErr _ => b | _ => b - 1 end.

Lemma load_ends fuel :
  (forall key b, 2 * b < Z.of_nat fuel -> ends (rb_load_rcsv fuel key) b (left b)) /\
  (forall acc b, 2 * b + 1 < Z.of_nat fuel -> ends (rb_load_entries fuel acc) b (fun _ => b)).
Proof.
  induction fuel as [|fuel [IHv IHe]]; [split; intros; apply ends_vacuous; lia|].
  split.
  - intros key b Hb. cbn [rb_load_rcsv].
    apply ends_read; [lia | simpl; lia |]. intros t. cbv zeta.
    repeat match goal with
    | |- ends (if ?c then _ else _) _ _ => destruct c
    | |- ends (read! x := _ in _) _ _ => read_any
    | |- ends (alloca_str _ ;;; _) _ _ => apply ends_alloca
    end; try (apply ends_ret; try destruct key; simpl; lia).
    + eapply ends_bind; [apply IHe; lia|]. intros es. cbn beta.
      read_any. read_any. by apply ends_ret.
    + eapply ends_bind; [apply ends_lua_load; lia|]. intros [[code|] last]; cbn beta iota;
        [|apply ends_ret; simpl; lia].
      apply (ends_bind _ _ _ (fun _ => b - 1)).
      { destruct last; [by apply ends_ret|]. eapply ends_weaken; [by apply ends_READ|].
        intros []; lia. }
      intros [m|]; [|apply ends_ret; simpl; lia]. read_any.
      destruct (_ =? 1); [|by apply ends_ret]. read_any.
      eapply ends_bind; [apply IHv; lia|].
      intros [| |[]]; try apply ends_undef. cbn beta iota.
      apply (ends_bind _ _ _ (fun _ => b - 1)); [|intros; by apply ends_ret].
      eapply ends_weaken; [apply ends_of_opt|]. intros; simpl; lia.
  - intros acc b Hb. cbn [rb_load_entries].
    eapply ends_bind; [apply IHv; lia|].
    intros [code| |k]; cbn [left]; [apply ends_undef | apply ends_ret; lia |].
    eapply ends_bind; [apply IHv; lia|].
    intros [code| |x]; cbn [left]; [apply ends_undef | apply ends_undef |].
    destruct (lua_settable acc k x); [|apply ends_raise].
    eapply ends_weaken; [apply IHe; lia|]. intros; simpl; lia.
Qed.

Lemma load_ends_top rb : rb_bounds rb -> rb_load rb <> NoFuel.
Proof.
  intros Hb. pose proof Hb as []. unfold rb_load, load_fuel.
  pose proof (proj1 (load_ends (S (2 * Z.to_nat (rcb rb)))) false (rcb rb)) as H.
  specialize (H ltac:(lia) rb Hb ltac:(lia)). by destruct (rb_load_rcsv _ _ _).
Qed.
End LoadEnds.

#[global] Arguments rb_load : simpl never.
#[global] Arguments rb_save : simpl never.
