(* ===== verification/Pthread.v ===== *)
(** * POSIX mutexes and condition variables, as far as the code uses them. *)
From S2P Require Import Prelude.

#[local] Open Scope ipc_scope.

(** A mutex: who holds it and how many times. *)
Record pmutex := mk_mutex { m_recursive : bool; m_owner : option Z; m_count : Z }.

Definition mutex_init (recursive : bool) : pmutex := mk_mutex recursive None 0.

(** [None]: the caller sleeps (for ever, when it holds a default mutex itself). *)
Definition pthread_mutex_lock (t : Z) (m : pmutex) : option pmutex :=
  match m_owner m with
  | None => Some (mk_mutex (m_recursive m) (Some t) 1)
  | Some o =>
      if (o =? t) && m_recursive m
      then Some (mk_mutex (m_recursive m) (Some t) (m_count m + 1))
      else None
  end.

(** The code only unlocks what the calling thread has locked; anything else is
    left undefined. *)
Definition pthread_mutex_unlock (t : Z) (m : pmutex) : option pmutex :=
  match m_owner m with
  | Some o =>
      if o =? t then
        Some (if m_count m =? 1 then mk_mutex (m_recursive m) None 0
              else mk_mutex (m_recursive m) (Some t) (m_count m - 1))
      else None
  | None => None
  end.

(** A condition variable: the threads asleep on it, oldest first. *)
Definition cond_t : Type := list Z.

(** [pthread_cond_signal] wakes one sleeper, [pthread_cond_broadcast] all.  Which one is for
    the scheduling policy (POSIX); here it is the one that has slept longest, as among threads
    of one priority under the policies SCHED_FIFO and SCHED_RR.  Nothing is lost by another
    choice but the identity of the thread that goes on. *)
Definition pthread_cond_signal (c : cond_t) : cond_t := tail c.
Definition pthread_cond_broadcast (c : cond_t) : cond_t := [].

(** What the sleeping call leaves behind: the mutex released, the thread queued.
    (A recursive mutex held more than once stays held: POSIX.) *)
Definition cond_enqueue (t : Z) (c : cond_t) : cond_t := c ++ [t].

(** POSIX lets a sleeper wake though nobody has signalled; [None] when [t] is not asleep. *)
Definition spurious_wakeup (t : Z) (c : cond_t) : option cond_t :=
  if bool_decide (t ∈ c) then Some (list_difference c [t]) else None.

Definition mutex_free (m : pmutex) : Prop := m_owner m = None.

Definition mutex_held_once (t : Z) (m : pmutex) : Prop := m_owner m = Some t /\ m_count m = 1.

Lemma lock_free t m : mutex_free m ->
  pthread_mutex_lock t m = Some (mk_mutex (m_recursive m) (Some t) 1).
Proof. unfold mutex_free, pthread_mutex_lock. by intros ->. Qed.

Lemma unlock_held t m : mutex_held_once t m ->
  pthread_mutex_unlock t m = Some (mk_mutex (m_recursive m) None 0).
Proof.
  unfold mutex_held_once, pthread_mutex_unlock. intros [-> ->]. by rewrite Z.eqb_refl.
Qed.

(** A mutex another thread holds cannot be taken. *)
Lemma lock_other t o m : m_owner m = Some o -> o <> t -> pthread_mutex_lock t m = None.
Proof.
  unfold pthread_mutex_lock. intros -> Hne. destruct (Z.eqb_spec o t); [done | done].
Qed.
