(* ===== verification/Growth.v ===== *)
(** * Saving into a ring buffer that grows.

    [rb_save] is always called between [ringbuffer_push_write_pos] and, on
    failure, [ringbuffer_pop_write_pos] and [ringbuffer_grow_by].  This file has
    those calls on the state of a save, what one attempt does, and the relation
    between a ring buffer and the queue of Lua values stored in it; the loops
    themselves are in the files of their components. *)
From S2P Require Import Prelude RingBuffer Lua Serialize.

#[local] Open Scope ipc_scope.

Definition rb_push : M save_state unit :=
  modify_st (fun st => mk_sv (ringbuffer_push_write_pos (sv_rb st)) (sv_retained st)).

Definition rb_pop : M save_state unit :=
  modify_st (fun st => mk_sv (ringbuffer_pop_write_pos (sv_rb st)) (sv_retained st)).

Definition rb_grow (n : Z) : M save_state unit := fun st =>
  match ringbuffer_grow_by (sv_rb st) n with
  | Some rb' => Done tt (mk_sv rb' (sv_retained st))
  | None => Undef
  end.

(** ** One attempt *)

Section Attempt.
Context `{L : LuaApi}.
Context (upval : Z) (v : lua_value) (bs : list byte).
Hypothesis Henc : enc 0 upval v = Some bs.

Lemma attempt_fits st :
  ring_ok (sv_rb st) -> zlen bs <= free_space (sv_rb st) ->
  exists rb', (rb_push ;;; rb_save 0 upval v) st
      = Done 0 (mk_sv rb' (sv_retained st ++ retains v)) /\
    ring_ok rb' /\ contents rb' = contents (sv_rb st) ++ (Some <$> bs) /\
    cb rb' = cb (sv_rb st).
Proof.
  intros Hok Hfit.
  destruct (save_writes 0 upval v bs Henc
    (mk_sv (ringbuffer_push_write_pos (sv_rb st)) (sv_retained st)) (push_ok _ Hok)) as [F _].
  destruct (F Hfit) as (rb' & E & []). exists rb'. by unfold mbnd, rb_push, modify_st.
Qed.

(** An attempt, popped and grown, leaves the same bytes to read and more room. *)
Lemma pop_and_grow st l st1 n :
  ring_ok (sv_rb st) -> appended (ringbuffer_push_write_pos (sv_rb st)) l (sv_rb st1) ->
  0 <= n -> rcb (sv_rb st) < cb (sv_rb st) + n -> cb (sv_rb st) + n < 2 ^ 63 ->
  exists st', (rb_pop ;;; rb_grow n) st1 = Done tt st' /\
    sv_retained st' = sv_retained st1 /\
    ring_ok (sv_rb st') /\ contents (sv_rb st') = contents (sv_rb st) /\
    cb (sv_rb st') = cb (sv_rb st) + n.
Proof.
  intros Hok A Hn Hroom Hmax.
  destruct (pop_restores (sv_rb st) l (sv_rb st1) Hok A) as (Hok' & Hc & Hcb & _).
  assert (rcb (ringbuffer_pop_write_pos (sv_rb st1)) = rcb (sv_rb st)) as Hrcb.
  { rewrite <- (zlen_contents (sv_rb st)), <- Hc by apply Hok.
    by rewrite zlen_contents by apply Hok'. }
  destruct (grow_keeps _ n Hok' Hn) as (rb2 & E2 & Hok2 & Hc2 & Hcb2 & _); [lia|lia|].
  exists (mk_sv rb2 (sv_retained st1)).
  unfold mbnd, rb_pop, modify_st, rb_grow. cbn [sv_rb sv_retained]. rewrite E2.
  repeat split; try apply Hok2; simpl; congruence.
Qed.

(** The same when the value does not fit. *)
Lemma attempt_grows st n :
  no_function_keys v = true -> ring_ok (sv_rb st) -> free_space (sv_rb st) < zlen bs ->
  0 <= n -> rcb (sv_rb st) < cb (sv_rb st) + n -> cb (sv_rb st) + n < 2 ^ 63 ->
  exists st1, (rb_push ;;; rb_save 0 upval v) st = Done (- ENOMEM) st1 /\
  exists st', (rb_pop ;;; rb_grow n) st1 = Done tt st' /\
    sv_retained st' = sv_retained st1 /\
    ring_ok (sv_rb st') /\ contents (sv_rb st') = contents (sv_rb st) /\
    cb (sv_rb st') = cb (sv_rb st) + n.
Proof.
  intros Hkeys Hok Hno Hn Hroom Hmax.
  destruct (save_writes 0 upval v bs Henc
    (mk_sv (ringbuffer_push_write_pos (sv_rb st)) (sv_retained st)) (push_ok _ Hok)) as [_ N].
  rewrite Hkeys in N. destruct (N Hno) as (l & st1 & [E|[? _]] & A); [|done]. exists st1. split; [exact E|].
  by eapply pop_and_grow.
Qed.
End Attempt.

(** An attempt that is given up (any error but [-ENOMEM]) and popped leaves the
    bytes to read as they were, whatever the value. *)
Lemma attempt_abandoned `{L : LuaApi} upval v st r st1 :
  ring_ok (sv_rb st) -> (rb_push ;;; rb_save 0 upval v) st = Done r st1 ->
  let rb' := ringbuffer_pop_write_pos (sv_rb st1) in
  ring_ok rb' /\ contents rb' = contents (sv_rb st) /\ cb rb' = cb (sv_rb st).
Proof.
  intros Hok E. pose proof (save_only_appends 0 upval v
    (mk_sv (ringbuffer_push_write_pos (sv_rb st)) (sv_retained st)) (push_ok _ Hok)) as H.
  unfold mbnd, rb_push, modify_st in E. rewrite E in H. destruct H as [l A].
  destruct (pop_restores (sv_rb st) l (sv_rb st1) Hok A) as (? & ? & ? & _). done.
Qed.

(** ** Values that are refused *)

Section Refusal.
Context `{L : LuaApi} (upval : Z).

Definition refusal_entries (r : lua_value -> option (list byte * Z))
  : list (lua_value * lua_value) -> option (list byte * Z) :=
  fix go es :=
    match es with
    | [] => None
    | (k, x) :: es' =>
        match r k with
        | Some p => Some p
        | None =>
            bk ← enc 0 upval k;
            match r x with
            | Some (b, code) => Some (bk ++ b, code)
            | None => bx ← enc 0 upval x; '(b, code) ← go es'; Some (bk ++ bx ++ b, code)
            end
        end
    end.

(** For a value [rb_save] refuses with an error code: the bytes it writes before, and the code.
    [None] for a value it saves, or raises on. *)
Fixpoint refusal (v : lua_value) : option (list byte * Z) :=
  match v with
  | LLightUserdata _ | LThread => Some ([], - EPERM)
  | LUserdata ptr mt =>
      match userdata_name mt with
      | None => Some ([], - EINVAL)
      | Some (type, name) =>
          if from_option mt_retain false mt then None
          else Some (char_bytes type ++ size_bytes (zlen name) ++ name ++ le_split 8 ptr, - EINVAL)
      end
  | LTable es _ =>
      '(b, code) ← refusal_entries refusal es; Some (char_bytes LUA_TTABLE ++ b, code)
  | _ => None
  end.

(** [m] writes [bs] and ends with [code], or with [-ENOMEM] when they do not fit. *)
Definition refuses (m : M save_state Z) (bs : list byte) (code : Z) : Prop :=
  forall st, ring_ok (sv_rb st) -> exists l st', appended (sv_rb st) l (sv_rb st') /\
    m st = Done (if zlen bs <=? free_space (sv_rb st) then code else - ENOMEM) st'.

Lemma refuses_ret code : refuses (mret code) [] code.
Proof.
  intros st Hok. exists [], st. split; [by apply appended_nil|].
  destruct (ring_bounds _ Hok). rewrite (proj2 (Z.leb_le _ _)); [done|].
  unfold free_space, zlen. cbn. lia.
Qed.

Lemma refuses_first m1 m2 bs code :
  refuses m1 bs code -> code <> 0 -> refuses (m1 >>? m2) bs code.
Proof.
  intros H Hc st Hok. destruct (H st Hok) as (l & st' & A & E). exists l, st'. split; [done|].
  unfold and_then, mbnd. rewrite E. set (r := if zlen bs <=? _ then _ else _).
  rewrite (proj2 (Z.eqb_neq r 0)); [done|]. subst r. unfold ENOMEM in *. case_cmp; lia.
Qed.

Lemma refuses_after m1 b1 rs m2 b2 code :
  writes true m1 b1 rs -> refuses m2 b2 code -> refuses (m1 >>? m2) (b1 ++ b2) code.
Proof.
  intros H1 H2 st Hok. destruct (H1 st Hok) as [F N]. rewrite zlen_app.
  pose proof (zlen_nonneg b2). unfold and_then, mbnd.
  destruct (Z.le_gt_cases (zlen b1) (free_space (sv_rb st))) as [Hfit|Hno].
  - destruct (F Hfit) as (rb1 & E1 & A1). rewrite E1. cbn [Z.eqb].
    destruct (H2 (mk_sv rb1 (sv_retained st ++ rs)) (app_ok _ _ _ A1)) as (l & st2 & A2 & E2).
    cbn [sv_rb] in *. rewrite (free_appended _ _ _ Hok A1), zlen_fmap in E2.
    exists ((Some <$> b1) ++ l), st2. split; [by eapply appended_trans|]. rewrite E2. f_equal.
    case_cmp; case_cmp; done || lia.
  - destruct (N Hno) as (l & st1 & [E1|[? _]] & A1); [|done]. exists l, st1. split; [done|].
    rewrite E1. change (- ENOMEM =? 0) with false. cbn iota. unfold mret. f_equal.
    case_cmp; done || lia.
Qed.

Definition is_refusal (code : Z) : Prop := code = - EPERM \/ code = - EINVAL.

Lemma refuses_entries (save : bool -> lua_value -> M save_state Z) es :
  Forall (fun e =>
    (forall key b c, refusal e.1 = Some (b, c) -> refuses (save key e.1) b c /\ is_refusal c) /\
    (forall key b c, refusal e.2 = Some (b, c) -> refuses (save key e.2) b c /\ is_refusal c) /\
    (forall b, enc 0 upval e.1 = Some b -> writes true (save true e.1) b (retains e.1)) /\
    (forall b, enc 0 upval e.2 = Some b -> writes true (save false e.2) b (retains e.2))) es ->
  forall b c, refusal_entries refusal es = Some (b, c) ->
  refuses (save_entries save es) b c /\ is_refusal c.
Proof.
  assert (forall c, is_refusal c -> c <> 0) as Hne
    by (intros c [-> | ->]; unfold EPERM, EINVAL; lia).
  induction 1 as [|[k x] es (Rk & Rx & Wk & Wx) _ IH]; intros bs c E; [done|].
  cbn [refusal_entries save_entries fst snd] in *.
  destruct (refusal k) as [[bk ck]|] eqn:Ek.
  { injection E as -> ->. destruct (Rk true bs c eq_refl). split; [|done].
    apply refuses_first; [done | by apply Hne]. }
  apply bind_Some in E as (bk & Ebk & E).
  destruct (refusal x) as [[bx cx]|] eqn:Ex.
  { injection E as <- ->. destruct (Rx false bx c eq_refl). split; [|done].
    eapply refuses_after; [by apply Wk|]. apply refuses_first; [done | by apply Hne]. }
  apply bind_Some in E as (bx & Ebx & E). apply bind_Some in E as ([b' c'] & E & [= <- ->]).
  destruct (IH _ _ E). split; [|done].
  eapply refuses_after; [by apply Wk|]. eapply refuses_after; [by apply Wx|]. done.
Qed.

Lemma save_refused v : forall key b c,
  no_function_keys v = true -> refusal v = Some (b, c) ->
  refuses (rb_save_at key 0 upval v) b c /\ is_refusal c.
Proof.
  induction v as [| | | | | |es mt IH| |is_lua code ups IH|ptr mt|] using lua_value_rect';
    intros key bs c Hk E; cbn [refusal rb_save_at] in *; try done; simplify_eq.
  - split; [apply refuses_ret | by left].
  - apply bind_Some in E as ([b' c'] & E & [= <- ->]).
    destruct (refuses_entries (fun key => rb_save_at key 0 upval) es) with (b := b') (c := c)
      as [H Hc]; [|done|].
    + cbn [no_function_keys] in Hk. rewrite forallb_forall in Hk.
      rewrite List.Forall_forall in *. intros e He. destruct (IH e He) as [IH1 IH2].
      specialize (Hk e He). apply andb_prop in Hk as [[Hf Hk]%andb_prop Hx].
      apply negb_true_iff in Hf.
      split; [intros; by apply IH1|]. split; [intros; by apply IH2|].
      split; intros b1 Eb; apply save_writes_at; rewrite ?Hk, ?Hx, ?Hf; done.
    + split; [|done]. unfold save_table.
      eapply refuses_after; [apply writes_WRITE|]. apply refuses_first; [done|].
      destruct Hc as [-> | ->]; unfold EPERM, EINVAL; lia.
  - change (negb (0 =? 0)) with false. cbn iota. unfold callmeta_retain.
    destruct (userdata_name mt) as [[type name]|]; simplify_eq;
      [|split; [apply refuses_ret | by right]].
    destruct (from_option mt_retain false mt); simplify_eq. cbn [negb]. split; [|by right].
    do 3 (eapply refuses_after; [apply writes_WRITE|]).
    rewrite <- (app_nil_r (le_split 8 ptr)).
    eapply refuses_after; [apply writes_WRITE|]. apply refuses_ret.
  - split; [apply refuses_ret | by left].
Qed.
End Refusal.

(** ** A ring buffer of Lua values *)

Section Holds.
Context `{L : LuaApi} {Lok : LuaApiOk L}.

(** [bs] is what saving [v] writes, within the process. *)
Definition item (v : lua_value) (bs : list byte) : Prop :=
  wf v = true /\ (enc 0 0 v = Some bs \/ enc 0 1 v = Some bs).

Definition holds (rb : ringbuffer_t) (vs : list lua_value) : Prop :=
  ring_ok rb /\ exists bss, Forall2 item vs bss /\ contents rb = Some <$> concat bss.

Lemma holds_ring rb vs : holds rb vs -> ring_ok rb.
Proof. by intros []. Qed.

Lemma holds_create n : 0 < n < 2 ^ 63 -> holds (ringbuffer_create n) [].
Proof. intros. split; [by apply create_ok|]. by exists []. Qed.

(** Same bytes, same values. *)
Lemma holds_same rb rb' vs :
  holds rb vs -> ring_ok rb' -> contents rb' = contents rb -> holds rb' vs.
Proof. intros [_ (bss & H & Hc)] Hok E. split; [done|]. exists bss. by rewrite E. Qed.

Lemma holds_snoc rb rb' vs v bs :
  holds rb vs -> item v bs -> ring_ok rb' ->
  contents rb' = contents rb ++ (Some <$> bs) -> holds rb' (vs ++ [v]).
Proof.
  intros [_ (bss & H & Hc)] Hi Hok E. split; [done|]. exists (bss ++ [bs]).
  split; [by apply Forall2_app; [|constructor]|].
  by rewrite E, Hc, concat_app, fmap_app, concat_cons, app_nil_r.
Qed.

(** Loading takes the oldest value out. *)
Lemma holds_load rb v vs :
  holds rb (v :: vs) ->
  exists rb', rb_load rb = Done (LdVal (transported v)) rb' /\ holds rb' vs /\
    cb rb' = cb rb /\ rcb rb' <= rcb rb.
Proof.
  intros [Hok (bss & H & Hc)]. inversion H as [|? bs ? bss' [Hwf Henc] Hrest]; subst.
  cbn [concat] in Hc. rewrite fmap_app in Hc.
  pose proof (ring_bounds rb Hok) as Hb.
  assert (zlen bs <= rcb rb) as Hlen.
  { rewrite <- (zlen_contents rb Hb), Hc, zlen_app, zlen_fmap.
    pose proof (zlen_nonneg (Some <$> concat bss')). lia. }
  assert (exists upval, (upval = 0 \/ upval = 1) /\ enc 0 upval v = Some bs) as (upval & Hu & Ev)
    by (destruct Henc; eauto).
  assert (loads (rb_load_rcsv (load_fuel rb) false) bs (LdVal (transported v))) as Hload.
  { eapply load_back; try done. unfold load_fuel, zlen in *. lia. }
  destruct (Hload rb _ Hb Hc) as (rb' & E & C).
  exists rb'. split; [exact E|].
  pose proof (con_rcb _ _ _ C). pose proof (zlen_nonneg bs).
  split; [|split; [by apply (con_cb _ _ _ C) | lia]].
  split; [by eapply consumed_ring|]. exists bss'. split; [done|].
  rewrite (consumed_contents _ _ _ Hb C), Hc. apply zdrop_zdrop_app. apply zlen_fmap.
Qed.

(** No bytes to read, no value held. *)
Lemma holds_length rb vs : holds rb vs -> zlen vs <= rcb rb.
Proof.
  intros [Hok (bss & H & Hc)]. rewrite <- (zlen_contents rb) by apply Hok.
  rewrite Hc, zlen_fmap. clear Hc. induction H as [|v bs vs bss [_ Hi] _ IH]; [done|].
  cbn [concat]. rewrite zlen_cons, zlen_app.
  assert (bs <> []) as Hne by (destruct Hi; by eapply enc_nonempty).
  destruct bs; [done|]. rewrite zlen_cons. pose proof (zlen_nonneg bs). lia.
Qed.

Lemma holds_nil rb : holds rb [] -> rcb rb = 0.
Proof.
  intros [Hok (bss & H & Hc)]. inversion H; subst.
  rewrite <- (zlen_contents rb), Hc by apply Hok. done.
Qed.

(** A buffer with values in it has bytes in it. *)
Lemma holds_cons_pos rb v vs : holds rb (v :: vs) -> 0 < rcb rb.
Proof.
  intros H. pose proof (holds_length _ _ H). rewrite zlen_cons in *.
  pose proof (zlen_nonneg vs). lia.
Qed.
End Holds.

(** ** Saving one value, growing the buffer until it fits *)

(** [rb_save_with_growth] of map.c.  Values the failed save left on the Lua stack are popped
    (sharedtable.c has a loop of its own, which does not); an error other than [-ENOMEM] is
    returned with the write position where the save left it. *)
Fixpoint save_growing `{L : LuaApi} (fuel : nat) (v : lua_value) (size : Z)
  : M save_state Z :=
  match fuel with
  | O => out_of_fuel
  | S fuel' =>
      rb_push ;;;
      let! ret := rb_save 0 0 v in
      if ret =? - ENOMEM then
        rb_pop ;;;
        rb_grow size ;;;
        save_growing fuel' v size
      else mret ret
  end.

Lemma seq_same {S} (m k1 k2 : M S Z) st st' :
  (m >>? k1) st = Done 0 st' -> (forall st1, k1 st1 = Done 0 st' -> k2 st1 = Done 0 st') ->
  (m >>? k2) st = Done 0 st'.
Proof.
  intros (st1 & E & E1)%and_then_zero H. unfold and_then, mbnd. rewrite E. by apply H.
Qed.

(** Copies are left of functions with an upvalue table only, and by failed saves only. *)
Lemma same_as_key `{L : LuaApi} oop upval v st :
  upvalue_table upval v = false \/ (exists st', rb_save oop upval v st = Done 0 st') ->
  rb_save_at true oop upval v st = rb_save_at false oop upval v st.
Proof.
  intros H. destruct v as [| | | | | | | |is_lua code ups| |]; try done.
  unfold rb_save in H. cbn [upvalue_table rb_save_at] in *.
  destruct is_lua; cbn [negb] in *; [|done].
  set (only_one := (upval =? 0) && (zlen ups =? 1)) in *.
  destruct H as [Hn|[st' E]].
  - apply orb_false_elim in Hn as [-> ->]. done.
  - rewrite E. destruct (_ || (_ =? 1)); [|exact E].
    do 4 (eapply seq_same; [exact E | clear st E; intros st E]).
    eapply seq_same; [exact E | clear st E; intros st E].
    apply unchecked_zero in E. unfold mbnd. by rewrite E.
Qed.

Lemma no_copy_left `{L : LuaApi} upval v st :
  upvalue_table upval v = false \/ (exists st', rb_save 0 upval v st = Done 0 st') ->
  leaves_copy 0 upval v st = false.
Proof.
  intros H. unfold leaves_copy. rewrite same_as_key by done.
  by destruct (rb_save_at false 0 upval v st).
Qed.


(** ** The loop that writes the arguments of a call *)

(** The part of a channel, and of each half of a workqueue, the loop works on:
    the ring buffer and [num_items]. *)
Record qcore := mk_qc { qc_sv : save_state; qc_num : Z }.

Definition on_sv {A} : M save_state A -> M qcore A :=
  zoom qc_sv (fun sv q => mk_qc sv (qc_num q)).

Section WriteLoop.
Context `{L : LuaApi}.

(** Lines 150-167 of [channel_write] and 184-208 of [workqueue_queue_write]: one
    value per turn, a turn lost on each growth.  Returns 0 or the error of the
    value that could not be saved (its bytes popped). *)
Fixpoint write_loop (fuel : nat) (size_increment upval : Z) (vs : list lua_value)
  : M qcore Z :=
  match vs with
  | [] => mret 0
  | v :: vs' =>
      match fuel with
      | O => out_of_fuel
      | S fuel' =>
          on_sv rb_push ;;;
          let! ret := on_sv (rb_save 0 upval v) in
          if ret =? - ENOMEM then
            on_sv rb_pop ;;;
            on_sv (rb_grow size_increment) ;;;
            write_loop fuel' size_increment upval vs
          else if negb (ret =? 0) then
            on_sv rb_pop ;;;
            mret ret
          else
            modify_st (fun q => mk_qc (qc_sv q) (u32_add (qc_num q) 1)) ;;;
            write_loop fuel' size_increment upval vs'
      end
  end.

(** The bytes the values take. *)
Definition enc_len (upval : Z) (v : lua_value) : Z := zlen (default [] (enc 0 upval v)).
Definition total_len (upval : Z) (vs : list lua_value) : Z :=
  foldr (fun v n => enc_len upval v + n) 0 vs.

(** The bytes the buffer would need in all. *)
Definition demand (q : qcore) (upval : Z) (vs : list lua_value) : Z :=
  rcb (sv_rb (qc_sv q)) + total_len upval vs.

(** Enough turns: one per value, one per byte of growth. *)
Definition loop_fuel (q : qcore) (upval : Z) (vs : list lua_value) : nat :=
  length vs + Z.to_nat (demand q upval vs - cb (sv_rb (qc_sv q))).

(** Values [write] takes. *)
Definition writable (upval : Z) (v : lua_value) : bool :=
  wf v && no_function_keys v && bool_decide (is_Some (enc 0 upval v)).

Lemma total_len_nonneg upval vs : 0 <= total_len upval vs.
Proof.
  induction vs as [|v vs IH]; [done|]. simpl. unfold enc_len.
  pose proof (zlen_nonneg (default [] (enc 0 upval v))). lia.
Qed.

Lemma total_len_cons upval v vs :
  total_len upval (v :: vs) = enc_len upval v + total_len upval vs.
Proof. done. Qed.

Lemma total_len_app upval vs ws :
  total_len upval (vs ++ ws) = total_len upval vs + total_len upval ws.
Proof.
  induction vs as [|v vs IH]; [done|]. cbn [app]. rewrite !total_len_cons, IH. lia.
Qed.

(** A turn that saves its value, and one that grows the buffer. *)
Lemma write_loop_saved fuel n upval v vs q st1 :
  (rb_push ;;; rb_save 0 upval v) (qc_sv q) = Done 0 st1 ->
  write_loop (S fuel) n upval (v :: vs) q
  = write_loop fuel n upval vs (mk_qc st1 (u32_add (qc_num q) 1)).
Proof.
  unfold mbnd, rb_push, modify_st. intros E. cbn [write_loop].
  unfold mbnd, on_sv, zoom, rb_push, modify_st. cbn [qc_sv]. by rewrite E.
Qed.

Lemma write_loop_grown fuel n upval v vs q st1 st2 :
  (rb_push ;;; rb_save 0 upval v) (qc_sv q) = Done (- ENOMEM) st1 ->
  (rb_pop ;;; rb_grow n) st1 = Done tt st2 ->
  write_loop (S fuel) n upval (v :: vs) q
  = write_loop fuel n upval (v :: vs) (mk_qc st2 (qc_num q)).
Proof.
  unfold mbnd, rb_push, rb_pop, modify_st. intros E E2. cbn [write_loop].
  unfold mbnd, on_sv, zoom, rb_push, rb_pop, modify_st. cbn [qc_sv]. rewrite E.
  change (- ENOMEM =? - ENOMEM) with true. cbn [qc_sv qc_num]. by rewrite E2.
Qed.
End WriteLoop.

(** Values with no serialization. *)
Definition refused (v : lua_value) : bool :=
  match v with LLightUserdata _ | LThread => true | _ => false end.

Section WriteLoopSpec.
Context `{L : LuaApi} {Lok : LuaApiOk L}.
Context (size_increment upval : Z).
Hypothesis Hinc : 0 < size_increment.
Hypothesis Hupval : upval = 0 \/ upval = 1.

Lemma writable_item v : writable upval v = true ->
  exists bs, no_function_keys v = true /\ enc 0 upval v = Some bs /\
    enc_len upval v = zlen bs /\ item v bs.
Proof.
  intros [[Hwf Hk]%andb_prop [bs E]%bool_decide_eq_true]%andb_prop. exists bs.
  unfold enc_len. rewrite E. split; [done|].
  split; [done|]. split; [done|]. split; [done|]. destruct Hupval as [-> | ->]; auto.
Qed.

(** The loop gets through [vs] and goes on with the rest. *)
Lemma write_loop_app ws fuel : forall q items vs,
  holds (sv_rb (qc_sv q)) items -> forallb (writable upval) vs = true ->
  demand q upval vs + size_increment < 2 ^ 63 -> (loop_fuel q upval vs <= fuel)%nat ->
  exists q' fuel', write_loop fuel size_increment upval (vs ++ ws) q
      = write_loop fuel' size_increment upval ws q' /\
    (fuel - loop_fuel q upval vs <= fuel')%nat /\
    holds (sv_rb (qc_sv q')) (items ++ vs) /\
    rcb (sv_rb (qc_sv q')) = demand q upval vs /\
    cb (sv_rb (qc_sv q')) <= Z.max (cb (sv_rb (qc_sv q))) (demand q upval vs + size_increment) /\
    (0 <= qc_num q < U32_MOD -> qc_num q' = (qc_num q + zlen vs) mod U32_MOD).
Proof.
  induction fuel as [fuel IH] using lt_wf_ind. intros q items vs Hh Hvs Hmax Hf.
  destruct vs as [|v vs].
  { exists q, fuel. split; [done|]. split; [lia|]. rewrite app_nil_r.
    unfold demand. change (total_len upval []) with 0. repeat split; try apply Hh; try lia.
    intros; rewrite zlen_nil, Z.add_0_r, Z.mod_small; lia. }
  simpl in Hvs. apply andb_prop in Hvs as [Hv Hvs].
  destruct (writable_item v Hv) as (bs & Hkeys & Ebs & Hlen & Hitem).
  pose proof (holds_ring _ _ Hh) as Hok. pose proof (total_len_nonneg upval vs) as Htot.
  unfold loop_fuel, demand in *. rewrite total_len_cons, Hlen in *. cbn [length app] in *.
  destruct fuel as [|fuel]; [lia|].
  destruct (Z.le_gt_cases (zlen bs) (free_space (sv_rb (qc_sv q)))) as [Hfit|Hno].
  - destruct (attempt_fits upval v bs Ebs (qc_sv q) Hok Hfit) as (rb' & E & Hok' & Hc' & Hcb').
    rewrite (write_loop_saved _ _ _ _ _ _ _ E).
    assert (rcb rb' = rcb (sv_rb (qc_sv q)) + zlen bs) as Hrcb.
    { rewrite <- (zlen_contents rb') by apply Hok'. rewrite Hc', zlen_app, zlen_fmap.
      by rewrite zlen_contents by apply Hok. }
    destruct (IH fuel ltac:(lia) (mk_qc (mk_sv rb' (sv_retained (qc_sv q) ++ retains v))
      (u32_add (qc_num q) 1)) (items ++ [v]) vs)
      as (q' & fuel' & -> & Hfl & Hh' & Hr' & Hcap & Hn');
      cbn [qc_sv sv_rb qc_num] in *; try done; [by eapply holds_snoc | lia | lia |].
    exists q', fuel'. split; [done|]. split; [lia|]. rewrite <- app_assoc in Hh'.
    split; [done|]. split; [lia|]. split; [lia|]. intros Hr. unfold u32_add in Hn'.
    rewrite Hn'; [rewrite Zplus_mod_idemp_l, zlen_cons; f_equal; lia|].
    apply Z.mod_pos_bound. done.
  - unfold free_space in *.
    destruct (attempt_grows upval v bs Ebs (qc_sv q) size_increment Hkeys Hok Hno)
      as (st1 & E & st2 & E2 & _ & Hok2 & Hc2 & Hcb2);
      [lia | destruct (ring_bounds _ Hok); lia | lia |].
    rewrite (write_loop_grown _ _ _ _ _ _ _ _ E E2).
    assert (rcb (sv_rb st2) = rcb (sv_rb (qc_sv q))) as Hrcb.
    { rewrite <- (zlen_contents (sv_rb st2)) by apply Hok2. rewrite Hc2.
      by rewrite zlen_contents by apply Hok. }
    destruct (IH fuel ltac:(lia) (mk_qc st2 (qc_num q)) items (v :: vs))
      as (q' & fuel' & E' & Hfl & Hh' & Hr' & Hcap & Hn'); cbn [qc_sv qc_num length app] in *;
      rewrite ?total_len_cons, ?Hlen in *;
      [by eapply holds_same | by simpl; rewrite Hv, Hvs | lia | lia |].
    exists q', fuel'. split; [exact E'|]. split; [lia|]. split; [done|]. split; [lia|].
    split; [lia|]. done.
Qed.

Lemma write_loop_spec fuel q items vs :
  holds (sv_rb (qc_sv q)) items -> forallb (writable upval) vs = true ->
  demand q upval vs + size_increment < 2 ^ 63 -> (loop_fuel q upval vs <= fuel)%nat ->
  exists q', write_loop fuel size_increment upval vs q = Done 0 q' /\
    holds (sv_rb (qc_sv q')) (items ++ vs) /\
    rcb (sv_rb (qc_sv q')) = demand q upval vs /\
    cb (sv_rb (qc_sv q')) <= Z.max (cb (sv_rb (qc_sv q))) (demand q upval vs + size_increment) /\
    (0 <= qc_num q < U32_MOD -> qc_num q' = (qc_num q + zlen vs) mod U32_MOD).
Proof.
  intros Hh Hvs Hmax Hf.
  destruct (write_loop_app [] fuel q items vs Hh Hvs Hmax Hf)
    as (q' & fuel' & E & _ & H). exists q'. rewrite app_nil_r in E. rewrite E.
  split; [by destruct fuel' | done].
Qed.

(** A turn whose value is refused. *)
Lemma write_loop_given_up fuel v vs q r st1 :
  (rb_push ;;; rb_save 0 upval v) (qc_sv q) = Done r st1 -> is_refusal r ->
  write_loop (S fuel) size_increment upval (v :: vs) q
  = Done r (mk_qc (mk_sv (ringbuffer_pop_write_pos (sv_rb st1)) (sv_retained st1)) (qc_num q)).
Proof.
  unfold mbnd, rb_push, modify_st. intros E Hr. cbn [write_loop].
  unfold mbnd, on_sv, zoom, rb_push, rb_pop, modify_st, mret. cbn [qc_sv]. rewrite E.
  by destruct Hr as [-> | ->].
Qed.

Lemma write_loop_refuses bad bs code rest fuel : forall q items,
  no_function_keys bad = true -> refusal upval bad = Some (bs, code) ->
  holds (sv_rb (qc_sv q)) items -> rcb (sv_rb (qc_sv q)) + zlen bs + size_increment < 2 ^ 63 ->
  (Z.to_nat (rcb (sv_rb (qc_sv q)) + zlen bs - cb (sv_rb (qc_sv q))) < fuel)%nat ->
  exists q', write_loop fuel size_increment upval (bad :: rest) q = Done code q' /\
    holds (sv_rb (qc_sv q')) items /\ rcb (sv_rb (qc_sv q')) = rcb (sv_rb (qc_sv q)) /\
    qc_num q' = qc_num q.
Proof.
  induction fuel as [|fuel IH]; intros q items Hk Hbad Hh Hmax Hf; [lia|].
  pose proof (holds_ring _ _ Hh) as Hok. pose proof (ring_bounds _ Hok) as [].
  destruct (save_refused upval bad false bs code Hk Hbad) as [Hr Hc].
  destruct (Hr (mk_sv (ringbuffer_push_write_pos (sv_rb (qc_sv q))) (sv_retained (qc_sv q)))
    (push_ok _ Hok)) as (l & st1 & A & E). cbn [sv_rb] in A, E.
  change (free_space (ringbuffer_push_write_pos ?r)) with (free_space r) in E.
  assert ((rb_push ;;; rb_save 0 upval bad) (qc_sv q)
    = Done (if zlen bs <=? free_space (sv_rb (qc_sv q)) then code else - ENOMEM) st1) as Ea
    by (unfold mbnd, rb_push, modify_st; exact E).
  unfold free_space in *. destruct (Z.leb_spec (zlen bs) (cb (sv_rb (qc_sv q)) - rcb (sv_rb (qc_sv q)))).
  - rewrite (write_loop_given_up _ _ _ _ _ _ Ea Hc). eexists. split; [done|].
    destruct (pop_restores _ l (sv_rb st1) Hok A) as (Hok' & Hc' & Hcb & _). cbn [qc_sv sv_rb qc_num].
    split; [by eapply holds_same|]. split; [|done].
    rewrite <- (zlen_contents (sv_rb (qc_sv q))), <- Hc' by apply Hok.
    by rewrite zlen_contents by apply Hok'.
  - destruct (pop_and_grow (qc_sv q) l st1 size_increment Hok A)
      as (st2 & E2 & _ & Hok2 & Hc2 & Hcb2); [lia..|].
    rewrite (write_loop_grown _ _ _ _ _ _ _ _ Ea E2).
    assert (rcb (sv_rb st2) = rcb (sv_rb (qc_sv q))) as Hrcb.
    { rewrite <- (zlen_contents (sv_rb st2)), Hc2 by apply Hok2. by rewrite zlen_contents by apply Hok. }
    rewrite <- Hrcb. apply (IH (mk_qc st2 (qc_num q))); cbn [qc_sv qc_num]; try done;
      [by eapply holds_same | lia | lia].
Qed.

(** The loop saves the values before the one that is refused, and ends there. *)
Lemma write_loop_refused bad bs code rest fuel q items vs :
  no_function_keys bad = true -> refusal upval bad = Some (bs, code) ->
  holds (sv_rb (qc_sv q)) items -> forallb (writable upval) vs = true ->
  demand q upval vs + zlen bs + size_increment < 2 ^ 63 ->
  (loop_fuel q upval vs + Z.to_nat (zlen bs) < fuel)%nat ->
  exists q', write_loop fuel size_increment upval (vs ++ bad :: rest) q = Done code q' /\
    holds (sv_rb (qc_sv q')) (items ++ vs) /\
    rcb (sv_rb (qc_sv q')) = demand q upval vs /\
    (0 <= qc_num q < U32_MOD -> qc_num q' = (qc_num q + zlen vs) mod U32_MOD).
Proof.
  intros Hk Hbad Hh Hvs Hmax Hf. pose proof (zlen_nonneg bs).
  destruct (write_loop_app (bad :: rest) fuel q items vs Hh Hvs ltac:(lia) ltac:(lia))
    as (q1 & fuel' & -> & Hf' & Hh1 & Hr & _ & Hn).
  pose proof (ring_bounds _ (holds_ring _ _ Hh1)) as [].
  destruct (write_loop_refuses bad bs code rest fuel' q1 (items ++ vs) Hk Hbad Hh1)
    as (q' & E & Hh' & Hr' & Hn'); [lia | lia |].
  exists q'. rewrite E, Hr', Hn'. done.
Qed.
End WriteLoopSpec.

(** Enough turns to save one value: one, and one per byte of growth. *)
Definition grow_fuel `{L : LuaApi} (rb : ringbuffer_t) (v : lua_value) : nat :=
  S (Z.to_nat (rcb rb + enc_len 0 v - cb rb)).

Lemma save_growing_spec `{L : LuaApi} {Lok : LuaApiOk L} v size fuel : forall st items,
  writable 0 v = true -> 0 < size -> holds (sv_rb st) items ->
  rcb (sv_rb st) + enc_len 0 v + size < 2 ^ 63 -> (grow_fuel (sv_rb st) v <= fuel)%nat ->
  exists st', save_growing fuel v size st = Done 0 st' /\ holds (sv_rb st') (items ++ [v]) /\
    rcb (sv_rb st') = rcb (sv_rb st) + enc_len 0 v.
Proof.
  unfold grow_fuel.
  induction fuel as [|fuel IH]; intros st items Hw Hs Hh Hmax Hf; [lia|].
  destruct (writable_item 0 (or_introl eq_refl) v Hw) as (bs & Hkeys & Eb & Hlen & Hitem).
  pose proof (holds_ring _ _ Hh) as Hok. pose proof (ring_bounds _ Hok) as [].
  rewrite Hlen in *. cbn [save_growing].
  destruct (Z.le_gt_cases (zlen bs) (free_space (sv_rb st))) as [Hfit|Hno].
  - destruct (attempt_fits 0 v bs Eb st Hok Hfit) as (rb' & E & Hok' & Hc' & _).
    unfold mbnd, rb_push, modify_st in *. rewrite E. eexists. split; [done|]. cbn.
    split; [by eapply holds_snoc|].
    rewrite <- (zlen_contents rb'), Hc', zlen_app, zlen_fmap by apply Hok'.
    by rewrite zlen_contents by apply Hok.
  - unfold free_space in *.
    destruct (attempt_grows 0 v bs Eb st size Hkeys Hok Hno)
      as (st1 & E & st2 & E2 & _ & Hok2 & Hc2 & Hcb2); [lia | lia | lia |].
    assert (rcb (sv_rb st2) = rcb (sv_rb st)) as Hrcb.
    { rewrite <- (zlen_contents (sv_rb st2)), Hc2 by apply Hok2.
      by rewrite zlen_contents by apply Hok. }
    unfold mbnd, rb_push, rb_pop, modify_st in *. rewrite E.
    change (- ENOMEM =? - ENOMEM) with true. cbn beta iota. rewrite E2, <- Hrcb.
    apply IH; try done; [by eapply holds_same | lia | lia].
Qed.

#[global] Arguments write_loop : simpl never.
#[global] Arguments total_len : simpl never.
