(* ===== verification/Fifo.v ===== *)
(** * The interface of a queue of Lua values.

    A channel, and each half of a workqueue, is used by its clients as a first-in
    first-out queue whose values arrive as [transported] copies.  [FifoOk] is that
    promise; the theorems a client needs are proved from it once, and the components
    discharge it. *)
From S2P Require Import Prelude RingBuffer Lua Serialize Growth.

(** Growth steps and stored bytes stay below half of what an object may have. *)
Definition FIFO_MAX : Z := 2 ^ 62.

Class Fifo (St : Type) := {
  (** The values queued, oldest first, and a bound on their encoded bytes. *)
  ff_rep : St -> list lua_value -> Z -> Prop;
  (** Appends values, and takes the oldest one without waiting for it. *)
  ff_put : list lua_value -> St -> option St;
  ff_take : St -> option (option lua_value * St);
}.

Class FifoOk `{L : LuaApi} (upval : Z) `(F : Fifo St) : Prop := {
  ff_put_ok s items used vs :
    ff_rep s items used -> forallb (writable upval) vs = true ->
    zlen items + zlen vs < U32_MOD -> used + total_len upval vs < FIFO_MAX ->
    exists s', ff_put vs s = Some s' /\ ff_rep s' (items ++ vs) (used + total_len upval vs);
  ff_take_ok s v items used :
    ff_rep s (v :: items) used ->
    exists s', ff_take s = Some (Some (transported v), s') /\ ff_rep s' items used;
  ff_take_none s used :
    ff_rep s [] used ->
    exists s', ff_take s = Some (None, s') /\ ff_rep s' [] used;
}.

Inductive fifo_op := Put (vs : list lua_value) | Take.

Section Client.
Context `{L : LuaApi} {upval : Z} `{F : Fifo St} {Fok : FifoOk upval F}.

(** A client's run: the answers to its takes. *)
Fixpoint ff_run (ops : list fifo_op) (s : St) : option (list (option lua_value) * St) :=
  match ops with
  | [] => Some ([], s)
  | Put vs :: ops' => s' ← ff_put vs s; ff_run ops' s'
  | Take :: ops' =>
      '(o, s') ← ff_take s; '(os, s'') ← ff_run ops' s'; Some (o :: os, s'')
  end.

(** The specification: a list of values. *)
Fixpoint spec_run (ops : list fifo_op) (items : list lua_value)
  : list (option lua_value) * list lua_value :=
  match ops with
  | [] => ([], items)
  | Put vs :: ops' => spec_run ops' (items ++ vs)
  | Take :: ops' =>
      match items with
      | [] => let '(os, r) := spec_run ops' [] in (None :: os, r)
      | v :: items' => let '(os, r) := spec_run ops' items' in (Some (transported v) :: os, r)
      end
  end.

(** All the values of a run. *)
Fixpoint puts (ops : list fifo_op) : list lua_value :=
  match ops with
  | [] => []
  | Put vs :: ops' => vs ++ puts ops'
  | Take :: ops' => puts ops'
  end.

Lemma run_spec ops : forall s items used,
  ff_rep s items used -> forallb (writable upval) (puts ops) = true ->
  zlen items + zlen (puts ops) < U32_MOD -> used + total_len upval (puts ops) < FIFO_MAX ->
  exists s' used', ff_run ops s = Some ((spec_run ops items).1, s') /\
    ff_rep s' (spec_run ops items).2 used'.
Proof.
  induction ops as [|[vs|] ops IH]; intros s items used Hr Hw Hn Hb; cbn [puts] in *.
  - by exists s, used.
  - rewrite forallb_app, zlen_app, total_len_app in *.
    apply andb_prop in Hw as [Hvs Hw]. pose proof (zlen_nonneg (puts ops)).
    pose proof (total_len_nonneg upval (puts ops)).
    destruct (ff_put_ok s items used vs Hr Hvs) as (s1 & E & Hr1); [lia | lia |].
    destruct (IH s1 _ _ Hr1 Hw) as (s' & used' & E' & Hr'); [rewrite zlen_app; lia | lia |].
    exists s', used'. cbn. by rewrite E.
  - destruct items as [|v items].
    + destruct (ff_take_none s used Hr) as (s1 & E & Hr1).
      destruct (IH s1 _ _ Hr1 Hw Hn Hb) as (s' & used' & E' & Hr').
      exists s', used'. cbn. rewrite E. cbn. rewrite E'. cbn.
      by destruct (spec_run ops []).
    + destruct (ff_take_ok s v items used Hr) as (s1 & E & Hr1).
      rewrite zlen_cons in Hn.
      destruct (IH s1 _ _ Hr1 Hw) as (s' & used' & E' & Hr'); [lia | lia |].
      exists s', used'. cbn. rewrite E. cbn. rewrite E'. cbn.
      by destruct (spec_run ops items).
Qed.

(** What is taken, with what is left, is what was put, in order. *)
Lemma spec_conserves ops : forall items,
  omap id (spec_run ops items).1 ++ map transported (spec_run ops items).2
  = map transported (items ++ puts ops).
Proof.
  induction ops as [|[vs|] ops IH]; intros items; cbn [puts spec_run].
  - by rewrite app_nil_r.
  - by rewrite IH, app_assoc.
  - destruct items as [|v items]; [specialize (IH []) | specialize (IH items)];
      destruct (spec_run _ _) as [os r]; cbn in *; by rewrite IH.
Qed.

(** In any run, the values taken, followed by those still queued, are copies of the
    values put, each once and in order. *)
Lemma fifo_delivers ops s :
  ff_rep s [] 0 -> forallb (writable upval) (puts ops) = true ->
  zlen (puts ops) < U32_MOD -> total_len upval (puts ops) < FIFO_MAX ->
  exists os s' rest used, ff_run ops s = Some (os, s') /\ ff_rep s' rest used /\
    omap id os ++ map transported rest = map transported (puts ops).
Proof.
  intros Hr Hw Hn Hb.
  destruct (run_spec ops s [] 0 Hr Hw) as (s' & used & E & Hr'); [done | done |].
  eexists _, s', _, used. split; [exact E|]. split; [exact Hr'|].
  apply (spec_conserves ops []).
Qed.
End Client.

Arguments ff_run {St F} ops s.
