(* ===== verification/Roundtrip.v ===== *)
(** * What serialization promises: the theorems on [src/serialize.c].

    The definitions and the lemmas are in [Serialize]; here are the statements their
    clients rely on: saving and loading are inverse, a failed save can be undone, a
    load ends, and what happens to closures. *)
From S2P Require Import Prelude RingBuffer Lua Serialize Growth.

#[local] Open Scope ipc_scope.

(** ** Plain data *)

(** Data without functions, userdata and metatables. *)
Fixpoint plain (v : lua_value) : bool :=
  match v with
  | LNil | LBoolean _ | LNumber _ | LInteger _ | LString _ => true
  | LTable es mt => bool_decide (mt = None) && forallb (fun e => plain e.1 && plain e.2) es
  | _ => false
  end.

Section Plain.
Context `{L : LuaApi}.

Lemma plain_transported v : plain v = true -> transported v = v.
Proof.
  induction v as [| | | | | |es mt IH| | | |] using lua_value_rect'; intros Hp; try done.
  cbn [plain] in Hp. apply andb_prop in Hp as [->%bool_decide_eq_true Hes].
  cbn [transported table_name]. change (0 <? zlen []) with false. f_equal.
  induction IH as [|[k x] es [Hk Hx] _ IH]; [done|]. cbn [forallb map fst snd] in *.
  apply andb_prop in Hes as [[Ek Ex]%andb_prop Hes].
  rewrite Hk, Hx, IH by done. done.
Qed.

(** A value an out-of-process save accepts holds no pointer. *)
Lemma enc_oop_retains oop upval v : forall bs,
  oop <> 0 -> enc oop upval v = Some bs -> retains v = [].
Proof.
  induction v as [| | | | | |es mt IH| |l code ups IH|ptr mt|] using lua_value_rect';
    intros bs Ho E; try done; cbn [retains].
  - cbn [enc] in E. apply bind_Some in E as (body & E & _). revert body E.
    induction IH as [|[k x] es [Hk Hx] _ IH]; intros body E; [done|]. cbn [enc_entries] in E.
    apply bind_Some in E as (bk & Ek & E). apply bind_Some in E as (bx & Ex & E).
    apply bind_Some in E as (b & E & _). cbn [map concat fst snd].
    cbn [fst snd] in *. by rewrite (Hk _ Ho Ek), (Hx _ Ho Ex), (IH _ E).
  - cbn [enc] in E. destruct l; cbn [negb] in E; [|done].
    destruct ((upval =? 1) || _).
    + apply bind_Some in E as (body & E & _). revert body E. generalize 1.
      induction IH as [|[name x] us Hx _ IH]; intros i body E; [done|].
      cbn [enc_upvalues] in E. cbn [map concat fst snd].
      destruct (is_ENV name || is_nil x); [by eapply IH|].
      apply bind_Some in E as (bx & Ex & E). apply bind_Some in E as (b & E & _).
      cbn [fst snd] in *. by rewrite (Hx _ Ho Ex), (IH _ _ E).
    + destruct (Z.ltb_spec 0 (zlen ups)) as [|Hn]; [done|].
      destruct ups; [done|]. rewrite zlen_cons in Hn. pose proof (zlen_nonneg ups). lia.
  - cbn [enc] in E. apply Z.eqb_neq in Ho. by rewrite Ho in E.
Qed.
End Plain.

(** ** Closures *)

Section Closures.
Context `{L : LuaApi} {Lok : LuaApiOk L}.

Lemma lua_setupvalue_app (pre post : list (list byte * lua_value)) b i v :
  zlen pre = i - 1 -> lua_setupvalue (pre ++ b :: post) i v = Some (pre ++ (b.1, v) :: post).
Proof.
  intros Hp. unfold lua_setupvalue, nthz, zlen in *.
  destruct (Z.ltb_spec (i - 1) 0); [lia|].
  replace (Z.to_nat (i - 1)) with (length pre + 0)%nat by lia.
  rewrite lookup_app_r, Nat.add_sub_swap, Nat.sub_diag by lia. cbn [lookup list_lookup Nat.add].
  simpl. by rewrite insert_app_r.
Qed.

(** The loaded entries written over the upvalues [base] of a fresh function. *)
Fixpoint overwritten (base us : list (list byte * lua_value)) : list (list byte * lua_value) :=
  match base, us with
  | b :: base', (name, x) :: us' =>
      (if is_ENV name || is_nil x then b else (b.1, transported x)) :: overwritten base' us'
  | _, _ => base
  end.

Lemma set_upvalues_loaded us : forall i pre base,
  length base = length us -> zlen pre = i - 1 -> 0 < i -> i + zlen us <= 256 ->
  set_upvalues (pre ++ base) (loaded_upvalues transported i us)
  = Some (pre ++ overwritten base us).
Proof.
  induction us as [|[name x] us IH]; intros i pre base Hl Hp Hi Hmax.
  { by destruct base. }
  destruct base as [|b base]; [done|]. rewrite zlen_cons in Hmax.
  pose proof (zlen_nonneg us). cbn [loaded_upvalues overwritten].
  destruct (is_ENV name || is_nil x).
  - rewrite (cons_middle b), app_assoc, (IH (i + 1)); [by rewrite <- app_assoc | ..];
      rewrite ?zlen_app, ?zlen_cons, ?zlen_nil; simpl in Hl; lia.
  - cbn [set_upvalues]. rewrite tointeger_key by lia.
    rewrite lua_setupvalue_app by done. simpl.
    rewrite (cons_middle (b.1, _)), app_assoc, (IH (i + 1)); [by rewrite <- app_assoc | ..];
      rewrite ?zlen_app, ?zlen_cons, ?zlen_nil; simpl in Hl; lia.
Qed.

(** At most one upvalue is called [_ENV]. *)
Definition one_ENV (us : list (list byte * lua_value)) : bool :=
  (length (List.filter (fun u => is_ENV u.1) us) <=? 1)%nat.

Lemma no_ENV_index us : forall i e,
  List.filter (fun u => is_ENV u.1) us = [] -> env_index i us e = e.
Proof.
  induction us as [|u us IH]; intros i e Hf; [done|]. cbn [List.filter] in Hf. cbn [env_index].
  destruct (is_ENV u.1); [done|]. by apply IH.
Qed.

Lemma no_ENV_zip us : forall base : list (list byte * lua_value),
  List.filter (fun u : list byte * lua_value => is_ENV u.1) us = [] -> length base = length us ->
  zip_with (fun b u => if is_ENV u.1 then (b.1, LGlobals) else b) base us = base.
Proof.
  induction us as [|u us IH]; intros [|b base] Hno Hl; try done.
  cbn [List.filter] in Hno. cbn [zip_with]. destruct (is_ENV u.1); [done|].
  rewrite IH; [done | done | by injection Hl].
Qed.

(** Setting [_ENV] changes that upvalue only. *)
Lemma set_env_spec us : forall i pre base,
  length base = length us -> zlen pre = i - 1 -> 0 < i -> one_ENV us = true ->
  set_env (pre ++ base) (env_index i us (-1))
  = Some (pre ++ zip_with (fun b u => if is_ENV u.1 then (b.1, LGlobals) else b) base us).
Proof.
  induction us as [|u us IH]; intros i pre base Hl Hp Hi H1.
  { by destruct base. }
  destruct base as [|b base]; [done|]. unfold one_ENV in *. cbn [List.filter env_index zip_with] in *.
  destruct (is_ENV u.1) eqn:Eu.
  - assert (List.filter (fun u => is_ENV u.1) us = []) as Hno.
    { cbn [length] in H1. apply Nat.leb_le in H1.
      by destruct (List.filter _ us); [|simpl in H1; lia]. }
    rewrite no_ENV_index by done. unfold set_env. destruct (Z.ltb_spec 0 i); [|lia].
    rewrite lua_setupvalue_app by done. by rewrite no_ENV_zip by (done || by injection Hl).
  - rewrite (cons_middle b), app_assoc, (IH (i + 1)); [by rewrite <- app_assoc | ..];
      rewrite ?zlen_app, ?zlen_cons, ?zlen_nil; try done; simpl in Hl; lia.
Qed.

(** The first upvalue is not a nil a fresh function would show as [_G]. *)
Definition first_kept (us : list (list byte * lua_value)) : bool :=
  match us with
  | u :: _ => (LUA_VERSION_NUM <? 502) || is_ENV u.1 || negb (is_nil u.2)
  | [] => true
  end.

Lemma overwritten_names base us :
  Forall2 (fun b u => b.1 = u.1 /\ (is_ENV u.1 = false -> is_nil u.2 = true -> b.2 = LNil))
    base us ->
  overwritten (zip_with (fun b u => if is_ENV u.1 then (b.1, LGlobals) else b) base us) us
  = map (fun u => (u.1, if is_ENV u.1 then LGlobals else transported u.2)) us.
Proof.
  induction 1 as [|[bn bx] [name x] base us [Hn Hx] _ IH]; [done|].
  cbn [zip_with overwritten map fst snd] in *. rewrite IH. subst bn. f_equal.
  destruct (is_ENV name); [done|]. cbn [orb]. destruct (is_nil x) eqn:En; [|done].
  rewrite Hx by done. by destruct x.
Qed.

Lemma fresh_kept code us :
  lua_upvalue_names code = map fst us -> first_kept us = true ->
  Forall2 (fun b u => b.1 = u.1 /\ (is_ENV u.1 = false -> is_nil u.2 = true -> b.2 = LNil))
    (fresh_upvalues code) us.
Proof.
  intros Hn Hf. unfold fresh_upvalues. rewrite Hn. destruct us as [|u us]; [done|].
  assert (Forall2 (fun b u => b.1 = u.1 /\
      (is_ENV u.1 = false -> is_nil u.2 = true -> b.2 = LNil))
    ((fun name => (name, LNil)) <$> map fst us) us) as Hrest.
  { clear. induction us; simpl; constructor; done. }
  cbn [map]. rewrite fmap_cons. cbn [first_kept] in Hf.
  destruct (Z.leb_spec 502 LUA_VERSION_NUM); constructor; try done.
  split; [done|]. cbn. intros E1 E2. rewrite E1, E2 in Hf. cbn in Hf. case_cmp; [lia|done].
Qed.

Lemma closure_transported code us :
  lua_upvalue_names code = map fst us -> zlen us < 256 -> one_ENV us = true ->
  first_kept us = true ->
  transported (LFunction true code us)
  = LFunction true code (map (fun u => (u.1, if is_ENV u.1 then LGlobals else transported u.2)) us).
Proof.
  intros Hn Hlen H1 Hf. cbn [transported]. f_equal. unfold rebuild_upvalues.
  pose proof (fresh_kept code us Hn Hf) as H2. pose proof (Forall2_length _ _ _ H2) as Hl.
  pose proof (set_env_spec us 1 [] (fresh_upvalues code)) as Henv. rewrite !app_nil_l in Henv.
  rewrite Henv by done. cbn [mbind option_bind].
  pose proof (fun base => set_upvalues_loaded us 1 [] base) as Hset.
  cbn [app] in Hset. rewrite Hset; [cbn [default]; by apply overwritten_names | ..];
    try done; [|lia].
  rewrite length_zip_with_l_eq; done.
Qed.
End Closures.

(** ** Theorems *)

Section Theorems.
Context `{L : LuaApi} {Lok : LuaApiOk L}.

(** What a save that returned 0 put into an empty ring buffer, loaded back. *)
Lemma saved_then_loaded oop upval v rb rs st' :
  upval = 0 \/ upval = 1 -> wf v = true -> ring_ok rb -> contents rb = [] ->
  rb_save oop upval v (mk_sv rb rs) = Done 0 st' ->
  exists rb', rb_load (sv_rb st') = Done (LdVal (transported v)) rb' /\
    ring_ok rb' /\ contents rb' = [].
Proof.
  intros Hu Hwf Hok Hc E. destruct (save_zero _ _ _ _ _ E) as [bs Eb].
  destruct (save_saved _ _ _ _ (mk_sv rb rs) _ Hok Eb E) as [A _]. cbn [sv_rb] in A.
  pose proof (appended_rcb _ _ _ Hok A) as Hr.
  pose proof A as [Hok' Hc' _ _ _ _]. rewrite Hc, app_nil_l in Hc'.
  pose proof (ring_bounds _ Hok') as Hb.
  assert (loads (rb_load_rcsv (load_fuel (sv_rb st')) false) bs (LdVal (transported v))) as Hl.
  { eapply load_back; try done. unfold load_fuel. rewrite zlen_fmap in Hr.
    destruct (ring_bounds rb Hok). unfold zlen in *. lia. }
  rewrite <- (app_nil_r (Some <$> bs)) in Hc'. destruct (Hl _ _ Hb Hc') as (rb' & E' & C).
  exists rb'. split; [exact E'|]. split; [by eapply consumed_ring|].
  rewrite (consumed_contents _ _ _ Hb C), Hc'. apply zdrop_zdrop_app, zlen_fmap.
Qed.

(** C2: when [rb_save] returns 0 on a well-formed value, [rb_load] on the bytes it
    wrote returns the value's copy (same structure, metatables looked up by their
    saved names, closures rebuilt), reads exactly those bytes, and the boxed
    pointers of the value have each been retained once. *)
Theorem save_load_roundtrip oop upval v rb rs st' :
  upval = 0 \/ upval = 1 -> wf v = true -> ring_ok rb -> contents rb = [] ->
  rb_save oop upval v (mk_sv rb rs) = Done 0 st' ->
  sv_retained st' = rs ++ retains v /\
  exists rb', rb_load (sv_rb st') = Done (LdVal (transported v)) rb' /\
    ring_ok rb' /\ contents rb' = [].
Proof.
  intros Hu Hwf Hok Hc E. split; [|by eapply saved_then_loaded].
  destruct (save_zero _ _ _ _ _ E) as [bs Eb].
  by destruct (save_saved _ _ _ _ (mk_sv rb rs) _ Hok Eb E).
Qed.

(** Nil, booleans, numbers, strings and tables of them come back equal, in and
    out of process. *)
Theorem plain_data_roundtrip oop v rb rs st' :
  plain v = true -> wf v = true -> ring_ok rb -> contents rb = [] ->
  rb_save oop 0 v (mk_sv rb rs) = Done 0 st' ->
  exists rb', rb_load (sv_rb st') = Done (LdVal v) rb' /\ contents rb' = [].
Proof.
  intros Hp Hwf Hok Hc E.
  destruct (saved_then_loaded oop 0 v rb rs st') as (rb' & El & _ & Hc'); auto.
  rewrite plain_transported in El by done. eauto.
Qed.

(** C30: a value [rb_save] accepts is saved whole when its encoding fits the free
    space, and otherwise refused with [-ENOMEM]; never undefined behaviour.
    (Tables with functions as keys excepted, see
    [function_key_save_raises].) *)
Theorem save_fits_or_ENOMEM oop upval v bs st :
  enc oop upval v = Some bs -> no_function_keys v = true -> ring_ok (sv_rb st) ->
  exists st', rb_save oop upval v st
      = Done (if zlen bs <=? free_space (sv_rb st) then 0 else - ENOMEM) st' /\
    ring_ok (sv_rb st').
Proof.
  intros Eb Hk Hok. destruct (save_writes oop upval v bs Eb st Hok) as [F N].
  rewrite Hk in N. destruct (Z.leb_spec (zlen bs) (free_space (sv_rb st))) as [Hf|Hf].
  - destruct (F Hf) as (rb' & E & []). eauto.
  - destruct (N Hf) as (l & st' & [E|[? _]] & []); [eauto|done].
Qed.


(** A save that returns 0 with [oop] set (to a socket or an [ipc.map] result)
    holds no userdata: no pointer leaves the process and nothing was retained. *)
Theorem oop_save_holds_no_pointer oop upval v st st' :
  oop <> 0 -> ring_ok (sv_rb st) -> rb_save oop upval v st = Done 0 st' ->
  retains v = [] /\ sv_retained st' = sv_retained st.
Proof.
  intros Ho Hok E. destruct (save_zero _ _ _ _ _ E) as [bs Eb].
  destruct (save_saved _ _ _ _ _ _ Hok Eb E) as [_ Hr].
  rewrite (enc_oop_retains _ _ _ _ Ho Eb), app_nil_r in Hr.
  by rewrite (enc_oop_retains _ _ _ _ Ho Eb).
Qed.

(** The fuel of [rb_load] is never used up, on any bytes, well-formed or not: it returns, raises,
    or gets to where an ignored error has left the stack short ([rb_load_rcsv]). *)
Theorem load_terminates rb : rb_bounds rb -> rb_load rb <> NoFuel.
Proof. apply load_ends_top. Qed.

(** C28: a closure saved with its upvalues comes back with the same bytecode, every
    upvalue a copy of the one saved and [_ENV] the global table of the reader,
    provided its first upvalue is not nil (or is [_ENV], or the Lua is 5.1). *)
Theorem closure_roundtrip code us rb rs st' :
  wf (LFunction true code us) = true -> one_ENV us = true -> first_kept us = true ->
  ring_ok rb -> contents rb = [] ->
  rb_save 0 1 (LFunction true code us) (mk_sv rb rs) = Done 0 st' ->
  exists rb', rb_load (sv_rb st') = Done (LdVal (LFunction true code
      (map (fun u => (u.1, if is_ENV u.1 then LGlobals else transported u.2)) us))) rb' /\
    contents rb' = [].
Proof.
  intros Hwf H1 Hf Hok Hc E.
  destruct (saved_then_loaded 0 1 _ rb rs st' (or_intror eq_refl) Hwf Hok Hc E)
    as (rb' & El & _ & Hc').
  exists rb'. split; [|done]. rewrite El. do 2 f_equal. cbn [wf] in Hwf.
  apply andb_prop in Hwf as [[[[_ _]%andb_prop Hlen]%andb_prop Hn]%andb_prop _].
  apply bool_decide_eq_true in Hn. apply closure_transported; try done. lia.
Qed.

(** From Lua 5.2 on, a closure whose first upvalue is nil does not come back
    as it was: that upvalue is the global table after the trip. *)
Theorem nil_first_upvalue_becomes_globals code name rb rs st' :
  502 <= LUA_VERSION_NUM -> is_ENV name = false ->
  wf (LFunction true code [(name, LNil)]) = true -> ring_ok rb -> contents rb = [] ->
  rb_save 0 1 (LFunction true code [(name, LNil)]) (mk_sv rb rs) = Done 0 st' ->
  exists rb', rb_load (sv_rb st')
    = Done (LdVal (LFunction true code [(name, LGlobals)])) rb'.
Proof.
  intros Hv Hn Hwf Hok Hc E.
  destruct (saved_then_loaded 0 1 _ rb rs st' (or_intror eq_refl) Hwf Hok Hc E)
    as (rb' & El & _).
  exists rb'. rewrite El. do 3 f_equal. cbn [wf] in Hwf.
  apply andb_prop in Hwf as [[_ Hnames]%andb_prop _]. apply bool_decide_eq_true in Hnames.
  cbn [transported env_index loaded_upvalues fst]. rewrite Hn. unfold rebuild_upvalues, fresh_upvalues.
  rewrite Hnames. cbn. by rewrite (proj2 (Z.leb_le _ _) Hv).
Qed.
End Theorems.

(** ** Concrete runs *)

(** A table with an array part, a nested table and a string key. *)
Definition sample_data : lua_value :=
  LTable [(LInteger 1, LString (str "a")); (LInteger 2, LBoolean true);
          (LString (str "k"), LTable [(LInteger 1, LNumber 4607182418800017408)] None)] None.

(** The same with a boxed channel and a metatable. *)
Definition sample_shared : lua_value :=
  LTable [(LString (str "c"),
             LUserdata 4096 (Some (mk_mt None (Some (str "ipc.channel")) true)))]
    (Some (mk_mt None (Some (str "my.class")) false)).

(** A closure with [_ENV] and one more upvalue. *)
Definition sample_closure : lua_value :=
  LFunction true [Byte.x03; Byte.x00; Byte.x78]
    [(str_ENV, LGlobals); ([Byte.x78], LInteger 7)].

Section Runs.
#[local] Existing Instance RefLua.api_ok.
#[local] Instance lua53 : LuaApi := RefLua.api 503 false.

Lemma save_load_roundtrip_witness :
  let st := mk_sv (ringbuffer_create 256) [] in
  let st' := end_state (rb_save 0 0 sample_shared) st in
  sv_retained st' = [4096] /\
  exists rb', rb_load (sv_rb st') = Done (LdVal (transported sample_shared)) rb' /\
    ring_ok rb' /\ contents rb' = [].
Proof.
  apply (save_load_roundtrip 0 0 sample_shared (ringbuffer_create 256) []);
    [by left | vm_compute; reflexivity | by apply create_ok | reflexivity
    | vm_compute; reflexivity].
Defined.

Lemma plain_data_roundtrip_witness :
  let st := mk_sv (ringbuffer_create 256) [] in
  exists rb', rb_load (sv_rb (end_state (rb_save 1 0 sample_data) st))
    = Done (LdVal sample_data) rb' /\ contents rb' = [].
Proof.
  apply (plain_data_roundtrip 1 sample_data (ringbuffer_create 256) []);
    [reflexivity | vm_compute; reflexivity | by apply create_ok | reflexivity
    | vm_compute; reflexivity].
Defined.

Lemma save_fits_or_ENOMEM_witness :
  let st := mk_sv (ringbuffer_create 20) [] in
  exists st', rb_save 0 0 sample_data st = Done (- ENOMEM) st' /\ ring_ok (sv_rb st').
Proof.
  destruct (save_fits_or_ENOMEM 0 0 sample_data (default [] (enc 0 0 sample_data))
    (mk_sv (ringbuffer_create 20) [])) as (st' & E & Hok);
    [vm_compute; reflexivity | reflexivity | by apply create_ok |].
  exists st'. split; [|exact Hok]. cbv zeta. rewrite E.
  by replace (zlen _ <=? _) with false by (vm_compute; reflexivity).
Defined.


Lemma oop_save_holds_no_pointer_witness :
  let st := mk_sv (ringbuffer_create 256) [] in
  retains sample_data = [] /\
  sv_retained (end_state (rb_save 1 0 sample_data) st) = sv_retained st.
Proof.
  apply (oop_save_holds_no_pointer 1 0 sample_data (mk_sv (ringbuffer_create 256) []));
    [done | by apply create_ok | vm_compute; reflexivity].
Defined.

Lemma load_terminates_witness : rb_load (ringbuffer_create 8) <> NoFuel.
Proof. apply (load_terminates (ringbuffer_create 8)). by apply create_ok. Defined.

Lemma closure_roundtrip_witness :
  let st := mk_sv (ringbuffer_create 256) [] in
  exists rb', rb_load (sv_rb (end_state (rb_save 0 1 sample_closure) st))
    = Done (LdVal sample_closure) rb' /\ contents rb' = [].
Proof.
  apply (closure_roundtrip [Byte.x03; Byte.x00; Byte.x78]
    [(str_ENV, LGlobals); ([Byte.x78], LInteger 7)] (ringbuffer_create 256) []);
    [vm_compute; reflexivity | reflexivity | reflexivity | by apply create_ok | reflexivity
    | vm_compute; reflexivity].
Defined.

Lemma nil_first_upvalue_becomes_globals_witness :
  let f x := LFunction true [Byte.x02; Byte.x78] [([Byte.x78], x)] in
  exists rb', rb_load (sv_rb (end_state (rb_save 0 1 (f LNil))
      (mk_sv (ringbuffer_create 256) [])))
    = Done (LdVal (f LGlobals)) rb'.
Proof.
  apply (nil_first_upvalue_becomes_globals [Byte.x02; Byte.x78] [Byte.x78]
    (ringbuffer_create 256) []);
    [cbn; lia | reflexivity | vm_compute; reflexivity | by apply create_ok | reflexivity
    | vm_compute; reflexivity].
Defined.

(** A table with a closure as a key, saved where it does not fit, does not
    return [-ENOMEM] (which the callers answer by growing the buffer) but raises a
    stack error, when the space runs out inside the closure's upvalue table. *)
Theorem function_key_save_raises :
  let f := LFunction true [Byte.x02; Byte.x78] [([Byte.x78], LInteger 1)] in
  let v := LTable [(f, LBoolean true)] None in
  (exists bs, enc 0 1 v = Some bs /\ zlen bs = 75) /\
  (exists st', rb_save 0 1 v (mk_sv (ringbuffer_create 50) [])
    = Raised (ErrLua str_stack_key) st') /\
  (exists st', rb_save 0 1 v (mk_sv (ringbuffer_create 20) []) = Done (- ENOMEM) st').
Proof.
  cbv zeta. split; [|split]; eexists; [split|..]; vm_compute; reflexivity.
Qed.
End Runs.
