(* ===== verification/Object.v ===== *)
(** * Shared objects: pointers boxed in Lua userdata, and reference counts.

    A channel, workqueue, marshal buffer, mutex or shared table is a C object that
    several userdata, in several Lua states, point to.  [world T] is the objects of
    one kind by address, with the log of the [retain] calls [rb_save] made. *)
From S2P Require Import Prelude.

(** [THAtomicIncrementRef] and [THAtomicDecrementRef] of the TH library, which is
    not part of the repository: the new count, and whether it is the last release. *)
Class THAtomic := {
  THAtomicIncrementRef : Z -> Z;
  THAtomicDecrementRef : Z -> Z * bool;
}.

Class THAtomicOk `(T : THAtomic) : Prop := {
  TH_increment r : THAtomicIncrementRef r = r + 1;
  TH_decrement r : THAtomicDecrementRef r = (r - 1, r - 1 =? 0);
}.

(** Counting, for evaluation. *)
Definition ref_TH : THAtomic := {|
  THAtomicIncrementRef r := r + 1;
  THAtomicDecrementRef r := (r - 1, r - 1 =? 0);
|}.

#[export] Instance ref_TH_ok : THAtomicOk ref_TH.
Proof. by split. Qed.

Record world (T : Type) := mk_world { objs : gmap Z T; retain_log : list Z }.
Arguments mk_world {T} objs retain_log.
Arguments objs {T} w.
Arguments retain_log {T} w.

(** A method on the object a userdata boxes: it raises on NULL, and touching a
    freed object is undefined. *)
Definition on_object {T A} (ud : option Z) (null_msg : list byte) (m : M (T * list Z) A)
  : M (world T) A := fun w =>
  match ud with
  | None => Raised (ErrStr null_msg) w
  | Some p =>
      match objs w !! p with
      | None => Undef
      | Some o =>
          let upd (s : T * list Z) := mk_world (<[p := s.1]> (objs w)) s.2 in
          match m (o, retain_log w) with
          | Done a s => Done a (upd s)
          | Raised e s => Raised e (upd s)
          | Blocked s => Blocked (upd s)
          | Undef => Undef
          | NoFuel => NoFuel
          end
      end
  end.

(** Releasing a reference: the object is freed with the last one. *)
Definition release {T} `{THAtomic} (refcount : T -> Z) (set_refcount : Z -> T -> T)
    (p : Z) (w : world T) : option (bool * world T) :=
  match objs w !! p with
  | None => None
  | Some o =>
      let '(r, last) := THAtomicDecrementRef (refcount o) in
      Some (last, mk_world (if last then delete p (objs w)
                            else <[p := set_refcount r o]> (objs w)) (retain_log w))
  end.
