(* ===== verification/DList.v ===== *)
(** * Doubly linked lists threaded through objects.

    The named workqueues and the clients of a server are lists of this kind: each
    object has a [next] and a [prev] pointer, and a head points to the first.  The
    objects are a map by address; [linked m l] says that the list goes through the
    addresses [l]. *)
From S2P Require Import Prelude.

(** The element before position [i]. *)
Definition before (l : list Z) (i : nat) : option Z :=
  match i with O => None | S j => l !! j end.

(** ** A list with one element more or less *)

Section Middle.
Context (l1 l2 : list Z) (p : Z).

Lemma mid_before i : (i < length l1)%nat -> (l1 ++ p :: l2) !! i = (l1 ++ l2) !! i.
Proof. intros. by rewrite !lookup_app_l. Qed.

Lemma mid_after i : (length l1 <= i)%nat -> (l1 ++ p :: l2) !! S i = (l1 ++ l2) !! i.
Proof.
  intros. rewrite !lookup_app_r by lia.
  by replace (S i - length l1)%nat with (S (i - length l1)) by lia.
Qed.

Lemma mid_here : (l1 ++ p :: l2) !! length l1 = Some p.
Proof. by rewrite lookup_app_r, Nat.sub_diag. Qed.

(** An index of the shorter list, in the longer one. *)
Lemma mid_index i x :
  (l1 ++ l2) !! i = Some x ->
  (i < length l1)%nat /\ (l1 ++ p :: l2) !! i = Some x \/
  (length l1 <= i)%nat /\ (l1 ++ p :: l2) !! S i = Some x.
Proof.
  intros H. destruct (decide (i < length l1)%nat).
  - left. split; [done|]. by rewrite mid_before.
  - right. split; [lia|]. by rewrite mid_after by lia.
Qed.
End Middle.

Section DList.
Context {T : Type} (next prev : T -> option Z) (set_next set_prev : option Z -> T -> T).
(** What the objects of the list have in common, whatever their links. *)
Context (P : T -> Prop).
Hypothesis next_set_next : forall x w, next (set_next x w) = x.
Hypothesis next_set_prev : forall x w, next (set_prev x w) = next w.
Hypothesis prev_set_prev : forall x w, prev (set_prev x w) = x.
Hypothesis prev_set_next : forall x w, prev (set_next x w) = prev w.
Hypothesis P_set_next : forall x w, P w -> P (set_next x w).
Hypothesis P_set_prev : forall x w, P w -> P (set_prev x w).

Definition linked_by (m : gmap Z T) (l : list Z) : Prop :=
  forall i p, l !! i = Some p ->
  exists w, m !! p = Some w /\ next w = l !! S i /\ prev w = before l i /\ P w.

Lemma linked_by_in m l p : linked_by m l -> p ∈ l -> exists w, m !! p = Some w /\ P w.
Proof.
  intros H [i Hi]%list_elem_of_lookup. destruct (H i p Hi) as (w & ? & _ & _ & ?). eauto.
Qed.

Lemma linked_by_size m l : NoDup l -> linked_by m l -> (length l <= size m)%nat.
Proof.
  intros Hnd Hl. rewrite <- size_dom, <- (size_list_to_set (C := gset Z) l) by done.
  apply subseteq_size. intros p Hp%elem_of_list_to_set. apply elem_of_dom.
  destruct (linked_by_in m l p Hl Hp) as (w & ? & _). by exists w.
Qed.

(** *** Insertion at the head *)

Definition pushed (m : gmap Z T) (p : Z) (w : T) (l : list Z) : gmap Z T :=
  match l with
  | [] => m
  | h :: _ => <[p := set_next (Some h) w]> (alter (set_prev (Some p)) h m)
  end.

Lemma pushed_linked m p w l :
  NoDup l -> linked_by m l -> p ∉ l -> m !! p = Some w -> next w = None -> prev w = None ->
  P w -> linked_by (pushed m p w l) (p :: l).
Proof.
  intros Hnd Hl Hp Hw Hnx Hpv HP. destruct l as [|h l]; cbn [pushed].
  - intros [|i] q Hq; [|done]. cbn in *. simplify_eq. exists w. by rewrite Hnx, Hpv.
  - intros [|i] q Hq; cbn in Hq; simplify_eq.
    + exists (set_next (Some h) w). rewrite lookup_insert_eq, next_set_next, prev_set_next, Hpv.
      cbn. auto.
    + assert (q <> p) as Hqp by (intros ->; apply Hp; by eapply list_elem_of_lookup_2).
      rewrite lookup_insert_ne by done.
      destruct (Hl i q Hq) as (wq & Ewq & Hn & Hpr & HPq).
      destruct i as [|i]; cbn in Hq; simplify_eq.
      { exists (set_prev (Some p) wq). rewrite lookup_alter_eq, Ewq, next_set_prev, prev_set_prev.
        cbn in *. auto. }
      exists wq. split; [|by cbn in *].
      rewrite lookup_alter_ne; [done|]. intros ->. apply NoDup_cons in Hnd as [Hnin _].
      apply Hnin. by eapply list_elem_of_lookup_2.
Qed.

(** *** Removal *)

(** The map after the removal: the neighbours point past the object. *)
Definition unlinked (m : gmap Z T) (w : T) : gmap Z T :=
  let m1 := match next w with
            | Some n => alter (set_prev (prev w)) n m | None => m end in
  match prev w with Some q => alter (set_next (next w)) q m1 | None => m1 end.

(** The neighbours are the only ones that change. *)
Lemma unlinked_lookup m w x wx :
  m !! x = Some wx ->
  unlinked m w !! x =
  Some (let w1 := if bool_decide (next w = Some x) then set_prev (prev w) wx else wx in
        if bool_decide (prev w = Some x) then set_next (next w) w1 else w1).
Proof.
  intros Hx. unfold unlinked. set (m1 := match next w with Some _ => _ | None => m end).
  assert (m1 !! x = Some (if bool_decide (next w = Some x) then set_prev (prev w) wx else wx))
    as Hm1.
  { subst m1. destruct (next w) as [n|]; [|by rewrite bool_decide_false].
    destruct (decide (n = x)) as [->|Hn].
    - by rewrite bool_decide_true, lookup_alter_eq, Hx.
    - by rewrite bool_decide_false, lookup_alter_ne by congruence. }
  destruct (prev w) as [q|]; [|by rewrite (bool_decide_false (None = _))].
  destruct (decide (q = x)) as [->|Hq].
  - rewrite (bool_decide_true (Some x = Some x)) by done. by rewrite lookup_alter_eq, Hm1.
  - rewrite (bool_decide_false (Some q = Some x)) by congruence. by rewrite lookup_alter_ne.
Qed.

Section At.
Context (l1 l2 : list Z) (p : Z).

(** The neighbours of the object removed. *)
Lemma linked_next m w x :
  NoDup (l1 ++ p :: l2) -> linked_by m (l1 ++ p :: l2) -> m !! p = Some w ->
  next w = Some x -> x <> p /\ is_Some (m !! x).
Proof.
  intros Hnd Hl Hw Hx. destruct (Hl _ _ (mid_here l1 l2 p)) as (w0 & E0 & Hn0 & _).
  rewrite Hw in E0. injection E0 as <-. rewrite Hn0 in Hx.
  destruct (Hl _ _ Hx) as (wx & Ewx & _). split; [|eauto].
  intros ->. pose proof (NoDup_lookup _ _ _ _ Hnd Hx (mid_here l1 l2 p)). lia.
Qed.

Lemma linked_prev m w x :
  NoDup (l1 ++ p :: l2) -> linked_by m (l1 ++ p :: l2) -> m !! p = Some w ->
  prev w = Some x -> x <> p /\ is_Some (m !! x).
Proof.
  intros Hnd Hl Hw Hx. destruct (Hl _ _ (mid_here l1 l2 p)) as (w0 & E0 & _ & Hp0 & _).
  rewrite Hw in E0. injection E0 as <-. rewrite Hp0 in Hx.
  destruct (length l1) as [|k] eqn:Ek; [done|]. cbn in Hx.
  destruct (Hl _ _ Hx) as (wx & Ewx & _). split; [|eauto].
  intros ->. pose proof (mid_here l1 l2 p) as Hm. rewrite Ek in Hm.
  pose proof (NoDup_lookup _ _ _ _ Hnd Hx Hm). lia.
Qed.

(** The head after the removal. *)
Lemma removed_head m w h :
  NoDup (l1 ++ p :: l2) -> linked_by m (l1 ++ p :: l2) -> m !! p = Some w ->
  h = head (l1 ++ p :: l2) ->
  (if bool_decide (h = Some p) then next w else h) = head (l1 ++ l2).
Proof.
  intros Hnd Hl Hw ->. destruct (Hl _ _ (mid_here l1 l2 p)) as (w0 & E0 & Hn0 & _).
  rewrite Hw in E0. injection E0 as <-. destruct l1 as [|h l1']; cbn.
  - rewrite bool_decide_true by done. rewrite Hn0. by destruct l2.
  - rewrite bool_decide_false; [done|]. intros [= ->]. cbn in Hnd.
    apply NoDup_cons in Hnd as [Hnin _]. apply Hnin. apply elem_of_app. right. left.
Qed.

Lemma unlinked_linked m w :
  NoDup (l1 ++ p :: l2) -> linked_by m (l1 ++ p :: l2) -> m !! p = Some w ->
  linked_by (unlinked m w) (l1 ++ l2).
Proof.
  intros Hnd Hl Hw i x Hx.
  destruct (Hl _ _ (mid_here l1 l2 p)) as (w0 & E0 & Hn0 & Hp0 & _). rewrite Hw in E0.
  injection E0 as <-.
  assert (forall j k, (l1 ++ p :: l2) !! j = Some x -> (l1 ++ p :: l2) !! k = Some x -> j = k)
    as Hinj by (intros; by eapply NoDup_lookup).
  destruct (mid_index l1 l2 p i x Hx) as [[Hi Hx']|[Hi Hx']];
    destruct (Hl _ _ Hx') as (wx & Ex & Hnx & Hpx & Hnm);
    rewrite (unlinked_lookup m w x wx Ex); cbv zeta; (eexists; split; [done|]).
  - rewrite (bool_decide_false (next w = Some x))
      by (rewrite Hn0; intros E; specialize (Hinj _ _ E Hx'); lia).
    assert (before (l1 ++ l2) i = before (l1 ++ p :: l2) i) as ->
      by (destruct i; [done|]; cbn; by rewrite mid_before by lia).
    case_bool_decide as Hq; rewrite ?next_set_next, ?prev_set_next; (split; [|by auto]).
    + rewrite Hp0 in Hq. destruct (length l1) as [|k] eqn:Ek; [done|]. cbn in Hq.
      specialize (Hinj _ _ Hq Hx'). subst k. rewrite Hn0. by rewrite mid_after by lia.
    + rewrite Hnx. destruct (decide (S i = length l1)) as [E|E]; [|by rewrite mid_before by lia].
      destruct Hq. rewrite Hp0, <- E. exact Hx'.
  - rewrite (bool_decide_false (prev w = Some x)).
    2:{ rewrite Hp0. intros E. destruct (length l1) as [|k] eqn:Ek; [done|]. cbn in E.
        specialize (Hinj _ _ E Hx'). lia. }
    assert ((l1 ++ p :: l2) !! S (S i) = (l1 ++ l2) !! S i) as Hss by (apply mid_after; lia).
    case_bool_decide as Hn; rewrite ?next_set_prev, ?prev_set_prev;
      (split; [by rewrite Hnx|]; split; [|by auto]).
    + rewrite Hn0 in Hn. specialize (Hinj _ _ Hn Hx'). injection Hinj as <-. rewrite Hp0.
      destruct (length l1) eqn:Ek; [done|]. cbn. by rewrite mid_before by lia.
    + rewrite Hpx. cbn. destruct (decide (i = length l1)) as [->|E].
      * destruct Hn. rewrite Hn0. exact Hx'.
      * destruct i as [|i]; [lia|]. cbn. by rewrite mid_after by lia.
Qed.
End At.
End DList.
