(* ===== verification/Channel.v ===== *)
(** * Channels ([src/channel.c], [src/channel.h]). *)
From S2P Require Import Prelude RingBuffer Lua Serialize Growth Fifo Pthread Object.

#[local] Open Scope ipc_scope.

Definition STATUS_OPEN : Z := 0.
Definition STATUS_CLOSED : Z := 1.
Definition STATUS_DRAINED : Z := 2.
Definition DEFAULT_CHANNEL_SIZE : Z := 16 * 1024.

Record channel_t := mk_channel {
  rb : ringbuffer_t;
  mutex : pmutex;
  read_avail_cond : cond_t;
  closed : bool;
  drained : bool;
  num_items : Z;
  refcount : Z;
  size_increment : Z;
}.

Definition set_rb x c := mk_channel x (mutex c) (read_avail_cond c) (closed c) (drained c)
  (num_items c) (refcount c) (size_increment c).
Definition set_mutex x c := mk_channel (rb c) x (read_avail_cond c) (closed c) (drained c)
  (num_items c) (refcount c) (size_increment c).
Definition set_cond x c := mk_channel (rb c) (mutex c) x (closed c) (drained c)
  (num_items c) (refcount c) (size_increment c).
Definition set_closed x c := mk_channel (rb c) (mutex c) (read_avail_cond c) x (drained c)
  (num_items c) (refcount c) (size_increment c).
Definition set_drained x c := mk_channel (rb c) (mutex c) (read_avail_cond c) (closed c) x
  (num_items c) (refcount c) (size_increment c).
Definition set_num x c := mk_channel (rb c) (mutex c) (read_avail_cond c) (closed c) (drained c)
  x (refcount c) (size_increment c).
Definition set_refcount x c := mk_channel (rb c) (mutex c) (read_avail_cond c) (closed c)
  (drained c) (num_items c) x (size_increment c).

(** The state of a method: the channel and the log of [retain] calls. *)
Definition cst : Type := channel_t * list Z.

Definition upd (f : channel_t -> channel_t) : M cst unit := modify_st (fun s => (f s.1, s.2)).
Definition get_ch : M cst channel_t := fun s => Done s.1 s.

Definition lock (t : Z) : M cst unit := fun s =>
  match pthread_mutex_lock t (mutex s.1) with
  | Some m => Done tt (set_mutex m s.1, s.2)
  | None => Blocked s
  end.

Definition unlock (t : Z) : M cst unit := fun s =>
  match pthread_mutex_unlock t (mutex s.1) with
  | Some m => Done tt (set_mutex m s.1, s.2)
  | None => Undef
  end.

Definition signal : M cst unit :=
  upd (fun c => set_cond (pthread_cond_signal (read_avail_cond c)) c).
Definition broadcast : M cst unit :=
  upd (fun c => set_cond (pthread_cond_broadcast (read_avail_cond c)) c).

(** [pthread_cond_wait]: asleep, with the mutex released.  A woken thread takes the
    mutex again and starts the loop of [channel_read] over, which is calling
    [channel_read] again. *)
Definition cond_wait {A} (t : Z) : M cst A := fun s =>
  match pthread_mutex_unlock t (mutex s.1) with
  | Some m =>
      Blocked (set_cond (cond_enqueue t (read_avail_cond s.1)) (set_mutex m s.1), s.2)
  | None => Undef
  end.

(** Serialization on the channel's ring buffer. *)
Definition on_core {A} : M qcore A -> M cst A :=
  zoom (fun s => mk_qc (mk_sv (rb s.1) s.2) (num_items s.1))
    (fun q s => (set_num (qc_num q) (set_rb (sv_rb (qc_sv q)) s.1), sv_retained (qc_sv q))).
Definition on_rb {A} : M ringbuffer_t A -> M cst A :=
  zoom (fun s => rb s.1) (fun r s => (set_rb r s.1, s.2)).

Definition channel_init_queue (size : Z) (c : channel_t) : channel_t :=
  set_rb (ringbuffer_create size) (set_cond [] (set_mutex (mutex_init true) c)).

(** The object [channel_create] boxes. *)
Definition channel_create : channel_t :=
  let c := mk_channel (ringbuffer_create 0) (mutex_init false) [] false false 0 1 0 in
  let c := channel_init_queue DEFAULT_CHANNEL_SIZE c in
  mk_channel (rb c) (mutex c) (read_avail_cond c) (closed c) (drained c) (num_items c)
    (refcount c) DEFAULT_CHANNEL_SIZE.

(** The methods: [t] is the calling thread. *)
Definition channel_close (t : Z) : M cst unit :=
  lock t ;;;
  let! c := get_ch in
  (if negb (closed c) then
     upd (set_closed true) ;;;
     (if num_items c =? 0 then upd (set_drained true) else mret tt) ;;;
     broadcast
   else mret tt) ;;;
  unlock t.

Definition channel_closed (t : Z) : M cst bool :=
  lock t ;;; let! c := get_ch in unlock t ;;; mret (closed c).

Definition channel_drained (t : Z) : M cst bool :=
  lock t ;;; let! c := get_ch in unlock t ;;; mret (drained c).

Definition channel_num_items (t : Z) : M cst Z :=
  lock t ;;; let! c := get_ch in unlock t ;;; mret (num_items c).

Section Methods.
Context `{L : LuaApi}.

(** Returns the status pushed and, when one was read, the value. *)
Definition channel_read (t : Z) (doNotBlock : bool) : M cst (Z * option lua_value) :=
  lock t ;;;
  let! c := get_ch in
  if negb (num_items c =? 0) then
    (if closed c && (num_items c =? 1) then upd (set_drained true) ;;; broadcast
     else mret tt) ;;;
    let status := if closed c then STATUS_CLOSED else STATUS_OPEN in
    let! ret := on_rb rb_load in
    upd (fun c => set_num (u32_sub (num_items c) 1) c) ;;;
    unlock t ;;;
    match ret with
    | LdErr code => raise (ErrCode code)
    | LdEnd => mret (status, None)
    | LdVal v => mret (status, Some v)
    end
  else if drained c then unlock t ;;; mret (STATUS_DRAINED, None)
  else if doNotBlock then
    unlock t ;;;
    mret (if drained c then STATUS_DRAINED else if closed c then STATUS_CLOSED
          else STATUS_OPEN, None)
  else cond_wait t.

(** [vs] are the arguments after the channel; [fuel] bounds the turns of the
    loop. *)
Definition channel_write (fuel : nat) (t : Z) (vs : list lua_value) : M cst Z :=
  lock t ;;;
  let! c := get_ch in
  if drained c then unlock t ;;; mret STATUS_DRAINED
  else if closed c then unlock t ;;; mret STATUS_CLOSED
  else
    let! ret := on_core (write_loop fuel (size_increment c) 0 vs) in
    if negb (ret =? 0) then unlock t ;;; raise (ErrCode (- ret))
    else signal ;;; unlock t ;;; mret STATUS_OPEN.
End Methods.

(** ** Life cycle *)

Definition str_invalid : list byte := str "invalid channel".

Section LifeCycle.
Context `{TH : THAtomic}.

(** Boxes a new channel at a free address. *)
Definition channel_new (p : Z) (w : world channel_t) : world channel_t :=
  mk_world (<[p := channel_create]> (objs w)) (retain_log w).

Definition channel_retain (t : Z) : M cst unit :=
  lock t ;;;
  upd (fun c => set_refcount (THAtomicIncrementRef (refcount c)) c) ;;;
  unlock t.

(** [__gc]: returns what the userdata boxes afterwards. *)
Definition channel_gc (t : Z) (ud : option Z) : M (world channel_t) (option Z) := fun w =>
  match ud with
  | None => Raised (ErrStr str_invalid) w
  | Some p =>
      match objs w !! p with
      | None => Undef
      | Some c =>
          match pthread_mutex_lock t (mutex c) with
          | None => Blocked w
          | Some m =>
              let '(r, last) := THAtomicDecrementRef (refcount c) in
              if last then
                Done None (mk_world (delete p (objs w)) (retain_log w))
              else
                match pthread_mutex_unlock t m with
                | None => Undef
                | Some m' =>
                    Done (Some p)
                      (mk_world (<[p := set_mutex m' (set_refcount r c)]> (objs w))
                         (retain_log w))
                end
          end
      end
  end.
End LifeCycle.

(** ** Representation: the queue of values a channel stands for *)

#[local] Arguments lock : simpl never.
#[local] Arguments unlock : simpl never.

Section Rep.
Context `{L : LuaApi} {Lok : LuaApiOk L}.

(** Between calls: nobody holds the mutex, the ring buffer holds the items, the
    counter counts them and [drained] is "closed and empty". *)
Record chan_rep (c : channel_t) (items : list lua_value) : Prop := {
  rep_holds : holds (rb c) items;
  rep_num : num_items c = zlen items;
  rep_max : zlen items < U32_MOD;
  rep_mutex : mutex c = mutex_init true;
  rep_inc : size_increment c = DEFAULT_CHANNEL_SIZE;
  rep_drained : drained c = closed c && (zlen items =? 0);
}.

Ltac rep_solve :=
  repeat match goal with
  | |- _ /\ _ => split
  | |- chan_rep _ _ => constructor
  end; cbn; try done; try lia.

Lemma create_rep : chan_rep channel_create [].
Proof. split; try done. by apply holds_create. Qed.

Lemma zlen_zero {A} (l : list A) : zlen l = 0 -> l = [].
Proof. destruct l; [done|]. rewrite zlen_cons. pose proof (zlen_nonneg l). lia. Qed.

(** The two ends of a critical section cancel out. *)
Lemma lock_run {A} t (k : unit -> M cst A) s :
  mutex s.1 = mutex_init true ->
  mbnd (lock t) k s = k tt (set_mutex (mk_mutex true (Some t) 1) s.1, s.2).
Proof. intros H. unfold mbnd, lock. by rewrite H. Qed.

Lemma unlock_run {A} t (k : unit -> M cst A) s :
  mutex s.1 = mk_mutex true (Some t) 1 ->
  mbnd (unlock t) k s = k tt (set_mutex (mutex_init true) s.1, s.2).
Proof.
  intros H. unfold mbnd, unlock, pthread_mutex_unlock. rewrite H. cbn. by rewrite Z.eqb_refl.
Qed.

Lemma unlock_last t s :
  mutex s.1 = mk_mutex true (Some t) 1 ->
  unlock t s = Done tt (set_mutex (mutex_init true) s.1, s.2).
Proof.
  intros H. unfold unlock, pthread_mutex_unlock. rewrite H. cbn. by rewrite Z.eqb_refl.
Qed.

(** Reading a field under the lock. *)
Lemma observe_spec {A} t (f : channel_t -> A) c log :
  mutex c = mutex_init true ->
  (lock t ;;; let! c := get_ch in unlock t ;;; mret (f c)) (c, log)
  = Done (f (set_mutex (mk_mutex true (Some t) 1) c)) (c, log).
Proof.
  intros H. rewrite lock_run by done. unfold get_ch at 1. unfold mbnd at 1.
  rewrite unlock_run by done. unfold mret. destruct c; cbn in *. by subst.
Qed.

(** *** The methods, branch by branch *)

Lemma channel_close_spec t c log items :
  chan_rep c items ->
  exists c', channel_close t (c, log) = Done tt (c', log) /\ chan_rep c' items /\
    closed c' = true /\ rb c' = rb c /\ refcount c' = refcount c /\
    read_avail_cond c' = (if closed c then read_avail_cond c else []).
Proof.
  intros []. unfold channel_close. rewrite lock_run by done. unfold get_ch at 1.
  unfold mbnd at 1. cbn [fst snd]. destruct c as [r m cv cl dr n rc inc]; cbn in *. subst m.
  destruct cl; cbn.
  - unfold mbnd, mret. rewrite unlock_last by done. cbn. eexists. split; [done|]. rep_solve.
  - destruct (Z.eqb_spec n 0); unfold mbnd, upd, mret, modify_st, broadcast; cbn;
      rewrite unlock_last by done; cbn; eexists; (split; [done|]); rep_solve;
      case_cmp; try done; lia.
Qed.

Lemma read_item t nb c log v items :
  chan_rep c (v :: items) ->
  exists c', channel_read t nb (c, log)
      = Done (if closed c then STATUS_CLOSED else STATUS_OPEN, Some (transported v)) (c', log) /\
    chan_rep c' items /\ closed c' = closed c /\ rcb (rb c') <= rcb (rb c) /\
    refcount c' = refcount c /\
    read_avail_cond c' = (if closed c && (zlen items =? 0) then [] else read_avail_cond c).
Proof.
  intros [Hh Hn Hm Hmu Hi Hd]. destruct (holds_load _ _ _ Hh) as (rb' & El & Hh' & _ & Hr).
  rewrite zlen_cons in *. pose proof (zlen_nonneg items).
  unfold channel_read. rewrite lock_run by done.
  destruct c as [r m cv cl dr n rc inc]; cbn in *. subst m n.
  cbn.
  rewrite (proj2 (Z.eqb_neq (1 + zlen items) 0)) in * by lia. cbn [negb].
  rewrite andb_false_r in Hd. subst dr.
  assert (u32_sub (1 + zlen items) 1 = zlen items) as Hsub.
  { unfold u32_sub, U32_MOD in *. rewrite Z.mod_small; lia. }
  replace (1 + zlen items =? 1) with (zlen items =? 0) by (case_cmp; try done; lia).
  destruct cl; cbn [andb]; [destruct (Z.eqb_spec (zlen items) 0)|];
    unfold mbnd, upd, mret, modify_st, broadcast, on_rb, zoom; cbn; rewrite El; cbn;
    rewrite unlock_last by done; cbn; rewrite Hsub; eexists; (split; [done|]);
    rep_solve; case_cmp; try done; lia.
Qed.

Lemma read_empty t nb c log :
  chan_rep c [] -> closed c || nb = true ->
  channel_read t nb (c, log)
  = Done (if closed c then STATUS_DRAINED else STATUS_OPEN, None) (c, log).
Proof.
  intros [Hh Hn Hm Hmu Hi Hd] Hc. unfold channel_read. rewrite lock_run by done.
  destruct c as [r m cv cl dr n rc inc]; cbn in *. subst m n.
  change (zlen (@nil lua_value)) with 0 in *. cbn in *. subst dr.
  destruct cl; cbn in *; [|subst nb; cbn]; unfold mbnd, mret; rewrite unlock_last by done; done.
Qed.

Lemma read_sleeps t c log :
  chan_rep c [] -> closed c = false ->
  exists c', channel_read t false (c, log) = Blocked (c', log) /\ chan_rep c' [] /\
    closed c' = false /\ rb c' = rb c /\ refcount c' = refcount c /\
    read_avail_cond c' = read_avail_cond c ++ [t].
Proof.
  intros [Hh Hn Hm Hmu Hi Hd] Hc. unfold channel_read. rewrite lock_run by done.
  destruct c as [r m cv cl dr n rc inc]; cbn in *. subst m n dr cl.
  change (zlen (@nil lua_value)) with 0 in *. cbn. unfold cond_wait, pthread_mutex_unlock. cbn. rewrite Z.eqb_refl. cbn.
  eexists. split; [done|]. rep_solve.
Qed.

(** The turns [channel_write] may need on this channel. *)
Definition channel_write_fuel (c : channel_t) (vs : list lua_value) : nat :=
  loop_fuel (mk_qc (mk_sv (rb c) []) (num_items c)) 0 vs.

Lemma write_open t fuel c log items vs :
  chan_rep c items -> closed c = false -> forallb (writable 0) vs = true ->
  zlen items + zlen vs < U32_MOD ->
  rcb (rb c) + total_len 0 vs + DEFAULT_CHANNEL_SIZE < 2 ^ 63 ->
  (channel_write_fuel c vs <= fuel)%nat ->
  exists c' log', channel_write fuel t vs (c, log) = Done STATUS_OPEN (c', log') /\
    chan_rep c' (items ++ vs) /\ closed c' = false /\
    rcb (rb c') = rcb (rb c) + total_len 0 vs /\ refcount c' = refcount c /\
    read_avail_cond c' = tail (read_avail_cond c).
Proof.
  intros [Hh Hn Hm Hmu Hi Hd] Hc Hvs Hnum Hmax Hf.
  pose proof (zlen_nonneg items). pose proof (zlen_nonneg vs).
  destruct (write_loop_spec DEFAULT_CHANNEL_SIZE 0 ltac:(done) (or_introl eq_refl) fuel
    (mk_qc (mk_sv (rb c) log) (num_items c)) items vs Hh Hvs Hmax Hf)
    as (q' & Ew & Hh' & Hr & _ & Hn').
  unfold channel_write. rewrite lock_run by done.
  destruct c as [r m cv cl dr n rc inc]; cbn in *. subst m n dr cl inc.
  cbn. unfold mbnd at 1, on_core, zoom. cbn. rewrite Ew. cbn.
  unfold mbnd, signal, upd, modify_st, mret. cbn. rewrite unlock_last by done. cbn.
  eexists _, _. split; [done|]. rep_solve; try (rewrite zlen_app; lia).
  rewrite zlen_app, Hn' by lia. apply Z.mod_small. lia.
Qed.

Lemma write_closed t fuel c log items vs :
  chan_rep c items -> closed c = true ->
  channel_write fuel t vs (c, log)
  = Done (if zlen items =? 0 then STATUS_DRAINED else STATUS_CLOSED) (c, log).
Proof.
  intros [Hh Hn Hm Hmu Hi Hd] Hc. unfold channel_write. rewrite lock_run by done.
  destruct c as [r m cv cl dr n rc inc]; cbn in *. subst m cl dr n.
  cbn.
  destruct (zlen items =? 0); cbn; unfold mbnd, mret; rewrite unlock_last by done; done.
Qed.
End Rep.

(** ** The abstract channel *)

Module Spec.
(** A queue that may be closed, and the readers asleep on it. *)
Record achan := mk_ac { ac_items : list lua_value; ac_closed : bool; ac_waiting : list Z }.

(** Calls, each by a thread [t]. *)
Inductive op :=
  | Write (t : Z) (vs : list lua_value)
  | Read (t : Z) (nonblock : bool)
  | Close (t : Z)
  | Closed (t : Z)
  | Drained (t : Z)
  | NumItems (t : Z).

Inductive reply :=
  | Status (st : Z) (v : option lua_value)
  | Flag (b : bool)
  | Count (n : Z)
  | Unit
  | Asleep.

Definition step `{LuaApi} (a : achan) (o : op) : reply * achan :=
  match o with
  | Write _ vs =>
      if ac_closed a
      then (Status (if zlen (ac_items a) =? 0 then STATUS_DRAINED else STATUS_CLOSED) None, a)
      else (Status STATUS_OPEN None,
            mk_ac (ac_items a ++ vs) false (tail (ac_waiting a)))
  | Read t nonblock =>
      match ac_items a with
      | v :: items =>
          (Status (if ac_closed a then STATUS_CLOSED else STATUS_OPEN) (Some (transported v)),
           mk_ac items (ac_closed a)
             (if ac_closed a && (zlen items =? 0) then [] else ac_waiting a))
      | [] =>
          if ac_closed a then (Status STATUS_DRAINED None, a)
          else if nonblock then (Status STATUS_OPEN None, a)
          else (Asleep, mk_ac [] false (ac_waiting a ++ [t]))
      end
  | Close _ =>
      (Unit, if ac_closed a then a else mk_ac (ac_items a) true [])
  | Closed _ => (Flag (ac_closed a), a)
  | Drained _ => (Flag (ac_closed a && (zlen (ac_items a) =? 0)), a)
  | NumItems _ => (Count (zlen (ac_items a)), a)
  end.

Fixpoint run `{LuaApi} (a : achan) (os : list op) : list reply * achan :=
  match os with
  | [] => ([], a)
  | o :: os' =>
      let '(r, a1) := step a o in let '(rs, a2) := run a1 os' in (r :: rs, a2)
  end.

(** All the values a run writes. *)
Fixpoint written (os : list op) : list lua_value :=
  match os with
  | [] => []
  | Write _ vs :: os' => vs ++ written os'
  | _ :: os' => written os'
  end.
End Spec.

Section Refinement.
Context `{L : LuaApi} {Lok : LuaApiOk L}.
Import Spec.

(** A call on the channel itself; [None] is anything but a return or a sleep. *)
Definition chan_step (s : cst) (o : op) : option (reply * cst) :=
  match o with
  | Write t vs =>
      match channel_write (channel_write_fuel s.1 vs) t vs s with
      | Done st s' => Some (Status st None, s') | _ => None end
  | Read t nb =>
      match channel_read t nb s with
      | Done (st, v) s' => Some (Status st v, s')
      | Blocked s' => Some (Asleep, s')
      | _ => None end
  | Close t => match channel_close t s with Done _ s' => Some (Unit, s') | _ => None end
  | Closed t => match channel_closed t s with Done b s' => Some (Flag b, s') | _ => None end
  | Drained t => match channel_drained t s with Done b s' => Some (Flag b, s') | _ => None end
  | NumItems t => match channel_num_items t s with Done n s' => Some (Count n, s') | _ => None end
  end.

Fixpoint chan_run (s : cst) (os : list op) : option (list reply * cst) :=
  match os with
  | [] => Some ([], s)
  | o :: os' =>
      '(r, s1) ← chan_step s o; '(rs, s2) ← chan_run s1 os'; Some (r :: rs, s2)
  end.

Record simulates (s : cst) (a : achan) (used : Z) : Prop := {
  sim_rep : chan_rep s.1 (ac_items a);
  sim_closed : closed s.1 = ac_closed a;
  sim_waiting : read_avail_cond s.1 = ac_waiting a;
  sim_used : rcb (rb s.1) <= used;
}.

Definition written_by (o : op) : list lua_value :=
  match o with Write _ vs => vs | _ => [] end.

Lemma channel_step_sim s a used o :
  simulates s a used -> forallb (writable 0) (written_by o) = true ->
  zlen (ac_items a) + zlen (written_by o) < U32_MOD ->
  used + total_len 0 (written_by o) < FIFO_MAX ->
  exists s', chan_step s o = Some ((step a o).1, s') /\
    simulates s' (step a o).2 (used + total_len 0 (written_by o)) /\
    zlen (ac_items (step a o).2) <= zlen (ac_items a) + zlen (written_by o).
Proof.
  destruct s as [c log], a as [items cl waiting]. intros [Hrep Hcl Hwait Hused] Hw Hn Hb.
  cbn in *. pose proof (total_len_nonneg 0 (written_by o)) as Htl.
  pose proof (rep_mutex _ _ Hrep) as Hmu. unfold FIFO_MAX in *.
  destruct o as [t vs|t nb|t|t|t|t]; cbn in *; rewrite ?Z.add_0_r.
  - destruct cl.
    + rewrite (write_closed t _ c log items vs Hrep Hcl).
      eexists. split; [done|]. cbn. split; [by split; [.. | cbn; lia]|].
      pose proof (zlen_nonneg vs). lia.
    + destruct (write_open t (channel_write_fuel c vs) c log items vs Hrep Hcl Hw Hn)
        as (c' & log' & -> & Hrep' & Hcl' & Hr' & _ & Hw'); [unfold DEFAULT_CHANNEL_SIZE; lia|done|].
      eexists. split; [done|]. cbn. split; [|rewrite zlen_app; lia].
      split; cbn; try done; [by rewrite Hw', Hwait | lia].
  - destruct items as [|v items].
    + destruct cl; [|destruct nb].
      * rewrite read_empty by (done || by rewrite Hcl). rewrite Hcl. eexists. by split.
      * rewrite read_empty by (done || by rewrite Hcl). rewrite Hcl. eexists. by split.
      * destruct (read_sleeps t c log Hrep Hcl) as (c' & -> & Hrep' & Hcl' & Hr' & _ & Hw').
        eexists. split; [done|]. split; [|done]. split; cbn; try done; [by rewrite Hw', Hwait|].
        by rewrite Hr'.
    + destruct (read_item t nb c log v items Hrep) as (c' & -> & Hrep' & Hcl' & Hr' & _ & Hw').
      rewrite Hcl in *. eexists. split; [done|]. cbn. rewrite zlen_cons.
      split; [|change (zlen []) with 0; lia].
      split; cbn; try done; [by rewrite Hw', Hwait | lia].
  - destruct (channel_close_spec t c log items Hrep) as (c' & -> & Hrep' & Hcl' & Hr' & _ & Hw').
    rewrite Hcl in *. eexists. split; [done|].
    destruct cl; cbn; (split; [|change (zlen []) with 0; lia]); split; cbn; try done;
      try (by rewrite Hr'); by rewrite Hw'.
  - unfold channel_closed. rewrite observe_spec by done. eexists.
    split; [by cbn; rewrite Hcl|]. split; [by split | change (zlen []) with 0; cbn; lia].
  - unfold channel_drained. rewrite observe_spec by done. eexists.
    split; [cbn; by rewrite (rep_drained _ _ Hrep), Hcl|].
    split; [by split | change (zlen []) with 0; cbn; lia].
  - unfold channel_num_items. rewrite observe_spec by done. eexists.
    split; [cbn; by rewrite (rep_num _ _ Hrep)|].
    split; [by split | change (zlen []) with 0; cbn; lia].
Qed.

Lemma channel_run_sim os : forall s a used,
  simulates s a used -> forallb (writable 0) (written os) = true ->
  zlen (ac_items a) + zlen (written os) < U32_MOD ->
  used + total_len 0 (written os) < FIFO_MAX ->
  exists s' used', chan_run s os = Some ((run a os).1, s') /\ simulates s' (run a os).2 used'.
Proof.
  induction os as [|o os IH]; intros s a used Hs Hw Hn Hb; [by exists s, used|].
  assert (written (o :: os) = written_by o ++ written os) as Eo by (by destruct o).
  rewrite Eo, forallb_app, zlen_app, total_len_app in *. apply andb_prop in Hw as [Hwo Hw].
  pose proof (zlen_nonneg (written os)). pose proof (total_len_nonneg 0 (written os)).
  destruct (channel_step_sim s a used o Hs Hwo) as (s1 & E & Hs1 & Hlen); [lia | lia |].
  destruct (IH s1 _ _ Hs1 Hw) as (s' & used' & E' & Hs'); [lia | lia |].
  exists s', used'. cbn. destruct (step a o) as [r a1]. cbn in *. rewrite E. cbn.
  destruct (run a1 os) as [rs a2]. cbn in *. by rewrite E'.
Qed.

(** *** As a queue *)

(** Thread 0 writes and reads an open channel. *)
#[export] Instance channel_fifo : Fifo cst := {|
  ff_rep s items used := chan_rep s.1 items /\ closed s.1 = false /\ rcb (rb s.1) <= used;
  ff_put vs s :=
    match channel_write (channel_write_fuel s.1 vs) 0 vs s with Done _ s' => Some s' | _ => None end;
  ff_take s :=
    match channel_read 0 true s with Done (_, v) s' => Some (v, s') | _ => None end;
|}.

#[export] Instance channel_fifo_ok : FifoOk 0 channel_fifo.
Proof.
  split; unfold FIFO_MAX; cbn.
  - intros [c log] items used vs (Hrep & Hcl & Hu) Hw Hn Hb. cbn in *.
    destruct (write_open 0 (channel_write_fuel c vs) c log items vs Hrep Hcl Hw Hn)
      as (c' & log' & -> & Hrep' & Hcl' & Hr' & _); [unfold DEFAULT_CHANNEL_SIZE; lia|done|].
    eexists. split; [done|]. cbn. split; [done|]. split; [done|lia].
  - intros [c log] v items used (Hrep & Hcl & Hu). cbn in *.
    destruct (read_item 0 true c log v items Hrep) as (c' & -> & Hrep' & Hcl' & Hr' & _).
    eexists. split; [done|]. cbn. rewrite Hcl'. split; [done|]. split; [done|lia].
  - intros [c log] used (Hrep & Hcl & Hu). cbn in *.
    rewrite read_empty by (done || by rewrite orb_true_r). by eexists.
Qed.
End Refinement.

(** ** References *)

(** A userdata that points to the channel is made by loading one a [retain] was made
    for, and goes with its [__gc]. *)
Inductive life_op := Retain (t : Z) | Gc (t : Z).

(** The references left after the calls, from [n]; [alive]: none is made on a channel
    that has been freed. *)
Fixpoint refs_after (n : Z) (os : list life_op) : Z :=
  match os with
  | [] => n
  | Retain _ :: os' => refs_after (n + 1) os'
  | Gc _ :: os' => refs_after (n - 1) os'
  end.

Fixpoint alive (n : Z) (os : list life_op) : bool :=
  match os with
  | [] => true
  | Retain _ :: os' => (0 <? n) && alive (n + 1) os'
  | Gc _ :: os' => (0 <? n) && alive (n - 1) os'
  end.

Section References.
Context `{TH : THAtomic} {THok : THAtomicOk TH} `{L : LuaApi}.

Fixpoint life_run (p : Z) (os : list life_op) (w : world channel_t) : option (world channel_t) :=
  match os with
  | [] => Some w
  | Retain t :: os' =>
      match on_object (Some p) str_invalid (channel_retain t) w with
      | Done _ w' => life_run p os' w' | _ => None end
  | Gc t :: os' =>
      match channel_gc t (Some p) w with
      | Done _ w' => life_run p os' w' | _ => None end
  end.

(** A channel with its references. *)
Definition referenced (p n : Z) (items : list lua_value) (w : world channel_t) : Prop :=
  if n =? 0 then objs w !! p = None
  else exists c, objs w !! p = Some c /\ refcount c = n /\ chan_rep c items.

Lemma set_refcount_rep c items r : chan_rep c items -> chan_rep (set_refcount r c) items.
Proof. by intros []. Qed.

Lemma retain_step p t n items w :
  0 < n -> referenced p n items w ->
  exists w', on_object (Some p) str_invalid (channel_retain t) w = Done tt w' /\
    referenced p (n + 1) items w'.
Proof.
  intros Hn Hr. unfold referenced in *. rewrite (proj2 (Z.eqb_neq n _)) in Hr by lia.
  rewrite (proj2 (Z.eqb_neq _ _)) by lia. destruct Hr as (c & Ec & Hc & Hrep). cbn. rewrite Ec.
  unfold channel_retain. rewrite lock_run by (cbn; apply Hrep).
  unfold mbnd, upd, modify_st. rewrite unlock_last by done. cbn.
  eexists. split; [done|]. cbn. rewrite lookup_insert_eq. eexists. split; [done|].
  rewrite TH_increment. destruct Hrep as [? ? ? Hmu ? ?]. by rewrite Hc.
Qed.

Lemma gc_step p t n items w :
  0 < n -> referenced p n items w ->
  exists w', channel_gc t (Some p) w = Done (if n =? 1 then None else Some p) w' /\
    referenced p (n - 1) items w'.
Proof.
  intros Hn Hr. unfold referenced in *. rewrite (proj2 (Z.eqb_neq _ _)) in Hr by lia.
  destruct Hr as (c & Ec & Hc & Hrep). unfold channel_gc. rewrite Ec.
  pose proof (rep_mutex _ _ Hrep) as Hmu. rewrite Hmu. cbn.
  rewrite TH_decrement, Hc. destruct (Z.eqb_spec (n - 1) 0), (Z.eqb_spec n 1); try lia.
  - eexists. split; [done|]. cbn. apply lookup_delete_eq.
  - unfold pthread_mutex_unlock. cbn. rewrite Z.eqb_refl. eexists. split; [done|]. cbn.
    rewrite lookup_insert_eq. eexists. split; [done|]. by destruct Hrep.
Qed.

Lemma life_run_spec p items os : forall n w,
  0 <= n -> alive n os = true -> referenced p n items w ->
  exists w', life_run p os w = Some w' /\ referenced p (refs_after n os) items w'.
Proof.
  induction os as [|[t|t] os IH]; intros n w Hn Ha Hr; cbn [life_run refs_after alive] in *.
  - eauto.
  - apply andb_prop in Ha as [Hp Ha]. destruct (retain_step p t n items w) as (w1 & -> & Hr1);
      [lia | done |]. apply IH; [lia | done | done].
  - apply andb_prop in Ha as [Hp Ha]. destruct (gc_step p t n items w) as (w1 & -> & Hr1);
      [lia | done |]. apply IH; [lia | done | done].
Qed.
End References.

(** ** Theorems *)

Section Theorems.
Context `{L : LuaApi} {Lok : LuaApiOk L}.
Import Spec.

(** C3: a channel is a queue that can be closed.  Any sequence of calls by any
    threads on a new channel runs without error, undefined behaviour or endless loop
    (the buffer grows as needed), and answers what the abstract channel answers: values in
    the order written, the open/closed/drained status, who is asleep and who is
    woken.  (Values [rb_save] accepts, fewer than 2^32 and less than 2^62 bytes.) *)
Theorem channel_refines_queue os :
  forallb (writable 0) (written os) = true -> zlen (written os) < U32_MOD ->
  total_len 0 (written os) < FIFO_MAX ->
  exists s', chan_run (channel_create, []) os = Some ((run (mk_ac [] false []) os).1, s') /\
    chan_rep s'.1 (ac_items (run (mk_ac [] false []) os).2) /\
    closed s'.1 = ac_closed (run (mk_ac [] false []) os).2 /\
    read_avail_cond s'.1 = ac_waiting (run (mk_ac [] false []) os).2.
Proof.
  intros Hw Hn Hb.
  destruct (channel_run_sim os (channel_create, []) (mk_ac [] false []) 0) as (s' & used & E & []);
    [split; [apply create_rep | done | done | done] | done | done | done |].
  by exists s'.
Qed.

(** Whatever mix of writes and non-blocking reads, the values read from an open
    channel followed by those still in it are copies of the values written, each
    once and in order. *)
Theorem channel_delivers ops :
  forallb (writable 0) (puts ops) = true -> zlen (puts ops) < U32_MOD ->
  total_len 0 (puts ops) < FIFO_MAX ->
  exists got s' rest, ff_run ops (channel_create, []) = Some (got, s') /\
    chan_rep s'.1 rest /\
    omap id got ++ map transported rest = map transported (puts ops).
Proof.
  intros Hw Hn Hb.
  destruct (fifo_delivers (upval := 0) ops (channel_create, [])) as (os & s' & rest & used & E & Hr & H);
    try done; [split; [apply create_rep | done]|].
  exists os, s', rest. by destruct Hr.
Qed.

(** C38: a write with a value that [rb_save] refuses with an error code, a thread, a light
    userdata or a userdata that cannot be sent, alone or anywhere in a table, raises that
    error with the mutex released, nothing of the value left in the channel and the values
    before it in it; but a reader asleep is not woken for them.  (A value on which [rb_save]
    raises is another matter: [closure_write_leaves_channel_locked].) *)
Theorem channel_write_refused t fuel c log items vs bad bs code rest :
  chan_rep c items -> closed c = false -> forallb (writable 0) vs = true ->
  no_function_keys bad = true -> refusal 0 bad = Some (bs, code) ->
  zlen items + zlen vs < U32_MOD ->
  rcb (rb c) + total_len 0 vs + zlen bs + DEFAULT_CHANNEL_SIZE < 2 ^ 63 ->
  (channel_write_fuel c vs + Z.to_nat (zlen bs) < fuel)%nat ->
  exists c' log', channel_write fuel t (vs ++ bad :: rest) (c, log)
      = Raised (ErrCode (- code)) (c', log') /\ (- code = EPERM \/ - code = EINVAL) /\
    chan_rep c' (items ++ vs) /\ closed c' = false /\
    read_avail_cond c' = read_avail_cond c.
Proof.
  intros [Hh Hn Hm Hmu Hi Hd] Hc Hvs Hk Hbad Hnum Hmax Hf.
  pose proof (zlen_nonneg items). pose proof (zlen_nonneg vs).
  destruct (save_refused 0 bad false bs code Hk Hbad) as [_ Hcode].
  destruct (write_loop_refused DEFAULT_CHANNEL_SIZE 0 ltac:(done) (or_introl eq_refl)
    bad bs code rest fuel (mk_qc (mk_sv (rb c) log) (num_items c)) items vs Hk Hbad Hh Hvs Hmax Hf)
    as (q' & Ew & Hh' & Hr & Hn').
  assert (negb (code =? 0) = true) as Hne by (by destruct Hcode as [-> | ->]).
  unfold channel_write. rewrite lock_run by done.
  destruct c as [r m cv cl dr n rc inc]; cbn in *. subst m n dr cl inc. cbn.
  unfold mbnd at 1, on_core, zoom. cbn. rewrite Ew.
  rewrite Hne. cbn iota.
  unfold mbnd. rewrite unlock_last by done. cbn.
  eexists _, _. split; [done|].
  split; [destruct Hcode as [-> | ->]; [by left | by right]|].
  split; [split; cbn; try done|done].
  - rewrite zlen_app, Hn' by lia. apply Z.mod_small. lia.
  - rewrite zlen_app. lia.
Qed.

(** One write of several values wakes one sleeper only: with two readers asleep
    and two values written at once, one value is left in the channel and the
    second reader is still asleep. *)
Theorem multi_write_wakes_one_reader t1 t2 :
  exists s', chan_run (channel_create, [])
      [Read t1 false; Read t2 false; Write 0 [LBoolean true; LBoolean false]; Read t1 false]
    = Some ([Asleep; Asleep; Status STATUS_OPEN None;
             Status STATUS_OPEN (Some (LBoolean true))], s') /\
    read_avail_cond s'.1 = [t2] /\ num_items s'.1 = 1.
Proof.
  set (os := [Read t1 false; Read t2 false; Write 0 [LBoolean true; LBoolean false];
              Read t1 false]).
  destruct (channel_run_sim os (channel_create, []) (mk_ac [] false []) 0) as (s' & used & E & [R _ W _]);
    [split; [apply create_rep | done | done | done] | done | done | done |].
  exists s'. split; [exact E|]. split; [exact W|]. exact (rep_num _ _ R).
Qed.
End Theorems.

(** Retain and [__gc] calls in any order on the userdata of a channel keep the
    channel, its contents and its mutex while a reference is left, count the references,
    and free it with the last one, never before. *)
Theorem channel_freed_with_last_reference `{TH : THAtomic} `{THok : !THAtomicOk TH} `{L : LuaApi}
    p os items c w :
  objs w !! p = Some c -> refcount c = 1 -> chan_rep c items -> alive 1 os = true ->
  exists w', life_run p os w = Some w' /\
    (if refs_after 1 os =? 0 then objs w' !! p = None
     else exists c', objs w' !! p = Some c' /\ refcount c' = refs_after 1 os /\ chan_rep c' items).
Proof.
  intros Ec Hc Hrep Ha. apply (life_run_spec p items os 1 w); [done | done |].
  unfold referenced. cbn. eauto.
Qed.

(** ** Concrete runs *)

Section Runs.
Import Spec.
#[local] Existing Instance RefLua.api_ok.
#[local] Instance lua53 : LuaApi := RefLua.api 503 false.
#[local] Existing Instance ref_TH.

Lemma channel_refines_queue_witness :
  exists s', chan_run (channel_create, [])
      [Write 1 [LInteger 5; LString (str "x")]; Read 2 false; Close 1; Write 1 [LNil];
       Drained 2; Read 2 false; Read 2 false]
    = Some ([Status STATUS_OPEN None; Status STATUS_OPEN (Some (LInteger 5)); Unit;
             Status STATUS_CLOSED None; Flag false;
             Status STATUS_CLOSED (Some (LString (str "x"))); Status STATUS_DRAINED None], s').
Proof.
  destruct (channel_refines_queue
    [Write 1 [LInteger 5; LString (str "x")]; Read 2 false; Close 1; Write 1 [LNil];
     Drained 2; Read 2 false; Read 2 false]) as (s' & E & _);
    [vm_compute; reflexivity .. |].
  exists s'. exact E.
Defined.

Lemma channel_delivers_witness :
  exists got s' rest,
    ff_run [Take; Put [LInteger 1; LInteger 2]; Take; Put [LInteger 3]] (channel_create, [])
      = Some (got, s') /\
    chan_rep s'.1 rest /\
    omap id got ++ map transported rest = [LInteger 1; LInteger 2; LInteger 3].
Proof.
  apply (channel_delivers [Take; Put [LInteger 1; LInteger 2]; Take; Put [LInteger 3]]);
    vm_compute; reflexivity.
Defined.

Lemma channel_write_refused_witness :
  exists c' log', channel_write 99 1
      [LInteger 1; LTable [(LInteger 1, LString (str "a")); (LInteger 2, LThread)] None; LInteger 2]
      (channel_create, []) = Raised (ErrCode EPERM) (c', log') /\ (EPERM = EPERM \/ EPERM = EINVAL) /\
    chan_rep c' [LInteger 1] /\ closed c' = false /\ read_avail_cond c' = [].
Proof.
  apply (channel_write_refused 1 99 channel_create [] [] [LInteger 1]
    (LTable [(LInteger 1, LString (str "a")); (LInteger 2, LThread)] None)
    (default [] (fst <$> refusal 0 (LTable [(LInteger 1, LString (str "a")); (LInteger 2, LThread)] None)))
    (- EPERM) [LInteger 2]);
    [apply create_rep | done | vm_compute; reflexivity | done | vm_compute; reflexivity | done
    | vm_compute; reflexivity | vm_compute; lia].
Defined.

Lemma multi_write_wakes_one_reader_witness :
  exists s', chan_run (channel_create, [])
      [Read 1 false; Read 2 false; Write 0 [LBoolean true; LBoolean false]; Read 1 false]
    = Some ([Asleep; Asleep; Status STATUS_OPEN None;
             Status STATUS_OPEN (Some (LBoolean true))], s') /\
    read_avail_cond s'.1 = [2] /\ num_items s'.1 = 1.
Proof. apply (multi_write_wakes_one_reader 1 2). Defined.

Lemma channel_freed_with_last_reference_witness :
  let w := channel_new 4096 (mk_world ∅ []) in
  exists w', life_run 4096 [Retain 1; Gc 2; Retain 2; Gc 1; Gc 2] w = Some w' /\
    objs w' !! 4096 = None.
Proof.
  apply (channel_freed_with_last_reference 4096 [Retain 1; Gc 2; Retain 2; Gc 1; Gc 2] []
    channel_create (channel_new 4096 (mk_world ∅ [])));
    [cbn; apply lookup_insert_eq | done | apply create_rep | done].
Defined.

(** Writing a closure to a channel raises, and the [longjmp] leaves the
    channel's mutex locked by the writer and the bytes saved so far in the buffer:
    every later call from another thread blocks. *)
Theorem closure_write_leaves_channel_locked :
  let f := LFunction true [Byte.x02; Byte.x78] [([Byte.x78], LInteger 1)] in
  exists c' log', channel_write 3 1 [f] (channel_create, []) = Raised (ErrLua str_closure) (c', log') /\
    m_owner (mutex c') = Some 1 /\ num_items c' = 0 /\ rcb (rb c') = 31 /\
    forall t, t <> 1 ->
      channel_num_items t (c', log') = Blocked (c', log') /\
      channel_read t true (c', log') = Blocked (c', log').
Proof.
  cbv zeta. eexists _, _. split; [vm_compute; reflexivity|].
  split; [reflexivity|]. split; [reflexivity|]. split; [reflexivity|].
  intros t Ht. unfold channel_num_items, channel_read, mbnd, lock.
  rewrite (lock_other t 1) by (done || congruence). done.
Qed.
End Runs.
