(* ===== verification/WorkQueue.v ===== *)
(** * Workqueues ([src/workqueue.c]): a pair of queues between an owner thread and its
    workers, found by name in a process-wide list. *)
From S2P Require Import Prelude RingBuffer Lua Serialize Growth Fifo Pthread Object.

#[local] Open Scope ipc_scope.

Definition DEFAULT_WORKQUEUE_SIZE : Z := 16 * 1024.

Record queue_t := mk_queue {
  q_rb : ringbuffer_t;
  q_mutex : pmutex;
  q_read_avail_cond : cond_t;
  q_num_items : Z;
}.

(** [next] and [prev] are addresses, [None] for NULL; [name] is a C string. *)
Record workqueue_t := mk_wq {
  next : option Z;
  prev : option Z;
  refcount : Z;
  size_increment : Z;
  name : option (list byte);
  questions : queue_t;
  answers : queue_t;
  owner_thread : Z;
  wq_mutex : pmutex;
}.

(** ** One queue *)

(** The state of a call: the queue and the log of [retain] calls. *)
Definition qst : Type := queue_t * list Z.

Definition set_q_mutex m q := mk_queue (q_rb q) m (q_read_avail_cond q) (q_num_items q).
Definition set_q_cond cv q := mk_queue (q_rb q) (q_mutex q) cv (q_num_items q).

Definition qlock (t : Z) : M qst unit := fun s =>
  match pthread_mutex_lock t (q_mutex s.1) with
  | Some m => Done tt (set_q_mutex m s.1, s.2)
  | None => Blocked s
  end.

Definition qunlock (t : Z) : M qst unit := fun s =>
  match pthread_mutex_unlock t (q_mutex s.1) with
  | Some m => Done tt (set_q_mutex m s.1, s.2)
  | None => Undef
  end.

(** Asleep with the mutex released; a woken thread takes it again and goes on with
    the test of the loop around the wait. *)
Definition qwait {A} (t : Z) : M qst A := fun s =>
  match pthread_mutex_unlock t (q_mutex s.1) with
  | Some m =>
      Blocked (set_q_cond (cond_enqueue t (q_read_avail_cond s.1)) (set_q_mutex m s.1), s.2)
  | None => Undef
  end.

Definition qsignal : M qst unit :=
  modify_st (fun s => (set_q_cond (pthread_cond_signal (q_read_avail_cond s.1)) s.1, s.2)).

Definition q_on_core {A} : M qcore A -> M qst A :=
  zoom (fun s => mk_qc (mk_sv (q_rb s.1) s.2) (q_num_items s.1))
    (fun c s => (mk_queue (sv_rb (qc_sv c)) (q_mutex s.1) (q_read_avail_cond s.1) (qc_num c),
                 sv_retained (qc_sv c))).

Definition q_on_rb {A} : M ringbuffer_t A -> M qst A :=
  zoom (fun s => q_rb s.1)
    (fun r s => (mk_queue r (q_mutex s.1) (q_read_avail_cond s.1) (q_num_items s.1), s.2)).

Definition workqueue_init_queue (size : Z) : queue_t :=
  mk_queue (ringbuffer_create size) (mutex_init true) [] 0.

Section Queue.
Context `{L : LuaApi}.

(** Returns the value pushed, if any. *)
Definition workqueue_queue_read (t : Z) (doNotBlock : bool) : M qst (option lua_value) :=
  qlock t ;;;
  let! s := get_st in
  if negb (q_num_items s.1 =? 0) then
    let! ret := q_on_rb rb_load in
    modify_st (fun s => (mk_queue (q_rb s.1) (q_mutex s.1) (q_read_avail_cond s.1)
                           (u32_sub (q_num_items s.1) 1), s.2)) ;;;
    qunlock t ;;;
    match ret with
    | LdErr code => raise (ErrCode code)
    | LdEnd => mret None
    | LdVal v => mret (Some v)
    end
  else if doNotBlock then qunlock t ;;; mret None
  else qwait t.

Definition workqueue_queue_write (fuel : nat) (t : Z) (vs : list lua_value)
    (size_increment upval : Z) : M qst unit :=
  qlock t ;;;
  let! ret := q_on_core (write_loop fuel size_increment upval vs) in
  if negb (ret =? 0) then qunlock t ;;; raise (ErrCode (- ret))
  else qsignal ;;; qunlock t.
End Queue.

(** ** A workqueue *)

(** The state of a method: the workqueue and the log of [retain] calls. *)
Definition wst : Type := workqueue_t * list Z.

Definition set_questions q w := mk_wq (next w) (prev w) (refcount w) (size_increment w) (name w)
  q (answers w) (owner_thread w) (wq_mutex w).
Definition set_answers q w := mk_wq (next w) (prev w) (refcount w) (size_increment w) (name w)
  (questions w) q (owner_thread w) (wq_mutex w).

Definition on_questions {A} : M qst A -> M wst A :=
  zoom (fun s => (questions s.1, s.2)) (fun q s => (set_questions q.1 s.1, q.2)).
Definition on_answers {A} : M qst A -> M wst A :=
  zoom (fun s => (answers s.1, s.2)) (fun q s => (set_answers q.1 s.1, q.2)).

Definition str_drain_owner : list byte :=
  str "workqueue drain is only available on the owner thread".

Section Methods.
Context `{L : LuaApi}.

Definition workqueue_read (t : Z) (doNotBlock : bool) : M wst (option lua_value) :=
  let! s := get_st in
  if owner_thread s.1 =? t then on_answers (workqueue_queue_read t doNotBlock)
  else on_questions (workqueue_queue_read t doNotBlock).

(** [workqueue_write] is with [upval] 0, [workqueue_writeup] with 1. *)
Definition write_any (upval : Z) (fuel : nat) (t : Z) (vs : list lua_value) : M wst unit :=
  let! s := get_st in
  if owner_thread s.1 =? t
  then on_questions (workqueue_queue_write fuel t vs (size_increment s.1) upval)
  else on_answers (workqueue_queue_write fuel t vs (size_increment s.1) upval).

Definition workqueue_write : nat -> Z -> list lua_value -> M wst unit := write_any 0.
Definition workqueue_writeup : nat -> Z -> list lua_value -> M wst unit := write_any 1.

(** The waiting loop of [workqueue_drain], with the answers' mutex held. *)
Definition drain_wait (t mark : Z) : M wst unit :=
  let! s := get_st in
  if q_num_items (answers s.1) <? mark then on_answers (qwait t)
  else on_answers (qunlock t).

Definition workqueue_drain (t : Z) : M wst unit :=
  let! s := get_st in
  if negb (owner_thread s.1 =? t) then raise (ErrStr str_drain_owner)
  else
    on_questions (qlock t) ;;;
    on_answers (qlock t) ;;;
    let! s := get_st in
    let mark := u32_add (q_num_items (answers s.1)) (q_num_items (questions s.1)) in
    on_questions (qunlock t) ;;;
    drain_wait t mark.

(** The same thread woken up: it has the mutex again and tests again. *)
Definition drain_woken (t mark : Z) : M wst unit :=
  on_answers (qlock t) ;;; drain_wait t mark.
End Methods.

(** ** The registry of named workqueues *)

Record registry := mk_reg {
  wqs : gmap Z workqueue_t;
  workqueue_head : option Z;
  workqueue_mutex : pmutex;
  wq_log : list Z;
}.

(** After [workqueue_one_time_init]. *)
Definition workqueue_one_time_init : registry := mk_reg ∅ None (mutex_init true) [].

Definition set_next x w := mk_wq x (prev w) (refcount w) (size_increment w) (name w)
  (questions w) (answers w) (owner_thread w) (wq_mutex w).
Definition set_prev x w := mk_wq (next w) x (refcount w) (size_increment w) (name w)
  (questions w) (answers w) (owner_thread w) (wq_mutex w).
Definition set_refcount x w := mk_wq (next w) (prev w) x (size_increment w) (name w)
  (questions w) (answers w) (owner_thread w) (wq_mutex w).

(** [p->...]: undefined on an address that is not allocated. *)
Definition deref (p : Z) : M registry workqueue_t := fun g =>
  match wqs g !! p with Some w => Done w g | None => Undef end.

Definition update (p : Z) (f : workqueue_t -> workqueue_t) : M registry unit :=
  let! w := deref p in
  modify_st (fun g => mk_reg (<[p := f w]> (wqs g)) (workqueue_head g) (workqueue_mutex g) (wq_log g)).

Definition set_head (h : option Z) : M registry unit :=
  modify_st (fun g => mk_reg (wqs g) h (workqueue_mutex g) (wq_log g)).

Definition workqueue_insert (p : Z) : M registry unit :=
  let! w := deref p in
  match name w with
  | None => mret tt
  | Some _ =>
      let! g := get_st in
      (match workqueue_head g with
       | Some h => update h (set_prev (Some p)) ;;; update p (set_next (Some h))
       | None => mret tt
       end) ;;;
      set_head (Some p)
  end.

Definition workqueue_remove (p : Z) : M registry unit :=
  let! w := deref p in
  match name w with
  | None => mret tt
  | Some _ =>
      let! g := get_st in
      (if bool_decide (workqueue_head g = Some p) then set_head (next w) else mret tt) ;;;
      (match next w with Some n => update n (set_prev (prev w)) | None => mret tt end) ;;;
      let! w := deref p in
      match prev w with Some q => update q (set_next (next w)) | None => mret tt end
  end.

(** The search loop; the workqueues there are bound its turns. *)
Fixpoint find_loop (fuel : nat) (nm : list byte) (cur : option Z) : M registry (option Z) :=
  match cur with
  | None => mret None
  | Some p =>
      match fuel with
      | O => out_of_fuel
      | S fuel' =>
          let! w := deref p in
          match name w with
          | None => undef (* strcmp(NULL, name) *)
          | Some n => if bool_decide (n = nm) then mret (Some p) else find_loop fuel' nm (next w)
          end
      end
  end.

Section Registry.
Context `{TH : THAtomic}.

Definition workqueue_find (nm : option (list byte)) : M registry (option Z) :=
  match nm with
  | None => mret None
  | Some n =>
      let! g := get_st in
      let! r := find_loop (S (size (wqs g))) n (workqueue_head g) in
      (match r with
       | Some p => update p (fun w => set_refcount (THAtomicIncrementRef (refcount w)) w)
       | None => mret tt
       end) ;;;
      mret r
  end.

Definition lock_registry (t : Z) : M registry unit := fun g =>
  match pthread_mutex_lock t (workqueue_mutex g) with
  | Some m => Done tt (mk_reg (wqs g) (workqueue_head g) m (wq_log g))
  | None => Blocked g
  end.
Definition unlock_registry (t : Z) : M registry unit := fun g =>
  match pthread_mutex_unlock t (workqueue_mutex g) with
  | Some m => Done tt (mk_reg (wqs g) (workqueue_head g) m (wq_log g))
  | None => Undef
  end.

(** [p] is the address [calloc] would give; the optional arguments have their
    defaults in place of NULL, and are whole numbers of bytes, which a [double] holds exactly up
    to [2 ^ 53] (converting another number to [size_t] truncates it, or is undefined).  Returns what the userdata boxes, and [creator]. *)
Definition workqueue_open (t p : Z) (nm : option (list byte)) (size size_increment : option Z)
  : M registry (Z * Z) :=
  let nm := cstr <$> nm in
  let size := default DEFAULT_WORKQUEUE_SIZE size in
  let size_increment := default size size_increment in
  lock_registry t ;;;
  let! r := workqueue_find nm in
  match r with
  | Some q => unlock_registry t ;;; mret (q, 0)
  | None =>
      let w := mk_wq None None 1 size_increment nm (workqueue_init_queue size)
                 (workqueue_init_queue size) t (mutex_init true) in
      modify_st (fun g => mk_reg (<[p := w]> (wqs g)) (workqueue_head g) (workqueue_mutex g)
                            (wq_log g)) ;;;
      workqueue_insert p ;;;
      unlock_registry t ;;;
      mret (p, 1)
  end.

Definition str_closed : list byte := str "workqueue is already closed".
Definition str_not_open : list byte := str "workqueue is not open".

(** Takes what the userdata boxes; it boxes NULL afterwards. *)
Definition workqueue_close (t : Z) (ud : option Z) : M registry (option Z) :=
  match ud with
  | None => raise (ErrStr str_closed)
  | Some p =>
      lock_registry t ;;;
      let! w := deref p in
      let '(r, last) := THAtomicDecrementRef (refcount w) in
      update p (set_refcount r) ;;;
      (if last then
         workqueue_remove p ;;;
         modify_st (fun g => mk_reg (delete p (wqs g)) (workqueue_head g) (workqueue_mutex g)
                               (wq_log g))
       else mret tt) ;;;
      unlock_registry t ;;;
      mret None
  end.

Definition workqueue_gc (t : Z) (ud : option Z) : M registry (option Z) :=
  lock_registry t ;;;
  let! ud' := (match ud with Some _ => workqueue_close t ud | None => mret None end) in
  unlock_registry t ;;;
  mret ud'.

Definition workqueue_retain (t : Z) (ud : option Z) : M registry unit :=
  match ud with
  | None => raise (ErrStr str_not_open)
  | Some p =>
      let! w := deref p in
      match name w with
      | None =>
          lock_registry t ;;;
          update p (fun w => set_refcount (THAtomicIncrementRef (refcount w)) w) ;;;
          unlock_registry t
      | Some _ => mret tt
      end
  end.
End Registry.

(** A method on the workqueue a userdata boxes. *)
Definition on_workqueue {A} (ud : option Z) (m : M wst A) : M registry A := fun g =>
  match ud with
  | None => Raised (ErrStr str_not_open) g
  | Some p =>
      match wqs g !! p with
      | None => Undef
      | Some w =>
          let upd (s : wst) :=
            mk_reg (<[p := s.1]> (wqs g)) (workqueue_head g) (workqueue_mutex g) s.2 in
          match m (w, wq_log g) with
          | Done a s => Done a (upd s)
          | Raised e s => Raised e (upd s)
          | Blocked s => Blocked (upd s)
          | Undef => Undef
          | NoFuel => NoFuel
          end
      end
  end.

#[local] Arguments qlock : simpl never.
#[local] Arguments qunlock : simpl never.
#[local] Arguments workqueue_queue_read : simpl never.
#[local] Arguments workqueue_queue_write : simpl never.

(** ** A queue holds a list of values *)

Section QueueRep.
Context `{L : LuaApi} {Lok : LuaApiOk L}.

(** Between calls. *)
Record queue_rep (q : queue_t) (items : list lua_value) : Prop := {
  qr_holds : holds (q_rb q) items;
  qr_num : q_num_items q = zlen items;
  qr_max : zlen items < U32_MOD;
  qr_mutex : q_mutex q = mutex_init true;
}.

Lemma init_queue_rep size : 0 < size < 2 ^ 63 -> queue_rep (workqueue_init_queue size) [].
Proof. intros. split; [by apply holds_create | done | done | done]. Qed.

Lemma qlock_free t s :
  q_mutex s.1 = mutex_init true ->
  qlock t s = Done tt (set_q_mutex (mk_mutex true (Some t) 1) s.1, s.2).
Proof. intros H. unfold qlock. by rewrite H. Qed.

Lemma qunlock_held t s :
  q_mutex s.1 = mk_mutex true (Some t) 1 ->
  qunlock t s = Done tt (set_q_mutex (mutex_init true) s.1, s.2).
Proof.
  intros H. unfold qunlock, pthread_mutex_unlock. rewrite H. cbn. by rewrite Z.eqb_refl.
Qed.

Lemma qwait_held {A} t s :
  q_mutex s.1 = mk_mutex true (Some t) 1 ->
  qwait (A := A) t s
  = Blocked (set_q_cond (q_read_avail_cond s.1 ++ [t]) (set_q_mutex (mutex_init true) s.1), s.2).
Proof.
  intros H. unfold qwait, pthread_mutex_unlock. rewrite H. cbn. by rewrite Z.eqb_refl.
Qed.

Lemma queue_read_item t nb q log v items :
  queue_rep q (v :: items) ->
  exists q', workqueue_queue_read t nb (q, log) = Done (Some (transported v)) (q', log) /\
    queue_rep q' items /\ rcb (q_rb q') <= rcb (q_rb q) /\
    q_read_avail_cond q' = q_read_avail_cond q.
Proof.
  intros [Hh Hn Hm Hmu]. destruct (holds_load _ _ _ Hh) as (rb' & El & Hh' & _ & Hr).
  rewrite zlen_cons in *. pose proof (zlen_nonneg items).
  unfold workqueue_queue_read, mbnd. rewrite qlock_free by done.
  destruct q as [r m cv n]; cbn in *. subst m n.
  rewrite (proj2 (Z.eqb_neq (1 + zlen items) 0)) by lia. cbn.
  unfold q_on_rb, zoom. cbn. rewrite El. cbn. rewrite qunlock_held by done. cbn.
  eexists. split; [done|]. split; [split; cbn; try done; [|lia] | done].
  unfold u32_sub, U32_MOD in *. rewrite Z.mod_small; lia.
Qed.

Lemma queue_read_none t q log :
  queue_rep q [] -> workqueue_queue_read t true (q, log) = Done None (q, log).
Proof.
  intros [Hh Hn Hm Hmu]. unfold workqueue_queue_read, mbnd. rewrite qlock_free by done.
  destruct q as [r m cv n]; cbn in *. subst m n. change (zlen (@nil lua_value)) with 0. cbn.
  by rewrite qunlock_held.
Qed.

Lemma queue_read_sleeps t q log :
  queue_rep q [] ->
  exists q', workqueue_queue_read t false (q, log) = Blocked (q', log) /\
    queue_rep q' [] /\ q_rb q' = q_rb q /\
    q_read_avail_cond q' = q_read_avail_cond q ++ [t].
Proof.
  intros [Hh Hn Hm Hmu]. unfold workqueue_queue_read, mbnd. rewrite qlock_free by done.
  destruct q as [r m cv n]; cbn in *. subst m n. change (zlen (@nil lua_value)) with 0. cbn.
  rewrite qwait_held by done. eexists. split; [done|]. split; [by split | done].
Qed.

(** The turns a write may need on this queue. *)
Definition queue_write_fuel (q : queue_t) (upval : Z) (vs : list lua_value) : nat :=
  loop_fuel (mk_qc (mk_sv (q_rb q) []) (q_num_items q)) upval vs.

Lemma queue_write_ok t fuel inc upval q log items vs :
  queue_rep q items -> 0 < inc -> upval = 0 \/ upval = 1 ->
  forallb (writable upval) vs = true -> zlen items + zlen vs < U32_MOD ->
  rcb (q_rb q) + total_len upval vs + inc < 2 ^ 63 ->
  (queue_write_fuel q upval vs <= fuel)%nat ->
  exists q' log', workqueue_queue_write fuel t vs inc upval (q, log) = Done tt (q', log') /\
    queue_rep q' (items ++ vs) /\ rcb (q_rb q') = rcb (q_rb q) + total_len upval vs /\
    q_read_avail_cond q' = tail (q_read_avail_cond q).
Proof.
  intros [Hh Hn Hm Hmu] Hinc Hu Hvs Hnum Hmax Hf.
  pose proof (zlen_nonneg items). pose proof (zlen_nonneg vs).
  destruct (write_loop_spec inc upval Hinc Hu fuel
    (mk_qc (mk_sv (q_rb q) log) (q_num_items q)) items vs Hh Hvs Hmax Hf)
    as (c' & Ew & Hh' & Hr & _ & Hn').
  unfold workqueue_queue_write, mbnd. rewrite qlock_free by done.
  destruct q as [r m cv n]; cbn in *. subst m n.
  unfold q_on_core, zoom. cbn. rewrite Ew. cbn. rewrite qunlock_held by done. cbn.
  eexists _, _. split; [done|]. split; [split; cbn; try done | done].
  - rewrite zlen_app, Hn' by lia. apply Z.mod_small. lia.
  - rewrite zlen_app. lia.
Qed.
End QueueRep.

(** ** The abstract workqueue *)

Module Spec.
(** Two queues and the threads asleep on each. *)
Record awq := mk_aw {
  aw_questions : list lua_value; aw_answers : list lua_value;
  aw_waiting_q : list Z; aw_waiting_a : list Z }.

Inductive op :=
  | Write (t upval : Z) (vs : list lua_value)   (** [writeup] with [upval] 1 *)
  | Read (t : Z) (nonblock : bool)
  | Drain (t : Z).

Inductive reply := Unit | Value (v : option lua_value) | Asleep | NotOwner.

(** A read of one of the queues: the answer, what is left, who sleeps. *)
Definition take `{LuaApi} (t : Z) (nonblock : bool) (items : list lua_value) (waiting : list Z)
  : reply * list lua_value * list Z :=
  match items with
  | v :: items' => (Value (Some (transported v)), items', waiting)
  | [] => if nonblock then (Value None, [], waiting) else (Asleep, [], waiting ++ [t])
  end.

Definition step `{LuaApi} (owner : Z) (a : awq) (o : op) : reply * awq :=
  match o with
  | Write t _ vs =>
      (Unit,
       if owner =? t
       then mk_aw (aw_questions a ++ vs) (aw_answers a) (tail (aw_waiting_q a)) (aw_waiting_a a)
       else mk_aw (aw_questions a) (aw_answers a ++ vs) (aw_waiting_q a) (tail (aw_waiting_a a)))
  | Read t nonblock =>
      if owner =? t then
        let '(r, items, w) := take t nonblock (aw_answers a) (aw_waiting_a a) in
        (r, mk_aw (aw_questions a) items (aw_waiting_q a) w)
      else
        let '(r, items, w) := take t nonblock (aw_questions a) (aw_waiting_q a) in
        (r, mk_aw items (aw_answers a) w (aw_waiting_a a))
  | Drain t =>
      if owner =? t then
        match aw_questions a with
        | [] => (Unit, a)
        | _ => (Asleep, mk_aw (aw_questions a) (aw_answers a) (aw_waiting_q a)
                          (aw_waiting_a a ++ [t]))
        end
      else (NotOwner, a)
  end.

Fixpoint run `{LuaApi} (owner : Z) (a : awq) (os : list op) : list reply * awq :=
  match os with
  | [] => ([], a)
  | o :: os' =>
      let '(r, a1) := step owner a o in
      let '(rs, a2) := run owner a1 os' in (r :: rs, a2)
  end.

(** The values of a run, and their encoded bytes. *)
Fixpoint count (os : list op) : Z :=
  match os with
  | [] => 0
  | Write _ _ vs :: os' => zlen vs + count os'
  | _ :: os' => count os'
  end.
Fixpoint bytes `{LuaApi} (os : list op) : Z :=
  match os with
  | [] => 0
  | Write _ upval vs :: os' => total_len upval vs + bytes os'
  | _ :: os' => bytes os'
  end.
Definition op_ok `{LuaApi} (o : op) : bool :=
  match o with
  | Write _ upval vs => ((upval =? 0) || (upval =? 1)) && forallb (writable upval) vs
  | _ => true
  end.
End Spec.

Section Refinement.
Context `{L : LuaApi} {Lok : LuaApiOk L}.
Import Spec.

(** The queue a thread writes to. *)
Definition write_end (t : Z) (w : workqueue_t) : queue_t :=
  if owner_thread w =? t then questions w else answers w.

Definition wq_step (s : wst) (o : op) : option (reply * wst) :=
  match o with
  | Write t upval vs =>
      match write_any upval (queue_write_fuel (write_end t s.1) upval vs) t vs s with
      | Done _ s' => Some (Unit, s') | _ => None end
  | Read t nb =>
      match workqueue_read t nb s with
      | Done v s' => Some (Value v, s')
      | Blocked s' => Some (Asleep, s')
      | _ => None end
  | Drain t =>
      match workqueue_drain t s with
      | Done _ s' => Some (Unit, s')
      | Blocked s' => Some (Asleep, s')
      | Raised _ s' => Some (NotOwner, s')
      | _ => None end
  end.

Fixpoint wq_run (s : wst) (os : list op) : option (list reply * wst) :=
  match os with
  | [] => Some ([], s)
  | o :: os' => '(r, s1) ← wq_step s o; '(rs, s2) ← wq_run s1 os'; Some (r :: rs, s2)
  end.

Record simulates (owner inc : Z) (s : wst) (a : awq) (used : Z) : Prop := {
  sim_owner : owner_thread s.1 = owner;
  sim_inc : size_increment s.1 = inc;
  sim_questions : queue_rep (questions s.1) (aw_questions a);
  sim_answers : queue_rep (answers s.1) (aw_answers a);
  sim_waiting_q : q_read_avail_cond (questions s.1) = aw_waiting_q a;
  sim_waiting_a : q_read_avail_cond (answers s.1) = aw_waiting_a a;
  sim_bytes_q : rcb (q_rb (questions s.1)) <= used;
  sim_bytes_a : rcb (q_rb (answers s.1)) <= used;
}.

Context (owner inc : Z).
Hypothesis Hinc : 0 < inc < FIFO_MAX.

Definition items_of (a : awq) : Z := zlen (aw_questions a) + zlen (aw_answers a).

Lemma write_sim s a used t upval vs :
  simulates owner inc s a used -> op_ok (Write t upval vs) = true ->
  items_of a + zlen vs < U32_MOD -> used + total_len upval vs < FIFO_MAX ->
  exists s', wq_step s (Write t upval vs) = Some (Unit, s') /\
    simulates owner inc s' (step owner a (Write t upval vs)).2 (used + total_len upval vs).
Proof.
  destruct s as [w log], a as [qs as_ wq wa]. unfold items_of.
  intros [Ho Hi Hq Ha Hwq Hwa Hbq Hba] Hok Hn Hb. cbn in *.
  apply andb_prop in Hok as [Hu Hvs].
  assert (upval = 0 \/ upval = 1) as Hup by (apply orb_prop in Hu; lia).
  pose proof (zlen_nonneg qs). pose proof (zlen_nonneg as_). unfold FIFO_MAX in *.
  pose proof (total_len_nonneg upval vs).
  unfold write_any, mbnd, get_st, write_end. cbn. rewrite Ho.
  destruct (owner =? t); unfold on_questions, on_answers, zoom; cbn.
  - destruct (queue_write_ok t (queue_write_fuel (questions w) upval vs) inc upval
      (questions w) log qs vs) as (q' & log' & E & Hrep & Hr & Hw); try done; try lia.
    rewrite Hi, E. eexists. split; [done|]. split; cbn; try done; try lia. by rewrite Hw, Hwq.
  - destruct (queue_write_ok t (queue_write_fuel (answers w) upval vs) inc upval
      (answers w) log as_ vs) as (q' & log' & E & Hrep & Hr & Hw); try done; try lia.
    rewrite Hi, E. eexists. split; [done|]. split; cbn; try done; try lia. by rewrite Hw, Hwa.
Qed.

Lemma queue_read_any t nb q log items waiting :
  queue_rep q items -> q_read_avail_cond q = waiting ->
  exists q',
    (match workqueue_queue_read t nb (q, log) with
     | Done v s' => Some (Value v, s')
     | Blocked s' => Some (Asleep, s')
     | _ => None end) = Some ((take t nb items waiting).1.1, (q', log)) /\
    queue_rep q' (take t nb items waiting).1.2 /\
    q_read_avail_cond q' = (take t nb items waiting).2 /\ rcb (q_rb q') <= rcb (q_rb q).
Proof.
  intros Hrep <-. destruct items as [|v items]; [destruct nb|]; cbn.
  - rewrite queue_read_none by done. eexists. split; [done|]. done.
  - destruct (queue_read_sleeps t q log Hrep) as (q' & -> & Hrep' & Hr & Hw).
    exists q'. rewrite Hr. done.
  - destruct (queue_read_item t nb q log v items Hrep) as (q' & -> & Hrep' & Hr & Hw).
    exists q'. done.
Qed.

Lemma take_shorter t nb items waiting : zlen (take t nb items waiting).1.2 <= zlen items.
Proof. destruct items as [|v items]; [by destruct nb|]. cbn. rewrite zlen_cons. lia. Qed.

Lemma read_sim s a used t nb :
  simulates owner inc s a used ->
  exists s', wq_step s (Read t nb) = Some ((step owner a (Read t nb)).1, s') /\
    simulates owner inc s' (step owner a (Read t nb)).2 used /\
    items_of (step owner a (Read t nb)).2 <= items_of a.
Proof.
  destruct s as [w log], a as [qs as_ wq wa]. unfold items_of.
  intros [Ho Hi Hq Ha Hwq Hwa Hbq Hba]. cbn in *.
  unfold workqueue_read, mbnd, get_st. cbn. rewrite Ho.
  destruct (owner =? t); unfold on_questions, on_answers, zoom; cbn.
  - destruct (queue_read_any t nb (answers w) log as_ wa Ha Hwa) as (q' & E & Hrep & Hw & Hr).
    pose proof (take_shorter t nb as_ wa).
    destruct (workqueue_queue_read t nb (answers w, log)) as [v s'| |s'| |];
      destruct (take t nb as_ wa) as [[r items] w']; cbn in *; simplify_eq;
      (eexists; split; [done|]; cbn; split; [split; cbn; try done; lia | lia]).
  - destruct (queue_read_any t nb (questions w) log qs wq Hq Hwq) as (q' & E & Hrep & Hw & Hr).
    pose proof (take_shorter t nb qs wq).
    destruct (workqueue_queue_read t nb (questions w, log)) as [v s'| |s'| |];
      destruct (take t nb qs wq) as [[r items] w']; cbn in *; simplify_eq;
      (eexists; split; [done|]; cbn; split; [split; cbn; try done; lia | lia]).
Qed.

Lemma drain_sim s a used t :
  simulates owner inc s a used -> items_of a < U32_MOD ->
  exists s', wq_step s (Drain t) = Some ((step owner a (Drain t)).1, s') /\
    simulates owner inc s' (step owner a (Drain t)).2 used /\
    items_of (step owner a (Drain t)).2 <= items_of a.
Proof.
  destruct s as [w log], a as [qs as_ wq wa]. unfold items_of.
  intros [Ho Hi [Hqh Hqn Hqm Hqmu] [Hah Han Ham Hamu] Hwq Hwa Hbq Hba] Hn.
  cbn in *. pose proof (zlen_nonneg qs). pose proof (zlen_nonneg as_).
  unfold workqueue_drain, mbnd at 1, get_st at 1. cbn. rewrite Ho.
  destruct (owner =? t); cbn.
  2:{ eexists. split; [done|]. split; [by split | lia]. }
  destruct w as [nx pv rc i nm [qr qm qc qn] [ar am ac an] ow m]; cbn in *. subst qm am qn an.
  unfold mbnd, on_questions, on_answers, zoom. cbn.
  rewrite (qlock_free t (mk_queue qr (mutex_init true) qc (zlen qs), log)) by done. cbn.
  rewrite qlock_free by done. cbn. rewrite qunlock_held by done. cbn.
  unfold u32_add. rewrite Z.mod_small by lia. unfold drain_wait, mbnd, get_st. cbn.
  unfold on_answers, zoom. cbn. destruct qs as [|v qs].
  - change (zlen (@nil lua_value)) with 0 in *. rewrite Z.add_0_r, Z.ltb_irrefl.
    rewrite qunlock_held by done. cbn. eexists. split; [done|].
    split; [by split|]. apply Z.le_refl.
  - rewrite zlen_cons in *. pose proof (zlen_nonneg qs). case_cmp; [|lia].
    rewrite qwait_held by done. cbn. eexists. split; [done|].
    split; [split; cbn; try done; [split; cbn; rewrite ?zlen_cons; done | by rewrite Hwa]|].
    cbn. rewrite zlen_cons. lia.
Qed.

Lemma wq_run_sim os : forall s a used,
  simulates owner inc s a used -> forallb op_ok os = true ->
  items_of a + count os < U32_MOD -> used + bytes os < FIFO_MAX ->
  exists s' used', wq_run s os = Some ((run owner a os).1, s') /\
    simulates owner inc s' (run owner a os).2 used'.
Proof.
  assert (forall os, 0 <= count os) as Hc.
  { intros l. induction l as [|[? ? vs| |] l IH]; cbn; try done. pose proof (zlen_nonneg vs). lia. }
  assert (forall os, 0 <= bytes os) as Hbs.
  { intros l. induction l as [|[? u vs| |] l IH]; cbn; try done.
    pose proof (total_len_nonneg u vs). lia. }
  induction os as [|o os IH]; intros s a used Hs Hok Hn Hb; [by exists s, used|].
  cbn [forallb] in Hok. apply andb_prop in Hok as [Ho Hok].
  specialize (Hc os). specialize (Hbs os).
  assert (exists s1 used1, wq_step s o = Some ((step owner a o).1, s1) /\
    simulates owner inc s1 (step owner a o).2 used1 /\
    items_of (step owner a o).2 + count os < U32_MOD /\ used1 + bytes os < FIFO_MAX)
    as (s1 & used1 & E & Hs1 & Hn1 & Hb1).
  { destruct o as [t u vs|t nb|t]; cbn [count bytes] in *.
    - destruct (write_sim s a used t u vs Hs Ho) as (s1 & E & Hs1); [lia | lia |].
      exists s1, (used + total_len u vs). split; [exact E|]. split; [exact Hs1|].
      unfold items_of in *. cbn. destruct (owner =? t); cbn; rewrite zlen_app; lia.
    - destruct (read_sim s a used t nb Hs) as (s1 & E & Hs1 & Hle).
      exists s1, used. split; [exact E|]. split; [exact Hs1|]. lia.
    - destruct (drain_sim s a used t Hs) as (s1 & E & Hs1 & Hle); [lia|].
      exists s1, used. split; [exact E|]. split; [exact Hs1|]. lia. }
  destruct (IH s1 _ used1 Hs1 Hok Hn1 Hb1) as (s' & used' & E' & Hs').
  exists s', used'. cbn. destruct (step owner a o) as [r a1]. cbn in *. rewrite E. cbn.
  destruct (run owner a1 os) as [rs a2]. cbn in *. by rewrite E'.
Qed.
End Refinement.

(** ** As a queue, from the owner to a worker *)

Section Interface.
Context `{L : LuaApi} {Lok : LuaApiOk L}.
Context (owner worker : Z).
Hypothesis Hdiff : owner <> worker.

#[export] Instance questions_fifo : Fifo wst := {|
  ff_rep s items used :=
    owner_thread s.1 = owner /\ 0 < size_increment s.1 < FIFO_MAX /\
    queue_rep (questions s.1) items /\ rcb (q_rb (questions s.1)) <= used;
  ff_put vs s :=
    match workqueue_writeup (queue_write_fuel (questions s.1) 1 vs) owner vs s with
    | Done _ s' => Some s' | _ => None end;
  ff_take s :=
    match workqueue_read worker true s with Done v s' => Some (v, s') | _ => None end;
|}.

Lemma questions_fifo_ok : FifoOk 1 questions_fifo.
Proof.
  split; cbn.
  - intros [w log] items used vs (Ho & Hi & Hq & Hu) Hw Hn Hb. cbn in *. unfold FIFO_MAX in *.
    destruct (queue_write_ok owner (queue_write_fuel (questions w) 1 vs) (size_increment w) 1
      (questions w) log items vs) as (q' & log' & E & Hrep & Hr & _); auto; [lia | lia |].
    unfold workqueue_writeup, write_any, mbnd, get_st. cbn. rewrite Ho, Z.eqb_refl.
    unfold on_questions, zoom. cbn. rewrite E. eexists. split; [done|]. cbn.
    repeat split; try done; try apply Hrep; try lia.
  - intros [w log] v items used (Ho & Hi & Hq & Hu). cbn in *.
    destruct (queue_read_item worker true (questions w) log v items Hq)
      as (q' & E & Hrep & Hr & _).
    unfold workqueue_read, mbnd, get_st. cbn. rewrite Ho, (proj2 (Z.eqb_neq _ _)) by done.
    unfold on_questions, zoom. cbn. rewrite E. eexists. split; [done|]. cbn.
    split; [done|]. split; [done|]. split; [done|lia].
  - intros [w log] used (Ho & Hi & Hq & Hu). cbn in *.
    unfold workqueue_read, mbnd, get_st. cbn. rewrite Ho, (proj2 (Z.eqb_neq _ _)) by done.
    unfold on_questions, zoom. cbn. rewrite queue_read_none by done. eexists. split; [done|].
    cbn. done.
Qed.
End Interface.

(** ** Theorems *)

(** A workqueue as [workqueue_open] creates it. *)
Definition fresh_workqueue (owner size inc : Z) : workqueue_t :=
  mk_wq None None 1 inc None (workqueue_init_queue size) (workqueue_init_queue size) owner
    (mutex_init true).

Section Theorems.
Context `{L : LuaApi} {Lok : LuaApiOk L}.
Import Spec.

(** C4: a workqueue is two queues.  What the owner thread writes (with or without
    upvalues) is a question read by the other threads, what they write is an answer read
    by the owner, each queue in order; [drain] sleeps while a question is pending and
    is refused to the other threads.  Any sequence of calls by any threads runs
    without undefined behaviour or endless loop and answers as the two lists do. *)
Theorem workqueue_refines_two_queues owner size inc os :
  0 < size < FIFO_MAX -> 0 < inc < FIFO_MAX -> forallb op_ok os = true ->
  count os < U32_MOD -> bytes os < FIFO_MAX ->
  let a := run owner (mk_aw [] [] [] []) os in
  exists s', wq_run (fresh_workqueue owner size inc, []) os = Some (a.1, s') /\
    queue_rep (questions s'.1) (aw_questions a.2) /\
    queue_rep (answers s'.1) (aw_answers a.2) /\
    q_read_avail_cond (questions s'.1) = aw_waiting_q a.2 /\
    q_read_avail_cond (answers s'.1) = aw_waiting_a a.2.
Proof.
  intros Hs Hi Hok Hn Hb a. unfold FIFO_MAX in *.
  destruct (wq_run_sim owner inc Hi os (fresh_workqueue owner size inc, []) (mk_aw [] [] [] []) 0)
    as (s' & used & E & []); try done.
  { split; cbn; try done; apply init_queue_rep; lia. }
  by exists s'.
Qed.

(** The questions a worker reads, followed by those still queued, are copies of
    those the owner wrote with their upvalues, each once and in order. *)
Theorem workqueue_delivers owner worker size inc ops :
  owner <> worker -> 0 < size < FIFO_MAX -> 0 < inc < FIFO_MAX ->
  forallb (writable 1) (puts ops) = true -> zlen (puts ops) < U32_MOD ->
  total_len 1 (puts ops) < FIFO_MAX ->
  exists got s' rest, @ff_run _ (questions_fifo owner worker) ops
      (fresh_workqueue owner size inc, []) = Some (got, s') /\
    queue_rep (questions s'.1) rest /\
    omap id got ++ map transported rest = map transported (puts ops).
Proof.
  intros Hd Hs Hi Hw Hn Hb. pose proof (questions_fifo_ok owner worker Hd) as Hok.
  destruct (fifo_delivers (F := questions_fifo owner worker) (Fok := Hok) ops
    (fresh_workqueue owner size inc, []))
    as (got & s' & rest & used & E & (_ & _ & Hr & _) & H); try done.
  { cbn. split; [done|]. split; [done|]. split; [|done]. apply init_queue_rep.
    unfold FIFO_MAX in *. lia. }
  by exists got, s', rest.
Qed.

(** A thread asleep in [drain] with the mark it took goes on, when it is woken,
    exactly when the answers have reached the mark; otherwise it sleeps again, with
    the queues as they were. *)
Theorem drain_ends_at_mark t mark w log items :
  queue_rep (answers w) items ->
  exists w', queue_rep (answers w') items /\ questions w' = questions w /\
    drain_woken t mark (w, log)
    = if zlen items <? mark then Blocked (w', log) else Done tt (w', log).
Proof.
  intros [Hh Hn Hm Hmu].
  destruct w as [nx pv rc i nm qs [ar am ac an] ow m]; cbn in *. subst am an.
  unfold drain_woken, drain_wait, mbnd, get_st, on_answers, zoom. cbn.
  rewrite qlock_free by done. cbn. case_cmp; cbn.
  - rewrite qwait_held by done. eexists (mk_wq _ _ _ _ _ _ (mk_queue _ _ _ _) _ _).
    split; [|split; [|reflexivity]]; done.
  - rewrite qunlock_held by done. eexists (mk_wq _ _ _ _ _ _ (mk_queue _ _ _ _) _ _).
    split; [|split; [|reflexivity]]; done.
Qed.

(** [drain] does not wait for a question a worker has read and not yet answered:
    called then, it returns with no answer to read. *)
Theorem drain_misses_question_in_progress owner worker size inc :
  owner <> worker -> 0 < size < FIFO_MAX -> 0 < inc < FIFO_MAX ->
  exists s', wq_run (fresh_workqueue owner size inc, [])
      [Write owner 0 [LBoolean true]; Read worker false; Drain owner; Read owner true]
    = Some ([Unit; Value (Some (LBoolean true)); Unit; Value None], s').
Proof.
  intros Hd Hs Hi. unfold FIFO_MAX in *.
  destruct (wq_run_sim owner inc Hi
    [Write owner 0 [LBoolean true]; Read worker false; Drain owner; Read owner true]
    (fresh_workqueue owner size inc, []) (mk_aw [] [] [] []) 0) as (s' & used & E & _); try done.
  { split; cbn; try done; apply init_queue_rep; lia. }
  exists s'. rewrite E. cbn. rewrite Z.eqb_refl, (proj2 (Z.eqb_neq _ _)) by done. done.
Qed.
End Theorems.

(** ** Concrete runs *)

Section Runs.
Import Spec.
#[local] Existing Instance RefLua.api_ok.
#[local] Instance lua53 : LuaApi := RefLua.api 503 false.

Lemma workqueue_refines_two_queues_witness :
  exists s', wq_run (fresh_workqueue 1 16 16, [])
      [Write 1 0 [LInteger 5; LString (str "question two")]; Drain 1; Read 2 false;
       Write 2 1 [LInteger 6]; Drain 2; Read 2 true; Drain 1; Read 1 false; Read 2 true]
    = Some ([Unit; Asleep; Value (Some (LInteger 5)); Unit; NotOwner;
             Value (Some (LString (str "question two"))); Unit; Value (Some (LInteger 6));
             Value None], s').
Proof.
  destruct (workqueue_refines_two_queues 1 16 16
    [Write 1 0 [LInteger 5; LString (str "question two")]; Drain 1; Read 2 false;
     Write 2 1 [LInteger 6]; Drain 2; Read 2 true; Drain 1; Read 1 false; Read 2 true])
    as (s' & E & _); [done | done | vm_compute; reflexivity .. |].
  exists s'. exact E.
Defined.

Lemma workqueue_delivers_witness :
  exists got s' rest, @ff_run _ (questions_fifo 1 2)
      [Take; Put [LInteger 1; LInteger 2]; Take; Put [LInteger 3]]
      (fresh_workqueue 1 16 16, []) = Some (got, s') /\
    queue_rep (questions s'.1) rest /\
    omap id got ++ map transported rest = [LInteger 1; LInteger 2; LInteger 3].
Proof.
  apply (workqueue_delivers 1 2 16 16
    [Take; Put [LInteger 1; LInteger 2]; Take; Put [LInteger 3]]);
    [done | done | done | vm_compute; reflexivity ..].
Defined.

Lemma drain_ends_at_mark_witness :
  exists w', queue_rep (answers w') [] /\ questions w' = workqueue_init_queue 16 /\
    drain_woken 1 2 (fresh_workqueue 1 16 16, []) = Blocked (w', []).
Proof.
  apply (drain_ends_at_mark 1 2 (fresh_workqueue 1 16 16) [] []). by apply init_queue_rep.
Defined.

Lemma drain_misses_question_in_progress_witness :
  exists s', wq_run (fresh_workqueue 1 16 16, [])
      [Write 1 0 [LBoolean true]; Read 2 false; Drain 1; Read 1 true]
    = Some ([Unit; Value (Some (LBoolean true)); Unit; Value None], s').
Proof. by apply (drain_misses_question_in_progress 1 2 16 16). Defined.
End Runs.
