(* ===== verification/Registry.v ===== *)
(** * The registry of named workqueues: what the list functions of [src/workqueue.c] do.

    [workqueue_insert], [workqueue_remove] and [workqueue_find] work on a doubly linked
    list threaded through the workqueues.  The invariant says which list of addresses
    it is; the theorems say that open, close, retain and [__gc] act on the workqueues
    as on a finite map. *)
From S2P Require Import Prelude RingBuffer Lua Pthread Object DList WorkQueue.

#[local] Open Scope ipc_scope.

(** ** The linked list *)

(** The list of the named workqueues. *)
Definition linked : gmap Z workqueue_t -> list Z -> Prop :=
  linked_by next prev (fun w => is_Some (name w)).

(** What a workqueue is apart from its links. *)
Definition core : Type := option (list byte) * Z * Z * queue_t * queue_t * Z.
Definition core_of (w : workqueue_t) : core :=
  (name w, refcount w, size_increment w, questions w, answers w, owner_thread w).

(** The registry as a finite map, the links forgotten. *)
Definition cores (g : registry) : gmap Z core := core_of <$> wqs g.

Definition set_maps (g : registry) (m : gmap Z workqueue_t) (h : option Z) : registry :=
  mk_reg m h (workqueue_mutex g) (wq_log g).

Lemma update_run p f g w :
  wqs g !! p = Some w ->
  update p f g = Done tt (set_maps g (<[p := f w]> (wqs g)) (workqueue_head g)).
Proof. intros H. unfold update, mbnd, deref. by rewrite H. Qed.

(** The same as an [alter]. *)
Lemma update_alter p f g :
  is_Some (wqs g !! p) ->
  update p f g = Done tt (set_maps g (alter f p (wqs g)) (workqueue_head g)).
Proof.
  intros [w Hw]. rewrite (update_run p f g w Hw). do 2 f_equal.
  apply map_eq. intros j. destruct (decide (j = p)) as [->|].
  - by rewrite lookup_insert_eq, lookup_alter_eq, Hw.
  - by rewrite lookup_insert_ne, lookup_alter_ne.
Qed.

Lemma insert_same_core (m : gmap Z workqueue_t) p w w' :
  m !! p = Some w -> core_of w' = core_of w -> core_of <$> <[p := w']> m = core_of <$> m.
Proof.
  intros Hp Hc. rewrite fmap_insert, Hc. apply insert_id. by rewrite lookup_fmap, Hp.
Qed.

(** *** Insertion and removal *)

Lemma alter_core f (x : Z) (m : gmap Z workqueue_t) : (forall w, core_of (f w) = core_of w) ->
  core_of <$> alter f x m = core_of <$> m.
Proof.
  intros Hf. apply map_eq. intros i. rewrite !lookup_fmap. destruct (decide (i = x)) as [->|].
  - rewrite lookup_alter_eq. destruct (m !! x); [|done]. cbn. by rewrite Hf.
  - by rewrite lookup_alter_ne.
Qed.

Lemma insert_spec g l p w :
  NoDup l -> linked (wqs g) l -> workqueue_head g = head l -> p ∉ l ->
  wqs g !! p = Some w -> next w = None -> prev w = None -> is_Some (name w) ->
  exists m, workqueue_insert p g = Done tt (set_maps g m (Some p)) /\
    linked m (p :: l) /\ core_of <$> m = cores g.
Proof.
  intros Hnd Hl Hh Hp Hw Hnx Hpv [nm Hnm].
  exists (pushed set_next set_prev (wqs g) p w l).
  split; [|split; [by apply pushed_linked|]].
  - unfold workqueue_insert, mbnd, deref. rewrite Hw, Hnm. cbn. rewrite Hh.
    destruct l as [|h l]; [done|]. cbn.
    assert (p <> h) as Hne by (intros ->; apply Hp; left).
    destruct (linked_by_in _ _ _ _ _ h Hl) as (wh & Ewh & _); [left|].
    rewrite update_alter by (by eexists). cbn.
    by rewrite (update_run p _ _ w) by (cbn; by rewrite lookup_alter_ne).
  - destruct l as [|h l]; [done|]. cbn. assert (p <> h) as Hne by (intros ->; apply Hp; left).
    rewrite (insert_same_core _ p w); [|by rewrite lookup_alter_ne | done].
    by apply alter_core.
Qed.

Lemma remove_spec l1 l2 p g w :
  NoDup (l1 ++ p :: l2) -> linked (wqs g) (l1 ++ p :: l2) ->
  workqueue_head g = head (l1 ++ p :: l2) -> wqs g !! p = Some w ->
  exists m, workqueue_remove p g = Done tt (set_maps g m (head (l1 ++ l2))) /\
    linked m (l1 ++ l2) /\ core_of <$> m = cores g.
Proof.
  intros Hnd Hl Hh Hw. exists (unlinked next prev set_next set_prev (wqs g) w).
  split; [|split; [by eapply unlinked_linked|]].
  - destruct (linked_by_in _ _ _ _ _ p Hl) as (w0 & E0 & [nm Hnm]); [set_solver|].
    rewrite Hw in E0. injection E0 as <-.
    pose proof (fun x => linked_next _ _ _ l1 l2 p _ w x Hnd Hl Hw) as Hnx.
    pose proof (fun x => linked_prev _ _ _ l1 l2 p _ w x Hnd Hl Hw) as Hpv.
    rewrite <- (removed_head _ _ _ l1 l2 p _ w (workqueue_head g) Hnd Hl Hw Hh).
    unfold workqueue_remove, mbnd, deref, get_st. rewrite Hw, Hnm. cbn.
    set (g1 := set_maps g (wqs g)
      (if bool_decide (workqueue_head g = Some p) then next w else workqueue_head g)).
    assert ((if bool_decide (workqueue_head g = Some p) then set_head (next w) else mret tt) g
      = Done tt g1) as -> by (subst g1; case_bool_decide; [done | by destruct g]).
    unfold unlinked. destruct (next w) as [n|] eqn:En.
    + destruct (Hnx n eq_refl) as [Hnp Hn]. rewrite update_alter by done. cbn.
      rewrite lookup_alter_ne, Hw by done. destruct (prev w) as [q|] eqn:Eq; [|done].
      destruct (Hpv q eq_refl) as [Hqp Hq]. rewrite En.
      rewrite update_alter; [done|]. cbn. by apply lookup_alter_is_Some.
    + cbn. rewrite Hw. destruct (prev w) as [q|] eqn:Eq; [|done].
      destruct (Hpv q eq_refl) as [Hqp Hq]. rewrite En. by rewrite update_alter.
  - unfold unlinked. destruct (next w), (prev w); rewrite ?alter_core by done; done.
Qed.

(** ** Search *)

Definition named_at (m : gmap Z workqueue_t) (nm : list byte) (p : Z) : bool :=
  match m !! p with Some w => bool_decide (name w = Some nm) | None => false end.

Lemma find_loop_spec nm g l fuel : forall l1 l2,
  l = l1 ++ l2 -> linked (wqs g) l -> (length l2 <= fuel)%nat ->
  find_loop fuel nm (head l2) g = Done (List.find (named_at (wqs g) nm) l2) g.
Proof.
  induction fuel as [|fuel IH]; intros l1 [|p l2] -> Hl Hf; try done; [cbn in Hf; lia|].
  destruct (Hl (length l1) p (mid_here l1 l2 p)) as (w & Ew & Hn & _ & [n Hnm]).
  cbn [head find_loop List.find]. unfold mbnd, deref, named_at at 1. rewrite Ew, Hnm.
  destruct (decide (n = nm)) as [->|Hne].
  - by rewrite !bool_decide_true.
  - rewrite !bool_decide_false by congruence.
    rewrite mid_after in Hn by lia. rewrite lookup_app_r, Nat.sub_diag in Hn by lia.
    rewrite Hn. replace (l2 !! 0%nat) with (head l2) by (by destruct l2).
    apply (IH (l1 ++ [p])); [by rewrite <- app_assoc | done | cbn in Hf; lia].
Qed.

(** ** The invariant *)

Record reg_rep (g : registry) (l : list Z) : Prop := {
  rr_nodup : NoDup l;
  rr_linked : linked (wqs g) l;
  rr_head : workqueue_head g = head l;
  rr_mutex : workqueue_mutex g = mutex_init true;
  rr_named p w : wqs g !! p = Some w -> is_Some (name w) -> p ∈ l;
  rr_unique p q w v : wqs g !! p = Some w -> wqs g !! q = Some v ->
    is_Some (name w) -> name w = name v -> p = q;
}.

(** ** The finite map it stands for *)

Definition c_name (c : core) : option (list byte) := let '(n, _, _, _, _, _) := c in n.
Definition c_refs (c : core) : Z := let '(_, r, _, _, _, _) := c in r.
Definition c_with_refs (r : Z) (c : core) : core :=
  let '(n, _, i, q, a, o) := c in (n, r, i, q, a, o).

(** The calls, with the address [calloc] gives to an [Open] that creates. *)
Inductive call :=
  | Open (t p : Z) (nm : option (list byte)) (size inc : option Z)
  | Close (t p : Z)
  | Gc (t p : Z)
  | Retain (t p : Z).

Inductive answer := Opened (p creator : Z) | Closed | Retained.

Definition new_core (t : Z) (nm : option (list byte)) (size inc : option Z) : core :=
  let size := default DEFAULT_WORKQUEUE_SIZE size in
  (nm, 1, default size inc, workqueue_init_queue size, workqueue_init_queue size, t).

(** Dropping a reference: the workqueue goes with the last. *)
Definition dropped (a : gmap Z core) (p : Z) (c : core) : gmap Z core :=
  if c_refs c =? 1 then delete p a else <[p := c_with_refs (c_refs c - 1) c]> a.

Inductive spec_call : gmap Z core -> call -> answer -> gmap Z core -> Prop :=
  | spec_open_existing a t p nm size inc q c :
      a !! q = Some c -> c_name c = Some (cstr nm) ->
      spec_call a (Open t p (Some nm) size inc) (Opened q 0)
        (<[q := c_with_refs (c_refs c + 1) c]> a)
  | spec_open_new a t p nm size inc :
      (forall q c, a !! q = Some c -> c_name c = cstr <$> nm -> nm = None) ->
      spec_call a (Open t p nm size inc) (Opened p 1)
        (<[p := new_core t (cstr <$> nm) size inc]> a)
  | spec_close a t p c : a !! p = Some c -> spec_call a (Close t p) Closed (dropped a p c)
  | spec_gc a t p c : a !! p = Some c -> spec_call a (Gc t p) Closed (dropped a p c)
  | spec_retain_anonymous a t p c :
      a !! p = Some c -> c_name c = None ->
      spec_call a (Retain t p) Retained (<[p := c_with_refs (c_refs c + 1) c]> a)
  | spec_retain_named a t p c :
      a !! p = Some c -> is_Some (c_name c) -> spec_call a (Retain t p) Retained a.

(** Open creates at an address not in use; the others are on one in use. *)
Definition legal (a : gmap Z core) (c : call) : Prop :=
  match c with
  | Open _ p _ _ _ => a !! p = None
  | Close _ p | Gc _ p | Retain _ p => is_Some (a !! p)
  end.

Section Calls.
Context `{TH : THAtomic} {THok : THAtomicOk TH}.

Definition do_call (c : call) : M registry answer :=
  match c with
  | Open t p nm size inc => let! r := workqueue_open t p nm size inc in mret (Opened r.1 r.2)
  | Close t p => workqueue_close t (Some p) ;;; mret Closed
  | Gc t p => workqueue_gc t (Some p) ;;; mret Closed
  | Retain t p => workqueue_retain t (Some p) ;;; mret Retained
  end.

(** The registries the calls lead to. *)
Inductive reachable : registry -> Prop :=
  | reach_init : reachable workqueue_one_time_init
  | reach_call g c r g' :
      reachable g -> legal (cores g) c -> do_call c g = Done r g' -> reachable g'.

Definition with_mutex (m : pmutex) (g : registry) : registry :=
  mk_reg (wqs g) (workqueue_head g) m (wq_log g).

Lemma lookup_cores g p w : wqs g !! p = Some w -> cores g !! p = Some (core_of w).
Proof. intros H. unfold cores. by rewrite lookup_fmap, H. Qed.

Lemma cores_lookup g p c :
  cores g !! p = Some c -> exists w, wqs g !! p = Some w /\ c = core_of w.
Proof.
  unfold cores. rewrite lookup_fmap. intros (w & -> & Hw)%fmap_Some. eauto.
Qed.

(** The parts of the invariant on names are about the map only. *)
Definition names_in (a : gmap Z core) (l : list Z) : Prop :=
  forall p c, a !! p = Some c -> is_Some (c_name c) -> p ∈ l.
Definition names_unique (a : gmap Z core) : Prop :=
  forall p q c d, a !! p = Some c -> a !! q = Some d -> is_Some (c_name c) ->
  c_name c = c_name d -> p = q.

Lemma reg_rep_intro g l :
  NoDup l -> linked (wqs g) l -> workqueue_head g = head l ->
  workqueue_mutex g = mutex_init true -> names_in (cores g) l -> names_unique (cores g) ->
  reg_rep g l.
Proof.
  intros ? ? ? ? Hin Hun. split; try done.
  - intros p w Hw%lookup_cores Hn. by eapply Hin.
  - intros p q w v Hw%lookup_cores Hv%lookup_cores Hn He. by eapply Hun.
Qed.

Lemma rep_names_in g l : reg_rep g l -> names_in (cores g) l.
Proof. intros H p c (w & Hw & ->)%cores_lookup Hn. by eapply (rr_named _ _ H). Qed.

Lemma rep_names_unique g l : reg_rep g l -> names_unique (cores g).
Proof.
  intros H p q c d (w & Hw & ->)%cores_lookup (v & Hv & ->)%cores_lookup Hn He.
  by eapply (rr_unique _ _ H).
Qed.

(** Changing what is not a link nor a name. *)
Lemma linked_set_refcount m l p w r :
  linked m l -> m !! p = Some w -> linked (<[p := set_refcount r w]> m) l.
Proof.
  intros Hl Hw i x Hx. destruct (Hl i x Hx) as (wx & Ex & Hn & Hp & Hnm).
  destruct (decide (x = p)) as [->|].
  - rewrite lookup_insert_eq. rewrite Hw in Ex. injection Ex as <-. eauto.
  - rewrite lookup_insert_ne by done. eauto.
Qed.

Lemma names_set_refs a p c r l :
  a !! p = Some c -> names_in a l -> names_in (<[p := c_with_refs r c]> a) l.
Proof.
  intros Hc Hin q d Hd Hn. destruct (decide (q = p)) as [->|].
  - rewrite lookup_insert_eq in Hd. injection Hd as <-.
    eapply Hin; [done|]. by destruct c as [[[[[? ?] ?] ?] ?] ?].
  - rewrite lookup_insert_ne in Hd by done. by eapply Hin.
Qed.

Lemma unique_set_refs a p c r :
  a !! p = Some c -> names_unique a -> names_unique (<[p := c_with_refs r c]> a).
Proof.
  intros Hc Hun.
  assert (forall q d, <[p := c_with_refs r c]> a !! q = Some d ->
    exists d', a !! q = Some d' /\ c_name d' = c_name d) as Hback.
  { intros q d Hd. destruct (decide (q = p)) as [->|].
    - rewrite lookup_insert_eq in Hd. injection Hd as <-. exists c. split; [done|].
      by destruct c as [[[[[? ?] ?] ?] ?] ?].
    - rewrite lookup_insert_ne in Hd by done. eauto. }
  intros q1 q2 d1 d2 (d1' & H1 & E1)%Hback (d2' & H2 & E2)%Hback Hn He.
  eapply (Hun q1 q2 d1' d2'); congruence.
Qed.

Lemma core_refs w : c_refs (core_of w) = refcount w.
Proof. done. Qed.

Lemma core_set_refs w r : core_of (set_refcount r w) = c_with_refs r (core_of w).
Proof. done. Qed.

Definition held (t : Z) (g : registry) : registry := with_mutex (mk_mutex true (Some t) 1) g.
Definition freed (g : registry) : registry := with_mutex (mutex_init true) g.

Lemma lock_registry_free t g :
  workqueue_mutex g = mutex_init true -> lock_registry t g = Done tt (held t g).
Proof. intros H. unfold lock_registry. by rewrite H. Qed.

Lemma unlock_registry_held t g :
  workqueue_mutex g = mk_mutex true (Some t) 1 -> unlock_registry t g = Done tt (freed g).
Proof.
  intros H. unfold unlock_registry, pthread_mutex_unlock. rewrite H. cbn. by rewrite Z.eqb_refl.
Qed.

#[local] Arguments lock_registry : simpl never.
#[local] Arguments unlock_registry : simpl never.
#[local] Arguments update : simpl never.

(** What a call does: its answer, the map after it, and an invariant again. *)
Definition does (g : registry) (m : M registry answer) (r : answer) (a : gmap Z core) : Prop :=
  exists g' l', m g = Done r g' /\ cores g' = a /\ reg_rep g' l'.

(** A reference more or less, under the lock. *)
Lemma rep_set_refs g l p w r m h :
  reg_rep g l -> wqs g !! p = Some w ->
  let g' := mk_reg (<[p := set_refcount r w]> (wqs g)) (workqueue_head g) m h in
  m = mutex_init true ->
  cores g' = <[p := c_with_refs r (core_of w)]> (cores g) /\ reg_rep g' l.
Proof.
  intros Hr Hw g' Hm.
  assert (cores g' = <[p := c_with_refs r (core_of w)]> (cores g)) as Hc
    by (unfold g', cores; cbn; by rewrite fmap_insert).
  split; [done|]. destruct Hr as [Hnd Hl Hh Hmu Hin Hun] eqn:E. clear E.
  apply reg_rep_intro; try done; [by apply linked_set_refcount | rewrite Hc | rewrite Hc].
  - apply names_set_refs; [by apply lookup_cores | by eapply rep_names_in].
  - apply unique_set_refs; [by apply lookup_cores | by eapply rep_names_unique].
Qed.

Lemma find_named g l nm q :
  reg_rep g l -> List.find (named_at (wqs g) nm) l = Some q ->
  exists w, wqs g !! q = Some w /\ name w = Some nm.
Proof.
  intros Hr [_ Hq]%find_some. unfold named_at in Hq. destruct (wqs g !! q) as [w|]; [|done].
  exists w. by apply bool_decide_eq_true in Hq.
Qed.

Lemma find_unnamed g l nm q c :
  reg_rep g l -> List.find (named_at (wqs g) nm) l = None ->
  cores g !! q = Some c -> c_name c <> Some nm.
Proof.
  intros Hr Hf Hq Hc. pose proof (rep_names_in _ _ Hr q c Hq ltac:(by rewrite Hc)) as Hin.
  apply list_elem_of_In in Hin. pose proof (find_none _ _ Hf q Hin) as Hn.
  apply cores_lookup in Hq as (w & Hw & ->). unfold named_at in Hn. rewrite Hw in Hn.
  apply bool_decide_eq_false in Hn. by apply Hn.
Qed.

(** The new workqueue, before [workqueue_insert]. *)
Lemma fresh_names a p c l :
  a !! p = None -> names_in a l -> names_in (<[p := c]> a) (p :: l).
Proof.
  intros Hp Hin q d Hd Hn. destruct (decide (q = p)) as [->|]; [left|].
  rewrite lookup_insert_ne in Hd by done. right. by eapply Hin.
Qed.

Lemma fresh_unique a p c :
  a !! p = None -> names_unique a ->
  (forall q d, a !! q = Some d -> c_name d = c_name c -> c_name c = None) ->
  names_unique (<[p := c]> a).
Proof.
  intros Hp Hun Hfresh q1 q2 d1 d2 H1 H2 [n Hn] He.
  destruct (decide (q1 = p)) as [->|], (decide (q2 = p)) as [->|]; try done;
    rewrite ?lookup_insert_eq in *; rewrite ?lookup_insert_ne in * by done; simplify_eq.
  - specialize (Hfresh q2 d2 H2 ltac:(by rewrite <- He)). congruence.
  - specialize (Hfresh q1 d1 H1 He). congruence.
  - by eapply (Hun q1 q2 d1 d2).
Qed.

Definition new_wq (t : Z) (nm : option (list byte)) (size inc : option Z) : workqueue_t :=
  let size := default DEFAULT_WORKQUEUE_SIZE size in
  mk_wq None None 1 (default size inc) nm (workqueue_init_queue size)
    (workqueue_init_queue size) t (mutex_init true).

(** The end of [workqueue_open] when nothing was found. *)
Lemma create_spec g l t p nm size inc :
  reg_rep g l -> cores g !! p = None ->
  (forall q c, cores g !! q = Some c -> c_name c = nm -> nm = None) ->
  exists g', (workqueue_insert p ;;; unlock_registry t)
      (mk_reg (<[p := new_wq t nm size inc]> (wqs g)) (workqueue_head g)
         (mk_mutex true (Some t) 1) (wq_log g)) = Done tt g' /\
    cores g' = <[p := new_core t nm size inc]> (cores g) /\ exists l', reg_rep g' l'.
Proof.
  intros Hr Hp Hfresh. pose proof Hr as [Hnd Hl Hh Hmu _ _].
  set (g1 := mk_reg _ _ _ _). unfold cores in Hp. rewrite lookup_fmap in Hp.
  apply fmap_None in Hp.
  assert (p ∉ l) as Hpl.
  { intros Hin. destruct (linked_by_in _ _ _ _ _ _ Hl Hin) as (w & Hw & _). congruence. }
  assert (linked (wqs g1) l) as Hl1.
  { intros i x Hx. destruct (Hl i x Hx) as (w & Hw & ?). exists w. split; [|done]. cbn.
    rewrite lookup_insert_ne; [done|]. intros ->. by apply Hpl; eapply list_elem_of_lookup_2. }
  assert (cores g1 = <[p := new_core t nm size inc]> (cores g)) as Hc1
    by (unfold g1, cores; cbn; by rewrite fmap_insert).
  assert (cores g !! p = None) as Hpc by (unfold cores; by rewrite lookup_fmap, Hp).
  assert (names_in (cores g1) (p :: l)) as Hin1
    by (rewrite Hc1; apply fresh_names; [done | by apply rep_names_in]).
  assert (names_unique (cores g1)) as Hun1
    by (rewrite Hc1; apply fresh_unique; [done | by eapply rep_names_unique | done]).
  destruct nm as [nm|].
  - destruct (insert_spec g1 l p (new_wq t (Some nm) size inc)) as (m & Ei & Hlm & Hcm); try done.
    { cbn. by rewrite lookup_insert_eq. }
    unfold mbnd. rewrite Ei, unlock_registry_held by done. eexists. split; [done|].
    assert (cores (freed (set_maps g1 m (Some p))) = cores g1) as E by exact Hcm.
    split; [by rewrite E|]. exists (p :: l).
    apply reg_rep_intro; try done; [by constructor | by rewrite E | by rewrite E].
  - unfold workqueue_insert, mbnd, deref. cbn. rewrite lookup_insert_eq. cbn.
    rewrite unlock_registry_held by done. eexists. split; [done|]. split; [done|]. exists l.
    apply reg_rep_intro; try done. intros q d Hd Hn.
    specialize (Hin1 q d Hd Hn). apply elem_of_cons in Hin1 as [-> | Hin1]; [|done].
    assert (cores g1 !! p = Some d) as Hd1 by exact Hd.
    rewrite Hc1, lookup_insert_eq in Hd1. injection Hd1 as <-. by destruct Hn.
Qed.

Lemma registry_open_spec g l t p nm size inc :
  reg_rep g l -> cores g !! p = None ->
  exists r a, spec_call (cores g) (Open t p nm size inc) r a /\
    does g (do_call (Open t p nm size inc)) r a.
Proof.
  intros Hr Hp. unfold does, do_call, workqueue_open, mbnd at 1 2.
  rewrite lock_registry_free by apply Hr. destruct nm as [nm|]; cbn [fmap option_fmap option_map].
  2:{ destruct (create_spec g l t p None size inc Hr Hp) as (g' & E & Hc & l' & Hr'); [done|].
      exists (Opened p 1), (cores g'). split; [rewrite Hc; by apply (spec_open_new _ t p None)|].
      exists g', l'. split; [|done]. revert E. unfold mbnd. cbn.
      destruct (workqueue_insert p _); try done. destruct (unlock_registry t s); try done.
      intros [= -> ->]. done. }
  unfold workqueue_find, mbnd at 1 2 3, get_st at 1.
  change (workqueue_head (held t g)) with (workqueue_head g). rewrite (rr_head _ _ Hr).
  rewrite (find_loop_spec (cstr nm) (held t g) l _ [] l eq_refl (rr_linked _ _ Hr))
    by (cbn; pose proof (linked_by_size _ _ _ _ _ (rr_nodup _ _ Hr) (rr_linked _ _ Hr)); lia).
  cbn [held with_mutex wqs].
  destruct (List.find (named_at (wqs g) (cstr nm)) l) as [q|] eqn:Ef.
  - destruct (find_named g l (cstr nm) q Hr Ef) as (w & Hw & Hn).
    unfold mbnd. rewrite (update_run q _ _ w) by done. unfold mret. cbn.
    rewrite unlock_registry_held by done. rewrite TH_increment.
    destruct (rep_set_refs g l q w (refcount w + 1) (mutex_init true) (wq_log g) Hr Hw eq_refl)
      as [Hc Hr'].
    eexists _, _. split; [|eexists _, l; split; [reflexivity|]; split; [exact Hc | exact Hr']].
    apply (spec_open_existing _ t p nm size inc q (core_of w)); [by apply lookup_cores | done].
  - destruct (create_spec g l t p (Some (cstr nm)) size inc Hr Hp) as (g' & E & Hc & l' & Hr').
    { intros q c Hq Hn. by destruct (find_unnamed g l (cstr nm) q c Hr Ef Hq). }
    exists (Opened p 1), (cores g'). split.
    { rewrite Hc. apply (spec_open_new _ t p (Some nm)). intros q c Hq Hn.
      by destruct (find_unnamed g l (cstr nm) q c Hr Ef Hq). }
    exists g', l'. split; [|done]. revert E. unfold mret, mbnd. cbn.
    destruct (workqueue_insert p _); try done. destruct (unlock_registry t s); try done.
    intros [= -> ->]. done.
Qed.

Lemma linked_delete m l p : linked m l -> p ∉ l -> linked (delete p m) l.
Proof.
  intros Hl Hp i x Hx. destruct (Hl i x Hx) as (w & Hw & ?). exists w. split; [|done].
  rewrite lookup_delete_ne; [done|]. intros ->. by apply Hp; eapply list_elem_of_lookup_2.
Qed.

(** [workqueue_remove] of a workqueue about to be freed, named or not. *)
Lemma remove_any g l p w :
  reg_rep g l -> wqs g !! p = Some w -> forall m,
  exists ms h l', workqueue_remove p (with_mutex m g) = Done tt (mk_reg ms h m (wq_log g)) /\
    NoDup l' /\ p ∉ l' /\ linked ms l' /\ h = head l' /\ core_of <$> ms = cores g /\
    (forall q, q ∈ l -> q = p \/ q ∈ l').
Proof.
  intros Hr Hw m. pose proof Hr as [Hnd Hl Hh _ Hin _]. destruct (name w) as [nm|] eqn:Hn.
  - assert (p ∈ l) as Hp by (apply (Hin p w); [done | by rewrite Hn]).
    apply list_elem_of_split in Hp as (l1 & l2 & ->).
    destruct (remove_spec l1 l2 p (with_mutex m g) w Hnd Hl Hh Hw) as (ms & E & Hlm & Hc).
    exists ms, (head (l1 ++ l2)), (l1 ++ l2). split; [exact E|].
    apply NoDup_app in Hnd as (Hnd1 & Hd & Hnd2). apply NoDup_cons in Hnd2 as [Hp2 Hnd2].
    split; [apply NoDup_app; set_solver|]. split; [set_solver|]. split; [done|].
    split; [done|]. split; [exact Hc|]. intros q. set_solver.
  - exists (wqs g), (workqueue_head g), l. unfold workqueue_remove, mbnd, deref. cbn.
    rewrite Hw, Hn. split; [done|]. split; [done|]. split; [|eauto].
    intros Hp. destruct (linked_by_in _ _ _ _ _ _ Hl Hp) as (w' & Hw' & Hs). rewrite Hw in Hw'.
    injection Hw' as <-. rewrite Hn in Hs. by destruct Hs.
Qed.

Lemma with_mutex_same g m : workqueue_mutex g = m -> with_mutex m g = g.
Proof. intros <-. by destruct g. Qed.

Lemma dropped_names a p c l :
  a !! p = Some c -> names_in a l -> names_in (dropped a p c) l.
Proof.
  intros Hc Hin. unfold dropped. case_cmp; [|by apply names_set_refs].
  intros q d [_ Hd]%lookup_delete_Some Hn. by eapply Hin.
Qed.

Lemma dropped_unique a p c : a !! p = Some c -> names_unique a -> names_unique (dropped a p c).
Proof.
  intros Hc Hun. unfold dropped. case_cmp; [|by apply unique_set_refs].
  intros q1 q2 d1 d2 [_ H1]%lookup_delete_Some [_ H2]%lookup_delete_Some. by apply Hun.
Qed.

(** [workqueue_close], from outside and from [workqueue_gc]. *)
Lemma registry_close_spec g l t p w m m1 :
  reg_rep g l -> wqs g !! p = Some w ->
  pthread_mutex_lock t m = Some m1 -> pthread_mutex_unlock t m1 = Some m ->
  exists g' l', workqueue_close t (Some p) (with_mutex m g) = Done None (with_mutex m g') /\
    cores g' = dropped (cores g) p (core_of w) /\ reg_rep g' l'.
Proof.
  intros Hr Hw Hlock Hunlock. unfold workqueue_close, mbnd, lock_registry.
  cbn [with_mutex workqueue_mutex]. rewrite Hlock. unfold deref. cbn. rewrite Hw.
  rewrite TH_decrement. rewrite (update_run p _ _ w) by done. cbn.
  destruct (rep_set_refs g l p w (refcount w - 1) (mutex_init true) (wq_log g) Hr Hw eq_refl)
    as [Hc Hr1].
  set (g1 := mk_reg _ _ _ _) in Hc, Hr1.
  assert (dropped (cores g) p (core_of w)
    = if refcount w - 1 =? 0 then delete p (cores g) else cores g1) as Hd.
  { unfold dropped. rewrite core_refs, Hc. case_cmp; try done; lia. }
  destruct (refcount w - 1 =? 0).
  - destruct (remove_any g1 l p (set_refcount (refcount w - 1) w) Hr1
      ltac:(cbn; by rewrite lookup_insert_eq) m1) as (ms & h & l' & E & Hnd & Hp & Hlm & Hh & Hcm & Hin).
    change (set_maps _ _ _) with (with_mutex m1 g1). rewrite E. cbn.
    unfold unlock_registry. cbn. rewrite Hunlock. cbn.
    exists (mk_reg (delete p ms) h (mutex_init true) (wq_log g)), l'. split; [done|].
    assert (cores (mk_reg (delete p ms) h (mutex_init true) (wq_log g)) = delete p (cores g)) as Hcg.
    { unfold cores at 1. cbn. rewrite fmap_delete, Hcm, Hc. by rewrite delete_insert_eq. }
    split; [by rewrite Hcg|]. apply reg_rep_intro; try done; [by apply linked_delete|..];
      rewrite Hcg, <- Hd.
    + intros q c Hq Hn.
      assert (q <> p) by (intros ->; rewrite Hd, lookup_delete_eq in Hq; done).
      pose proof (dropped_names (cores g) p (core_of w) l (lookup_cores _ _ _ Hw)
        (rep_names_in _ _ Hr) q c Hq Hn) as Hql. by destruct (Hin q Hql).
    + apply dropped_unique; [by apply lookup_cores | by eapply rep_names_unique].
  - unfold mret, unlock_registry. cbn. rewrite Hunlock.
    exists g1, l. split; [done|]. split; [by rewrite Hd | done].
Qed.

Lemma closed_spec g l t p c :
  reg_rep g l -> cores g !! p = Some c ->
  does g (do_call (Close t p)) Closed (dropped (cores g) p c) /\
  does g (do_call (Gc t p)) Closed (dropped (cores g) p c).
Proof.
  intros Hr (w & Hw & ->)%cores_lookup. unfold does, do_call. split.
  - destruct (registry_close_spec g l t p w (mutex_init true) (mk_mutex true (Some t) 1) Hr Hw)
      as (g' & l' & E & Hc & Hr'); [done | cbn; by rewrite Z.eqb_refl |].
    rewrite with_mutex_same in E by apply Hr. exists g', l'. unfold mbnd. rewrite E.
    by rewrite with_mutex_same by apply Hr'.
  - destruct (registry_close_spec g l t p w (mk_mutex true (Some t) 1) (mk_mutex true (Some t) 2) Hr Hw)
      as (g' & l' & E & Hc & Hr'); [cbn; by rewrite Z.eqb_refl | cbn; by rewrite Z.eqb_refl |].
    exists g', l'. unfold workqueue_gc, mbnd. rewrite lock_registry_free by apply Hr.
    change (held t g) with (with_mutex (mk_mutex true (Some t) 1) g). rewrite E.
    rewrite unlock_registry_held by done. split; [|done]. unfold freed, mret.
    f_equal. destruct g'. cbn. by rewrite <- (rr_mutex _ _ Hr').
Qed.

(** [*ud = NULL] on every return. *)
Lemma gc_boxes_null t p g x g' : workqueue_gc t (Some p) g = Done x g' -> x = None.
Proof.
  unfold workqueue_gc, workqueue_close, mbnd, mret. intros E. by repeat case_match; simplify_eq.
Qed.

Lemma retain_spec g l t p c :
  reg_rep g l -> cores g !! p = Some c ->
  exists a, spec_call (cores g) (Retain t p) Retained a /\ does g (do_call (Retain t p)) Retained a.
Proof.
  intros Hr Hp. apply cores_lookup in Hp as (w & Hw & ->).
  unfold does, do_call, workqueue_retain, mbnd, deref. rewrite Hw.
  destruct (name w) as [nm|] eqn:Hn.
  - exists (cores g). split; [|by exists g, l].
    eapply spec_retain_named; [by apply lookup_cores|]. cbn. by rewrite Hn.
  - rewrite lock_registry_free by apply Hr. rewrite (update_run p _ _ w) by done. cbn.
    rewrite unlock_registry_held by done. rewrite TH_increment.
    destruct (rep_set_refs g l p w (refcount w + 1) (mutex_init true) (wq_log g) Hr Hw eq_refl)
      as [Hc Hr'].
    eexists. split; [|eexists _, l; split; [reflexivity|]; split; [exact Hc | exact Hr']].
    apply (spec_retain_anonymous _ t p (core_of w)); [by apply lookup_cores | done].
Qed.

Lemma call_spec g l c :
  reg_rep g l -> legal (cores g) c ->
  exists r a, spec_call (cores g) c r a /\ does g (do_call c) r a.
Proof.
  intros Hr. destruct c as [t p nm size inc|t p|t p|t p]; cbn [legal].
  - intros. by eapply registry_open_spec.
  - intros [c Hc]. exists Closed, (dropped (cores g) p c).
    split; [by constructor | by eapply closed_spec].
  - intros [c Hc]. exists Closed, (dropped (cores g) p c).
    split; [by constructor | by eapply closed_spec].
  - intros [c Hc]. destruct (retain_spec g l t p c Hr Hc) as (a & ? & ?). by exists Retained, a.
Qed.

Lemma reachable_rep g : reachable g -> exists l, reg_rep g l.
Proof.
  induction 1 as [|g c r g' _ [l Hr] Hlegal E].
  - exists []. split; try done; constructor.
  - destruct (call_spec g l c Hr Hlegal) as (r' & a & _ & g'' & l' & E' & _ & Hr').
    rewrite E in E'. injection E' as <- <-. by exists l'.
Qed.
End Calls.

(** ** Theorems *)

Section Theorems.
Context `{TH : THAtomic} {THok : THAtomicOk TH}.

(** C5: open, close, [__gc] and retain act on the workqueues of the process as on a
    finite map: in every reachable registry each call runs without undefined
    behaviour, searching ends, an open finds the workqueue of that name and takes a
    reference to it or else creates it, and a workqueue is freed with its last
    reference and nothing else changes. *)
Theorem registry_refines_map g c :
  reachable g -> legal (cores g) c ->
  exists r g', do_call c g = Done r g' /\ spec_call (cores g) c r (cores g').
Proof.
  intros [l Hr]%reachable_rep Hl.
  destruct (call_spec g l c Hr Hl) as (r & a & Hs & g' & l' & E & <- & _). by exists r, g'.
Qed.

(** C31: the linked list is always well formed: it has every named workqueue once,
    [next] and [prev] agree, its head is [workqueue_head], no two workqueues have the
    same name, and the registry's mutex is free between calls. *)
Theorem registry_well_linked g : reachable g -> exists l, reg_rep g l.
Proof. apply reachable_rep. Qed.

(** [retain] does not count a named workqueue.  When such a workqueue is sent to
    another thread, the [__gc] of the copy received frees it, and every method of
    the userdata that opened it works on freed memory. *)
Theorem named_workqueue_freed_while_referenced g t t' p nm size inc :
  reachable g -> cores g !! p = None ->
  (forall q c, cores g !! q = Some c -> c_name c <> Some (cstr nm)) ->
  exists g1 g2 g3,
    workqueue_open t p (Some nm) size inc g = Done (p, 1) g1 /\
    workqueue_retain t' (Some p) g1 = Done tt g2 /\
    workqueue_gc t' (Some p) g2 = Done None g3 /\
    forall A (m : M wst A), on_workqueue (Some p) m g3 = Undef.
Proof.
  intros [l Hr]%reachable_rep Hp Hfresh.
  destruct (registry_open_spec g l t p (Some nm) size inc Hr Hp) as (r & a & Hs & g1 & l1 & E1 & Hc1 & Hr1).
  set (c := new_core t (cstr <$> Some nm) size inc).
  assert (r = Opened p 1 /\ a = <[p := c]> (cores g)) as [-> ->].
  { inversion Hs as [? ? ? ? ? ? q d Hq Hn| | | | |]; subst; [by destruct (Hfresh q d) | done]. }
  assert (cores g1 !! p = Some c) as Hp1 by (rewrite Hc1; apply lookup_insert_eq).
  destruct (retain_spec g1 l1 t' p c Hr1 Hp1) as (a2 & Hs2 & g2 & l2 & E2 & Hc2 & Hr2).
  assert (a2 = cores g1) as ->.
  { inversion Hs2 as [| | | |? ? ? d Hd Hdn|]; subst; [|done].
    by pose proof (eq_trans (eq_sym Hp1) Hd) as [= <-]. }
  assert (cores g2 !! p = Some c) as Hp2 by congruence.
  destruct (closed_spec g2 l2 t' p c Hr2 Hp2) as [_ (g3 & l3 & E3 & Hc3 & _)].
  exists g1, g2, g3. revert E1 E2 E3. unfold do_call, mbnd, mret.
  destruct (workqueue_open _ _ _ _ _ g) as [[x y] ? | | | |]; try done. intros [= -> -> ->].
  destruct (workqueue_retain _ _ g1) as [[] ? | | | |]; try done. intros [= ->].
  destruct (workqueue_gc t' (Some p) g2) as [x3 g3' | | | |] eqn:E3; try done. intros [= ->].
  split; [done|]. split; [done|]. split; [by rewrite (gc_boxes_null _ _ _ _ _ E3)|].
  intros A m. unfold on_workqueue. change (dropped (cores g2) p c) with (delete p (cores g2)) in Hc3.
  destruct (wqs g3 !! p) as [w|] eqn:Ew; [|done].
  apply lookup_cores in Ew. rewrite Hc3, lookup_delete_eq in Ew. done.
Qed.
End Theorems.

Section Runs.
#[local] Existing Instance ref_TH.

(** A registry with one workqueue, called [q]. *)
Definition sample_registry : registry :=
  end_state (workqueue_open 1 4096 (Some (str "q")) None None) workqueue_one_time_init.

Lemma sample_reachable : reachable sample_registry.
Proof.
  apply (reach_call workqueue_one_time_init (Open 1 4096 (Some (str "q")) None None)
    (Opened 4096 1)); [constructor | done | vm_compute; reflexivity].
Qed.

Lemma registry_refines_map_witness :
  exists r g', do_call (Open 2 8192 (Some (str "q")) None None) sample_registry = Done r g' /\
    spec_call (cores sample_registry) (Open 2 8192 (Some (str "q")) None None) r (cores g').
Proof.
  apply (registry_refines_map sample_registry (Open 2 8192 (Some (str "q")) None None));
    [apply sample_reachable | vm_compute; reflexivity].
Defined.

Lemma named_workqueue_freed_while_referenced_witness :
  exists g1 g2 g3,
    workqueue_open 1 4096 (Some (str "q")) None None workqueue_one_time_init = Done (4096, 1) g1 /\
    workqueue_retain 2 (Some 4096) g1 = Done tt g2 /\
    workqueue_gc 2 (Some 4096) g2 = Done None g3 /\
    forall A (m : M wst A), on_workqueue (Some 4096) m g3 = Undef.
Proof.
  apply (named_workqueue_freed_while_referenced workqueue_one_time_init); try done; constructor.
Defined.

Lemma registry_well_linked_witness : exists l, reg_rep sample_registry l.
Proof. apply (registry_well_linked sample_registry). apply sample_reachable. Defined.
End Runs.
