(* ===== verification/Marshal.v ===== *)
(** * Marshal buffers ([src/marshal.c]): one value, saved once and loaded many times. *)
From S2P Require Import Prelude RingBuffer Lua Serialize Growth Object.

#[local] Open Scope ipc_scope.

Definition DEFAULT_MARSHAL_SIZE : Z := 1024 * 16.

(** The field [empty] is never used after [calloc] clears it. *)
Record marshal_t := mk_marshal {
  rb : ringbuffer_t;
  refcount : Z;
  size_increment : Z;
  empty : Z;
}.

Definition mst : Type := marshal_t * list Z.

Definition on_marshal {A} : M save_state A -> M mst A :=
  zoom (fun s => mk_sv (rb s.1) s.2)
    (fun sv s => (mk_marshal (sv_rb sv) (refcount s.1) (size_increment s.1) (empty s.1),
                  sv_retained sv)).

Definition str_must_provide : list byte := str "must provide object to serialize at arg 1".
Definition str_not_open : list byte := str "marshal is not open".
Definition str_already_closed : list byte := str "marshal is already closed".

Section Methods.
Context `{L : LuaApi}.

(** The turns of the loop are bounded by [fuel].  Returns whether a failed save has left a copy
    of the argument, which is not at the top of the Lua stack; nothing pops it. *)
Fixpoint marshal_write (fuel : nat) (v : lua_value) (upval : Z) : M mst bool :=
  match fuel with
  | O => out_of_fuel
  | S fuel' =>
      on_marshal rb_push ;;;
      let! left := on_marshal (let! st := get_st in mret (leaves_copy 0 upval v st)) in
      let! ret := on_marshal (rb_save 0 upval v) in
      if ret =? - ENOMEM then
        on_marshal rb_pop ;;;
        let! s := get_st in
        on_marshal (rb_grow (size_increment s.1)) ;;;
        let! more := marshal_write fuel' v upval in
        mret (left || more)
      else if negb (ret =? 0) then
        on_marshal rb_pop ;;;
        raise (ErrCode (- ret))
      else mret left
  end.

(** The object [marshal_open] makes, before the write. *)
Definition marshal_new (size size_increment : Z) : marshal_t :=
  mk_marshal (ringbuffer_create size) 1 size_increment 0.

(** What [marshal_open] returns, the value at the top of the stack: the userdata it has
    pushed, or a copy of the argument a failed save has left above it. *)
Inductive opened := Handle | Leftover (v : lua_value).

(** On the object just made (a longjmp leaves it to the garbage collector). *)
Definition marshal_open (fuel : nat) (v : lua_value) (upval : bool) : M mst opened :=
  if is_nil v then raise (ErrStr str_must_provide)
  else
    let! left := marshal_write fuel v (if upval then 1 else 0) in
    mret (if left then Leftover v else Handle).

(** Loads from a clone of the ring buffer, which is then dropped: the marshal's own
    record does not change, and [rb_load] writes nothing to the shared storage. *)
Definition marshal_read : M mst lua_value := fun s =>
  match rb_load (ringbuffer_clone (rb s.1)) with
  | Done (LdVal v) _ => Done v s
  | Done LdEnd _ => Undef (* nothing was pushed *)
  | Done (LdErr code) _ => Raised (ErrCode code) s
  | Raised e _ => Raised e s
  | Blocked _ => Blocked s
  | Undef => Undef
  | NoFuel => NoFuel
  end.
End Methods.

Section LifeCycle.
Context `{TH : THAtomic}.

Definition set_refcount r m := mk_marshal (rb m) r (size_increment m) (empty m).

(** What the userdata boxes afterwards. *)
Definition marshal_close (ud : option Z) : M (world marshal_t) (option Z) := fun w =>
  match ud with
  | None => Raised (ErrStr str_already_closed) w
  | Some p =>
      match release refcount set_refcount p w with
      | Some (_, w') => Done None w'
      | None => Undef
      end
  end.

Definition marshal_gc (ud : option Z) : M (world marshal_t) (option Z) :=
  match ud with
  | Some _ => marshal_close ud
  | None => mret None
  end.

Definition marshal_retain (ud : option Z) : M (world marshal_t) unit :=
  on_object ud str_not_open
    (modify_st (fun s => (set_refcount (THAtomicIncrementRef (refcount s.1)) s.1, s.2))).
End LifeCycle.

(** ** The loop *)

Section Loop.
Context `{L : LuaApi} {Lok : LuaApiOk L}.

Lemma marshal_write_saved fuel v upval s st1 :
  (rb_push ;;; rb_save 0 upval v) (mk_sv (rb s.1) s.2) = Done 0 st1 ->
  marshal_write (S fuel) v upval s
  = Done false (mk_marshal (sv_rb st1) (refcount s.1) (size_increment s.1) (empty s.1),
                sv_retained st1).
Proof.
  unfold mbnd at 1, rb_push, modify_st. intros E. cbn [marshal_write].
  unfold mbnd, on_marshal, zoom, rb_push, modify_st, get_st, mret.
  cbn [fst snd rb sv_rb sv_retained size_increment refcount empty] in *.
  by rewrite (no_copy_left upval v) by (right; by eexists); rewrite E.
Qed.

Lemma marshal_write_grown fuel v upval s st1 st2 :
  (rb_push ;;; rb_save 0 upval v) (mk_sv (rb s.1) s.2) = Done (- ENOMEM) st1 ->
  (rb_pop ;;; rb_grow (size_increment s.1)) st1 = Done tt st2 ->
  exists left, marshal_write (S fuel) v upval s
    = (let! more := marshal_write fuel v upval in mret (left || more))
        (mk_marshal (sv_rb st2) (refcount s.1) (size_increment s.1) (empty s.1), sv_retained st2) /\
    (upvalue_table upval v = false -> left = false).
Proof.
  unfold mbnd at 1, rb_push, modify_st. intros E E2. eexists. split.
  - cbn [marshal_write]. unfold on_marshal, zoom, rb_push, rb_pop, modify_st, get_st, mret, mbnd in *.
    cbn [fst snd rb sv_rb sv_retained size_increment refcount empty] in *. rewrite E.
    change (- ENOMEM =? - ENOMEM) with true. cbn [fst snd rb].
    destruct st1 as [rb1 rs1]. cbn in *. by rewrite E2.
  - intros H. apply no_copy_left. by left.
Qed.

(** Enough turns: one per byte of growth and one more. *)
Definition marshal_fuel (m : marshal_t) (upval : Z) (v : lua_value) : nat :=
  S (Z.to_nat (rcb (rb m) + enc_len upval v - cb (rb m))).

Lemma marshal_write_spec upval v fuel : forall m log,
  upval = 0 \/ upval = 1 -> writable upval v = true -> 0 < size_increment m ->
  ring_ok (rb m) -> contents (rb m) = [] ->
  enc_len upval v + size_increment m < 2 ^ 63 -> (marshal_fuel m upval v <= fuel)%nat ->
  exists m' log' left, marshal_write fuel v upval (m, log) = Done left (m', log') /\
    holds (rb m') [v] /\ refcount m' = refcount m /\
    (upvalue_table upval v = false \/ enc_len upval v <= cb (rb m) -> left = false) /\
    (enc_len upval v <= cb (rb m) -> log' = log ++ retains v).
Proof.
  induction fuel as [fuel IH] using lt_wf_ind. intros m log Hu Hw Hinc Hok Hc Hmax Hf.
  destruct (writable_item upval Hu v Hw) as (bs & Hkeys & Eb & Hlen & Hitem).
  assert (rcb (rb m) = 0) as Hr by (rewrite <- (zlen_contents (rb m)), Hc by apply Hok; done).
  unfold marshal_fuel in Hf. rewrite Hlen, Hr in *. destruct fuel as [|fuel]; [lia|].
  destruct (Z.le_gt_cases (zlen bs) (free_space (rb m))) as [Hfit|Hno].
  - destruct (attempt_fits upval v bs Eb (mk_sv (rb m) log) Hok Hfit)
      as (rb' & E & Hok' & Hc' & _).
    rewrite (marshal_write_saved _ _ _ (m, log) _ E). cbn. eexists _, _, _. split; [done|]. cbn.
    split; [|done]. cbn in Hc'. rewrite Hc in Hc'.
    eapply (holds_snoc (rb m) rb' [] v bs); try done; [|by rewrite Hc].
    split; [done|]. by exists [].
  - unfold free_space in Hno. rewrite Hr in Hno. pose proof (rb_cb _ (ring_bounds _ Hok)).
    destruct (attempt_grows upval v bs Eb (mk_sv (rb m) log) (size_increment m) Hkeys Hok)
      as (st1 & E & st2 & E2 & _ & Hok2 & Hc2 & Hcb2);
      [unfold free_space; cbn; lia | lia | cbn; lia | cbn; lia |]. cbn [sv_rb sv_retained] in *.
    destruct (marshal_write_grown fuel v upval (m, log) _ _ E E2) as (left & -> & Hleft).
    cbn [fst snd]. set (m2 := mk_marshal _ _ _ _).
    assert (rcb (rb m2) = 0) as Hr2
      by (rewrite <- (zlen_contents (rb m2)) by apply Hok2; cbn; by rewrite Hc2, Hc).
    destruct (IH fuel ltac:(lia) m2 (sv_retained st2)) as (m' & log' & more & E' & Hh & Hrc & Hmore & _);
      try done; unfold marshal_fuel; cbn in *; try lia; [by rewrite Hc2|].
    exists m', log', (left || more). unfold mbnd. rewrite E'. split; [done|]. split; [done|].
    split; [done|]. split; [|lia]. intros [Hu'|]; [|lia]. by rewrite Hleft, Hmore by auto.
Qed.

(** A read leaves everything as it was. *)
Lemma marshal_read_spec m log v :
  holds (rb m) [v] -> marshal_read (m, log) = Done (transported v) (m, log).
Proof.
  intros Hh. unfold marshal_read. destruct (holds_load _ _ _ Hh) as (rb' & E & _).
  replace (ringbuffer_clone (rb (m, log).1)) with (rb m) by (by destruct m as [[]]).
  by rewrite E.
Qed.
End Loop.

(** [n] reads in a row. *)
Fixpoint read_times `{L : LuaApi} (n : nat) : M mst (list lua_value) :=
  match n with
  | O => mret []
  | S n' => let! v := marshal_read in let! vs := read_times n' in mret (v :: vs)
  end.

(** ** Theorems *)

Section Theorems.
Context `{L : LuaApi} {Lok : LuaApiOk L}.

Lemma marshal_open_spec fuel v (upval : bool) size inc :
  is_nil v = false -> writable (if upval then 1 else 0) v = true ->
  0 < size < 2 ^ 63 -> 0 < inc -> enc_len (if upval then 1 else 0) v + inc < 2 ^ 63 ->
  (marshal_fuel (marshal_new size inc) (if upval then 1 else 0) v <= fuel)%nat ->
  exists m log r, marshal_open fuel v upval (marshal_new size inc, []) = Done r (m, log) /\
    holds (rb m) [v] /\ refcount m = 1 /\
    (upvalue_table (if upval then 1 else 0) v = false \/ enc_len (if upval then 1 else 0) v <= size
     -> r = Handle) /\
    (enc_len (if upval then 1 else 0) v <= size -> log = retains v).
Proof.
  intros Hn Hw Hs Hi Hmax Hf. unfold marshal_open. rewrite Hn.
  destruct (marshal_write_spec (if upval then 1 else 0) v fuel (marshal_new size inc) [])
    as (m & log & left & E & Hh & Hr & Hleft & Hl); try done.
  - by destruct upval; auto.
  - by apply create_ok.
  - eexists m, log, _. unfold mbnd. rewrite E. split; [done|]. split; [done|]. split; [done|].
    split; [|done]. intros H. by rewrite (Hleft H).
Qed.

Lemma read_times_spec n m log v :
  holds (rb m) [v] -> read_times n (m, log) = Done (replicate n (transported v)) (m, log).
Proof.
  intros Hh. induction n as [|n IH]; [done|]. cbn [read_times]. unfold mbnd.
  by rewrite (marshal_read_spec m log v Hh), IH.
Qed.


(** The pointers boxed in a marshalled value are retained once, at the save,
    while each read hands out userdata for them anew (each of which will release a
    reference when collected): after two reads there are two for one retain. *)
Theorem marshal_reads_share_one_reference ptr mt nm size inc :
  userdata_name (Some mt) = Some nm -> mt_retain mt = true ->
  0 < ptr < 2 ^ 64 -> zlen nm.2 < 2 ^ 62 ->
  enc_len 0 (LUserdata ptr (Some mt)) <= size < 2 ^ 62 -> 0 < inc < 2 ^ 62 ->
  exists m mt', marshal_open 1 (LUserdata ptr (Some mt)) false (marshal_new size inc, [])
      = Done Handle (m, [ptr]) /\
    read_times 2 (m, [ptr]) = Done [LUserdata ptr mt'; LUserdata ptr mt'] (m, [ptr]).
Proof.
  intros Hnm Hret Hptr Hlen Hsize Hinc. set (v := LUserdata ptr (Some mt)) in *.
  assert (0 < enc_len 0 v).
  { unfold enc_len, v. cbn [enc]. change (negb (0 =? 0)) with false. cbn iota. rewrite Hnm.
    destruct nm as [ty nm]. cbn. rewrite Hret, (proj2 (Z.eqb_neq ptr 0)) by lia. cbn. unfold char_bytes.
    rewrite zlen_app, zlen_le_split.
    pose proof (zlen_nonneg (size_bytes (zlen nm) ++ nm ++ le_split 8 ptr)). lia. }
  assert (writable 0 v = true) as Hw.
  { unfold writable, v. cbn [wf enc no_function_keys]. change (negb (0 =? 0)) with false.
    cbn iota. rewrite Hnm. destruct nm as [ty nm]. cbn in *. rewrite Hret, (proj2 (Z.eqb_neq ptr 0)) by lia.
    rewrite bool_decide_true by done. rewrite !andb_true_r.
    repeat (apply andb_true_intro; split); lia. }
  destruct (marshal_open_spec 1 v false size inc) as (m & log & r & E & Hh & _ & Hr & Hl);
    try done; try lia.
  { unfold marshal_fuel. cbn. lia. }
  rewrite (Hl ltac:(lia)), (Hr ltac:(by left)) in E. cbn in E.
  eexists m, _. split; [exact E|]. by apply (read_times_spec 2 m [ptr] v).
Qed.
End Theorems.

(** With a [size_increment] of 0, marshalling a value larger than the initial
    buffer never ends: the loop grows the buffer by nothing, for ever. *)
Theorem marshal_zero_increment_diverges `{L : LuaApi} `{Lok : !LuaApiOk L} fuel v size :
  is_nil v = false -> writable 0 v = true -> 0 < size < 2 ^ 63 -> size < enc_len 0 v ->
  marshal_open fuel v false (marshal_new size 0, []) = NoFuel.
Proof.
  intros Hn Hw Hs Hlen. unfold marshal_open, mbnd. rewrite Hn.
  destruct (writable_item 0 (or_introl eq_refl) v Hw) as (bs & Hkeys & Eb & El & _).
  rewrite El in Hlen.
  assert (forall m log, ring_ok (rb m) -> contents (rb m) = [] -> cb (rb m) = size ->
    size_increment m = 0 -> marshal_write fuel v 0 (m, log) = NoFuel) as H; [|by rewrite H;
    try apply create_ok].
  { induction fuel as [|fuel IH]; intros m log Hok Hc Hcb Hi; [done|].
    assert (rcb (rb m) = 0) as Hr
      by (rewrite <- (zlen_contents (rb m)), Hc by apply Hok; done).
    destruct (attempt_grows 0 v bs Eb (mk_sv (rb m) log) 0 Hkeys Hok)
      as (st1 & E & st2 & E2 & _ & Hok2 & Hc2 & Hcb2);
      [unfold free_space; cbn; lia | lia | cbn; lia | cbn; lia |]. cbn [sv_rb] in *.
    destruct (marshal_write_grown fuel v 0 (m, log) _ st2 E) as (left & -> & _);
      [cbn; by rewrite Hi|]. unfold mbnd. rewrite IH; [done | | | |]; cbn; try done; [by rewrite Hc2 | lia]. }
Qed.

Section Runs.
#[local] Existing Instance RefLua.api_ok.
#[local] Instance lua53 : LuaApi := RefLua.api 503 false.


Lemma marshal_zero_increment_diverges_witness :
  marshal_open 1000 (LString (str "abc")) false (marshal_new 8 0, []) = NoFuel.
Proof.
  apply (marshal_zero_increment_diverges 1000 (LString (str "abc")) 8);
    [done | vm_compute; reflexivity | done | vm_compute; reflexivity].
Defined.

Lemma marshal_reads_share_one_reference_witness :
  let mt := mk_mt None (Some (str "ipc.channel")) true in
  exists m mt', marshal_open 1 (LUserdata 4096 (Some mt)) false (marshal_new 64 64, [])
      = Done Handle (m, [4096]) /\
    read_times 2 (m, [4096]) = Done [LUserdata 4096 mt'; LUserdata 4096 mt'] (m, [4096]).
Proof.
  apply (marshal_reads_share_one_reference 4096 (mk_mt None (Some (str "ipc.channel")) true)
    (- LUA_TUSERDATA, str "ipc.channel") 64 64); done.
Defined.

(** A closure whose upvalues do not fit at first: what the call returns is a copy of the closure
    and not the marshal buffer, which has been made and holds it. *)
Theorem grown_closure_is_returned :
  let f := LFunction true [Byte.x02; Byte.x78]
             [([Byte.x78], LString (replicate 40 Byte.x61))] in
  exists m, marshal_open 9 f true (marshal_new 64 64, []) = Done (Leftover f) (m, []) /\
    read_times 1 (m, []) = Done [transported f] (m, []).
Proof.
  cbv zeta. eexists. split; [vm_compute; reflexivity|]. vm_compute. reflexivity.
Qed.

(** A save that runs out of space after a userdata is tried again in the larger
    buffer and calls [retain] again, but pops nothing of the first call: the buffer
    holds the userdata once, with two references counted. *)
Theorem growth_retry_retains_again :
  let mt := mk_mt None (Some (str "ipc.channel")) true in
  let v := LTable [(LInteger 1, LUserdata 4096 (Some mt));
                   (LInteger 2, LString (replicate 40 Byte.x61))] None in
  exists m, marshal_open 9 v false (marshal_new 64 64, []) = Done Handle (m, [4096; 4096]) /\
    retains v = [4096] /\
    read_times 1 (m, [4096; 4096]) = Done [transported v] (m, [4096; 4096]).
Proof.
  cbv zeta. eexists. split; [vm_compute; reflexivity|].
  split; [reflexivity | vm_compute; reflexivity].
Qed.
End Runs.
