(* ===== verification/SharedTable.v ===== *)
(** * Shared tables ([src/sharedtable.c]): a Lua table in a Lua state of its own, read and
    written by copies that go through a ring buffer under a mutex. *)
From S2P Require Import Prelude RingBuffer Lua Serialize Growth Pthread Object.

#[local] Open Scope ipc_scope.

Definition BUFFER_SIZE : Z := 16 * 1024.

(** [L] is the table the private state holds, entries in traversal order. *)
Record sharedtable_t := mk_st {
  rb : ringbuffer_t;
  mutex : pmutex;
  L : list (lua_value * lua_value);
  size_increment : Z;
  ref_count : Z;
}.

(** The state of a method: the table and the log of [retain] calls. *)
Definition tst : Type := sharedtable_t * list Z.

Definition set_rb x s := mk_st x (mutex s) (L s) (size_increment s) (ref_count s).
Definition set_mutex x s := mk_st (rb s) x (L s) (size_increment s) (ref_count s).
Definition set_L x s := mk_st (rb s) (mutex s) x (size_increment s) (ref_count s).
Definition set_ref_count x s := mk_st (rb s) (mutex s) (L s) (size_increment s) x.

Definition lock (t : Z) : M tst unit := fun s =>
  match pthread_mutex_lock t (mutex s.1) with
  | Some m => Done tt (set_mutex m s.1, s.2)
  | None => Blocked s
  end.

Definition unlock (t : Z) : M tst unit := fun s =>
  match pthread_mutex_unlock t (mutex s.1) with
  | Some m => Done tt (set_mutex m s.1, s.2)
  | None => Undef
  end.

Definition on_save {A} : M save_state A -> M tst A :=
  zoom (fun s => mk_sv (rb s.1) s.2) (fun sv s => (set_rb (sv_rb sv) s.1, sv_retained sv)).

Section Methods.
Context `{Lua : LuaApi}.

(** The turns of the loop are bounded by [fuel].  An error other than [-ENOMEM] is returned
    with the write position where the save left it.  Returns also whether, for a value that
    is not at the top of the Lua stack, copies of it have been left there, which nothing
    pops. *)
Fixpoint rb_save_with_growth (fuel : nat) (v : lua_value) (size : Z) : M save_state (Z * bool) :=
  match fuel with
  | O => out_of_fuel
  | S fuel' =>
      rb_push ;;;
      let! st := get_st in
      let left := leaves_copy 0 0 v st in
      let! ret := rb_save 0 0 v in
      if ret =? - ENOMEM then
        rb_pop ;;;
        rb_grow size ;;;
        let! r := rb_save_with_growth fuel' v size in
        mret (r.1, left || r.2)
      else mret (ret, left)
  end.

(** [rb_load] into the private state.  Its result is not looked at: after an error
    the stack is one value short, and an error Lua raises there is not caught by
    anyone and ends the process; both are undefined here. *)
Definition load_private : M tst lua_value := fun s =>
  match rb_load (rb s.1) with
  | Done (LdVal v) r => Done v (set_rb r s.1, s.2)
  | NoFuel => NoFuel
  | _ => Undef
  end.

(** [rb_load] into the state of the caller, where Lua may raise. *)
Definition load_caller : M tst lua_value := fun s =>
  match rb_load (rb s.1) with
  | Done (LdVal v) r => Done v (set_rb r s.1, s.2)
  | Raised e r => Raised e (set_rb r s.1, s.2)
  | NoFuel => NoFuel
  | _ => Undef
  end.

(** Of a value at the top of the stack, or under others by a function that addresses its
    stack from the bottom and drops it when it returns: copies left there do not matter. *)
Definition save (fuel : nat) (v : lua_value) : M tst Z :=
  let! s := get_st in
  let! r := on_save (rb_save_with_growth fuel v (size_increment s.1)) in
  mret r.1.

(** Of a key under its value in a traversal: the caller then pops a copy in place of the
    value, and the next [lua_next] of [init_table] is given the value for its key, the next
    save of [sharedtable_next] the old key for its value.  The model stops there. *)
Definition save_below (fuel : nat) (k : lua_value) : M tst Z :=
  let! s := get_st in
  let! r := on_save (rb_save_with_growth fuel k (size_increment s.1)) in
  if r.2 then undef else mret r.1.

(** Tables of the private state: [lua_gettable], [lua_settable] and [lua_next]. *)
Definition lua_gettable (es : list (lua_value * lua_value)) (k : lua_value) : lua_value :=
  match List.find (fun e => lua_rawequal e.1 k) es with Some e => e.2 | None => LNil end.

(** A key [lua_settable] does not take raises in the private state. *)
Definition settable_private (k v : lua_value) : M tst unit := fun s =>
  match lua_settable (L s.1) k v with
  | Some es => Done tt (set_L es s.1, s.2)
  | None => Undef
  end.

(** The entry after the key, [Some None] at the end; [None] raises. *)
Fixpoint lua_next_from (es : list (lua_value * lua_value)) (k : lua_value)
  : option (option (lua_value * lua_value)) :=
  match es with
  | [] => None
  | e :: es' => if lua_rawequal e.1 k then Some (head es') else lua_next_from es' k
  end.
Definition lua_next (es : list (lua_value * lua_value)) (k : lua_value)
  : option (option (lua_value * lua_value)) :=
  match k with LNil => Some (head es) | _ => lua_next_from es k end.

(** [if (ret) { ...; return ret; }] in the static functions. *)
Definition copy_entry_to_table (fuel : nat) (k v : lua_value) : M tst Z :=
  let! ret := save_below fuel k in
  if negb (ret =? 0) then mret ret else
  let! k' := load_private in
  let! ret := save fuel v in
  if negb (ret =? 0) then mret ret else
  let! v' := load_private in
  settable_private k' v' ;;;
  mret 0.

(** [es] are the entries of the argument; returns also what is left of it. *)
Fixpoint init_table (fuel : nat) (move : bool) (es : list (lua_value * lua_value))
  : M tst (Z * list (lua_value * lua_value)) :=
  match es with
  | [] => mret (0, [])
  | (k, v) :: es' =>
      let! ret := copy_entry_to_table fuel k v in
      if negb (ret =? 0) then mret (ret, es) else
      let! r := init_table fuel move es' in
      mret (r.1, if move then r.2 else (k, v) :: r.2)
  end.

Definition str_expected_table : list byte :=
  str "sharedtable arg #1 expected to be a table or nil".

(** [init_ok]: the initialisation scripts ran in the new state.  [arg]: the first
    argument, if any.  The result has the object boxed, if one is, and the argument
    table afterwards; the outcome's state is the object under construction. *)
Definition sharedtable_create (fuel : nat) (init_ok : bool) (arg : option lua_value)
    (move : bool) (size size_increment : option Z) (log : list Z)
  : outcome tst (option sharedtable_t * list (lua_value * lua_value)) :=
  let size := default BUFFER_SIZE size in
  let size_increment := default size size_increment in
  let table := mk_st (ringbuffer_create size) (mutex_init false) [] size_increment 0 in
  match arg with
  | Some (LTable es _) =>
      if negb init_ok then Done (None, es) (table, log) else
      match init_table fuel move es (table, log) with
      | Done (ret, left) (table', log') =>
          if negb (ret =? 0) then Raised (ErrCode ret) (table', log')
          else Done (Some (set_ref_count 1 table'), left) (set_ref_count 1 table', log')
      | Raised e s => Raised e s
      | Blocked s => Blocked s
      | Undef => Undef
      | NoFuel => NoFuel
      end
  | None | Some LNil =>
      if negb init_ok then Done (None, []) (table, log)
      else Done (Some (set_ref_count 1 table), []) (set_ref_count 1 table, log)
  | Some LGlobals => NoFuel
  | Some _ => Raised (ErrStr str_expected_table) (table, log)
  end.

Definition sharedtable_read (fuel : nat) (t : Z) (k : lua_value) : M tst lua_value :=
  lock t ;;;
  let! ret := save fuel k in
  if negb (ret =? 0) then unlock t ;;; raise (ErrCode ret) else
  let! k' := load_private in
  let! s := get_st in
  let! ret := save fuel (lua_gettable (L s.1) k') in
  if negb (ret =? 0) then unlock t ;;; raise (ErrCode ret) else
  let! v := load_caller in
  unlock t ;;;
  mret v.

Definition sharedtable_write (fuel : nat) (t : Z) (k v : lua_value) : M tst unit :=
  lock t ;;;
  let! ret := save fuel k in
  if negb (ret =? 0) then unlock t ;;; raise (ErrCode ret) else
  let! k' := load_private in
  let! ret := save fuel v in
  if negb (ret =? 0) then unlock t ;;; raise (ErrCode ret) else
  let! v' := load_private in
  settable_private k' v' ;;;
  unlock t.

(** The [lua_next] loop counts every entry. *)
Definition sharedtable_len (t : Z) : M tst Z :=
  lock t ;;;
  let! s := get_st in
  let counter := foldr (fun _ n => size_add n 1) 0 (L s.1) in
  unlock t ;;;
  mret counter.

(** The memory the private state uses, which [lua_gc] tells ([gc_count], a [lua_Number]). *)
Definition sharedtable_size (gc_count : list (lua_value * lua_value) -> Z) (t : Z)
  : M tst lua_value :=
  lock t ;;;
  let! s := get_st in
  let count := gc_count (L s.1) in
  unlock t ;;;
  mret (LNumber count).

(** The iterator [sharedtable_pairs] gives out: the next key and value, or nil. *)
Definition sharedtable_next (fuel : nat) (t : Z) (k : lua_value)
  : M tst (option (lua_value * lua_value)) :=
  lock t ;;;
  let! ret := save fuel k in
  if negb (ret =? 0) then unlock t ;;; raise (ErrCode ret) else
  let! k' := load_private in
  let! s := get_st in
  match lua_next (L s.1) k' with
  | None => undef
  | Some None => unlock t ;;; mret None
  | Some (Some (k2, v2)) =>
      let! ret := save_below fuel k2 in
      if negb (ret =? 0) then unlock t ;;; raise (ErrCode ret) else
      let! key := load_caller in
      let! ret := save fuel v2 in
      if negb (ret =? 0) then unlock t ;;; raise (ErrCode ret) else
      let! val := load_caller in
      unlock t ;;;
      mret (Some (key, val))
  end.
End Methods.

Section LifeCycle.
Context `{TH : THAtomic}.

Definition sharedtable_retain (p : Z) : M (world sharedtable_t) unit :=
  on_object (Some p) []
    (modify_st (fun s => (set_ref_count (THAtomicIncrementRef (ref_count s.1)) s.1, s.2))).

Definition sharedtable_gc (p : Z) : M (world sharedtable_t) unit := fun w =>
  match release ref_count set_ref_count p w with
  | Some (_, w') => Done tt w'
  | None => Undef
  end.
End LifeCycle.

(** ** Passing a value through the buffer *)

#[local] Arguments lock : simpl never.
#[local] Arguments unlock : simpl never.
#[local] Arguments save : simpl never.
#[local] Arguments save_below : simpl never.
#[local] Arguments load_private : simpl never.
#[local] Arguments load_caller : simpl never.

Section Passing.
Context `{Lua : LuaApi} {Lok : LuaApiOk Lua}.

(** A value the buffer takes in less than [fuel] turns. *)
Definition passable (fuel : nat) (v : lua_value) : bool :=
  writable 0 v && (enc_len 0 v <? Z.of_nat fuel) && (enc_len 0 v <? 2 ^ 62).

(** The same buffer as the loop of map.c. *)
Lemma with_growth_saves v size ret st' fuel : forall st,
  save_growing fuel v size st = Done ret st' ->
  exists left, rb_save_with_growth fuel v size st = Done (ret, left) st' /\
    (is_function v = false -> left = false).
Proof.
  induction fuel as [|fuel IH]; intros st E; [done|].
  cbn [save_growing rb_save_with_growth] in *. unfold mbnd, rb_push, modify_st, get_st in *.
  set (st0 := mk_sv _ _) in *.
  destruct (rb_save 0 0 v st0) as [r st1| | | |]; try done. destruct (r =? - ENOMEM).
  - destruct (rb_pop st1) as [u st2| | | |]; try done.
    destruct (rb_grow size st2) as [u' st3| | | |]; try done.
    destruct (IH st3 E) as (left & -> & Hl). eexists. split; [done|].
    intros Hv. cbn. rewrite no_copy_left by (left; by destruct v). by apply Hl.
  - injection E as <- <-. eexists. split; [done|]. intros Hv. apply no_copy_left. left. by destruct v.
Qed.

Lemma growth_spec v size fuel st :
  writable 0 v = true -> 0 < size < 2 ^ 62 -> enc_len 0 v < 2 ^ 62 -> holds (sv_rb st) [] ->
  enc_len 0 v < Z.max (cb (sv_rb st)) 1 + Z.of_nat fuel -> (0 < fuel)%nat ->
  exists st' left, rb_save_with_growth fuel v size st = Done (0, left) st' /\
    (is_function v = false -> left = false) /\ holds (sv_rb st') [v].
Proof.
  intros Hw Hs Hmax Hh Hf H0. pose proof (ring_bounds _ (holds_ring _ _ Hh)) as Hb.
  pose proof (holds_nil _ Hh) as Hr.
  destruct Hb. destruct (save_growing_spec v size fuel st []) as (st' & E & Hh' & _);
    try done; [lia | lia | unfold grow_fuel; lia |].
  apply with_growth_saves in E as (left & E & Hl). by exists st', left.
Qed.

Lemma pass_spec fuel v s log :
  passable fuel v = true -> 0 < size_increment s < 2 ^ 62 -> holds (rb s) [] ->
  exists r1 log1 r2, save fuel v (s, log) = Done 0 (set_rb r1 s, log1) /\
    (is_function v = false -> save_below fuel v (s, log) = Done 0 (set_rb r1 s, log1)) /\
    load_private (set_rb r1 s, log1) = Done (transported v) (set_rb r2 s, log1) /\
    load_caller (set_rb r1 s, log1) = Done (transported v) (set_rb r2 s, log1) /\
    holds r2 [].
Proof.
  intros [[Hw Hf]%andb_prop Hmax]%andb_prop Hs Hh.
  assert (0 <= enc_len 0 v) by apply zlen_nonneg.
  destruct (growth_spec v (size_increment s) fuel (mk_sv (rb s) log)) as (st' & left & E & Hl & Hh');
    try done; [lia | cbn; lia | lia |].
  destruct (holds_load _ _ _ Hh') as (r2 & E2 & Hh2 & _).
  exists (sv_rb st'), (sv_retained st'), r2.
  unfold save, save_below, mbnd, get_st, on_save, zoom, load_private, load_caller. cbn.
  rewrite E, E2. split; [by destruct st'|]. split; [|by destruct st'].
  intros Hv. rewrite (Hl Hv). by destruct st'.
Qed.
End Passing.

(** ** The methods on a table at rest *)

Section Specs.
Context `{Lua : LuaApi} {Lok : LuaApiOk Lua}.

Record st_rep (s : sharedtable_t) : Prop := {
  st_holds : holds (rb s) [];
  st_mutex : mutex s = mutex_init false;
  st_inc : 0 < size_increment s < 2 ^ 62;
}.

Lemma lock_free_run t s log :
  mutex s = mutex_init false ->
  lock t (s, log) = Done tt (set_mutex (mk_mutex false (Some t) 1) s, log).
Proof. intros H. unfold lock. cbn. by rewrite H. Qed.

Lemma unlock_held_run t s log :
  mutex s = mk_mutex false (Some t) 1 ->
  unlock t (s, log) = Done tt (set_mutex (mutex_init false) s, log).
Proof.
  intros H. unfold unlock, pthread_mutex_unlock. cbn. rewrite H. cbn. by rewrite Z.eqb_refl.
Qed.

(** Passes a value, [load] being one of the two loads. *)
Ltac pass_value v :=
  match goal with
  | |- context [save_below ?fuel v (?s, ?log)] =>
      destruct (pass_spec fuel v s log) as (?r & ?log1 & ?r' & _ & ?Es & ?Ep & ?Ec & ?Hh);
      [assumption | cbn; assumption | cbn; assumption |];
      rewrite Es by assumption; clear Es; cbn [negb Z.eqb]; first [rewrite Ep | rewrite Ec];
      clear Ep Ec; cbn [set_rb set_mutex set_L rb mutex L size_increment ref_count]
  | |- context [save ?fuel v (?s, ?log)] =>
      destruct (pass_spec fuel v s log) as (?r & ?log1 & ?r' & ?Es & _ & ?Ep & ?Ec & ?Hh);
      [assumption | cbn; assumption | cbn; assumption |];
      rewrite Es; clear Es; cbn [negb Z.eqb]; first [rewrite Ep | rewrite Ec]; clear Ep Ec;
      cbn [set_rb set_mutex set_L rb mutex L size_increment ref_count]
  end.

Lemma write_spec fuel t k v s log es :
  st_rep s -> passable fuel k = true -> passable fuel v = true ->
  lua_settable (L s) (transported k) (transported v) = Some es ->
  exists s' log', sharedtable_write fuel t k v (s, log) = Done tt (s', log') /\
    st_rep s' /\ L s' = es /\ ref_count s' = ref_count s.
Proof.
  intros [Hh Hmu Hi] Hk Hv Hset. unfold sharedtable_write, mbnd, mret.
  rewrite lock_free_run by done. destruct s as [r m es0 inc rc]; cbn in *. subst m.
  unfold set_mutex; cbn [rb mutex L size_increment ref_count].
  pass_value k. pass_value v. unfold settable_private. cbn. rewrite Hset.
  rewrite unlock_held_run by done. eexists _, _. split; [done|]. done.
Qed.

Lemma read_spec fuel t k s log :
  st_rep s -> passable fuel k = true ->
  passable fuel (lua_gettable (L s) (transported k)) = true ->
  exists s' log', sharedtable_read fuel t k (s, log)
      = Done (transported (lua_gettable (L s) (transported k))) (s', log') /\
    st_rep s' /\ L s' = L s /\ ref_count s' = ref_count s.
Proof.
  intros [Hh Hmu Hi] Hk Hv. unfold sharedtable_read, mbnd, mret.
  rewrite lock_free_run by done. destruct s as [r m es0 inc rc]; cbn in *. subst m.
  unfold set_mutex; cbn [rb mutex L size_increment ref_count].
  pass_value k. unfold get_st. cbn [fst L set_rb].
  pass_value (lua_gettable es0 (transported k)).
  rewrite unlock_held_run by done. eexists _, _. split; [done|]. done.
Qed.

Lemma foldr_count (es : list (lua_value * lua_value)) :
  zlen es < 2 ^ 64 -> foldr (fun _ n => size_add n 1) 0 es = zlen es.
Proof.
  induction es as [|e es IH]; [done|]. rewrite zlen_cons. intros Hl.
  pose proof (zlen_nonneg es). cbn [foldr]. rewrite IH by lia.
  unfold size_add, SIZE_MOD. rewrite Z.mod_small; lia.
Qed.

Lemma size_spec gc_count t s log :
  st_rep s -> sharedtable_size gc_count t (s, log) = Done (LNumber (gc_count (L s))) (s, log).
Proof.
  intros [Hh Hmu Hi]. unfold sharedtable_size, mbnd, mret. rewrite lock_free_run by done.
  unfold get_st. cbn. rewrite unlock_held_run by done. by destruct s; cbn in *; subst.
Qed.

(** [#t] is the number of entries, whatever their keys. *)
Lemma len_spec t s log :
  st_rep s -> zlen (L s) < 2 ^ 64 -> sharedtable_len t (s, log) = Done (zlen (L s)) (s, log).
Proof.
  intros [Hh Hmu Hi] Hl. unfold sharedtable_len, mbnd, mret. rewrite lock_free_run by done.
  cbn. rewrite unlock_held_run by done. destruct s as [r m es0 inc rc]; cbn in *. subst m.
  by rewrite foldr_count.
Qed.

Lemma next_spec fuel t k s log r :
  st_rep s -> passable fuel k = true -> lua_next (L s) (transported k) = Some r ->
  (forall e, r = Some e -> is_function e.1 = false /\ passable fuel e.1 = true /\
     passable fuel e.2 = true) ->
  exists s' log', sharedtable_next fuel t k (s, log)
      = Done (e ← r; Some (transported e.1, transported e.2)) (s', log') /\
    st_rep s' /\ L s' = L s /\ ref_count s' = ref_count s.
Proof.
  intros [Hh Hmu Hi] Hk Hn Hr. unfold sharedtable_next, mbnd, mret.
  rewrite lock_free_run by done. destruct s as [r0 m es0 inc rc]; cbn in *. subst m.
  unfold set_mutex; cbn [rb mutex L size_increment ref_count].
  pass_value k. unfold get_st. cbn [fst L set_rb]. rewrite Hn.
  destruct r as [[k2 v2]|].
  - destruct (Hr _ eq_refl) as (Hf2 & Hk2 & Hv2). cbn [fst snd] in *. pass_value k2. pass_value v2.
    rewrite unlock_held_run by done. eexists _, _. split; [done|]. done.
  - rewrite unlock_held_run by done. eexists _, _. split; [done|]. done.
Qed.

Lemma copy_entry_spec fuel k v s log es :
  holds (rb s) [] -> 0 < size_increment s < 2 ^ 62 ->
  is_function k = false -> passable fuel k = true -> passable fuel v = true ->
  lua_settable (L s) (transported k) (transported v) = Some es ->
  exists r log', copy_entry_to_table fuel k v (s, log) = Done 0 (set_L es (set_rb r s), log') /\
    holds r [].
Proof.
  intros Hh Hi Hf Hk Hv Hset. unfold copy_entry_to_table, mbnd, mret.
  destruct s as [r m es0 inc rc]; cbn in *.
  pass_value k. pass_value v. unfold settable_private. cbn. rewrite Hset. by eexists _, _.
Qed.

(** An entry that fits, whose key is not a function. *)
Definition new_entry_ok (fuel : nat) (e : lua_value * lua_value) : bool :=
  negb (is_function e.1) && passable fuel e.1 && passable fuel e.2 && lua_key_ok (transported e.1) && negb (is_nil e.2).

(** The keys and values as they arrive in the private state. *)
Definition copied (e : lua_value * lua_value) : lua_value * lua_value :=
  (transported e.1, transported e.2).

Lemma init_table_spec fuel move es : forall s log,
  holds (rb s) [] -> 0 < size_increment s < 2 ^ 62 -> forallb (new_entry_ok fuel) es = true ->
  distinct (map fst (L s ++ map copied es)) = true ->
  exists r log', init_table fuel move es (s, log)
      = Done (0, if move then [] else es) (set_L (L s ++ map copied es) (set_rb r s), log') /\
    holds r [].
Proof.
  induction es as [|[k v] es IH]; intros s log Hh Hi Hok Hd; cbn [init_table map].
  - exists (rb s), log. rewrite app_nil_r. split; [|done]. unfold mret.
    destruct s, move; done.
  - cbn [forallb] in Hok. apply andb_prop in Hok as [He Hok].
    apply andb_prop in He as [[[[Hfk Hk]%andb_prop Hv]%andb_prop Hko]%andb_prop Hnil].
    cbn [fst snd] in *. apply negb_true_iff in Hfk.
    assert (lua_settable (L s) (transported k) (transported v)
      = Some (L s ++ [copied (k, v)])) as Hset.
    { apply lua_settable_fresh; [done | rewrite transported_nil; by destruct (is_nil v) |].
      rewrite map_app in Hd. cbn [map] in Hd. apply distinct_snoc_fresh in Hd.
      by rewrite forallb_map in Hd. }
    destruct (copy_entry_spec fuel k v s log _ Hh Hi Hfk Hk Hv Hset) as (r & log1 & E & Hh1).
    unfold mbnd. rewrite E. cbn [negb Z.eqb].
    destruct (IH (set_L (L s ++ [copied (k, v)]) (set_rb r s)) log1)
      as (r' & log' & E' & Hh'); try done.
    { cbn. by rewrite <- app_assoc. }
    rewrite E'. exists r', log'. split; [|done]. cbn. rewrite <- app_assoc. by destruct move.
Qed.
End Specs.

(** ** Tables as maps *)

(** Keys compared by value. *)
Definition scalar (k : lua_value) : bool :=
  match k with LBoolean _ | LNumber _ | LInteger _ | LString _ => true | _ => false end.

(** What Lua documents of assignment to a table without a metatable. *)
Class LuaTableOk `(Lua : LuaApi) : Prop := {
  lt_set es k v : lua_key_ok k = true -> is_Some (lua_settable es k v);
  lt_set_bad es k v : lua_key_ok k = false -> lua_settable es k v = None;
  lt_get_same es k v es' :
    lua_settable es k v = Some es' -> lua_rawequal k k = true -> lua_gettable es' k = v;
  lt_get_other es k v es' k' :
    lua_settable es k v = Some es' -> lua_rawequal k k' = false ->
    lua_gettable es' k' = lua_gettable es k';
  lt_get_equal es k k' : lua_rawequal k k' = true -> lua_gettable es k = lua_gettable es k';
  lt_refl k : scalar k = true -> lua_key_ok k = true -> lua_rawequal k k = true;
  lt_nil_key : lua_key_ok LNil = false;
}.

Module RefTable.
Lemma rawequal_trans a b c :
  RefLua.rawequal a b = true -> RefLua.rawequal a c = RefLua.rawequal b c.
Proof.
  destruct a, b; cbn; try done; intros H; destruct c; try done; cbn.
  - by destruct b0, b.
  - apply bool_decide_eq_true in H as ->. done.
  - apply orb_prop in H as [->%bool_decide_eq_true | [Hx Hy]%andb_prop]; [done|].
    rewrite Hx, Hy. cbn. destruct (n1 mod 2 ^ 63 =? 0) eqn:E; [by rewrite !orb_true_r|].
    rewrite !orb_false_r, !bool_decide_false; [done | |]; intros ->; congruence.
  - apply bool_decide_eq_true in H as ->. done.
  - apply bool_decide_eq_true in H as ->. done.
Qed.

Lemma rawequal_sym a b : RefLua.rawequal a b = RefLua.rawequal b a.
Proof.
  destruct a, b; cbn; try done; try (apply bool_decide_ext; split; congruence).
  - by destruct b0, b.
  - rewrite andb_comm. f_equal. apply bool_decide_ext. split; congruence.
Qed.

#[export] Instance ref_table version to_end : LuaTableOk (RefLua.api version to_end).
Proof.
  split; cbn [lua_key_ok lua_settable lua_rawequal RefLua.api]; unfold RefLua.settable.
  - intros es k v ->. by eexists.
  - by intros es k v ->.
  - intros es k v es' E Hk. destruct (RefLua.key_ok k); simplify_eq.
    unfold lua_gettable. cbn [lua_rawequal RefLua.api].
    induction es as [|e es IH]; cbn.
    + destruct (is_nil v) eqn:Hv; cbn; [by destruct v | by rewrite Hk].
    + destruct (RefLua.rawequal e.1 k) eqn:He; cbn; [exact IH | by rewrite He].
  - intros es k v es' k' E Hk. destruct (RefLua.key_ok k); simplify_eq.
    unfold lua_gettable. cbn [lua_rawequal RefLua.api].
    induction es as [|e es IH]; cbn.
    + destruct (is_nil v) eqn:Hv; cbn; [done | by rewrite Hk].
    + destruct (RefLua.rawequal e.1 k) eqn:He; cbn.
      * rewrite (rawequal_trans _ _ k' He), Hk. exact IH.
      * by destruct (RefLua.rawequal e.1 k').
  - intros es k k' Hk. unfold lua_gettable. cbn [lua_rawequal RefLua.api].
    replace (List.find (fun e => RefLua.rawequal e.1 k) es)
      with (List.find (fun e => RefLua.rawequal e.1 k') es); [done|].
    induction es as [|e es IH]; cbn; [done|].
    by rewrite (rawequal_sym e.1 k), (rawequal_trans k k' e.1 Hk), (rawequal_sym k'), IH.
  - intros []; cbn; intros; try done; try (by rewrite bool_decide_true). by destruct b.
  - done.
Qed.
End RefTable.

(** ** The abstract table *)

Module Spec.
(** A function from keys to values, nil where there is none. *)
Definition atable : Type := lua_value -> lua_value.

Inductive op :=
  | Write (t : Z) (k v : lua_value)
  | Read (t : Z) (k : lua_value).

(** The answer of a read; a value is copied on its way in and on its way out. *)
Definition step `{LuaApi} (a : atable) (o : op) : option lua_value * atable :=
  match o with
  | Write _ k v => (None, fun k' => if lua_rawequal k k' then transported v else a k')
  | Read _ k => (Some (transported (a k)), a)
  end.

Fixpoint run `{LuaApi} (a : atable) (os : list op) : list (option lua_value) :=
  match os with
  | [] => []
  | o :: os' => (step a o).1 :: run (step a o).2 os'
  end.

(** Keys compared by value, and values both copies of which pass. *)
Definition op_ok `{LuaApi} (fuel : nat) (o : op) : bool :=
  match o with
  | Write _ k v => scalar k && lua_key_ok k && passable fuel k && passable fuel v
                   && passable fuel (transported v)
  | Read _ k => scalar k && lua_key_ok k && passable fuel k
  end.
End Spec.

Section Refinement.
Context `{Lua : LuaApi} {Lok : LuaApiOk Lua} {Tok : LuaTableOk Lua}.
Import Spec.

Definition st_step (fuel : nat) (s : tst) (o : op) : option (option lua_value * tst) :=
  match o with
  | Write t k v =>
      match sharedtable_write fuel t k v s with Done _ s' => Some (None, s') | _ => None end
  | Read t k =>
      match sharedtable_read fuel t k s with Done v s' => Some (Some v, s') | _ => None end
  end.

Fixpoint st_run (fuel : nat) (s : tst) (os : list op) : option (list (option lua_value) * tst) :=
  match os with
  | [] => Some ([], s)
  | o :: os' => '(r, s1) ← st_step fuel s o; '(rs, s2) ← st_run fuel s1 os'; Some (r :: rs, s2)
  end.

Record simulates (fuel : nat) (s : sharedtable_t) (a : atable) : Prop := {
  sim_rep : st_rep s;
  sim_get k : scalar k = true -> lua_gettable (L s) k = a k;
  sim_values k : passable fuel (a k) = true;
}.

Lemma scalar_transported k : scalar k = true -> transported k = k.
Proof. by destruct k. Qed.

Lemma table_step_sim fuel s log a o :
  simulates fuel s a -> op_ok fuel o = true ->
  exists s' log', st_step fuel (s, log) o = Some ((step a o).1, (s', log')) /\
    simulates fuel s' (step a o).2.
Proof.
  intros [Hr Hg Hv] Hok. destruct o as [t k v|t k]; cbn [op_ok] in Hok.
  - apply andb_prop in Hok as [[[[Hsc Hko]%andb_prop Hk]%andb_prop Hpv]%andb_prop Hpt].
    destruct (lt_set (L s) k (transported v) Hko) as [es Hset].
    destruct (write_spec fuel t k v s log es Hr Hk Hpv) as (s' & log' & E & Hr' & HL & _);
      [by rewrite scalar_transported|].
    exists s', log'. cbn. rewrite E. split; [done|]. split; [done| |].
    + intros k' Hsc'. rewrite HL. destruct (lua_rawequal k k') eqn:Ek.
      * rewrite <- (lt_get_equal es k k' Ek). apply (lt_get_same _ _ _ _ Hset).
        by apply lt_refl.
      * rewrite (lt_get_other _ _ _ _ k' Hset Ek). by apply Hg.
    + intros k'. by destruct (lua_rawequal k k').
  - apply andb_prop in Hok as [[Hsc Hko]%andb_prop Hk].
    destruct (read_spec fuel t k s log Hr Hk) as (s' & log' & E & Hr' & HL & _).
    { by rewrite (scalar_transported k), Hg. }
    exists s', log'. cbn. rewrite E, (scalar_transported k), Hg by done.
    split; [done|]. split; [done| |done]. intros k' Hk'. rewrite HL. by apply Hg.
Qed.

Lemma table_run_sim fuel os : forall s log a,
  simulates fuel s a -> forallb (op_ok fuel) os = true ->
  exists s' log', st_run fuel (s, log) os = Some (run a os, (s', log')) /\ st_rep s'.
Proof.
  induction os as [|o os IH]; intros s log a Hs Hok.
  - exists s, log. split; [done|]. by destruct Hs.
  - cbn [forallb] in Hok. apply andb_prop in Hok as [Ho Hok].
    destruct (table_step_sim fuel s log a o Hs Ho) as (s1 & log1 & E & Hs1).
    destruct (IH s1 log1 _ Hs1 Hok) as (s' & log' & E' & Hr').
    exists s', log'. cbn. rewrite E. cbn. by rewrite E'.
Qed.

(** The table of a new [ipc.sharedtable()]. *)
Definition new_table (size inc : Z) : sharedtable_t :=
  mk_st (ringbuffer_create size) (mutex_init false) [] inc 1.

Lemma new_rep size inc : 0 < size < 2 ^ 62 -> 0 < inc < 2 ^ 62 -> st_rep (new_table size inc).
Proof. intros. split; [apply holds_create; lia | done | done]. Qed.

Lemma new_sim fuel size inc :
  0 < size < 2 ^ 62 -> 0 < inc < 2 ^ 62 -> (1 < fuel)%nat ->
  simulates fuel (new_table size inc) (fun _ => LNil).
Proof.
  intros Hs Hi Hf. split; [by apply new_rep | done |]. intros k. unfold passable.
  assert (enc_len 0 LNil = 1) as -> by (unfold enc_len; cbn; apply zlen_char).
  rewrite (proj2 (Z.ltb_lt 1 _)) by lia. done.
Qed.

(** *** Traversal *)

(** Iterating from a key. *)
Fixpoint iterate (n : nat) (fuel : nat) (t : Z) (k : lua_value)
  : M tst (list (lua_value * lua_value)) :=
  match n with
  | O => out_of_fuel
  | S n' =>
      let! r := sharedtable_next fuel t k in
      match r with
      | None => mret []
      | Some e => let! es := iterate n' fuel t e.1 in mret (e :: es)
      end
  end.

Definition entry_ok (fuel : nat) (e : lua_value * lua_value) : bool :=
  scalar e.1 && lua_key_ok e.1 && passable fuel e.1 && passable fuel e.2.

Lemma next_at pre e post :
  scalar e.1 = true -> lua_key_ok e.1 = true ->
  distinct (map fst (pre ++ e :: post)) = true ->
  lua_next (pre ++ e :: post) e.1 = Some (head post).
Proof.
  intros Hsc Hko Hd. unfold lua_next.
  assert (lua_next_from (pre ++ e :: post) e.1 = Some (head post)) as Hfrom.
  { rewrite map_app in Hd. cbn [map] in Hd. apply distinct_snoc_fresh in Hd.
    rewrite forallb_map in Hd. induction pre as [|x pre IH]; cbn in *.
    - by rewrite lt_refl.
    - apply andb_prop in Hd as [Hx Hd]. destruct (lua_rawequal x.1 e.1); [done|]. by apply IH. }
  by destruct (e.1).
Qed.

(** [k] is the cursor after the entries [pre]. *)
Definition cursor (pre : list (lua_value * lua_value)) (k : lua_value) : Prop :=
  (pre = [] /\ k = LNil) \/ exists pre' e, pre = pre' ++ [e] /\ k = e.1.

Lemma cursor_next fuel pre post k :
  cursor pre k -> forallb (entry_ok fuel) (pre ++ post) = true ->
  distinct (map fst (pre ++ post)) = true -> passable fuel LNil = true ->
  passable fuel k = true /\ transported k = k /\
  lua_next (pre ++ post) k = Some (head post).
Proof.
  intros [[-> ->]|(pre' & e & -> & ->)] Hok Hd Hnil; [done|].
  rewrite !forallb_app in Hok. cbn [forallb] in Hok.
  apply andb_prop in Hok as [[_ [He _]%andb_prop]%andb_prop _].
  apply andb_prop in He as [[[Hsc Hko]%andb_prop Hpk]%andb_prop _].
  split; [done|]. split; [by apply scalar_transported|].
  rewrite <- app_assoc in *. by apply next_at.
Qed.

Lemma iterate_spec fuel t post : forall n pre k s log,
  st_rep s -> L s = pre ++ post -> forallb (entry_ok fuel) (L s) = true ->
  distinct (map fst (L s)) = true -> passable fuel LNil = true -> (length post < n)%nat ->
  cursor pre k ->
  exists s' log', iterate n fuel t k (s, log)
      = Done (map (fun e => (e.1, transported e.2)) post) (s', log') /\
    st_rep s' /\ L s' = L s.
Proof.
  induction post as [|e post IH]; intros n pre k s log Hr HL Hok Hd Hnil Hn Hk;
    (destruct n as [|n]; [cbn in Hn; lia|]); cbn [iterate];
    rewrite HL in Hok, Hd; destruct (cursor_next fuel pre _ k Hk Hok Hd Hnil) as (Hpk & Htk & Hnx).
  - destruct (next_spec fuel t k s log None Hr Hpk) as (s1 & log1 & E & Hr1 & HL1 & _);
      [by rewrite Htk, HL | done |].
    unfold mbnd. rewrite E. by exists s1, log1.
  - assert (entry_ok fuel e = true) as He.
    { rewrite forallb_app in Hok. cbn in Hok. by apply andb_prop in Hok as [_ [? _]%andb_prop]. }
    apply andb_prop in He as [[[Hsc Hko]%andb_prop Hpe]%andb_prop Hpv].
    destruct (next_spec fuel t k s log (Some e) Hr Hpk) as (s1 & log1 & E & Hr1 & HL1 & _);
      [by rewrite Htk, HL | intros e' [= <-]; split; [by destruct (e.1) | done] |].
    unfold mbnd. rewrite E. cbn. rewrite (scalar_transported e.1) by done.
    destruct (IH n (pre ++ [e]) e.1 s1 log1) as (s' & log' & E' & Hr' & HL'); try done.
    + by rewrite HL1, HL, <- app_assoc.
    + by rewrite HL1, HL.
    + by rewrite HL1, HL.
    + cbn in Hn. lia.
    + right. eauto.
    + rewrite E'. exists s', log'. split; [done|]. by rewrite HL', HL1.
Qed.
End Refinement.

(** ** Theorems *)

Section Theorems.
Context `{Lua : LuaApi} {Lok : LuaApiOk Lua} {Tok : LuaTableOk Lua}.
Import Spec.

(** C6: a shared table is a map.  Any sequence of reads and writes, by any threads,
    with keys compared by value, runs without error or undefined behaviour and each
    read returns a copy of the last value written under its key, nil without one;
    the growth loops end, and between calls the mutex is free and the buffer
    empty. *)
Theorem sharedtable_refines_map fuel size inc os :
  0 < size < 2 ^ 62 -> 0 < inc < 2 ^ 62 -> (1 < fuel)%nat ->
  forallb (op_ok fuel) os = true ->
  exists s' log', st_run fuel (new_table size inc, []) os
      = Some (run (fun _ => LNil) os, (s', log')) /\
    mutex s' = mutex_init false /\ contents (rb s') = [].
Proof.
  intros Hs Hi Hf Hok.
  destruct (table_run_sim fuel os (new_table size inc) [] (fun _ => LNil)) as (s' & log' & E & [Hh Hm _]);
    [by apply new_sim | done |].
  exists s', log'. split; [done|]. split; [done|].
  destruct Hh as [_ (bss & Hb & ->)]. by inversion Hb.
Qed.

(** C33: a shared table made from a table whose keys are not functions (see [save_below])
    holds a copy of every entry, and with [move] the table it was made from is left empty
    (otherwise as it was); the new object has one reference. *)
Theorem sharedtable_create_copies fuel es mt (move : bool) size inc log :
  0 < size < 2 ^ 62 -> 0 < inc < 2 ^ 62 -> forallb (new_entry_ok fuel) es = true ->
  distinct (map fst (map copied es)) = true ->
  exists s log', sharedtable_create fuel true (Some (LTable es mt)) move (Some size) (Some inc) log
      = Done (Some s, if move then [] else es) (s, log') /\
    st_rep s /\ L s = map copied es /\ ref_count s = 1.
Proof.
  intros Hs Hi Hok Hd. unfold sharedtable_create. cbn [from_option id negb].
  destruct (init_table_spec fuel move es (set_ref_count 0 (new_table size inc)) log)
    as (r & log' & E & Hh); try done.
  { apply holds_create. lia. }
  unfold set_ref_count at 1, new_table in E. cbn [rb mutex L size_increment ref_count] in E. rewrite E. cbn. eexists _, _. split; [done|]. done.
Qed.


(** Writing under the key nil is not an error the caller gets: the assignment
    raises in the private state, where nothing catches it (the process ends). *)
Theorem nil_key_write_is_fatal fuel t v s log :
  st_rep s -> passable fuel LNil = true -> passable fuel v = true ->
  sharedtable_write fuel t LNil v (s, log) = Undef.
Proof.
  intros [Hh Hmu Hi] Hk Hv. unfold sharedtable_write, mbnd. rewrite lock_free_run by done.
  destruct (pass_spec fuel LNil (set_mutex (mk_mutex false (Some t) 1) s) log Hk Hi Hh)
    as (r & log1 & r' & -> & _ & Ep & _ & Hh1). cbn [negb Z.eqb]. rewrite Ep.
  destruct (pass_spec fuel v (set_rb r' (set_mutex (mk_mutex false (Some t) 1) s)) log1 Hv Hi Hh1)
    as (r2 & log2 & r3 & -> & _ & Ep2 & _ & _). cbn [negb Z.eqb]. rewrite Ep2.
  unfold settable_private. cbn. by rewrite lt_set_bad by apply lt_nil_key.
Qed.
End Theorems.

Section Runs.
Import Spec.
#[local] Existing Instance RefLua.api_ok.
#[local] Existing Instance RefTable.ref_table.
#[local] Instance lua53 : LuaApi := RefLua.api 503 false.

(** A table with two entries. *)
Definition sample_table : sharedtable_t :=
  set_L [(LInteger 1, LString (str "a")); (LInteger 2, LString (str "b"))] (new_table 8 4).

Lemma sample_rep : st_rep sample_table.
Proof. destruct (new_rep 8 4); [done | done | by split]. Qed.

Lemma sharedtable_refines_map_witness :
  exists s' log', st_run 99 (new_table 4 2, [])
      [Write 1 (LInteger 1) (LString (str "a")); Read 2 (LInteger 1); Read 2 (LInteger 2);
       Write 2 (LInteger 1) LNil; Read 1 (LInteger 1)]
    = Some ([None; Some (LString (str "a")); Some LNil; None; Some LNil], (s', log')) /\
    mutex s' = mutex_init false /\ contents (rb s') = [].
Proof.
  destruct (sharedtable_refines_map 99 4 2
    [Write 1 (LInteger 1) (LString (str "a")); Read 2 (LInteger 1); Read 2 (LInteger 2);
     Write 2 (LInteger 1) LNil; Read 1 (LInteger 1)]) as (s' & log' & E & H);
    [done | done | lia | vm_compute; reflexivity |].
  exists s', log'. split; [|exact H]. etransitivity; [exact E|]. by do 2 f_equal.
Defined.

Lemma sharedtable_create_copies_witness :
  let es := [(LInteger 1, LString (str "a")); (LInteger 2, LString (str "b"))] in
  exists s log', sharedtable_create 99 true (Some (LTable es None)) true (Some 8) (Some 4) []
      = Done (Some s, []) (s, log') /\
    st_rep s /\ L s = es /\ ref_count s = 1.
Proof.
  apply (sharedtable_create_copies 99
    [(LInteger 1, LString (str "a")); (LInteger 2, LString (str "b"))] None true 8 4 []);
    [done | done | vm_compute; reflexivity ..].
Defined.


Lemma nil_key_write_is_fatal_witness :
  sharedtable_write 99 1 LNil (LInteger 1) (new_table 8 8, []) = Undef.
Proof.
  apply (nil_key_write_is_fatal 99 1 (LInteger 1) (new_table 8 8) []);
    [by apply new_rep | vm_compute; reflexivity ..].
Defined.

(** After a write refused with an error other than [-ENOMEM], the bytes saved
    before the error are still in the buffer, and the next call takes them for
    its key: a good write after a refused one has no defined behaviour. *)
Theorem refused_write_corrupts_next_call :
  let bad := LTable [(LInteger 1, LThread)] None in
  exists s log, sharedtable_write 99 1 bad LNil (new_table 64 64, [])
      = Raised (ErrCode (- EPERM)) (s, log) /\
    mutex s = mutex_init false /\ zlen (contents (rb s)) = 10 /\
    sharedtable_write 99 1 (LInteger 5) (LInteger 6) (s, log) = Undef.
Proof.
  cbv zeta. eexists _, _. split; [vm_compute; reflexivity|].
  split; [reflexivity|]. split; vm_compute; reflexivity.
Qed.

(** Writing a closure raises with the mutex held; it is not recursive, so that
    the next call blocks in every thread, the writer included. *)
Theorem closure_write_leaves_table_locked :
  let f := LFunction true [Byte.x02; Byte.x78] [([Byte.x78], LInteger 1)] in
  exists s log, sharedtable_write 99 1 (LInteger 1) f (new_table 64 64, [])
      = Raised (ErrLua str_closure) (s, log) /\
    forall fuel t k, sharedtable_read fuel t k (s, log) = Blocked (s, log).
Proof.
  cbv zeta. eexists _, _. split; [vm_compute; reflexivity|].
  intros fuel t k. unfold sharedtable_read, mbnd, lock, pthread_mutex_lock. cbn.
  by rewrite andb_false_r.
Qed.
End Runs.
