(* ===== verification/Mutex.v ===== *)
(** * Mutexes and barriers ([src/mutex.c]). *)
From S2P Require Import Prelude Pthread Object.

#[local] Open Scope ipc_scope.

(** [barrier] is an [int64_t]. *)
Record mutex_t := mk_mx {
  ref_count : Z;
  mutex : pmutex;
  cond : cond_t;
  barrier : Z;
}.

Definition set_mutex m x := mk_mx (ref_count x) m (cond x) (barrier x).
Definition set_cond c x := mk_mx (ref_count x) (mutex x) c (barrier x).
Definition set_barrier b x := mk_mx (ref_count x) (mutex x) (cond x) b.
Definition set_ref_count r x := mk_mx r (mutex x) (cond x) (barrier x).

(** [++] on an [int64_t]: overflow is undefined. *)
Definition int64_incr (n : Z) : option Z := if n =? 2 ^ 63 - 1 then None else Some (n + 1).

(** The object [mutex_create] boxes (initialising a mutex and a condition variable does
    not fail here). *)
Definition mutex_create : mutex_t := mk_mx 1 (mutex_init true) [] 0.

Definition mutex_lock (t : Z) : M mutex_t unit := fun x =>
  match pthread_mutex_lock t (mutex x) with
  | Some m => Done tt (set_mutex m x)
  | None => Blocked x
  end.

(** A recursive mutex the caller does not hold is not unlocked: EPERM. *)
Definition mutex_unlock (t : Z) : M mutex_t unit := fun x =>
  match pthread_mutex_unlock t (mutex x) with
  | Some m => Done tt (set_mutex m x)
  | None => Raised (ErrCode EPERM) x
  end.

(** [pthread_cond_wait] with the mutex held once; held more, it stays held.  How the thread
    goes on is [barrier_woken], after a broadcast or a spurious wake-up ([barrier_run]). *)
Definition cond_wait (t : Z) : M mutex_t unit := fun x =>
  match pthread_mutex_unlock t (mutex x) with
  | Some m => Blocked (set_cond (cond_enqueue t (cond x)) (set_mutex m x))
  | None => Undef
  end.

Definition mutex_barrier (t count : Z) : M mutex_t unit :=
  mutex_lock t ;;;
  let! x := get_st in
  let! b := of_opt (int64_incr (barrier x)) in
  modify_st (set_barrier b) ;;;
  (if b =? count then
     modify_st (fun x => set_cond (pthread_cond_broadcast (cond x)) x) ;;;
     modify_st (set_barrier 0)
   else cond_wait t) ;;;
  mutex_unlock t.

(** A thread that wakes, after the broadcast or without: [pthread_cond_wait] takes the mutex back, and the
    call unlocks it and returns. *)
Definition barrier_woken (t : Z) : M mutex_t unit := mutex_lock t ;;; mutex_unlock t.

Section LifeCycle.
Context `{TH : THAtomic}.

Definition mutex_retain (p : Z) : M (world mutex_t) unit :=
  on_object (Some p) []
    (modify_st (fun s => (set_ref_count (THAtomicIncrementRef (ref_count s.1)) s.1, s.2))).

Definition mutex_gc (p : Z) : M (world mutex_t) unit := fun w =>
  match release ref_count set_ref_count p w with
  | Some (_, w') => Done tt w'
  | None => Undef
  end.
End LifeCycle.

(** ** Lemmas *)

(** The mutex held [n] times by [t]. *)
Definition held (t n : Z) (x : mutex_t) : mutex_t :=
  set_mutex (if n =? 0 then mutex_init true else mk_mutex true (Some t) n) x.

Lemma lock_held t n x : 0 <= n -> mutex_lock t (held t n x) = Done tt (held t (n + 1) x).
Proof.
  intros Hn. unfold mutex_lock, held. cbn.
  rewrite (proj2 (Z.eqb_neq (n + 1) 0)) by lia.
  destruct (Z.eqb_spec n 0) as [->|]; [done|]. unfold pthread_mutex_lock. cbn.
  by rewrite Z.eqb_refl.
Qed.

Lemma mutex_unlock_held t n x : 0 < n -> mutex_unlock t (held t n x) = Done tt (held t (n - 1) x).
Proof.
  intros Hn. unfold mutex_unlock, held. cbn. rewrite (proj2 (Z.eqb_neq n 0)) by lia.
  unfold pthread_mutex_unlock. cbn. rewrite Z.eqb_refl.
  destruct (Z.eqb_spec n 1) as [->|]; [done|]. by rewrite (proj2 (Z.eqb_neq (n - 1) 0)) by lia.
Qed.

(** What happens at a barrier: a thread calls it, or one that is asleep wakes spuriously. *)
Inductive barrier_event := Arrives (t : Z) | Wakes (t : Z).

(** The calls made, and the threads whose calls have returned, in order. *)
Fixpoint barrier_run (count : Z) (es : list barrier_event) (x : mutex_t)
  : option (list Z * mutex_t) :=
  match es with
  | [] => Some ([], x)
  | Arrives t :: es' =>
      match mutex_barrier t count x with
      | Done _ x' => '(ts, y) ← barrier_run count es' x'; Some (t :: ts, y)
      | Blocked x' => barrier_run count es' x'
      | _ => None
      end
  | Wakes t :: es' =>
      c ← spurious_wakeup t (cond x);
      match barrier_woken t (set_cond c x) with
      | Done _ x' => '(ts, y) ← barrier_run count es' x'; Some (t :: ts, y)
      | _ => None
      end
  end.

Definition arrivals (es : list barrier_event) : list Z :=
  omap (fun e => match e with Arrives t => Some t | Wakes _ => None end) es.
Definition wakes (es : list barrier_event) : list Z :=
  omap (fun e => match e with Wakes t => Some t | Arrives _ => None end) es.

Lemma barrier_sleeps t count x :
  mutex x = mutex_init true -> barrier x < 2 ^ 63 - 1 -> barrier x + 1 <> count ->
  mutex_barrier t count x
  = Blocked (set_cond (cond x ++ [t]) (set_barrier (barrier x + 1) x)).
Proof.
  intros Hm Hb Hc. destruct x as [rc m cv b]; cbn in *. subst m.
  unfold mutex_barrier, mbnd, mutex_lock, of_opt, int64_incr. cbn.
  rewrite (proj2 (Z.eqb_neq b _)) by lia. cbn. rewrite (proj2 (Z.eqb_neq _ _)) by done.
  unfold cond_wait, pthread_mutex_unlock. cbn. by rewrite Z.eqb_refl.
Qed.

Lemma barrier_opens t count x :
  mutex x = mutex_init true -> barrier x < 2 ^ 63 - 1 -> barrier x + 1 = count ->
  mutex_barrier t count x = Done tt (set_cond [] (set_barrier 0 x)).
Proof.
  intros Hm Hb <-. destruct x as [rc m cv b]; cbn in *. subst m.
  unfold mutex_barrier, mbnd, mutex_lock, of_opt, int64_incr. cbn.
  rewrite (proj2 (Z.eqb_neq b _)) by lia. cbn. rewrite Z.eqb_refl. cbn.
  unfold mutex_unlock, pthread_mutex_unlock. cbn. by rewrite Z.eqb_refl.
Qed.

Lemma barrier_woken_returns t x : mutex x = mutex_init true -> barrier_woken t x = Done tt x.
Proof.
  intros Hm. assert (held t 0 x = x) as H0 by (destruct x; cbn in *; by subst).
  pose proof (lock_held t 0 x ltac:(lia)) as E. rewrite H0 in E. unfold barrier_woken, mbnd.
  rewrite E, mutex_unlock_held by done. change (0 + 1 - 1) with 0. by rewrite H0.
Qed.

(** Taking out of the sleepers the one thread that wakes. *)
Lemma spurious_wakeup_spec t c c' : NoDup c -> spurious_wakeup t c = Some c' -> t :: c' ≡ₚ c.
Proof.
  unfold spurious_wakeup. case_bool_decide as Hin; [|done]. intros Hnd [= <-].
  apply NoDup_Permutation; [|done|].
  - constructor; [rewrite list_elem_of_difference; set_solver | by apply NoDup_list_difference].
  - intros u. rewrite elem_of_cons, list_elem_of_difference. destruct (decide (u = t)); set_solver.
Qed.

(** As long as fewer have called than the barrier counts, those whose calls have returned are
    those that woke spuriously. *)
Lemma barrier_run_early count es : forall x returned y,
  mutex x = mutex_init true -> 0 <= barrier x -> barrier x + zlen (arrivals es) < count ->
  count < 2 ^ 63 -> NoDup (cond x ++ arrivals es) ->
  barrier_run count es x = Some (returned, y) ->
  returned = wakes es /\ wakes es ++ cond y ≡ₚ cond x ++ arrivals es /\
  y = set_cond (cond y) (set_barrier (barrier x + zlen (arrivals es)) x).
Proof.
  induction es as [|[t|t] es IH]; intros x returned y Hm Hb Hn Hc Hnd E; cbn [barrier_run] in E.
  - injection E as <- <-. cbn. rewrite app_nil_r, Z.add_0_r. split; [done|]. split; [done|]. by destruct x.
  - change (arrivals (Arrives t :: es)) with (t :: arrivals es) in *.
    change (wakes (Arrives t :: es)) with (wakes es). rewrite zlen_cons in *.
    pose proof (zlen_nonneg (arrivals es)). rewrite barrier_sleeps in E by (done || lia).
    replace (cond x ++ t :: arrivals es) with ((cond x ++ [t]) ++ arrivals es) in *
      by (by rewrite <- app_assoc).
    apply IH in E as (-> & Hp & Hy); cbn; try done; try lia.
    split; [done|]. split; [done|]. rewrite Hy. cbn.
    by replace (barrier x + 1 + zlen (arrivals es)) with (barrier x + (1 + zlen (arrivals es))) by lia.
  - change (arrivals (Wakes t :: es)) with (arrivals es) in *.
    change (wakes (Wakes t :: es)) with (t :: wakes es).
    destruct (spurious_wakeup t (cond x)) as [c|] eqn:Ew; [|done]. cbn [mbind option_bind] in E.
    rewrite barrier_woken_returns in E by done.
    destruct (barrier_run count es (set_cond c x)) as [[ts y']|] eqn:Er; [|done].
    injection E as <- <-. apply NoDup_app in Hnd as (Hnd1 & Hnd2 & Hnd3).
    pose proof (spurious_wakeup_spec _ _ _ Hnd1 Ew) as Hp.
    destruct (IH (set_cond c x) ts y' Hm Hb Hn Hc) as (-> & Hq & Hy); [|done|].
    + rewrite <- Hp in Hnd1. apply NoDup_cons in Hnd1 as [_ Hnd1]. cbn. apply NoDup_app.
      split; [done|]. split; [|done]. intros u Hu. apply Hnd2. rewrite <- Hp. by right.
    + split; [done|]. split; [|done]. cbn in Hq |- *. by rewrite Hq, <- Hp.
Qed.

(** ** Theorems *)

(** C35: a barrier of [count] holds the first [count - 1] callers until the last one arrives,
    but for those that wake spuriously.  Whatever the order of the calls and of spurious
    wake-ups, of the callers before the last those that have returned are exactly those woken
    spuriously, and all others are asleep; the call of the last one returns and wakes all of
    them, each of their calls then returns, and the barrier is as it was before the first,
    ready for the next round. *)
Theorem barrier_releases_together (es : list barrier_event) (last : Z) x returned y :
  mutex x = mutex_init true -> barrier x = 0 -> cond x = [] -> NoDup (arrivals es) ->
  zlen (arrivals es) < 2 ^ 63 - 1 -> let count := zlen (arrivals es) + 1 in
  barrier_run count es x = Some (returned, y) ->
  returned = wakes es /\ wakes es ++ cond y ≡ₚ arrivals es /\
  mutex_barrier last count y = Done tt x /\
  forall t, t ∈ cond y -> barrier_woken t x = Done tt x.
Proof.
  intros Hm Hb Hc Hnd Hn count E. pose proof (zlen_nonneg (arrivals es)).
  destruct (barrier_run_early count es x returned y) as (-> & Hp & Hy); try done; try lia.
  { by rewrite Hc. }
  rewrite Hc in Hp. split; [done|]. split; [done|]. split.
  - rewrite Hy, barrier_opens; cbn; try done; try lia. destruct x; cbn in *; by subst.
  - intros t _. by apply barrier_woken_returns.
Qed.

(** The wait is not in a loop that looks at the barrier again: a spurious wake-up lets a caller
    through before the others have arrived. *)
Theorem spurious_wake_up_passes_barrier t count x :
  mutex x = mutex_init true -> barrier x = 0 -> cond x = [] -> 1 < count < 2 ^ 63 ->
  exists y, barrier_run count [Arrives t; Wakes t] x = Some ([t], y) /\ barrier y = 1 /\ cond y = [].
Proof.
  intros Hm Hb Hc Hn. cbn [barrier_run]. rewrite barrier_sleeps by (done || lia).
  unfold spurious_wakeup. cbn. rewrite Hc. cbn. rewrite bool_decide_true by set_solver.
  cbn [mbind option_bind]. rewrite barrier_woken_returns by done. cbn. rewrite Hb.
  eexists. split; [done|]. split; [done|]. cbn.
  destruct (decide_rel _ _ _) as [|Hne]; [done|]. destruct Hne. by left.
Qed.

(** Three threads, one of which wakes too early. *)
Lemma barrier_releases_together_witness :
  exists y, barrier_run 3 [Arrives 7; Arrives 8; Wakes 7] mutex_create = Some ([7], y) /\
    mutex_barrier 9 3 y = Done tt mutex_create /\ cond y = [8].
Proof.
  exists (set_cond [8] (set_barrier 2 mutex_create)).
  split; [reflexivity|]. split; [|reflexivity].
  assert (NoDup [7; 8]) as Hnd by (repeat (constructor; [set_solver|]); constructor).
  refine (proj1 (proj2 (proj2 (barrier_releases_together [Arrives 7; Arrives 8; Wakes 7] 9
    mutex_create [7] _ eq_refl eq_refl eq_refl Hnd eq_refl eq_refl)))).
Defined.

Lemma spurious_wake_up_passes_barrier_witness :
  exists y, barrier_run 3 [Arrives 7; Wakes 7] mutex_create = Some ([7], y) /\ barrier y = 1 /\
    cond y = [].
Proof. by apply (spurious_wake_up_passes_barrier 7 3 mutex_create). Defined.
