(* ===== verification/Flock.v ===== *)
(** * File locks ([src/flock.c]).

    The system calls are not part of the repository: the kernel's state and the three
    calls are the class [Posix], what POSIX says of them the class [PosixOk]. *)
From S2P Require Import Prelude.

#[local] Open Scope ipc_scope.

Definition ENOENT : Z := 2.
Definition EWOULDBLOCK : Z := 11.
Definition EACCES : Z := 13.

(** A call's result: a value, or [errno]. *)
Inductive sysret := Ok (v : Z) | Errno (e : Z).

Class Posix := {
  kernel : Type;
  (** [open(name, O_CLOEXEC | O_RDWR [| O_CREAT], 0600)]. *)
  sys_open : list byte -> bool -> kernel -> sysret * kernel;
  (** [flock(fd, LOCK_EX [| LOCK_NB])]; [None] when the call sleeps for ever. *)
  sys_flock_ex : Z -> bool -> kernel -> option (sysret * kernel);
  (** [flock(fd, LOCK_UN)] and [close(fd)]. *)
  sys_flock_un : Z -> kernel -> sysret * kernel;
  sys_close : Z -> kernel -> kernel;
  (** The open descriptors, and those that hold a lock. *)
  open_fds : kernel -> gset Z;
  locked_fds : kernel -> gset Z;
}.

Class PosixOk `(P : Posix) : Prop := {
  (** A new descriptor was not open; nothing changes on an error. *)
  open_ok name creat k fd k' : sys_open name creat k = (Ok fd, k') ->
    fd ∉ open_fds k /\ 0 <= fd /\ open_fds k' = {[fd]} ∪ open_fds k /\ locked_fds k' = locked_fds k;
  open_error name creat k e k' : sys_open name creat k = (Errno e, k') ->
    open_fds k' = open_fds k /\ locked_fds k' = locked_fds k;
  flock_ok fd nb k v k' : sys_flock_ex fd nb k = Some (Ok v, k') ->
    open_fds k' = open_fds k /\ locked_fds k' = {[fd]} ∪ locked_fds k;
  flock_error fd nb k e k' : sys_flock_ex fd nb k = Some (Errno e, k') ->
    open_fds k' = open_fds k /\ locked_fds k' = locked_fds k;
  unlock_ok fd k r k' : sys_flock_un fd k = (r, k') ->
    open_fds k' = open_fds k /\ locked_fds k' ⊆ locked_fds k;
  close_ok fd k :
    open_fds (sys_close fd k) = open_fds k ∖ {[fd]} /\
    locked_fds (sys_close fd k) = locked_fds k ∖ {[fd]};
}.

Section Flock.
Context `{P : Posix}.

(** Returns the descriptor boxed, or nothing. *)
Definition flock_open (file_name : list byte) (no_block : bool) : M kernel (option Z) := fun k =>
  match sys_open file_name (negb no_block) k with
  | (Errno e, k1) =>
      if (e =? ENOENT) || (e =? EACCES) then Done None k1 else Raised (ErrCode e) k1
  | (Ok fd, k1) =>
      match sys_flock_ex fd no_block k1 with
      | None => Blocked k1
      | Some (Errno e, k2) =>
          let k3 := sys_close fd k2 in
          if no_block && (e =? EWOULDBLOCK) then Done None k3 else Raised (ErrCode e) k3
      | Some (Ok _, k2) => Done (Some fd) k2
      end
  end.

(** [__gc] and [close]: the state is the descriptor boxed, with the kernel's. *)
Definition flock_close : M (Z * kernel) unit := fun s =>
  let fd := s.1 in
  if negb (fd =? 0) then
    let '(ret, k1) := sys_flock_un fd s.2 in
    let k2 := sys_close fd k1 in
    match ret with
    | Errno e => Raised (ErrCode e) (0, k2)
    | Ok _ => Done tt (0, k2)
    end
  else Done tt s.
End Flock.

(** ** A kernel, for evaluation: files by number of descriptors, one lock per file *)

Module RefPosix.
(** Open descriptors with their file, the file locked by each, files that exist. *)
Record state := mk_k { fds : gmap Z (list byte); locks : gmap Z (list byte); files : list (list byte) }.

Definition fresh_fd (k : state) : Z := 1 + foldr Z.max 2 (map_to_list (fds k)).*1.

Definition open (name : list byte) (creat : bool) (k : state) : sysret * state :=
  if creat || bool_decide (name ∈ files k) then
    let fd := fresh_fd k in
    (Ok fd, mk_k (<[fd := name]> (fds k)) (locks k) (name :: files k))
  else (Errno ENOENT, k).

Definition held_by_other (fd : Z) (name : list byte) (k : state) : bool :=
  existsb (fun e => bool_decide (e.1 <> fd /\ e.2 = name)) (map_to_list (locks k)).

Definition flock_ex (fd : Z) (nb : bool) (k : state) : option (sysret * state) :=
  match fds k !! fd with
  | None => Some (Errno EINVAL, k)
  | Some name =>
      if held_by_other fd name k then if nb then Some (Errno EWOULDBLOCK, k) else None
      else Some (Ok 0, mk_k (fds k) (<[fd := name]> (locks k)) (files k))
  end.

Definition api : Posix := {|
  kernel := state;
  sys_open := open;
  sys_flock_ex := flock_ex;
  sys_flock_un fd k := (Ok 0, mk_k (fds k) (delete fd (locks k)) (files k));
  sys_close fd k := mk_k (delete fd (fds k)) (delete fd (locks k)) (files k);
  open_fds k := dom (fds k);
  locked_fds k := dom (locks k);
|}.

Lemma fresh_fd_spec k : fresh_fd k ∉ dom (fds k) /\ 3 <= fresh_fd k.
Proof.
  assert (forall l : list Z, 2 <= foldr Z.max 2 l /\ forall x, x ∈ l -> x <= foldr Z.max 2 l) as H.
  { induction l as [|y l [IH1 IH2]]; cbn; [split; [lia|]; intros x Hx; by inversion Hx|].
    split; [lia|]. intros x [->|Hx]%elem_of_cons; [lia|]. specialize (IH2 x Hx). lia. }
  destruct (H (map_to_list (fds k)).*1) as [H1 H2]. unfold fresh_fd. split; [|lia].
  intros [name Hn]%elem_of_dom. set (fd := 1 + _) in Hn.
  assert (fd ∈ (map_to_list (fds k)).*1) as Hin.
  { apply list_elem_of_fmap. exists (fd, name). split; [done|]. by apply elem_of_map_to_list. }
  specialize (H2 fd Hin). subst fd. lia.
Qed.

#[export] Instance api_ok : PosixOk api.
Proof.
  split; cbn.
  - intros name creat k fd k'. unfold open. destruct (creat || _); [|done].
    intros [= <- <-]. cbn. destruct (fresh_fd_spec k). rewrite dom_insert_L. split; [done|].
    split; [lia|done].
  - intros name creat k e k'. unfold open. destruct (creat || _); [done|]. by intros [= <- <-].
  - intros fd nb k v k'. unfold flock_ex. destruct (fds k !! fd); [|done].
    destruct (held_by_other _ _ _); [by destruct nb|]. intros [= <- <-]. cbn.
    by rewrite dom_insert_L.
  - intros fd nb k e k'. unfold flock_ex. destruct (fds k !! fd) as [name|].
    + destruct (held_by_other _ _ _); [|done]. destruct nb; [|done]. by intros [= <- <-].
    + by intros [= <- <-].
  - intros fd k r k' [= <- <-]. cbn. split; [done|]. rewrite dom_delete_L. set_solver.
  - intros fd k. by rewrite !dom_delete_L.
Qed.
End RefPosix.

(** ** Theorems *)

Section Theorems.
Context `{P : Posix} {Pok : PosixOk P}.

(** C39: [flock_open] leaks no descriptor.  When it returns a lock, exactly that
    descriptor is open and locked more than before; when it returns nothing or raises,
    the descriptors open and locked are those of before. *)
Theorem flock_open_leaks_nothing file_name no_block k :
  locked_fds k ⊆ open_fds k ->
  match flock_open file_name no_block k with
  | Done (Some fd) k' =>
      fd ∉ open_fds k /\ open_fds k' = {[fd]} ∪ open_fds k /\
      locked_fds k' = {[fd]} ∪ locked_fds k
  | Done None k' | Raised _ k' => open_fds k' = open_fds k /\ locked_fds k' = locked_fds k
  | Blocked k' => locked_fds k' = locked_fds k
  | Undef | NoFuel => False
  end.
Proof.
  intros Hlo. unfold flock_open. destruct (sys_open _ _ k) as [[fd|e] k1] eqn:Eo.
  - destruct (open_ok _ _ _ _ _ Eo) as (Hfd & _ & Ho1 & Hl1).
    destruct (sys_flock_ex fd no_block k1) as [[[v|e] k2]|] eqn:Ef; [| |done].
    + destruct (flock_ok _ _ _ _ _ Ef) as [-> ->]. by rewrite Ho1, Hl1.
    + destruct (flock_error _ _ _ _ _ Ef) as [Ho2 Hl2]. destruct (close_ok fd k2) as [Ho3 Hl3].
      rewrite Ho2, Ho1 in Ho3. rewrite Hl2, Hl1 in Hl3.
      destruct (no_block && _); rewrite Ho3, Hl3; set_solver.
  - destruct (open_error _ _ _ _ _ Eo). by destruct ((e =? ENOENT) || _).
Qed.

(** Closing releases the lock and the descriptor, and closing again does
    nothing. *)
Theorem flock_close_idempotent fd k :
  fd <> 0 ->
  exists k', match flock_close (fd, k) with
    | Done _ s | Raised _ s => s = (0, k')
    | _ => False
    end /\
    open_fds k' = open_fds k ∖ {[fd]} /\ fd ∉ locked_fds k' /\
    flock_close (0, k') = Done tt (0, k').
Proof.
  intros Hfd. unfold flock_close. cbn. rewrite (proj2 (Z.eqb_neq fd 0)) by done. cbn.
  destruct (sys_flock_un fd k) as [r k1] eqn:Eu. destruct (unlock_ok _ _ _ _ Eu) as [Ho Hl].
  destruct (close_ok fd k1) as [Ho2 Hl2]. exists (sys_close fd k1).
  split; [by destruct r|]. rewrite Ho2, Hl2, Ho. set_solver.
Qed.
End Theorems.

Section Runs.
#[local] Existing Instance RefPosix.api.
#[local] Existing Instance RefPosix.api_ok.

Definition sample_kernel : kernel :=
  RefPosix.mk_k {[3 := str "a"]} {[3 := str "a"]} [str "a"].

(** The lock is taken by another descriptor: nothing is returned. *)
Lemma flock_open_leaks_nothing_witness :
  exists k', flock_open (str "a") true sample_kernel = Done None k' /\
    open_fds k' = open_fds sample_kernel /\
    locked_fds k' = locked_fds sample_kernel.
Proof.
  pose proof (flock_open_leaks_nothing (str "a") true sample_kernel ltac:(done)) as H.
  eexists. split; [vm_compute; reflexivity | exact H].
Defined.

Lemma flock_close_idempotent_witness :
  exists k', match flock_close (3, sample_kernel) with
    | Done _ s | Raised _ s => s = (0, k')
    | _ => False
    end /\
    open_fds k' = open_fds sample_kernel ∖ {[3]} /\ 3 ∉ locked_fds k' /\
    flock_close (0, k') = Done tt (0, k').
Proof. by apply (flock_close_idempotent 3 sample_kernel). Defined.
End Runs.
