(* ===== verification/Net.v ===== *)
(** * Stream sockets, as far as [src/cliser.c] uses them.

    The sockets are the operating system's.  [Sockets] has the calls, [SocketsOk]
    what POSIX documents of them on connected stream sockets: bytes arrive once
    and in order, but a call may move fewer bytes than asked.  A blocking call that has to wait
    for what is on its way, [send] for room in the buffers of the connection and [recv] for bytes
    the other end has sent, is described by how it ends; [recv] with nothing on its way sleeps.
    So a sequence of calls that send more than the buffers take is one in which the other end
    receives meanwhile.  A call that does not block, [recv] with [MSG_DONTWAIT], sees what
    has arrived, any part of what was sent.  The laws are for a connection that is up; what the
    code does when it breaks is stated on the calls themselves ([Cliser.recv_at_eof_diverges],
    [Cliser.failed_recv_reads_uninitialised]).  [RefNet] at the end is a network that moves a
    few bytes at a time. *)
From S2P Require Import Prelude.

Class Sockets := {
  net : Type;
  (** [send(sock, ptr, n, 0)]: the return value and the network after it. *)
  sys_send : Z -> list byte -> net -> Z * net;
  (** [recv(sock, ptr, n, 0)]: the return value and the bytes stored at [ptr];
      [None] while the caller sleeps. *)
  sys_recv : Z -> Z -> net -> option (Z * list byte * net);
  (** The same with [MSG_PEEK | MSG_DONTWAIT]. *)
  sys_peek : Z -> Z -> net -> Z * list byte;
  (** [close(sock)]: 0 or -1. *)
  sys_close : Z -> net -> Z * net;
  (** [errno] after a call that failed. *)
  sys_errno : net -> Z;
}.

(** [errno] of a call that would have to wait (Linux: the same as
    [EWOULDBLOCK]). *)
Definition EAGAIN : Z := 11.

(** Connections: the other end of each socket, and the bytes sent to a socket
    and not received yet. *)
Class SocketsOk `(S : Sockets) := {
  peer : Z -> Z;
  unread : net -> Z -> list byte;
  (** The socket is open and so is its other end. *)
  connected : net -> Z -> Prop;
  send_moves n s bs : connected n s -> bs <> [] ->
    exists r n', sys_send s bs n = (r, n') /\ 0 < r <= zlen bs /\
      (forall s', unread n' s' =
         if decide (s' = peer s) then unread n s' ++ ztake r bs else unread n s') /\
      (forall s', connected n s' -> connected n' s');
  recv_moves n s k : connected n s -> 0 < k -> unread n s <> [] ->
    exists r n', sys_recv s k n = Some (r, ztake r (unread n s), n') /\
      0 < r <= k /\ r <= zlen (unread n s) /\
      (forall s', unread n' s' =
         if decide (s' = s) then zdrop r (unread n s) else unread n s') /\
      (forall s', connected n s' -> connected n' s');
  recv_sleeps n s k : connected n s -> 0 < k -> unread n s = [] -> sys_recv s k n = None;
  peek_sees n s k : connected n s -> 0 < k ->
    ((sys_peek s k n).1 < 0 /\ sys_errno n = EAGAIN) \/
    exists r, sys_peek s k n = (r, ztake r (unread n s)) /\
      0 < r <= k /\ r <= zlen (unread n s);
}.

(** A network on which what was sent has arrived whenever one looks. *)
Definition arrives_at_once `{S : Sockets} {Sok : SocketsOk S} : Prop :=
  forall n s k, connected n s -> 0 < k -> unread n s <> [] ->
    sys_peek s k n = (Z.min k (zlen (unread n s)), ztake k (unread n s)).

(** ** A network that moves at most [out] bytes per [send] and [inp] per [recv], and of which a
    peek sees at most [seen] bytes *)

Module RefNet.

(** The bytes on their way to each socket, the sockets that were closed, and the number of
    connections accepted; the sockets [2 i] and [2 i + 1] are connected. *)
Record state := mk_net { wires : gmap Z (list byte); shut : gset Z; accepted : Z }.

Definition wire (n : state) (s : Z) : list byte := default [] (wires n !! s).
Definition other (s : Z) : Z := Z.lxor s 1.

Definition send (out : Z) (s : Z) (bs : list byte) (n : state) : Z * state :=
  if bool_decide (s ∈ shut n \/ other s ∈ shut n) then (-1, n) else
  let r := Z.min out (zlen bs) in
  (r, mk_net (<[other s := wire n (other s) ++ ztake r bs]> (wires n)) (shut n) (accepted n)).

Definition recv (inp : Z) (s k : Z) (n : state) : option (Z * list byte * state) :=
  match wire n s with
  | [] => if bool_decide (other s ∈ shut n) then Some (0, [], n) else None
  | w => let r := Z.min inp (Z.min k (zlen w)) in
         Some (r, ztake r w, mk_net (<[s := zdrop r w]> (wires n)) (shut n) (accepted n))
  end.

Definition peek (seen : option Z) (s k : Z) (n : state) : Z * list byte :=
  match wire n s with
  | [] => (if bool_decide (other s ∈ shut n) then 0 else -1, [])
  | w => let r := Z.min k (zlen w) in
         let r := match seen with Some m => Z.min m r | None => r end in (r, ztake r w)
  end.

Definition close (s : Z) (n : state) : Z * state :=
  (0, mk_net (wires n) ({[s]} ∪ shut n) (accepted n)).

Definition sockets_seen (seen : option Z) (out inp : Z) : Sockets := {|
  net := state;
  sys_send := send out;
  sys_recv := recv inp;
  sys_peek := peek seen;
  sys_close := close;
  sys_errno _ := EAGAIN;
|}.

Definition sockets : Z -> Z -> Sockets := sockets_seen None.

Definition fresh : state := mk_net ∅ ∅ 0.

Definition up (n : state) (s : Z) : Prop := (s ∉ shut n) /\ (other s ∉ shut n).

Lemma wire_insert n s w s' :
  wire (mk_net (<[s := w]> (wires n)) (shut n) (accepted n)) s' = if decide (s' = s) then w else wire n s'.
Proof.
  unfold wire. cbn [wires]. case_decide as E; [subst; by rewrite lookup_insert_eq|].
  by rewrite lookup_insert_ne by congruence.
Qed.

#[export, program] Instance sockets_seen_ok seen out inp :
  from_option (Z.lt 0) True seen -> 0 < out -> 0 < inp ->
  SocketsOk (sockets_seen seen out inp) := fun Hs Ho Hi => {|
  peer := other : Z -> Z;
  unread := (wire : @net (sockets_seen seen out inp) -> Z -> list byte);
  connected := up;
|}.
Next Obligation.
  intros seen out inp Hse Ho Hi n s bs [Hs Hp] Hne. cbn [sys_send sockets_seen]. unfold send.
  rewrite bool_decide_eq_false_2 by tauto. destruct bs as [|b bs]; [done|].
  pose proof (zlen_nonneg bs). rewrite zlen_cons.
  eexists _, _. split; [reflexivity|]. split; [lia|]. split; [|done].
  intros s'. rewrite wire_insert. by case_decide; subst.
Qed.
Next Obligation.
  intros seen out inp Hse Ho Hi n s k [Hs Hp] Hk Hne. cbn [sys_recv sockets_seen]. unfold recv.
  destruct (wire n s) as [|b w] eqn:E; [done|]. pose proof (zlen_nonneg w). rewrite zlen_cons.
  eexists _, _. split; [reflexivity|]. split; [lia|]. split; [lia|]. split; [|done].
  intros s'. by rewrite wire_insert.
Qed.
Next Obligation.
  intros seen out inp Hse Ho Hi n s k [Hs Hp] Hk E. cbn [sys_recv sockets_seen]. unfold recv. rewrite E.
  by rewrite bool_decide_eq_false_2.
Qed.
Next Obligation.
  intros seen out inp Hse Ho Hi n s k [Hs Hp] Hk. cbn [sys_peek sys_errno sockets_seen]. unfold peek.
  destruct (wire n s) as [|b w]; [left; by rewrite bool_decide_eq_false_2|]. right.
  pose proof (zlen_nonneg w). rewrite zlen_cons. destruct seen as [m|]; cbn in Hse;
    (eexists; split; [reflexivity | lia]).
Qed.

#[export] Instance sockets_ok out inp : 0 < out -> 0 < inp -> SocketsOk (sockets out inp) :=
  sockets_seen_ok None out inp I.

Lemma sockets_arrive out inp Ho Hi : arrives_at_once (S := sockets out inp) (Sok := sockets_ok out inp Ho Hi).
Proof.
  intros n s k _ Hk Hu. cbn [sys_peek sockets sockets_seen unread sockets_ok sockets_seen_ok] in *.
  unfold peek. destruct (wire n s) as [|b w]; [done|]. f_equal.
  destruct (Z.min_spec k (zlen (b :: w))) as [[? ->] | [? ->]]; [done|].
  rewrite !ztake_all; done || lia.
Qed.
End RefNet.
