(* ===== verification/Cliser.v ===== *)
(** * Messages over sockets ([src/cliser.c]).

    A message is the 64-bit length of a saved value and then its bytes.  This
    file has the transfer functions and the methods of a connected client; the
    server's list of clients is in [Server], the transfer of tensors in
    [Tensor].  The clock readings ([*_seconds]) are left out of the statistics. *)
From S2P Require Import Prelude RingBuffer Lua Serialize Growth Roundtrip Net.

#[local] Open Scope ipc_scope.

Definition SEND_RECV_SIZE : Z := 16 * 1024.
Definition LEN_INVALID : Z := 2 ^ 64 - 1.

Record net_stats_t := mk_ns {
  num_bytes : Z;
  num_regions : Z;
  num_calls : Z;
  num_system_calls : Z;
  cuda_ipc_bytes : Z;
}.

Record copy_context_t := mk_cc { tx : net_stats_t; rx : net_stats_t; use_fastpath : Z }.

Definition set_tx (f : net_stats_t -> net_stats_t) (c : copy_context_t) : copy_context_t :=
  mk_cc (f (tx c)) (rx c) (use_fastpath c).
Definition set_rx (f : net_stats_t -> net_stats_t) (c : copy_context_t) : copy_context_t :=
  mk_cc (tx c) (f (rx c)) (use_fastpath c).

(** [num_system_calls++], [num_bytes += n], [num_calls++] on [uint64_t]. *)
Definition count_system_call (n : net_stats_t) : net_stats_t :=
  mk_ns (num_bytes n) (num_regions n) (num_calls n) (size_add (num_system_calls n) 1)
    (cuda_ipc_bytes n).
Definition count_bytes (k : Z) (n : net_stats_t) : net_stats_t :=
  mk_ns (size_add (num_bytes n) k) (num_regions n) (num_calls n) (num_system_calls n)
    (cuda_ipc_bytes n).
Definition count_call (n : net_stats_t) : net_stats_t :=
  mk_ns (num_bytes n) (num_regions n) (size_add (num_calls n) 1) (num_system_calls n)
    (cuda_ipc_bytes n).

Definition no_stats : net_stats_t := mk_ns 0 0 0 0 0.

(** Assigning a [size_t] to an [int]. *)
Definition int_of_size (n : Z) : Z :=
  let m := n mod 2 ^ 32 in if m <? 2 ^ 31 then m else m - 2 ^ 32.
(** Converting an [int] to [size_t]. *)
Definition size_of_int (n : Z) : Z := n mod SIZE_MOD.

Definition str_send_count : list byte := str "failed to send the correct number of bytes".
Definition str_recv_count : list byte := str "failed to recv the correct number of bytes".
Definition str_disconnected : list byte := str "remote peer disconnected" ++ [Byte.x0a].
Definition str_too_large : list byte := str "message size is too large".
Definition str_write_count : list byte :=
  str "failed to write the correct number of bytes into the ringbuffer".
Definition str_no_write : list byte :=
  str "could not find _cliser_write function in metatable".
Definition str_no_read : list byte :=
  str "could not find _cliser_read function in metatable".

Section Transfer.
Context `{SK : Sockets}.

(** What the transfer functions work on: the network and the [copy_context]. *)
Definition io : Type := net * copy_context_t.

(** The [send] call with its accounting. *)
Definition do_send (sock : Z) (bs : list byte) : M io Z := fun s =>
  let '(ret, n') := sys_send sock bs s.1 in Done ret (n', set_tx count_system_call s.2).

Definition do_recv (sock len : Z) : M io (Z * list byte) := fun s =>
  match sys_recv sock len s.1 with
  | None => Blocked s
  | Some (ret, bs, n') => Done (ret, bs) (n', set_rx count_system_call s.2)
  end.

(** [ptr] is the bytes left to send: [rem] is their number.  A call that moved more
    bytes than it was given would leave the object. *)
Fixpoint sock_send_loop (fuel : nat) (sock : Z) (ptr : list byte) (len : Z) : M io Z :=
  if 0 <? zlen ptr then
    match fuel with
    | O => out_of_fuel
    | S fuel' =>
        let! ret := do_send sock ptr in
        if ret <? 0 then mret 0 else
        if zlen ptr <? ret then undef else
        modify_st (fun s => (s.1, set_tx (count_bytes ret) s.2)) ;;;
        sock_send_loop fuel' sock (zdrop ret ptr) len
    end
  else mret len.

Definition sock_send (fuel : nat) (sock : Z) (ptr : list byte) : M io Z :=
  sock_send_loop fuel sock ptr (zlen ptr).

(** [out] is the memory received into, from position [pos] on. *)
Fixpoint sock_recv_loop (fuel : nat) (sock : Z) (out : list cell) (pos rem len : Z)
  : M io (Z * list cell) :=
  if 0 <? rem then
    match fuel with
    | O => out_of_fuel
    | S fuel' =>
        let! (ret, bs) := do_recv sock rem in
        if ret <? 0 then mret (0, out) else
        let! out' := of_opt (memcpy out pos (Some <$> bs) 0 ret) in
        modify_st (fun s => (s.1, set_rx (count_bytes ret) s.2)) ;;;
        sock_recv_loop fuel' sock out' (pos + ret) (size_sub rem ret) len
    end
  else mret (len, out).

Definition sock_recv (fuel : nat) (sock : Z) (out : list cell) (pos len : Z)
  : M io (Z * list cell) :=
  sock_recv_loop fuel sock out pos len len.

Definition errno_error {A} : M io A := fun s => Raised (ErrCode (sys_errno s.1)) s.

(** What the callers do with the [size_t] count, stored in an [int]. *)
Definition check_count (count len : Z) (msg : list byte) : M io unit :=
  let ret := int_of_size count in
  if ret <? 0 then errno_error else
  if negb (size_of_int ret =? len) then raise (ErrStr msg) else mret tt.

Definition sock_send_raw (fuel : nat) (sock : Z) (ptr : list byte) : M io unit :=
  let! n := sock_send fuel sock ptr in check_count n (zlen ptr) str_send_count.

Definition sock_recv_raw (fuel : nat) (sock : Z) (out : list cell) (pos len : Z)
  : M io (list cell) :=
  let! (n, out') := sock_recv fuel sock out pos len in
  check_count n len str_recv_count ;;; mret out'.

(** ** Messages *)

(** A ring buffer beside the network; [rb_save] logs the pointers it retains. *)
Definition msg_st : Type := io * save_state.
Definition on_io {A} : M io A -> M msg_st A := zoom fst (fun i s => (i, s.2)).
Definition on_save {A} : M save_state A -> M msg_st A := zoom snd (fun v s => (s.1, v)).
Definition get_rb : M msg_st ringbuffer_t := fun s => Done (sv_rb s.2) s.
Definition set_rb (rb : ringbuffer_t) : M msg_st unit :=
  modify_st (fun s => (s.1, mk_sv rb (sv_retained s.2))).

Context `{L : LuaApi}.

(** The buffer's first [len] bytes, all of which must have been written. *)
Definition buf_bytes (len : Z) (rb : ringbuffer_t) : option (list byte) :=
  if len <=? zlen (buf rb) then mapM id (ztake len (ringbuffer_buf_ptr rb)) else None.

Definition sock_send_msg (fuel : nat) (v : lua_value) (sock : Z) : M msg_st unit :=
  on_save rb_push ;;;
  let! ret := on_save (rb_save 1 0 v) in
  if negb (ret =? 0) then raise (ErrCode ret) else
  let! rb := get_rb in
  let len := ringbuffer_peek rb in
  on_save rb_pop ;;;
  let! n := on_io (sock_send fuel sock (size_bytes len)) in
  on_io (check_count n 8 str_send_count) ;;;
  let! rb := get_rb in
  let! bs := of_opt (buf_bytes len rb) in
  let! n := on_io (sock_send fuel sock bs) in
  on_io (check_count n len str_send_count).

(** [len] is a local nobody wrote when the first receive fails: comparing it is
    undefined. *)
Definition sock_recv_msg (fuel : nat) (sock : Z) : M msg_st load_ret :=
  let! (n, lenb) := on_io (sock_recv fuel sock (uninit 8) 0 8) in
  let! lbs := of_opt (mapM id lenb) in
  let len := le_combine lbs in
  if len =? LEN_INVALID then raise (ErrStr str_disconnected) else
  on_io (check_count n 8 str_recv_count) ;;;
  if SEND_RECV_SIZE <? len then raise (ErrStr str_too_large) else
  let! rb := get_rb in
  let! (n, b') := on_io (sock_recv fuel sock (ringbuffer_buf_ptr rb) 0 len) in
  set_rb (mk_rb b' (cb rb) (rp rb) (wp rb) (rcb rb) (saved_wp rb) (saved_rcb rb)) ;;;
  on_io (check_count n len str_recv_count) ;;;
  let! rb := get_rb in
  let rb := ringbuffer_push_write_pos (ringbuffer_reset_read_pos rb) in
  let! (k, rb) := of_opt (ringbuffer_write rb None n) in
  set_rb rb ;;;
  if negb (k =? n) then
    set_rb (ringbuffer_pop_write_pos rb) ;;; raise (ErrStr str_write_count)
  else
  let! ret := on_save (zoom sv_rb (fun rb s => mk_sv rb (sv_retained s)) rb_load) in
  match ret with LdErr code => raise (ErrCode code) | r => mret r end.

(** The count of bytes seen, 0 when there is not a message yet.  The second peek
    starts at the length again. *)
Definition sock_recv_msg_peek (sock : Z) : M msg_st Z :=
  let! s := get_st in
  let '(ret, lbs) := sys_peek sock 8 s.1.1 in
  let errno := sys_errno s.1.1 in
  if ret <? 0 then (if errno =? EAGAIN then mret 0 else raise (ErrCode errno)) else
  if negb (ret =? 8) then mret 0 else
  let len := le_combine lbs in
  if SEND_RECV_SIZE <? len then raise (ErrStr str_too_large) else
  let '(ret, bs) := sys_peek sock len s.1.1 in
  if ret <? 0 then (if errno =? EAGAIN then mret 0 else raise (ErrCode errno)) else
  let! rb := get_rb in
  let! b' := of_opt (memcpy (ringbuffer_buf_ptr rb) 0 (Some <$> bs) 0 ret) in
  set_rb (mk_rb b' (cb rb) (rp rb) (wp rb) (rcb rb) (saved_wp rb) (saved_rcb rb)) ;;;
  if negb (ret =? len) then mret 0 else mret ret.
End Transfer.

(** ** The methods of a connected client *)

(** [client_t]; [next] and [prev] are the links of the server's list. *)
Record client_t := mk_client {
  sock : Z;
  next : option Z;
  prev : option Z;
  send_rb : ringbuffer_t;
  recv_rb : ringbuffer_t;
  copy_context : copy_context_t;
  tag : option (list byte);
  client_id : Z;
  ref_count : Z;
}.

Definition set_sock (x : Z) (c : client_t) : client_t :=
  mk_client x (next c) (prev c) (send_rb c) (recv_rb c) (copy_context c) (tag c) (client_id c)
    (ref_count c).
Definition set_send_rb (x : ringbuffer_t) (c : client_t) : client_t :=
  mk_client (sock c) (next c) (prev c) x (recv_rb c) (copy_context c) (tag c) (client_id c)
    (ref_count c).
Definition set_recv_rb (x : ringbuffer_t) (c : client_t) : client_t :=
  mk_client (sock c) (next c) (prev c) (send_rb c) x (copy_context c) (tag c) (client_id c)
    (ref_count c).
Definition set_copy_context (x : copy_context_t) (c : client_t) : client_t :=
  mk_client (sock c) (next c) (prev c) (send_rb c) (recv_rb c) x (tag c) (client_id c)
    (ref_count c).

(** What [cliser_client] boxes once it is connected; built without CUDA there is no
    fast path. *)
Definition client_connected (s : Z) : client_t :=
  mk_client s None None (ringbuffer_create SEND_RECV_SIZE) (ringbuffer_create SEND_RECV_SIZE)
    (mk_cc no_stats no_stats 0) None 0 1.

Section Client.
Context `{SK : Sockets} `{L : LuaApi}.

(** The network, the client, and the log of retained pointers. *)
Record cl_st := mk_cl { cl_net : net; cl_client : client_t; cl_log : list Z }.

(** The [_cliser_write] and [_cliser_read] fields of a userdata's metatable, called on
    it with the socket and the [copy_context]. *)
Context (cliser_write cliser_read : lua_value -> option (Z -> M io unit)).

Definition sock_send_userdata (v : lua_value) (sock : Z) : M io unit :=
  match cliser_write v with None => raise (ErrStr str_no_write) | Some f => f sock end.

Definition sock_recv_userdata (v : lua_value) (sock : Z) : M io unit :=
  match cliser_read v with None => raise (ErrStr str_no_read) | Some f => f sock end.

Definition is_userdata (v : lua_value) : bool := lua_type v =? LUA_TUSERDATA.

(** The parts of the client a transfer works on. *)
Definition on_ctx {A} : M io A -> M cl_st A :=
  zoom (fun s => (cl_net s, copy_context (cl_client s)))
       (fun i s => mk_cl i.1 (set_copy_context i.2 (cl_client s)) (cl_log s)).
Definition on_send {A} : M msg_st A -> M cl_st A :=
  zoom (fun s => ((cl_net s, copy_context (cl_client s)),
                  mk_sv (send_rb (cl_client s)) (cl_log s)))
       (fun m s => mk_cl m.1.1 (set_send_rb (sv_rb m.2)
                     (set_copy_context m.1.2 (cl_client s))) (sv_retained m.2)).
Definition on_recv {A} : M msg_st A -> M cl_st A :=
  zoom (fun s => ((cl_net s, copy_context (cl_client s)),
                  mk_sv (recv_rb (cl_client s)) (cl_log s)))
       (fun m s => mk_cl m.1.1 (set_recv_rb (sv_rb m.2)
                     (set_copy_context m.1.2 (cl_client s))) (sv_retained m.2)).

Definition cliser_client_send (fuel : nat) (v : lua_value) : M cl_st unit :=
  let! s := get_st in
  let fd := sock (cl_client s) in
  (if is_userdata v then on_ctx (sock_send_userdata v fd)
   else on_send (sock_send_msg fuel v fd)) ;;;
  on_ctx (modify_st (fun i => (i.1, set_tx count_call i.2))).

(** [arg] is the optional argument: a userdata is received in place and returned. *)
Definition cliser_client_recv (fuel : nat) (arg : lua_value) : M cl_st load_ret :=
  let! s := get_st in
  let fd := sock (cl_client s) in
  let! r := (if is_userdata arg then on_ctx (sock_recv_userdata arg fd) ;;; mret (LdVal arg)
             else on_recv (sock_recv_msg fuel fd)) in
  on_ctx (modify_st (fun i => (i.1, set_rx count_call i.2))) ;;;
  mret r.

(** [LdEnd] when there is nothing to return. *)
Definition cliser_client_recv_async (fuel : nat) : M cl_st load_ret :=
  let! s := get_st in
  let fd := sock (cl_client s) in
  let! ret := on_recv (sock_recv_msg_peek fd) in
  let! r := (if 0 <? ret then on_recv (sock_recv_msg fuel fd) else mret LdEnd) in
  on_ctx (modify_st (fun i => (i.1, set_rx count_call i.2))) ;;;
  mret r.
End Client.

(** ** What the transfers do *)

Section TransferSpec.
Context `{SK : Sockets} {SKok : SocketsOk SK}.

(** [n'] is [n] after [bs] was sent from socket [s], or [k] bytes received at it. *)
Definition sent (n : net) (s : Z) (bs : list byte) (n' : net) : Prop :=
  (forall s', unread n' s' =
     if decide (s' = peer s) then unread n s' ++ bs else unread n s') /\
  (forall s', connected n s' -> connected n' s').

Definition received (n : net) (s k : Z) (n' : net) : Prop :=
  (forall s', unread n' s' = if decide (s' = s) then zdrop k (unread n s) else unread n s') /\
  (forall s', connected n s' -> connected n' s').

Lemma sent_nil n s : sent n s [] n.
Proof. split; [|done]. intros s'. rewrite app_nil_r. by case_decide. Qed.

Lemma sent_app n s b1 n1 b2 n2 : sent n s b1 n1 -> sent n1 s b2 n2 -> sent n s (b1 ++ b2) n2.
Proof.
  intros [U1 C1] [U2 C2]. split; [|auto]. intros s'. rewrite U2, U1.
  by case_decide; rewrite ?app_assoc.
Qed.

Lemma received_0 n s : received n s 0 n.
Proof. split; [|done]. intros s'. by case_decide; subst. Qed.

Lemma received_add n s k1 n1 k2 n2 : 0 <= k1 -> 0 <= k2 ->
  received n s k1 n1 -> received n1 s k2 n2 -> received n s (k1 + k2) n2.
Proof.
  intros ? ? [U1 C1] [U2 C2]. split; [|auto]. intros s'. rewrite U2, !U1.
  case_decide; [|done]. rewrite decide_True by done.
  unfold zdrop. rewrite drop_drop. f_equal. lia.
Qed.

(** What the accounting of a transfer adds to one direction. *)
Definition counted (k : Z) (a b : net_stats_t) : Prop :=
  num_bytes b = size_add (num_bytes a) k /\ num_calls b = num_calls a.

Lemma counted_call k a : counted k a (count_bytes k (count_system_call a)).
Proof. done. Qed.

Lemma counted_add k1 k2 a b c : counted k1 a b -> counted k2 b c -> counted (k1 + k2) a c.
Proof.
  intros [H1 E1] [H2 E2]. split; [|congruence]. rewrite H2, H1. unfold size_add, SIZE_MOD.
  rewrite Zplus_mod_idemp_l. f_equal. lia.
Qed.

Definition counted_tx (k : Z) (a b : copy_context_t) : Prop :=
  counted k (tx a) (tx b) /\ rx b = rx a /\ use_fastpath b = use_fastpath a.
Definition counted_rx (k : Z) (a b : copy_context_t) : Prop :=
  counted k (rx a) (rx b) /\ tx b = tx a /\ use_fastpath b = use_fastpath a.

(** A byte count is below [2^64] after the first call. *)
Definition counts_ok (c : copy_context_t) : Prop :=
  0 <= num_bytes (tx c) < SIZE_MOD /\ 0 <= num_bytes (rx c) < SIZE_MOD.

Lemma counted_0 a : 0 <= num_bytes a < SIZE_MOD -> counted 0 a a.
Proof. intros. split; [|done]. unfold size_add. rewrite Z.add_0_r. by rewrite Z.mod_small. Qed.

Lemma sock_send_loop_spec fuel : forall s bs len n c,
  connected n s -> counts_ok c -> (length bs <= fuel)%nat ->
  exists n' c', sock_send_loop fuel s bs len (n, c) = Done len (n', c') /\
    sent n s bs n' /\ counted_tx (zlen bs) c c' /\ counts_ok c'.
Proof.
  induction fuel as [|fuel IH]; intros s bs len n c Hc Hk Hf;
    (destruct (decide (bs = [])) as [->|Hne];
     [exists n, c; split; [done|]; split; [apply sent_nil|];
      split; [split; [apply counted_0, Hk | done] | done] |]).
  { destruct bs; [done | simpl in Hf; lia]. }
  assert (0 < zlen bs) as Hl by (destruct bs; [done|]; unfold zlen; simpl; lia).
  destruct (send_moves n s bs Hc Hne) as (r & n1 & E & Hr & Hs).
  cbn [sock_send_loop]. rewrite (proj2 (Z.ltb_lt _ _) Hl).
  unfold mbnd, do_send, modify_st. cbn [fst snd]. rewrite E.
  rewrite (proj2 (Z.ltb_ge r 0)), (proj2 (Z.ltb_ge (zlen bs) r)) by lia.
  set (c1 := set_tx (count_bytes r) (set_tx count_system_call c)).
  assert (counted_tx r c c1) as Hc1 by (split; [apply counted_call | done]).
  destruct (IH s (zdrop r bs) len n1 c1) as (n' & c' & E' & Hs' & Hc' & Hk').
  - by apply (proj2 Hs).
  - split; [|apply Hk]. cbn. by apply Z.mod_pos_bound.
  - unfold zdrop, zlen in *. rewrite length_drop. lia.
  - exists n', c'. split; [exact E'|]. split; [|split; [|done]].
    + rewrite <- (ztake_zdrop r bs). by eapply sent_app.
    + destruct Hc1 as (A1 & A2 & A3), Hc' as (B1 & B2 & B3).
      split; [|split; congruence]. rewrite zlen_zdrop in B1 by lia.
      replace (zlen bs) with (r + (zlen bs - r)) by lia. by eapply counted_add.
Qed.

Lemma sock_recv_loop_spec fuel : forall s out pos bs rest len n c,
  connected n s -> counts_ok c -> (length bs <= fuel)%nat -> zlen bs < SIZE_MOD ->
  unread n s = bs ++ rest -> 0 <= pos -> pos + zlen bs <= zlen out ->
  exists n' c', sock_recv_loop fuel s out pos (zlen bs) len (n, c)
      = Done (len, store out pos bs) (n', c') /\
    received n s (zlen bs) n' /\ counted_rx (zlen bs) c c' /\ counts_ok c'.
Proof.
  induction fuel as [|fuel IH]; intros s out pos bs rest len n c Hc Hk Hf Hmax Hu Hp Hout;
    (destruct (decide (bs = [])) as [->|Hne];
     [exists n, c; rewrite store_nil; split; [done|]; split; [apply received_0|];
      split; [split; [apply counted_0, Hk | done] | done] |]).
  { destruct bs; [done | simpl in Hf; lia]. }
  assert (0 < zlen bs) as Hl by (destruct bs; [done|]; unfold zlen; simpl; lia).
  destruct (recv_moves n s (zlen bs) Hc Hl) as (r & n1 & E & Hr & _ & Hs);
    [rewrite Hu; by destruct bs|].
  cbn [sock_recv_loop]. rewrite (proj2 (Z.ltb_lt _ _) Hl).
  unfold mbnd, do_recv, modify_st, of_opt. cbn [fst snd]. rewrite E.
  rewrite (proj2 (Z.ltb_ge r 0)) by lia.
  assert (ztake r (unread n s) = ztake r bs) as ->
    by (rewrite Hu; unfold ztake, zlen in *; apply take_app_le; lia).
  assert (zlen (ztake r bs) = r) as Hr' by (apply zlen_ztake; lia).
  rewrite memcpy_store by (done || lia).
  set (c1 := set_rx (count_bytes r) (set_rx count_system_call c)).
  assert (counted_rx r c c1) as Hc1 by (split; [apply counted_call | done]).
  assert (size_sub (zlen bs) r = zlen (zdrop r bs)) as ->
    by (rewrite zlen_zdrop by lia; unfold size_sub; apply Z.mod_small; lia).
  assert (unread n1 s = zdrop r bs ++ rest) as Hu1.
  { rewrite (proj1 Hs), decide_True, Hu by done. unfold zdrop, zlen in *. apply drop_app_le. lia. }
  destruct (IH s (store out pos (ztake r bs)) (pos + r) (zdrop r bs) rest len n1 c1)
    as (n' & c' & E' & Hs' & Hc' & Hk'); try done.
  - by apply (proj2 Hs).
  - split; [apply Hk|]. cbn. by apply Z.mod_pos_bound.
  - unfold zdrop, zlen in *. rewrite length_drop. lia.
  - rewrite zlen_zdrop; lia.
  - lia.
  - rewrite zlen_store, zlen_zdrop; lia.
  - exists n', c'. rewrite zlen_zdrop in Hs', Hc' by lia.
    split; [|split; [|split; [|done]]].
    + etransitivity; [exact E'|]. do 2 f_equal. rewrite <- Hr' at 2. rewrite store_store by lia.
      by rewrite ztake_zdrop.
    + replace (zlen bs) with (r + (zlen bs - r)) by lia. eapply received_add; eauto; lia.
    + destruct Hc1 as (A1 & A2 & A3), Hc' as (B1 & B2 & B3).
      split; [|split; congruence].
      replace (zlen bs) with (r + (zlen bs - r)) by lia. by eapply counted_add.
Qed.
End TransferSpec.

Section MessageSpec.
Context `{SK : Sockets} {SKok : SocketsOk SK} `{L : LuaApi} {Lok : LuaApiOk L}.

(** A send buffer between two messages, and a receive buffer: its write position is
    never reset, only its read position is. *)
Definition idle (rb : ringbuffer_t) : Prop :=
  rb_bounds rb /\ cb rb = SEND_RECV_SIZE /\ rp rb = 0 /\ wp rb = 0 /\ rcb rb = 0.
Definition ready (rb : ringbuffer_t) : Prop :=
  rb_bounds rb /\ cb rb = SEND_RECV_SIZE /\ rcb rb = 0.

(** The bytes of a message, on the wire. *)
Definition frame (bs : list byte) : list byte := size_bytes (zlen bs) ++ bs.

(** [bs] are the bytes [v] is sent as. *)
Definition message (v : lua_value) (bs : list byte) : Prop :=
  wf v = true /\ enc 1 0 v = Some bs /\ zlen bs <= SEND_RECV_SIZE.

Lemma idle_create : idle (ringbuffer_create SEND_RECV_SIZE).
Proof. split; [|done]. by apply create_ok. Qed.

Lemma ready_create : ready (ringbuffer_create SEND_RECV_SIZE).
Proof. split; [|done]. by apply create_ok. Qed.

Lemma idle_ok rb : idle rb -> ring_ok rb /\ contents rb = [].
Proof.
  intros (Hb & Hcb & Hrp & Hwp & Hr). split.
  - split; [done|]. unfold wrap_pos. rewrite Hrp, Hwp, Hr, Hcb. done.
  - unfold contents. by rewrite Hr.
Qed.

Lemma zlen_frame bs : zlen (frame bs) = 8 + zlen bs.
Proof. unfold frame. rewrite zlen_app. unfold size_bytes. by rewrite zlen_le_split. Qed.

Lemma check_count_ok n msg (s : io) : 0 <= n < 2 ^ 31 -> check_count n n msg s = Done tt s.
Proof.
  intros. unfold check_count, int_of_size, size_of_int. rewrite (Z.mod_small n) by lia.
  rewrite (proj2 (Z.ltb_lt n _)), (proj2 (Z.ltb_ge n 0)) by lia.
  rewrite Z.mod_small by (unfold SIZE_MOD; lia). by rewrite Z.eqb_refl.
Qed.

(** The saved bytes are at the start of the buffer, and popping leaves it idle. *)
Lemma idle_saved rb v bs log : idle rb -> message v bs ->
  exists rb', rb_save 1 0 v (mk_sv (ringbuffer_push_write_pos rb) log) = Done 0 (mk_sv rb' log) /\
    rcb rb' = zlen bs /\ idle (ringbuffer_pop_write_pos rb') /\
    buf_bytes (zlen bs) (ringbuffer_pop_write_pos rb') = Some bs.
Proof.
  intros Hi (Hwf & Eb & Hl). destruct (idle_ok rb Hi) as [Hok Hc].
  destruct Hi as (Hb & Hcb & Hrp & Hwp & Hr).
  destruct (save_writes 1 0 v bs Eb (mk_sv (ringbuffer_push_write_pos rb) log) (push_ok _ Hok))
    as [F _].
  destruct F as (rb' & E & A); [unfold free_space; cbn; lia|]. cbn [sv_rb sv_retained] in *.
  rewrite (enc_oop_retains 1 0 v bs) in E by done. rewrite app_nil_r in E.
  pose proof (appended_rcb _ _ _ (push_ok _ Hok) A) as Hr'.
  destruct (pop_restores rb _ rb' Hok A) as (Hokp & _).
  destruct A as [Hok' Hc' Hcb' Hrp' Hs1 Hs2]. cbn in Hr', Hcb', Hrp', Hs1, Hs2.
  rewrite push_same, Hc, app_nil_l in Hc'. rewrite zlen_fmap in Hr'.
  exists rb'. split; [exact E|]. split; [lia|]. split.
  - split; [apply Hokp|]. cbn. repeat split; congruence.
  - unfold buf_bytes, ringbuffer_buf_ptr. cbn [buf ringbuffer_pop_write_pos].
    pose proof (rb_len _ (ring_bounds _ Hok')) as Hlen.
    rewrite (proj2 (Z.leb_le _ _)) by lia.
    unfold contents in Hc'. rewrite Hrp', Hrp in Hc'.
    change (zdrop 0 (buf rb')) with (buf rb') in Hc'. change (ztake 0 (buf rb')) with (@nil cell) in Hc'.
    rewrite app_nil_r in Hc'. replace (rcb rb') with (zlen bs) in Hc' by lia. rewrite Hc'.
    apply mapM_id_Some.
Qed.

(** Enough turns for the loops on one message: a turn moves a byte at least. *)
Definition msg_fuel : nat := Z.to_nat SEND_RECV_SIZE.

Lemma sock_send_spec fuel s bs n c :
  connected n s -> counts_ok c -> (length bs <= fuel)%nat ->
  exists n' c', sock_send fuel s bs (n, c) = Done (zlen bs) (n', c') /\
    sent n s bs n' /\ counted_tx (zlen bs) c c' /\ counts_ok c'.
Proof. apply sock_send_loop_spec. Qed.

Lemma counted_tx_add k1 k2 a b c :
  counted_tx k1 a b -> counted_tx k2 b c -> counted_tx (k1 + k2) a c.
Proof.
  intros (A1 & A2 & A3) (B1 & B2 & B3). split; [by eapply counted_add | split; congruence].
Qed.

Lemma counted_rx_add k1 k2 a b c :
  counted_rx k1 a b -> counted_rx k2 b c -> counted_rx (k1 + k2) a c.
Proof.
  intros (A1 & A2 & A3) (B1 & B2 & B3). split; [by eapply counted_add | split; congruence].
Qed.

Lemma sock_send_msg_spec fuel v bs s n c rb log :
  connected n s -> counts_ok c -> idle rb -> message v bs -> (msg_fuel <= fuel)%nat ->
  exists n' c' rb', sock_send_msg fuel v s ((n, c), mk_sv rb log)
      = Done tt ((n', c'), mk_sv rb' log) /\
    sent n s (frame bs) n' /\ idle rb' /\ counted_tx (zlen (frame bs)) c c' /\ counts_ok c'.
Proof.
  intros Hc Hk Hi Hm Hf. destruct (idle_saved rb v bs log Hi Hm) as (rb1 & E & Hr & Hi1 & Hbuf).
  destruct Hm as (_ & _ & Hl). unfold msg_fuel in Hf. pose proof (zlen_nonneg bs).
  assert (zlen (size_bytes (zlen bs)) = 8) as H8 by apply zlen_le8.
  destruct (sock_send_spec fuel s (size_bytes (zlen bs)) n c Hc Hk)
    as (n1 & c1 & E1 & Hs1 & Hc1 & Hk1); [unfold zlen in *; unfold SEND_RECV_SIZE in *; lia|].
  destruct (sock_send_spec fuel s bs n1 c1) as (n2 & c2 & E2 & Hs2 & Hc2 & Hk2); try done;
    [by apply (proj2 Hs1) | unfold zlen in *; lia|].
  exists n2, c2, (ringbuffer_pop_write_pos rb1).
  split; [|split; [by eapply sent_app | split; [done|split; [|done]]]].
  2: { rewrite zlen_frame, <- H8. by eapply counted_tx_add. }
  unfold sock_send_msg, mbnd at 1. cbn -[rb_save sock_send check_count buf_bytes].
  unfold mbnd at 1, on_save at 1, zoom at 1. cbn [snd]. rewrite E.
  cbn -[sock_send check_count buf_bytes]. unfold ringbuffer_peek. rewrite Hr.
  unfold mbnd at 1, on_io at 1, zoom at 1. cbn [fst]. rewrite E1, H8.
  unfold mbnd at 1, on_io at 1, zoom at 1. cbn [fst]. rewrite check_count_ok by lia.
  unfold mbnd at 1, get_rb. cbn [snd sv_rb]. unfold mbnd at 1, of_opt. rewrite Hbuf.
  unfold mbnd at 1, on_io at 1, zoom at 1. cbn [fst]. rewrite E2.
  unfold on_io, zoom. cbn [fst]. rewrite check_count_ok by (unfold SEND_RECV_SIZE in *; lia). done.
Qed.

Definition with_buf (b : list cell) (rb : ringbuffer_t) : ringbuffer_t :=
  mk_rb b (cb rb) (rp rb) (wp rb) (rcb rb) (saved_wp rb) (saved_rcb rb).

(** The bytes received at the start of the buffer become what there is to read. *)
Lemma ready_received rb bs : ready rb -> zlen bs <= SEND_RECV_SIZE ->
  exists rb', ringbuffer_write (ringbuffer_push_write_pos (ringbuffer_reset_read_pos
      (with_buf (store (buf rb) 0 bs) rb))) None (zlen bs) = Some (zlen bs, rb') /\
    rb_bounds rb' /\ cb rb' = SEND_RECV_SIZE /\ contents rb' = Some <$> bs.
Proof.
  intros (Hb & Hcb & Hr) Hl. destruct Hb. pose proof (zlen_nonneg bs).
  assert (zlen (store (buf rb) 0 bs) = cb rb) as Hst by (rewrite zlen_store; lia).
  assert (ztake (zlen bs) (store (buf rb) 0 bs) = Some <$> bs) as Hc
    by (unfold store; change (ztake 0 (buf rb)) with (@nil cell); rewrite app_nil_l; apply ztake_ztake_app, zlen_fmap).
  unfold ringbuffer_write. rewrite min_spec. cbn [cb rcb wp rp buf with_buf
    ringbuffer_push_write_pos ringbuffer_reset_read_pos saved_wp saved_rcb].
  rewrite Hr. unfold SEND_RECV_SIZE in *. rb_unfold.
  rewrite Z.sub_0_r, Z.add_0_l, (Z.mod_small (cb rb)), Z.min_l by lia.
  rewrite (Z.mod_small (wp rb + _)), (Z.mod_small (zlen bs)) by lia.
  destruct (Z.ltb_spec (wp rb + zlen bs) (cb rb)).
  - cbn. eexists. split; [reflexivity|]. split; [split; cbn; lia|]. split; [done|].
    unfold contents. cbn. change (ztake 0 _) with (@nil cell). by rewrite app_nil_r.
  - unfold size_mod. destruct (Z.eqb_spec (cb rb) 0); [lia|]. cbn. rewrite wrap_mod by lia.
    eexists. split; [reflexivity|]. split; [split; cbn; lia|]. split; [done|].
    unfold contents. cbn. change (ztake 0 _) with (@nil cell). by rewrite app_nil_r.
Qed.

(** Loading a message leaves nothing to read. *)
Lemma loaded_ready rb v bs :
  rb_bounds rb -> cb rb = SEND_RECV_SIZE -> contents rb = Some <$> bs -> message v bs ->
  exists rb', rb_load rb = Done (LdVal (transported v)) rb' /\ ready rb'.
Proof.
  intros Hb Hcb Hc (Hwf & Eb & _).
  assert (rcb rb = zlen bs) as Hr by (by rewrite <- (zlen_contents rb Hb), Hc, zlen_fmap).
  assert (loads (rb_load_rcsv (load_fuel rb) false) bs (LdVal (transported v))) as Hload.
  { eapply load_back; try done; [by left|]. unfold load_fuel, zlen in *. lia. }
  destruct (Hload rb [] Hb) as (rb' & E & []); [by rewrite app_nil_r|].
  exists rb'. split; [exact E|]. split; [done|]. split; [congruence | lia].
Qed.

Lemma sock_recv_spec fuel s out pos bs rest n c :
  connected n s -> counts_ok c -> (length bs <= fuel)%nat -> zlen bs < SIZE_MOD ->
  unread n s = bs ++ rest -> 0 <= pos -> pos + zlen bs <= zlen out ->
  exists n' c', sock_recv fuel s out pos (zlen bs) (n, c)
      = Done (zlen bs, store out pos bs) (n', c') /\
    received n s (zlen bs) n' /\ counted_rx (zlen bs) c c' /\ counts_ok c'.
Proof. intros. by apply (sock_recv_loop_spec fuel s out pos bs rest). Qed.

(** Storing as many bytes as there are. *)
Lemma store_whole out bs : zlen out = zlen bs -> store out 0 bs = Some <$> bs.
Proof.
  intros H. unfold store. change (ztake 0 out) with (@nil cell). rewrite app_nil_l, Z.add_0_l, <- H.
  unfold zdrop, zlen. rewrite Nat2Z.id, drop_all. apply app_nil_r.
Qed.

Lemma sock_recv_msg_spec fuel v bs rest s n c rb log :
  connected n s -> counts_ok c -> ready rb -> message v bs -> (msg_fuel <= fuel)%nat ->
  unread n s = frame bs ++ rest ->
  exists n' c' rb', sock_recv_msg fuel s ((n, c), mk_sv rb log)
      = Done (LdVal (transported v)) ((n', c'), mk_sv rb' log) /\
    received n s (zlen (frame bs)) n' /\ ready rb' /\
    counted_rx (zlen (frame bs)) c c' /\ counts_ok c'.
Proof.
  intros Hc Hk Hrd Hm Hf Hu. pose proof Hm as (_ & _ & Hl). pose proof (zlen_nonneg bs).
  assert (zlen (size_bytes (zlen bs)) = 8) as H8 by apply zlen_le8.
  unfold frame in Hu. rewrite <- app_assoc in Hu.
  unfold msg_fuel, SEND_RECV_SIZE, SIZE_MOD in *.
  destruct (sock_recv_spec fuel s (uninit 8) 0 (size_bytes (zlen bs)) (bs ++ rest) n c Hc Hk)
    as (n1 & c1 & E1 & Hs1 & Hc1 & Hk1); try done; [unfold zlen in *; lia|].
  assert (unread n1 s = bs ++ rest) as Hu1.
  { rewrite (proj1 Hs1), decide_True, Hu by done. by apply zdrop_zdrop_app. }
  destruct (sock_recv_spec fuel s (buf rb) 0 bs rest n1 c1) as (n2 & c2 & E2 & Hs2 & Hc2 & Hk2);
    try done; [by apply (proj2 Hs1) | unfold zlen in *; lia | unfold SIZE_MOD; lia
    | destruct Hrd as ([] & ? & _); unfold SEND_RECV_SIZE in *; lia |].
  destruct (ready_received rb bs Hrd Hl) as (rb1 & Ew & Hb1 & Hcb1 & Hct1).
  destruct (loaded_ready rb1 v bs Hb1 Hcb1 Hct1 Hm) as (rb2 & El & Hrd2).
  exists n2, c2, rb2. split; [|split; [|split; [done|split; [|done]]]].
  2: { rewrite zlen_frame, <- H8. eapply received_add; eauto; lia. }
  2: { rewrite zlen_frame, <- H8. by eapply counted_rx_add. }
  rewrite H8 in E1. unfold sock_recv_msg, mbnd at 1, on_io at 1, zoom at 1. cbn [fst].
  rewrite E1. cbn [snd]. unfold mbnd at 1, of_opt at 1.
  rewrite store_whole by (by rewrite H8). rewrite mapM_id_Some.
  unfold size_bytes. rewrite le8_combine by lia.
  rewrite (proj2 (Z.eqb_neq _ LEN_INVALID)) by (unfold LEN_INVALID; lia).
  unfold mbnd at 1, on_io at 1, zoom at 1. cbn [fst snd]. rewrite check_count_ok by lia.
  rewrite (proj2 (Z.ltb_ge SEND_RECV_SIZE _)) by (unfold SEND_RECV_SIZE; lia).
  unfold mbnd at 1, get_rb at 1. cbn [snd sv_rb].
  unfold mbnd at 1, on_io at 1, zoom at 1. cbn [fst snd]. unfold ringbuffer_buf_ptr. rewrite E2.
  unfold mbnd at 1, set_rb at 1, modify_st. cbn [fst snd sv_retained].
  unfold mbnd at 1, on_io at 1, zoom at 1. cbn [fst snd]. rewrite check_count_ok by lia.
  unfold mbnd at 1, get_rb at 1. cbn [snd sv_rb]. unfold mbnd at 1, of_opt.
  fold (with_buf (store (buf rb) 0 bs) rb). rewrite Ew. rewrite Z.eqb_refl.
  unfold mbnd at 1, set_rb, modify_st. cbn [fst snd sv_retained negb].
  unfold mbnd, on_save, zoom. cbn [fst snd sv_rb]. by rewrite El.
Qed.

(** With nothing on its way the receiver sleeps, and has taken nothing. *)
Lemma sock_recv_msg_sleeps fuel s n c rb log :
  connected n s -> unread n s = [] ->
  sock_recv_msg (S fuel) s ((n, c), mk_sv rb log) = Blocked ((n, c), mk_sv rb log).
Proof.
  intros Hc Hu. unfold sock_recv_msg, mbnd, on_io, zoom. cbn [fst].
  unfold sock_recv. cbn [sock_recv_loop]. change (0 <? 8) with true. cbv iota.
  unfold mbnd, do_recv. cbn [fst]. by rewrite recv_sleeps.
Qed.
End MessageSpec.

(** *** Connections that broke *)

Section Broken.
Context `{SK : Sockets} `{L : LuaApi}.

(** When the other end is closed without the marker, [recv] returns 0 and the
    receiving loop, which only looks for negative results, goes round for ever. *)
Theorem recv_at_eof_diverges fuel s n c sv :
  (forall k, sys_recv s k n = Some (0, [], n)) ->
  sock_recv_msg fuel s ((n, c), sv) = NoFuel.
Proof.
  intros H. unfold sock_recv_msg, mbnd at 1, on_io at 1, zoom at 1. cbn [fst].
  enough (forall fuel c, sock_recv_loop fuel s (uninit 8) 0 8 8 (n, c) = NoFuel) as E
    by (unfold sock_recv; by rewrite E).
  clear fuel c. intros fuel. induction fuel as [|fuel IH]; intros c; [done|].
  cbn [sock_recv_loop]. change (0 <? 8) with true. cbv iota.
  unfold mbnd, do_recv. cbn [fst]. rewrite H. cbn [snd]. change (0 <? 0) with false. cbv iota.
  unfold of_opt, modify_st. apply IH.
Qed.

(** When the receive of the length fails, the code goes on to compare the length,
    which nobody wrote. *)
Theorem failed_recv_reads_uninitialised fuel s n c sv r bs n' :
  sys_recv s 8 n = Some (r, bs, n') -> r < 0 ->
  sock_recv_msg (S fuel) s ((n, c), sv) = Undef.
Proof.
  intros H Hr. unfold sock_recv_msg, mbnd at 1, on_io at 1, zoom at 1. cbn [fst].
  unfold sock_recv. cbn [sock_recv_loop]. change (0 <? 8) with true. cbv iota.
  unfold mbnd, do_recv. cbn [fst]. rewrite H. cbn [snd].
  by rewrite (proj2 (Z.ltb_lt r 0) Hr).
Qed.
End Broken.

(** ** Two connected ends as two queues of values *)

Module Link.

Inductive op :=
  | Send (e : bool) (v : lua_value)   (** at end [e] *)
  | Recv (e : bool)
  | RecvAsync (e : bool).

Inductive obs :=
  | Sent
  | Got (v : lua_value)
  | Nothing      (** [recv_async] with no message *)
  | Asleep.      (** [recv] with no message *)

(** The specification: the values on their way to each end. *)
Definition queues : Type := bool -> list lua_value.

Definition set_queue (e : bool) (q : list lua_value) (a : queues) : queues :=
  fun e' => if Bool.eqb e' e then q else a e'.

Section Spec.
Context `{L : LuaApi}.

(** One call, what it answers and the queues after it.  [recv_async] may find nothing while
    messages are on their way; not when what was sent arrives at once ([prompt]). *)
Inductive q_step (prompt : Prop) (a : queues) : op -> obs -> queues -> Prop :=
  | q_send e v : q_step prompt a (Send e v) Sent (set_queue (negb e) (a (negb e) ++ [v]) a)
  | q_recv e v q : a e = v :: q ->
      q_step prompt a (Recv e) (Got (transported v)) (set_queue e q a)
  | q_asleep e : a e = [] -> q_step prompt a (Recv e) Asleep a
  | q_async e v q : a e = v :: q ->
      q_step prompt a (RecvAsync e) (Got (transported v)) (set_queue e q a)
  | q_nothing e : (prompt -> a e = []) -> q_step prompt a (RecvAsync e) Nothing a.

Inductive q_run (prompt : Prop) : queues -> list op -> list obs -> queues -> Prop :=
  | q_done a : q_run prompt a [] [] a
  | q_next a o r a1 os rs a2 :
      q_step prompt a o r a1 -> q_run prompt a1 os rs a2 -> q_run prompt a (o :: os) (r :: rs) a2.

(** When what was sent arrives at once the queues determine the answers. *)
Lemma q_step_det (prompt : Prop) a o r1 a1 r2 a2 : prompt ->
  q_step prompt a o r1 a1 -> q_step prompt a o r2 a2 -> r1 = r2 /\ a1 = a2.
Proof.
  intros Hp H1 H2. destruct H1; inversion H2; subst; try done; try congruence;
    try (match goal with H : prompt -> _ |- _ => specialize (H Hp) end; congruence);
    split; congruence.
Qed.

Lemma q_run_det (prompt : Prop) a os rs1 a1 rs2 a2 : prompt ->
  q_run prompt a os rs1 a1 -> q_run prompt a os rs2 a2 -> rs1 = rs2.
Proof.
  intros Hp H1. revert rs2 a2. induction H1 as [|a o r a1 os rs a1' Hs _ IH]; intros rs2 a2 H2;
    inversion H2 as [|? ? ? ? ? ? ? Hs2 Hr2]; subst; [done|].
  destruct (q_step_det _ _ _ _ _ _ _ Hp Hs Hs2) as [<- <-]. f_equal. by eapply IH.
Qed.

(** What a client can send. *)
Definition sendable (v : lua_value) : bool :=
  wf v && match enc 1 0 v with Some bs => zlen bs <=? SEND_RECV_SIZE | None => false end.

Definition op_ok (o : op) : bool :=
  match o with Send _ v => sendable v | _ => true end.
End Spec.

(** The code's side. *)
Section Code.
Context `{SK : Sockets} `{L : LuaApi}.
Context (cliser_write cliser_read : lua_value -> option (Z -> M io unit)).
Context (fuel : nat).

Record link := mk_link { lk_net : net; lk_end : bool -> client_t; lk_log : list Z }.

Definition set_end (e : bool) (c : client_t) (l : bool -> client_t) : bool -> client_t :=
  fun e' => if Bool.eqb e' e then c else l e'.

Definition on_end {A} (e : bool) : M cl_st A -> M link A :=
  zoom (fun l => mk_cl (lk_net l) (lk_end l e) (lk_log l))
       (fun c l => mk_link (cl_net c) (set_end e (cl_client c) (lk_end l)) (cl_log c)).

Definition obs_of (r : load_ret) : obs := match r with LdVal v => Got v | _ => Nothing end.

Definition link_step (l : link) (o : op) : option (obs * link) :=
  match o with
  | Send e v =>
      match on_end e (cliser_client_send cliser_write fuel v) l with
      | Done _ l' => Some (Sent, l') | _ => None end
  | Recv e =>
      match on_end e (cliser_client_recv cliser_read fuel LNil) l with
      | Done r l' => Some (obs_of r, l') | Blocked l' => Some (Asleep, l') | _ => None end
  | RecvAsync e =>
      match on_end e (cliser_client_recv_async fuel) l with
      | Done r l' => Some (obs_of r, l') | _ => None end
  end.

Fixpoint link_run (l : link) (os : list op) : option (list obs * link) :=
  match os with
  | [] => Some ([], l)
  | o :: os' => '(r, l1) ← link_step l o; '(rs, l2) ← link_run l1 os'; Some (r :: rs, l2)
  end.
End Code.
End Link.

Section ClientSpec.
Context `{SK : Sockets} {SKok : SocketsOk SK} `{L : LuaApi} {Lok : LuaApiOk L}.
Context (cliser_write cliser_read : lua_value -> option (Z -> M io unit)).
Context (fuel : nat) (Hfuel : (msg_fuel <= fuel)%nat).

(** An end of a connection between two calls. *)
Record end_ok (n : net) (c : client_t) : Prop := {
  end_conn : connected n (sock c);
  end_counts : counts_ok (copy_context c);
  end_send : idle (send_rb c);
  end_recv : ready (recv_rb c);
}.

(** What a call leaves of an end: the socket, and the bytes counted. *)
Record moved (c : client_t) (ktx krx : Z) (c' : client_t) : Prop := {
  mv_sock : sock c' = sock c;
  mv_tx : num_bytes (tx (copy_context c')) = size_add (num_bytes (tx (copy_context c))) ktx;
  mv_rx : num_bytes (rx (copy_context c')) = size_add (num_bytes (rx (copy_context c))) krx;
}.

Lemma message_userdata v bs : message v bs -> is_userdata v = false.
Proof. intros (_ & E & _). by destruct v. Qed.

Lemma bytes_0 k : 0 <= k < SIZE_MOD -> k = size_add k 0.
Proof. intros. unfold size_add. by rewrite Z.add_0_r, Z.mod_small. Qed.

Lemma client_send_spec v bs n c log :
  end_ok n c -> message v bs ->
  exists n' c', cliser_client_send cliser_write fuel v (mk_cl n c log)
      = Done tt (mk_cl n' c' log) /\
    sent n (sock c) (frame bs) n' /\ end_ok n' c' /\ moved c (zlen (frame bs)) 0 c'.
Proof.
  intros [Hc Hk Hi Hr] Hm.
  destruct (sock_send_msg_spec fuel v bs (sock c) n (copy_context c) (send_rb c) log)
    as (n' & cc & rb' & E & Hs & Hi' & (Hct & Hrx & _) & Hk'); try done.
  unfold cliser_client_send, mbnd. cbn [get_st cl_client].
  rewrite (message_userdata v bs Hm). unfold on_send at 1, zoom at 1. cbn [cl_net cl_client cl_log].
  rewrite E. cbn. eexists _, _. split; [reflexivity|]. split; [done|]. split.
  - split; cbn; try done. by apply (proj2 Hs).
  - split; cbn; [done | apply Hct |]. rewrite Hrx. apply bytes_0, Hk.
Qed.

Lemma client_recv_spec v bs rest n c log :
  end_ok n c -> message v bs -> unread n (sock c) = frame bs ++ rest ->
  exists n' c', cliser_client_recv cliser_read fuel LNil (mk_cl n c log)
      = Done (LdVal (transported v)) (mk_cl n' c' log) /\
    received n (sock c) (zlen (frame bs)) n' /\ end_ok n' c' /\ moved c 0 (zlen (frame bs)) c'.
Proof.
  intros [Hc Hk Hi Hr] Hm Hu.
  destruct (sock_recv_msg_spec fuel v bs rest (sock c) n (copy_context c) (recv_rb c) log)
    as (n' & cc & rb' & E & Hs & Hr' & (Hct & Htx & _) & Hk'); try done.
  unfold cliser_client_recv, mbnd. cbn [get_st cl_client].
  change (is_userdata LNil) with false. cbv iota.
  unfold on_recv at 1, zoom at 1. cbn [cl_net cl_client cl_log].
  rewrite E. cbn. eexists _, _. split; [reflexivity|]. split; [done|]. split.
  - split; cbn; try done. by apply (proj2 Hs).
  - split; cbn; [done | | apply Hct]. rewrite Htx. apply bytes_0, Hk.
Qed.

Lemma client_recv_sleeps n c log :
  end_ok n c -> unread n (sock c) = [] ->
  cliser_client_recv cliser_read fuel LNil (mk_cl n c log) = Blocked (mk_cl n c log).
Proof.
  intros [Hc Hk Hi Hr] Hu. destruct fuel as [|f]; [vm_compute in Hfuel; lia|].
  unfold cliser_client_recv, mbnd. cbn [get_st cl_client].
  change (is_userdata LNil) with false. cbv iota.
  unfold on_recv at 1, zoom at 1. cbn [cl_net cl_client cl_log].
  rewrite sock_recv_msg_sleeps by done. cbn. by destruct c.
Qed.

Lemma message_len v bs : message v bs -> 0 < zlen bs <= SEND_RECV_SIZE.
Proof.
  intros (_ & E & Hl). split; [|done]. apply enc_nonempty in E.
  destruct bs as [|b bs]; [done|]. rewrite zlen_cons. pose proof (zlen_nonneg bs). lia.
Qed.

(** The peek sees nothing, or, only when it has arrived, a message; it leaves the buffer ready. *)
Lemma peek_spec v bs rest s n c rb log :
  connected n s -> ready rb -> message v bs -> unread n s = frame bs ++ rest ->
  exists k rb', sock_recv_msg_peek s ((n, c), mk_sv rb log) = Done k ((n, c), mk_sv rb' log) /\
    ready rb' /\ (k = 0 \/ k = zlen bs) /\ (arrives_at_once -> k = zlen bs).
Proof.
  intros Hc Hr Hm Hu. pose proof (message_len v bs Hm) as Hl. unfold SEND_RECV_SIZE in *.
  assert (zlen (frame bs ++ rest) = 8 + zlen bs + zlen rest) as Hlen
    by (rewrite zlen_app, zlen_frame; lia).
  pose proof (zlen_nonneg rest).
  assert (unread n s <> []) as Hne by (rewrite Hu; intros E; rewrite E, zlen_nil in Hlen; lia).
  assert (forall k r, arrives_at_once -> 0 < k <= 8 + zlen bs -> (sys_peek s k n).1 = r -> r = k) as Hat.
  { intros k r Ha Hk <-. rewrite Ha, Hu, Hlen by (done || lia). cbn. lia. }
  unfold sock_recv_msg_peek, mbnd at 1. cbn [get_st fst].
  destruct (peek_sees n s 8 Hc ltac:(lia)) as [[Hp He]|(r & Ep & Hr1 & Hr2)].
  { specialize (Hat 8). destruct (sys_peek s 8 n) as [r b]. cbn [fst] in *.
    rewrite (proj2 (Z.ltb_lt r 0)), He by done. exists 0, rb. cbn. split; [done|]. split; [done|].
    split; [by left|]. intros H'. specialize (Hat r H' ltac:(lia) eq_refl). lia. }
  pose proof (fun H' => Hat 8 r H' ltac:(lia) ltac:(by rewrite Ep)) as Hr8. rewrite Ep.
  rewrite (proj2 (Z.ltb_ge r 0)) by lia.
  destruct (Z.eqb_spec r 8) as [->|Hne8]; cbn [negb].
  2: { exists 0, rb. split; [done|]. split; [done|]. split; [by left|].
       intros H'. by destruct (Hne8 (Hr8 H')). }
  assert (ztake 8 (unread n s) = size_bytes (zlen bs)) as ->.
  { rewrite Hu. unfold frame. rewrite <- app_assoc. apply ztake_ztake_app, zlen_le8. }
  unfold size_bytes. rewrite le8_combine by lia.
  rewrite (proj2 (Z.ltb_ge SEND_RECV_SIZE _)) by (unfold SEND_RECV_SIZE; lia).
  specialize (Hat (zlen bs)).
  destruct (peek_sees n s (zlen bs) Hc ltac:(lia)) as [[Hp He]|(r & Ep2 & Hr3 & Hr4)].
  { destruct (sys_peek s (zlen bs) n) as [r b]. cbn [fst] in *.
    rewrite (proj2 (Z.ltb_lt r 0)), He by done. exists 0, rb. cbn. split; [done|]. split; [done|].
    split; [by left|]. intros H'. specialize (Hat r H' ltac:(lia) eq_refl). lia. }
  pose proof (fun H' => Hat r H' ltac:(lia) ltac:(by rewrite Ep2)) as Hrl. rewrite Ep2.
  rewrite (proj2 (Z.ltb_ge _ 0)) by lia. unfold mbnd at 1, get_rb. cbn [snd sv_rb].
  unfold ringbuffer_buf_ptr, mbnd at 1, of_opt. destruct Hr as (Hb & Hcb & Hrcb).
  assert (zlen (ztake r (unread n s)) = r) as Hzr by (rewrite zlen_ztake; lia).
  pose proof (memcpy_store (buf rb) 0 (ztake r (unread n s))) as Hmc. rewrite Hzr in Hmc.
  rewrite Hmc by (destruct Hb; unfold SEND_RECV_SIZE in *; lia).
  unfold mbnd, set_rb, modify_st. cbn [fst snd sv_retained].
  exists (if negb (r =? zlen bs) then 0 else r). eexists. split; [by destruct (r =? zlen bs)|].
  split; [|split; [destruct (Z.eqb_spec r (zlen bs)); auto|]].
  - split; [|done]. destruct Hb. split; try done. cbn.
    rewrite zlen_store; [done | lia |]. rewrite Hzr; unfold SEND_RECV_SIZE in *; lia.
  - intros H'. by rewrite (Hrl H'), Z.eqb_refl.
Qed.

(** What [recv_async] makes of a message on its way: it gets it, or finds nothing. *)
Lemma client_recv_async_spec v bs rest n c log :
  end_ok n c -> message v bs -> unread n (sock c) = frame bs ++ rest ->
  (exists n' c', cliser_client_recv_async fuel (mk_cl n c log)
      = Done (LdVal (transported v)) (mk_cl n' c' log) /\
    received n (sock c) (zlen (frame bs)) n' /\ end_ok n' c' /\ moved c 0 (zlen (frame bs)) c') \/
  (exists c', cliser_client_recv_async fuel (mk_cl n c log) = Done LdEnd (mk_cl n c' log) /\
    end_ok n c' /\ moved c 0 0 c' /\ ~ arrives_at_once).
Proof.
  intros [Hc Hk Hi Hr] Hm Hu. pose proof (message_len v bs Hm) as Hl.
  destruct (peek_spec v bs rest (sock c) n (copy_context c) (recv_rb c) log)
    as (k & rb1 & Ep & Hr1 & Hkk & Hat); try done.
  destruct (decide (k = 0)) as [->|Hk0]; [right | left];
    unfold cliser_client_recv_async, mbnd; cbn [get_st cl_client];
    unfold on_recv at 1, zoom at 1; cbn [cl_net cl_client cl_log]; rewrite Ep.
  { cbn. eexists. split; [reflexivity|]. split; [by split|].
    split; [split; [done | apply bytes_0, Hk..] | intros H'; specialize (Hat H'); lia]. }
  assert (k = zlen bs) as -> by (by destruct Hkk).
  destruct (sock_recv_msg_spec fuel v bs rest (sock c) n (copy_context c) rb1 log)
    as (n' & cc & rb' & E & Hs & Hr' & (Hct & Htx & _) & Hk'); try done.
  rewrite (proj2 (Z.ltb_lt 0 (zlen bs))) by lia.
  unfold on_recv at 1, zoom at 1. cbn [cl_net cl_client cl_log copy_context recv_rb set_recv_rb
    set_copy_context fst snd sv_rb sv_retained].
  rewrite E. cbn. eexists _, _. split; [reflexivity|]. split; [done|]. split.
  - split; cbn; try done. by apply (proj2 Hs).
  - split; cbn; [done | | apply Hct]. rewrite Htx. apply bytes_0, Hk.
Qed.

Lemma client_recv_async_none n c log :
  end_ok n c -> unread n (sock c) = [] ->
  exists c', cliser_client_recv_async fuel (mk_cl n c log) = Done LdEnd (mk_cl n c' log) /\
    end_ok n c' /\ moved c 0 0 c'.
Proof.
  intros [Hc Hk Hi Hr] Hu.
  destruct (peek_sees n (sock c) 8 Hc ltac:(lia)) as [[Hp He]|(r & _ & ? & Hl)];
    [|rewrite Hu, zlen_nil in Hl; lia].
  unfold cliser_client_recv_async, mbnd. cbn [get_st cl_client].
  unfold on_recv at 1, zoom at 1, sock_recv_msg_peek, mbnd. cbn [get_st cl_net cl_client cl_log fst].
  destruct (sys_peek (sock c) 8 n) as [r b]. cbn [fst] in Hp.
  rewrite (proj2 (Z.ltb_lt r 0)), He by done. cbn. eexists. split; [reflexivity|].
  split; [by split|]. split; [done | apply bytes_0, Hk..].
Qed.
End ClientSpec.

Section LinkSim.
Import Link.
Context `{SK : Sockets} {SKok : SocketsOk SK} `{L : LuaApi} {Lok : LuaApiOk L}.
Context (cliser_write cliser_read : lua_value -> option (Z -> M io unit)).
Context (fuel : nat) (Hfuel : (msg_fuel <= fuel)%nat).

(** The bytes on their way to end [e] are those of the queue's messages, and the
    bytes its peer counted as sent are those counted as received here and those. *)
Record sim (l : link) (a : queues) : Prop := {
  sim_end e : end_ok (lk_net l) (lk_end l e);
  sim_peer e : peer (sock (lk_end l e)) = sock (lk_end l (negb e));
  sim_distinct : sock (lk_end l true) <> sock (lk_end l false);
  sim_wire e : exists bss, Forall2 message (a e) bss /\
    unread (lk_net l) (sock (lk_end l e)) = concat (frame <$> bss);
  sim_count e : num_bytes (tx (copy_context (lk_end l (negb e)))) =
    size_add (num_bytes (rx (copy_context (lk_end l e))))
             (zlen (unread (lk_net l) (sock (lk_end l e))));
}.

Lemma sim_other l a e : sim l a -> sock (lk_end l (negb e)) <> sock (lk_end l e).
Proof. intros []. by destruct e; cbn; auto. Qed.

Lemma end_ok_net n n' c : (forall s, connected n s -> connected n' s) ->
  end_ok n c -> end_ok n' c.
Proof. intros H []. split; auto. Qed.

Lemma size_add_add a b c : size_add (size_add a b) c = size_add a (b + c).
Proof. unfold size_add, SIZE_MOD. rewrite Zplus_mod_idemp_l. f_equal. lia. Qed.

Lemma sim_sent l a e v bs n' c' :
  sim l a -> message v bs -> sent (lk_net l) (sock (lk_end l e)) (frame bs) n' ->
  end_ok n' c' -> moved (lk_end l e) (zlen (frame bs)) 0 c' ->
  sim (mk_link n' (set_end e c' (lk_end l)) (lk_log l))
      (set_queue (negb e) (a (negb e) ++ [v]) a).
Proof.
  intros Hsim Hm [Hu Hcn] Hok []. pose proof (sim_other l a e Hsim) as Hne.
  destruct Hsim as [He Hp Hd Hw Hb]. rewrite (Hp e) in Hu.
  split; cbn [lk_net lk_end].
  - intros e'. unfold set_end. destruct (Bool.eqb e' e); [done|]. by eapply end_ok_net.
  - intros e'. unfold set_end. destruct e', e; cbn; rewrite ?mv_sock0; by rewrite Hp.
  - unfold set_end. destruct e; cbn; by rewrite mv_sock0.
  - intros e'. unfold set_end, set_queue.
    destruct (Bool.eqb e' (negb e)) eqn:E; [apply Bool.eqb_prop in E as ->|].
    + destruct (Hw (negb e)) as (bss & Hq & Hbs). exists (bss ++ [bs]).
      split; [by apply Forall2_app; [|constructor]|].
      replace (Bool.eqb (negb e) e) with false by (by destruct e).
      rewrite Hu, decide_True, Hbs by done. rewrite fmap_app, concat_app. cbn [fmap list_fmap concat]. by rewrite app_nil_r.
    + assert (e' = e) as -> by (by destruct e', e). rewrite Bool.eqb_reflx, mv_sock0, Hu.
      rewrite decide_False by done. apply Hw.
  - intros e'. unfold set_end.
    destruct (Bool.eqb e' (negb e)) eqn:E; [apply Bool.eqb_prop in E as ->|].
    + rewrite negb_involutive, Bool.eqb_reflx.
      replace (Bool.eqb (negb e) e) with false by (by destruct e).
      rewrite mv_tx0, Hu, decide_True, zlen_app by done. specialize (Hb (negb e)).
      rewrite negb_involutive in Hb. by rewrite Hb, size_add_add.
    + assert (e' = e) as -> by (by destruct e', e).
      replace (Bool.eqb (negb e) e) with false by (by destruct e).
      rewrite Bool.eqb_reflx, mv_sock0, mv_rx0, Hu, decide_False by done.
      by rewrite size_add_add, Z.add_0_l.
Qed.

Lemma sim_received l a e v q bs bss n' c' :
  sim l a -> a e = v :: q -> Forall2 message q bss ->
  unread (lk_net l) (sock (lk_end l e)) = frame bs ++ concat (frame <$> bss) ->
  received (lk_net l) (sock (lk_end l e)) (zlen (frame bs)) n' ->
  end_ok n' c' -> moved (lk_end l e) 0 (zlen (frame bs)) c' ->
  sim (mk_link n' (set_end e c' (lk_end l)) (lk_log l)) (set_queue e q a).
Proof.
  intros Hsim Hq Hms Hun [Hu Hcn] Hok []. pose proof (sim_other l a e Hsim) as Hne.
  destruct Hsim as [He Hp Hd Hw Hb]. rewrite Hun, zdrop_zdrop_app in Hu by done.
  split; cbn [lk_net lk_end].
  - intros e'. unfold set_end. destruct (Bool.eqb e' e); [done|]. by eapply end_ok_net.
  - intros e'. unfold set_end. destruct e', e; cbn; rewrite ?mv_sock0; by rewrite Hp.
  - unfold set_end. destruct e; cbn; by rewrite mv_sock0.
  - intros e'. unfold set_end, set_queue.
    destruct (Bool.eqb e' e) eqn:E; [apply Bool.eqb_prop in E as ->|].
    + exists bss. by rewrite mv_sock0, Hu, decide_True.
    + assert (e' = negb e) as -> by (by destruct e', e).
      rewrite Hu, decide_False by done. apply Hw.
  - intros e'. unfold set_end.
    destruct (Bool.eqb e' e) eqn:E; [apply Bool.eqb_prop in E as ->|].
    + replace (Bool.eqb (negb e) e) with false by (by destruct e).
      rewrite mv_sock0, mv_rx0, Hu, decide_True, Hb, Hun, zlen_app by done.
      by rewrite size_add_add.
    + assert (e' = negb e) as -> by (by destruct e', e).
      rewrite negb_involutive, Bool.eqb_reflx, mv_tx0, Hu, decide_False by done.
      specialize (Hb (negb e)). rewrite negb_involutive in Hb.
      by rewrite Hb, size_add_add, Z.add_0_r.
Qed.

Lemma sim_still l a e c' :
  sim l a -> end_ok (lk_net l) c' -> moved (lk_end l e) 0 0 c' ->
  sim (mk_link (lk_net l) (set_end e c' (lk_end l)) (lk_log l)) a.
Proof.
  intros Hsim Hok [Hs Htx Hrx]. destruct Hsim as [He Hp Hd Hw Hb].
  rewrite <- bytes_0 in Htx, Hrx by apply He.
  assert (forall e', sock (set_end e c' (lk_end l) e') = sock (lk_end l e')) as Hs'
    by (intros e'; unfold set_end; by destruct e', e).
  split; cbn [lk_net lk_end].
  - intros e'. unfold set_end. by destruct (Bool.eqb e' e).
  - intros e'. by rewrite !Hs'.
  - by rewrite !Hs'.
  - intros e'. rewrite Hs'. apply Hw.
  - intros e'. rewrite Hs'. unfold set_end.
    destruct e', e; cbn; rewrite ?Htx, ?Hrx; apply (Hb true) || apply (Hb false).
Qed.

Lemma moved_refl n c : end_ok n c -> moved c 0 0 c.
Proof. intros [? [? ?] ? ?]. split; [done | by apply bytes_0..]. Qed.

Lemma sendable_message v : sendable v = true -> exists bs, message v bs.
Proof.
  unfold sendable. intros [Hw He]%andb_prop. destruct (enc 1 0 v) as [bs|] eqn:E; [|done].
  exists bs. split; [done|]. split; [done | lia].
Qed.

(** What the queue of an end holds is at the head of its wire. *)
Lemma sim_head l a e v q : sim l a -> a e = v :: q ->
  exists bs bss, message v bs /\ Forall2 message q bss /\
    unread (lk_net l) (sock (lk_end l e)) = frame bs ++ concat (frame <$> bss).
Proof.
  intros [_ _ _ Hw _] E. destruct (Hw e) as (bss & Hm & Hu). rewrite E in Hm.
  inversion Hm as [|? bs ? bss' Hv Hrest]; subst. by exists bs, bss'.
Qed.

Lemma sim_empty l a e : sim l a -> a e = [] -> unread (lk_net l) (sock (lk_end l e)) = [].
Proof.
  intros [_ _ _ Hw _] E. destruct (Hw e) as (bss & Hm & Hu). rewrite E in Hm.
  by inversion Hm; subst.
Qed.

Lemma link_step_sim l a o : sim l a -> op_ok o = true ->
  exists r l' a', link_step cliser_write cliser_read fuel l o = Some (r, l') /\
    q_step arrives_at_once a o r a' /\ sim l' a'.
Proof.
  intros Hsim Ho. destruct o as [e v|e|e]; cbn [op_ok link_step] in *;
    pose proof (sim_end _ _ Hsim e) as He.
  - destruct (sendable_message v Ho) as [bs Hm].
    destruct (client_send_spec cliser_write fuel Hfuel v bs _ _ (lk_log l) He Hm)
      as (n' & c' & E & Hs & Hok & Hmv).
    unfold on_end, zoom. rewrite E. cbn. eexists _, _, _. split; [reflexivity|].
    split; [apply q_send | by eapply sim_sent].
  - destruct (a e) as [|v q] eqn:Hq.
    + unfold on_end, zoom. rewrite client_recv_sleeps; [|done..|by eapply sim_empty].
      cbn. eexists _, _, a. split; [reflexivity|]. split; [by apply q_asleep|].
      apply sim_still; [done..|]. by eapply moved_refl.
    + destruct (sim_head l a e v q Hsim Hq) as (bs & bss & Hm & Hms & Hu).
      destruct (client_recv_spec cliser_read fuel Hfuel v bs _ _ _ (lk_log l) He Hm Hu)
        as (n' & c' & E & Hs & Hok & Hmv).
      unfold on_end, zoom. rewrite E. cbn. eexists _, _, _. split; [reflexivity|].
      split; [by eapply q_recv | by eapply sim_received].
  - unfold on_end, zoom. destruct (a e) as [|v q] eqn:Hq.
    + destruct (client_recv_async_none fuel Hfuel _ _ (lk_log l) He) as (c' & E & Hok & Hmv);
        [by eapply sim_empty|].
      rewrite E. cbn. eexists _, _, a. split; [reflexivity|].
      split; [by apply q_nothing | by apply sim_still].
    + destruct (sim_head l a e v q Hsim Hq) as (bs & bss & Hm & Hms & Hu).
      destruct (client_recv_async_spec fuel Hfuel v bs _ _ _ (lk_log l) He Hm Hu)
        as [(n' & c' & E & Hs & Hok & Hmv) | (c' & E & Hok & Hmv & Hno)]; rewrite E; cbn.
      * eexists _, _, _. split; [reflexivity|]. split; [by eapply q_async | by eapply sim_received].
      * eexists _, _, a. split; [reflexivity|]. split; [by apply q_nothing | by apply sim_still].
Qed.

Lemma link_run_sim os : forall l a, sim l a -> forallb op_ok os = true ->
  exists rs l' a', link_run cliser_write cliser_read fuel l os = Some (rs, l') /\
    q_run arrives_at_once a os rs a' /\ sim l' a'.
Proof.
  induction os as [|o os IH]; intros l a Hsim Hos; cbn in *; [exists [], l, a; eauto using q_done|].
  apply andb_prop in Hos as [Ho Hos].
  destruct (link_step_sim l a o Hsim Ho) as (r & l1 & a1 & -> & Hq1 & Hs1).
  destruct (IH l1 a1 Hs1 Hos) as (rs & l2 & a2 & E2 & Hq2 & Hs2). cbn. rewrite E2.
  exists (r :: rs), l2, a2. eauto using q_next.
Qed.

(** Two ends just connected. *)
Definition fresh_link (n : net) (s1 s2 : Z) : link :=
  mk_link n (fun e => client_connected (if e then s1 else s2)) [].

Lemma sim_fresh n s1 s2 :
  connected n s1 -> connected n s2 -> peer s1 = s2 -> peer s2 = s1 -> s1 <> s2 ->
  unread n s1 = [] -> unread n s2 = [] -> sim (fresh_link n s1 s2) (fun _ => []).
Proof.
  intros ? ? ? ? ? Hu1 Hu2. split; cbn; try done.
  - intros e. split; cbn; [by destruct e | done | apply idle_create | apply ready_create].
  - by intros [].
  - intros e. exists []. split; [done|]. by destruct e.
  - by intros []; cbn; rewrite ?Hu1, ?Hu2.
Qed.

(** C7: over a connection that is up, whatever part of a message each system call moves (a [send]
    that waits for room ending when there is some, see [Net]), the calls of [send], [recv] and [recv_async] at the two ends behave as two queues of
    values: every message arrives once, whole and in order, [recv] sleeps exactly when
    none is left, [recv_async] gets the next message or nothing, nothing only when none is left
    if what was sent has always arrived, and the bytes counted at one end as sent are those
    counted as received at the other and those still on their way. *)
Theorem messages_refine_queues n s1 s2 os :
  connected n s1 -> connected n s2 -> peer s1 = s2 -> peer s2 = s1 -> s1 <> s2 ->
  unread n s1 = [] -> unread n s2 = [] -> forallb op_ok os = true ->
  exists rs l' a, link_run cliser_write cliser_read fuel (fresh_link n s1 s2) os = Some (rs, l') /\
    q_run arrives_at_once (fun _ => []) os rs a /\
    forall e,
      (exists bss, Forall2 message (a e) bss /\
         unread (lk_net l') (sock (lk_end l' e)) = concat (frame <$> bss)) /\
      num_bytes (tx (copy_context (lk_end l' (negb e)))) =
        size_add (num_bytes (rx (copy_context (lk_end l' e))))
                 (zlen (unread (lk_net l') (sock (lk_end l' e)))).
Proof.
  intros. destruct (link_run_sim os (fresh_link n s1 s2) (fun _ => []))
    as (rs & l' & a & E & Hq & []); [by apply sim_fresh | done |].
  exists rs, l', a. split; [exact E|]. split; [exact Hq|]. intros e. by split.
Qed.
End LinkSim.

(** ** Concrete runs *)

(** No userdata can be sent. *)
Definition no_method : forall `{SK : Sockets}, lua_value -> option (Z -> M io unit) :=
  fun _ _ => None.

Section Runs.
Import Link.
#[local] Existing Instance RefLua.api_ok.
#[local] Instance lua53 : LuaApi := RefLua.api 503 false.
#[local] Instance net53 : Sockets := RefNet.sockets 5 3.
#[local] Instance net53_ok : SocketsOk net53 := RefNet.sockets_ok 5 3 eq_refl eq_refl.

Definition late_net : Sockets := RefNet.sockets_seen (Some 3) 5 3.
Definition late_net_ok : SocketsOk late_net :=
  RefNet.sockets_seen_ok (Some 3) 5 3 eq_refl eq_refl eq_refl.

(** A network that delivers at once, and one of which no more than three bytes are seen before
    they are received: there [recv_async] finds nothing. *)
Lemma messages_refine_queues_witness :
  let os := [Send true (LInteger 5); Send true sample_data; RecvAsync true; Send false (LBoolean true);
             RecvAsync false; Recv false; Recv true; Recv false] in
  (exists l', link_run (SK := net53) no_method no_method msg_fuel (fresh_link RefNet.fresh 8 9) os
    = Some ([Sent; Sent; Nothing; Sent; Got (LInteger 5); Got sample_data; Got (LBoolean true);
             Asleep], l')) /\
  (exists rs l' a, link_run (SK := late_net) no_method no_method msg_fuel
        (fresh_link (SK := late_net) RefNet.fresh 8 9) os = Some (rs, l') /\
    q_run (arrives_at_once (S := late_net) (Sok := late_net_ok)) (fun _ => []) os rs a).
Proof.
  intros os. split.
  - destruct (messages_refine_queues (SK := net53) no_method no_method msg_fuel (Nat.le_refl _)
      RefNet.fresh 8 9 os) as (rs & l' & a & E & Hq & _);
      [by split | by split | done | done | done | done | done | vm_compute; reflexivity |].
    exists l'. rewrite E. do 2 f_equal.
    eapply q_run_det; [apply (RefNet.sockets_arrive 5 3) | exact Hq |].
    eapply q_next; [apply q_send|]. eapply q_next; [apply q_send|].
    eapply q_next; [by apply q_nothing|]. eapply q_next; [apply q_send|].
    eapply q_next; [by apply (q_async _ _ false (LInteger 5) [sample_data])|].
    eapply q_next; [by apply (q_recv _ _ false sample_data [])|].
    eapply q_next; [by apply (q_recv _ _ true (LBoolean true) [])|].
    eapply q_next; [by apply q_asleep | apply q_done].
  - destruct (messages_refine_queues (SK := late_net) (SKok := late_net_ok)
      no_method no_method msg_fuel (Nat.le_refl _)
      RefNet.fresh 8 9 os) as (rs & l' & a & E & Hq & _);
      [by split | by split | done | done | done | done | done | vm_compute; reflexivity |].
    exists rs, l', a. split; [exact E | exact Hq].
Defined.

Lemma recv_at_eof_diverges_witness :
  let n := RefNet.mk_net ∅ {[8]} 0 in
  sock_recv_msg (SK := net53) 1000 9
    ((n, mk_cc no_stats no_stats 0), mk_sv (ringbuffer_create SEND_RECV_SIZE) []) = NoFuel.
Proof.
  intros n. apply (recv_at_eof_diverges (SK := net53)). intros k. reflexivity.
Defined.

(** A closure refused by [send] is not forgotten: its bytes stay in the send buffer,
    and the next message carries them.  The peer receives the closure that was refused
    in place of the value that was sent. *)
Theorem refused_closure_sent_with_next_message :
  let f x := LFunction true [Byte.x02; Byte.x78] [([Byte.x78], x)] in
  let send v := on_end true (cliser_client_send no_method msg_fuel v) in
  exists l1 l2 l3,
    send (f (LInteger 1)) (fresh_link RefNet.fresh 8 9) = Raised (ErrLua str_closure) l1 /\
    send (LBoolean true) l1 = Done tt l2 /\
    on_end false (cliser_client_recv no_method msg_fuel LNil) l2
      = Done (LdVal (f LGlobals)) l3.
Proof.
  cbv zeta. set (send v := on_end true (cliser_client_send no_method msg_fuel v)).
  set (f x := LFunction true _ _). set (l0 := fresh_link _ 8 9).
  set (l1 := end_state (send (f (LInteger 1))) l0). set (l2 := end_state (send (LBoolean true)) l1).
  set (recv := on_end false (cliser_client_recv no_method msg_fuel LNil)).
  exists l1, l2, (end_state recv l2).
  pose proof (reply_run (send (f (LInteger 1))) l0) as E1.
  pose proof (reply_run (send (LBoolean true)) l1) as E2. pose proof (reply_run recv l2) as E3.
  replace (reply_of _) with (Raises (A := unit) (ErrLua str_closure)) in E1
    by (vm_compute; reflexivity).
  replace (reply_of _) with (Returns tt) in E2 by (vm_compute; reflexivity).
  replace (reply_of _) with (Returns (LdVal (f LGlobals))) in E3 by (vm_compute; reflexivity).
  exact (conj E1 (conj E2 E3)).
Qed.

(** [recv_async] can sleep, having taken part of a message: it looks for the
    message's length in bytes from the start of the length itself, so that eight bytes
    may still be missing. *)
Theorem recv_async_can_sleep :
  let n := RefNet.mk_net {[9 := size_bytes 2 ++ [Byte.x01]]} ∅ 0 in
  exists l', on_end false (cliser_client_recv_async msg_fuel) (fresh_link (SK := net53) n 8 9) = Blocked l' /\
    unread (lk_net l') 9 = [].
Proof.
  cbv zeta. set (n := RefNet.mk_net _ _ _).
  set (recv := on_end false (cliser_client_recv_async msg_fuel)).
  exists (end_state recv (fresh_link (SK := net53) n 8 9)).
  pose proof (reply_run recv (fresh_link (SK := net53) n 8 9)) as E.
  replace (reply_of _) with (Sleeps (A := load_ret)) in E by (vm_compute; reflexivity).
  split; [exact E | vm_compute; reflexivity].
Qed.
End Runs.
