(* ===== verification/Server.v ===== *)
(** * The server's side of [src/cliser.c]: its list of clients, life cycles, broadcast.

    A server keeps the clients that connected in a doubly linked list.  The objects
    of a process are a map of [client_t] by address; a [server_t] is in its userdata.
    Built without CUDA, [destroy_copy_context] does nothing and [can_use_fastpath]
    returns 0. *)
From Stdlib Require Import Sorted.
From stdpp Require Import sorting.
From S2P Require Import Prelude RingBuffer Lua Serialize Growth Roundtrip DList Net Cliser.

#[local] Open Scope ipc_scope.

Definition DEFAULT_TIMEOUT_SECONDS : Z := 5 * 60.

Record server_t := mk_server {
  server_sock : Z;
  clients : option Z;
  num_clients : Z;
  server_context : copy_context_t;
}.

Definition set_clients (x : option Z) (v : server_t) : server_t :=
  mk_server (server_sock v) x (num_clients v) (server_context v).
Definition set_num_clients (x : Z) (v : server_t) : server_t :=
  mk_server (server_sock v) (clients v) x (server_context v).
Definition set_server_sock (x : Z) (v : server_t) : server_t :=
  mk_server x (clients v) (num_clients v) (server_context v).
Definition set_server_context (x : copy_context_t) (v : server_t) : server_t :=
  mk_server (server_sock v) (clients v) (num_clients v) x.

Definition set_next (x : option Z) (c : client_t) : client_t :=
  mk_client (sock c) x (prev c) (send_rb c) (recv_rb c) (copy_context c) (tag c) (client_id c)
    (ref_count c).
Definition set_prev (x : option Z) (c : client_t) : client_t :=
  mk_client (sock c) (next c) x (send_rb c) (recv_rb c) (copy_context c) (tag c) (client_id c)
    (ref_count c).
Definition set_tag (x : option (list byte)) (c : client_t) : client_t :=
  mk_client (sock c) (next c) (prev c) (send_rb c) (recv_rb c) (copy_context c) x (client_id c)
    (ref_count c).
Definition set_id (x : Z) (c : client_t) : client_t :=
  mk_client (sock c) (next c) (prev c) (send_rb c) (recv_rb c) (copy_context c) (tag c) x
    (ref_count c).
Definition set_ref_count (x : Z) (c : client_t) : client_t :=
  mk_client (sock c) (next c) (prev c) (send_rb c) (recv_rb c) (copy_context c) (tag c)
    (client_id c) x.

(** The calls the server makes beside those on connected sockets. *)
Class ServerSys `(SK : Sockets) := {
  (** [select] for 30 seconds on the listening socket: whether it is readable. *)
  sys_select_accept : Z -> net -> bool * net;
  (** [accept]: a socket, or -1. *)
  sys_accept : Z -> net -> Z * net;
  (** [setsockopt] of an [int]: the socket, the level, the option, the value; the return
      value is not looked at. *)
  sys_setsockopt : Z -> Z -> Z -> Z -> net -> net;
  (** [gettimeofday], the seconds. *)
  sys_seconds : net -> Z;
  (** [select] on sockets to read from: the return value and the readable ones;
      [None] while the caller sleeps. *)
  sys_select : list Z -> net -> option (Z * list Z * net);
}.

(** The options of a connection: a message leaves at once, and a peer that died is noticed
    after [60 + 8 * 30] seconds. *)
Definition socket_options : list (Z * Z * Z) :=
  let IPPROTO_TCP := 6 in let SOL_SOCKET := 1 in let SOL_TCP := 6 in
  let TCP_NODELAY := 1 in let SO_KEEPALIVE := 9 in
  let TCP_KEEPIDLE := 4 in let TCP_KEEPINTVL := 5 in let TCP_KEEPCNT := 6 in
  [(IPPROTO_TCP, TCP_NODELAY, 1); (SOL_SOCKET, SO_KEEPALIVE, 1);
   (SOL_TCP, TCP_KEEPIDLE, 60); (SOL_TCP, TCP_KEEPINTVL, 30); (SOL_TCP, TCP_KEEPCNT, 8)].

Definition str_timeout : list byte := str "server timed out waiting for clients to connect".
Definition str_invalid_client : list byte :=
  str "server client is invalid, either closed or used outside of server function scope".

(** ** The objects of a process *)

Section Objects.
Context `{SK : Sockets}.

Record proc := mk_proc { p_net : net; p_clients : gmap Z client_t; p_log : list Z }.

(** Touching a client that was freed is undefined. *)
Definition deref (p : Z) : M proc client_t := fun w =>
  match p_clients w !! p with Some c => Done c w | None => Undef end.
Definition update (p : Z) (f : client_t -> client_t) : M proc unit :=
  let! c := deref p in
  modify_st (fun w => mk_proc (p_net w) (<[p := f c]> (p_clients w)) (p_log w)).
Definition free (p : Z) : M proc unit :=
  modify_st (fun w => mk_proc (p_net w) (delete p (p_clients w)) (p_log w)).

(** [calloc]: an address not in use. *)
Definition calloc (c : client_t) : M proc Z := fun w =>
  let p := fresh (dom (D := gset Z) (p_clients w)) in
  Done p (mk_proc (p_net w) (<[p := c]> (p_clients w)) (p_log w)).

Definition on_net {A} (f : net -> A * net) : M proc A := fun w =>
  let '(a, n') := f (p_net w) in Done a (mk_proc n' (p_clients w) (p_log w)).

(** The marker is sent with one call, the result of which is not looked at. *)
Definition destroy_client (p : Z) : M proc unit :=
  let! c := deref p in
  (if negb (sock c =? 0) then
     let! _ := on_net (sys_send (sock c) (size_bytes LEN_INVALID)) in
     let! ret := on_net (sys_close (sock c)) in
     if negb (ret =? 0) then fun w => Raised (ErrCode (sys_errno (p_net w))) w
     else update p (set_sock 0)
   else mret tt) ;;;
  free p.

(** [ud] is the pointer in the userdata; the result is the pointer left in it. *)
Definition cliser_client_close (ud : option Z) : M proc (option Z) :=
  match ud with
  | None => mret None
  | Some p =>
      update p (fun c => set_ref_count (ref_count c - 1) c) ;;;
      let! c := deref p in
      (if ref_count c =? 0 then destroy_client p else mret tt) ;;;
      mret None
  end.

Definition cliser_client_retain (ud : option Z) : M proc unit :=
  match ud with
  | None => undef
  | Some p => update p (fun c => set_ref_count (ref_count c + 1) c)
  end.
End Objects.

(** ** The list of clients *)

Section List.
Context `{SK : Sockets}.

(** A server and its process. *)
Definition srv : Type := server_t * proc.
Definition on_proc {A} : M proc A -> M srv A := zoom snd (fun w s => (s.1, w)).
Definition get_server : M srv server_t := fun s => Done s.1 s.
Definition upd_server (f : server_t -> server_t) : M srv unit :=
  modify_st (fun s => (f s.1, s.2)).

Definition insert_client (p : Z) : M srv unit :=
  let! v := get_server in
  (match clients v with
   | Some h => on_proc (update h (set_prev (Some p))) ;;;
               on_proc (update p (set_next (Some h)))
   | None => mret tt
   end) ;;;
  upd_server (set_clients (Some p)) ;;;
  upd_server (fun v => set_num_clients (u32_add (num_clients v) 1) v).

Definition remove_client (p : Z) : M srv unit :=
  let! c := on_proc (deref p) in
  let! v := get_server in
  (if bool_decide (clients v = Some p) then upd_server (set_clients (next c)) else mret tt) ;;;
  (match next c with
   | Some n => on_proc (update n (set_prev (prev c))) | None => mret tt end) ;;;
  let! c := on_proc (deref p) in
  (match prev c with
   | Some q => on_proc (update q (set_next (next c))) | None => mret tt end) ;;;
  upd_server (fun v => set_num_clients (u32_sub (num_clients v) 1) v).

(** The loops over the list have a turn per client. *)
Fixpoint destroy_clients (fuel : nat) (p : option Z) : M srv unit :=
  match p with
  | None => mret tt
  | Some p =>
      match fuel with
      | O => out_of_fuel
      | S fuel' =>
          let! c := on_proc (deref p) in
          on_proc (destroy_client p) ;;;
          destroy_clients fuel' (next c)
      end
  end.

Definition close_listener : M srv unit :=
  let! v := get_server in
  if negb (server_sock v =? 0) then
    let! ret := on_proc (on_net (sys_close (server_sock v))) in
    if negb (ret =? 0) then fun s => Raised (ErrCode (sys_errno (p_net s.2))) s
    else upd_server (set_server_sock 0)
  else mret tt.

Definition destroy_server : M srv unit :=
  close_listener ;;;
  let! s := get_st in
  destroy_clients (size (p_clients s.2)) (clients s.1) ;;;
  upd_server (set_clients None) ;;;
  upd_server (set_num_clients 0).

Definition cliser_server_close : M srv unit := destroy_server.

(** The clients with the tag ([strcmp] on C strings), in the order of the list. *)
Definition has_tag (t : option (list byte)) (c : client_t) : bool :=
  match t with None => true | Some t => bool_decide (tag c = Some (cstr t)) end.

Fixpoint select_clients (fuel : nat) (t : option (list byte)) (p : option Z) : M srv (list Z) :=
  match p with
  | None => mret []
  | Some p =>
      match fuel with
      | O => out_of_fuel
      | S fuel' =>
          let! c := on_proc (deref p) in
          let! ps := select_clients fuel' t (next c) in
          mret (if has_tag t c then p :: ps else ps)
      end
  end.

(** They go to an array of [num_clients] pointers. *)
Definition tagged_clients (t : option (list byte)) : M srv (list Z) :=
  let! s := get_st in
  let! ps := select_clients (size (p_clients s.2)) t (clients s.1) in
  if num_clients s.1 <? zlen ps then undef else mret ps.
End List.

(** [qsort], with a comparison that gives the sign of a difference. *)
Class Qsort := { qsort : (Z -> Z -> Z) -> list Z -> list Z }.

Class QsortOk `(Q : Qsort) : Prop := {
  qsort_permutation cmp l : qsort cmp l ≡ₚ l;
  qsort_sorted (key : Z -> Z) l :
    StronglySorted (fun a b => key a <= key b) (qsort (fun a b => key a - key b) l);
}.

(** ** The methods of the server *)

Section Methods.
Context `{SK : Sockets} {SS : ServerSys SK} `{L : LuaApi} `{Q : Qsort}.
Context (cliser_write cliser_read : lua_value -> option (Z -> M io unit)).

(** The difference of two [int]: overflowing is undefined. *)
Definition int_sub_ok (a b : Z) : bool := (- 2 ^ 31 <=? a - b) && (a - b <? 2 ^ 31).

Definition ids_of (w : proc) (ps : list Z) : list Z :=
  omap (fun p => client_id <$> p_clients w !! p) ps.
Definition id_of (w : proc) (p : Z) : Z :=
  from_option client_id 0 (p_clients w !! p).

(** [qsort] with [compare_clients] or [compare_clients_inverted]; it may compare any two
    elements. *)
Definition sort_clients (invert : bool) (ps : list Z) : M srv (list Z) :=
  let! s := get_st in
  let ids := ids_of s.2 ps in
  if forallb (fun a => forallb (int_sub_ok a) ids) ids then
    let key p := if invert then - id_of s.2 p else id_of s.2 p in
    mret (qsort (fun p q => key p - key q) ps)
  else undef.

Definition configure_socket (s : Z) : M proc unit :=
  on_net (fun n => (tt, fold_left (fun n '(level, opt, value) =>
    sys_setsockopt s level opt value n) socket_options n)).

(** Taking one connection; [client_connected] without a reference. *)
Definition accept_client (fd : Z) : M srv unit :=
  let! ret := on_proc (on_net (sys_accept fd)) in
  if ret <=? 0 then fun s => Raised (ErrCode (sys_errno (p_net s.2))) s else
  on_proc (configure_socket ret) ;;;
  let! p := on_proc (calloc (set_ref_count 0 (client_connected ret))) in
  insert_client p.

(** The loop that waits for clients; [t] is the time to give up at. *)
Fixpoint accept_loop (fuel : nat) (wait t : Z) : M srv unit :=
  let! v := get_server in
  if num_clients v <? wait then
    match fuel with
    | O => out_of_fuel
    | S fuel' =>
        let! ready := on_proc (on_net (sys_select_accept (server_sock v))) in
        (if (ready : bool) then accept_client (server_sock v) else mret tt) ;;;
        let! s := get_st in
        if t <? sys_seconds (p_net s.2) then raise (ErrStr str_timeout)
        else accept_loop fuel' wait t
    end
  else mret tt.

(** The callback is called with each client in turn. *)
Fixpoint for_each (f : Z -> M srv unit) (ps : list Z) : M srv unit :=
  match ps with [] => mret tt | p :: ps' => f p ;;; for_each f ps' end.

(** The arguments as the [luaL_*] functions deliver them: the number of clients to wait
    for, the tag, the order, and the Lua function. *)
Definition cliser_server_clients (fuel : nat) (wait : Z) (t : option (list byte))
    (invert_order : bool) (f : Z -> M srv unit) : M srv Z :=
  let! s := get_st in
  accept_loop fuel wait ((sys_seconds (p_net s.2) + DEFAULT_TIMEOUT_SECONDS) mod U32_MOD) ;;;
  let! ps := tagged_clients t in
  let! ps := sort_clients invert_order ps in
  for_each f ps ;;;
  mret (zlen ps).

(** [ud] is the [client] field of the [server_client_t]. *)
Definition with_client {A} (ud : option Z) (m : Z -> M srv A) : M srv A :=
  match ud with None => raise (ErrStr str_invalid_client) | Some p => m p end.

Definition cliser_server_tag (ud : option Z) (t : option (list byte))
  : M srv (option (list byte)) :=
  with_client ud (fun p =>
    match t with
    | None => let! c := on_proc (deref p) in mret (tag c)
    | Some t => on_proc (update p (set_tag (Some (cstr t)))) ;;; mret None
    end).

Definition cliser_server_id (ud : option Z) (n : option Z) : M srv (option Z) :=
  with_client ud (fun p =>
    match n with
    | Some n => on_proc (update p (set_id (int_of_size n))) ;;; mret None
    | None => let! c := on_proc (deref p) in mret (Some (client_id c))
    end).

Definition cliser_server_client_close (ud : option Z) : M srv unit :=
  with_client ud (fun p => remove_client p ;;; on_proc (destroy_client p)).

(** The address [getpeername] gives for a socket is [sock_address].  Unlike the other
    methods this one does not test that the client is still there. *)
Definition cliser_server_client_address (sock_address : Z -> list byte) (ud : option Z)
  : M srv (list byte) :=
  match ud with
  | None => undef
  | Some p => let! c := on_proc (deref p) in mret (sock_address (sock c))
  end.

(** A transfer with client [p]'s buffer and the server's [copy_context]. *)
Definition on_send_of {A} (p : Z) (m : M msg_st A) : M srv A :=
  let! c := on_proc (deref p) in
  zoom (fun s => ((p_net s.2, server_context s.1), mk_sv (send_rb c) (p_log s.2)))
       (fun x s => (set_server_context x.1.2 s.1,
                    mk_proc x.1.1 (<[p := set_send_rb (sv_rb x.2) c]> (p_clients s.2))
                      (sv_retained x.2))) m.
Definition on_recv_of {A} (p : Z) (m : M msg_st A) : M srv A :=
  let! c := on_proc (deref p) in
  zoom (fun s => ((p_net s.2, server_context s.1), mk_sv (recv_rb c) (p_log s.2)))
       (fun x s => (set_server_context x.1.2 s.1,
                    mk_proc x.1.1 (<[p := set_recv_rb (sv_rb x.2) c]> (p_clients s.2))
                      (sv_retained x.2))) m.
Definition on_srv_ctx {A} : M io A -> M srv A :=
  zoom (fun s => (p_net s.2, server_context s.1))
       (fun i s => (set_server_context i.2 s.1, mk_proc i.1 (p_clients s.2) (p_log s.2))).

Definition upd_ctx (f : copy_context_t -> copy_context_t) : M srv unit :=
  upd_server (fun v => set_server_context (f (server_context v)) v).
Definition set_fastpath (x : Z) (c : copy_context_t) : copy_context_t := mk_cc (tx c) (rx c) x.

Definition cliser_server_send (fuel : nat) (ud : option Z) (v : lua_value) : M srv unit :=
  with_client ud (fun p =>
    let! c := on_proc (deref p) in
    (if is_userdata v then
       upd_ctx (set_fastpath (use_fastpath (copy_context c))) ;;;
       on_srv_ctx (sock_send_userdata cliser_write v (sock c))
     else on_send_of p (sock_send_msg fuel v (sock c))) ;;;
    upd_ctx (set_tx count_call)).

Definition cliser_server_recv (fuel : nat) (ud : option Z) (arg : lua_value)
  : M srv load_ret :=
  with_client ud (fun p =>
    let! c := on_proc (deref p) in
    let! r := (if is_userdata arg then
                 upd_ctx (set_fastpath (use_fastpath (copy_context c))) ;;;
                 on_srv_ctx (sock_recv_userdata cliser_read arg (sock c)) ;;;
                 mret (LdVal arg)
               else on_recv_of p (sock_recv_msg fuel (sock c))) in
    upd_ctx (set_rx count_call) ;;;
    mret r).

Definition send_to (fuel : nat) (v : lua_value) (p : Z) : M srv unit :=
  let! c := on_proc (deref p) in
  if is_userdata v then on_srv_ctx (sock_send_userdata cliser_write v (sock c))
  else on_send_of p (sock_send_msg fuel v (sock c)).

Definition cliser_server_broadcast (fuel : nat) (v : lua_value) (t : option (list byte))
  : M srv unit :=
  let! ps := tagged_clients t in
  let! ps := sort_clients false ps in
  for_each (send_to fuel v) ps ;;;
  upd_ctx (set_tx count_call).

(** The first client of the list that can be read from. *)
Definition first_readable (w : proc) (ready : list Z) (ps : list Z) : option Z :=
  List.find (fun p => match p_clients w !! p with
                      | Some c => bool_decide (sock c ∈ ready) | None => false end) ps.

(** The value and the client it came from. *)
Definition cliser_server_recv_any (fuel : nat) (t : option (list byte))
  : M srv (option (lua_value * Z)) := fun s =>
  (let! ps := select_clients (size (p_clients s.2)) t (clients s.1) in
   let socks := omap (fun p => sock <$> p_clients s.2 !! p) ps in
   fun s => match sys_select socks (p_net s.2) with
   | None => Blocked s
   | Some (ret, ready, n') =>
       (on_proc (on_net (fun _ => (tt, n'))) ;;;
        if ret <? 0 then fun s => Raised (ErrCode (sys_errno (p_net s.2))) s else
        let! s := get_st in
        let! r := (match first_readable s.2 ready ps with
                   | None => if ret =? 0 then mret None else undef
                   | Some p =>
                       let! c := on_proc (deref p) in
                       let! r := on_recv_of p (sock_recv_msg fuel (sock c)) in
                       mret (match r with LdVal v => Some (v, p) | _ => None end)
                   end) in
        upd_ctx (set_rx count_call) ;;;
        mret r) s
   end) s.
End Methods.

(** ** The invariant of the list *)

Definition linked : gmap Z client_t -> list Z -> Prop :=
  linked_by next prev (fun _ => True).

(** What a client is apart from its links. *)
Definition unlinked_client (c : client_t) : client_t := set_next None (set_prev None c).

Section Rep.
Context `{SK : Sockets}.

Record srv_rep (s : srv) (l : list Z) : Prop := {
  sr_nodup : NoDup l;
  sr_linked : linked (p_clients s.2) l;
  sr_head : clients (fst s) = head l;
  sr_count : num_clients (fst s) = zlen l;
  sr_room : zlen l < U32_MOD;
}.

Definition set_objs (m : gmap Z client_t) (s : srv) : srv :=
  (s.1, mk_proc (p_net s.2) m (p_log s.2)).

Lemma client_update_alter p f (s : srv) :
  is_Some (p_clients s.2 !! p) ->
  on_proc (update p f) s = Done tt (set_objs (alter f p (p_clients s.2)) s).
Proof.
  intros [c Hc]. unfold on_proc, zoom, update, mbnd, deref. rewrite Hc. cbn.
  unfold set_objs. do 3 f_equal. apply map_eq. intros j. destruct (decide (j = p)) as [->|].
  - by rewrite lookup_insert_eq, lookup_alter_eq, Hc.
  - by rewrite lookup_insert_ne, lookup_alter_ne.
Qed.

Lemma deref_done p c (s : srv) : p_clients s.2 !! p = Some c -> on_proc (deref p) s = Done c s.
Proof. intros H. unfold on_proc, zoom, deref. rewrite H. by destruct s. Qed.

Lemma alter_unlinked f (x : Z) (m : gmap Z client_t) : (forall c, unlinked_client (f c) = unlinked_client c) ->
  unlinked_client <$> alter f x m = unlinked_client <$> m.
Proof.
  intros Hf. apply map_eq. intros i. rewrite !lookup_fmap. destruct (decide (i = x)) as [->|].
  - rewrite lookup_alter_eq. destruct (m !! x); [|done]. cbn. by rewrite Hf.
  - by rewrite lookup_alter_ne.
Qed.

(** [insert_client] puts the client at the head. *)
Lemma insert_client_spec s l p c :
  srv_rep s l -> p ∉ l -> p_clients s.2 !! p = Some c -> next c = None -> prev c = None ->
  zlen l + 1 < U32_MOD ->
  exists m, insert_client p s = Done tt
      (set_num_clients (zlen l + 1) (set_clients (Some p) s.1), mk_proc (p_net s.2) m (p_log s.2)) /\
    srv_rep (set_num_clients (zlen l + 1) (set_clients (Some p) s.1),
             mk_proc (p_net s.2) m (p_log s.2)) (p :: l) /\
    unlinked_client <$> m = unlinked_client <$> p_clients s.2.
Proof.
  intros [Hnd Hl Hh Hn Hr] Hp Hc Hnx Hpv Hroom. pose proof (zlen_nonneg l).
  exists (pushed set_next set_prev (p_clients s.2) p c l).
  assert (u32_add (zlen l) 1 = zlen l + 1) as Hadd
    by (unfold u32_add; apply Z.mod_small; lia).
  split; [|split].
  - unfold insert_client, mbnd at 1, get_server. rewrite Hh. destruct l as [|h l]; cbn [head].
    + unfold mbnd, upd_server, modify_st. cbn. rewrite Hn. by destruct s as [v []].
    + assert (p <> h) as Hne by (intros ->; apply Hp; left).
      destruct (linked_by_in _ _ _ _ _ h Hl) as (ch & Ech & _); [left|].
      unfold mbnd at 1 2. rewrite client_update_alter by (by eexists).
      rewrite client_update_alter by (cbn; rewrite lookup_alter_ne by done; by eexists).
      unfold mbnd, upd_server, modify_st. cbn. rewrite Hn, Hadd. unfold set_objs. cbn.
      do 3 f_equal. apply map_eq. intros j. destruct (decide (j = p)) as [->|].
      * by rewrite lookup_insert_eq, lookup_alter_eq, lookup_alter_ne, Hc.
      * by rewrite lookup_insert_ne, lookup_alter_ne.
  - split; cbn; try done.
    + by apply NoDup_cons.
    + by apply pushed_linked.
    + rewrite zlen_cons. lia.
    + rewrite zlen_cons. lia.
  - destruct l as [|h l]; [done|]. cbn [pushed].
    assert (p <> h) as Hne by (intros ->; apply Hp; left).
    rewrite fmap_insert. change (unlinked_client (set_next _ c)) with (unlinked_client c).
    rewrite alter_unlinked by done. apply insert_id. by rewrite lookup_fmap, Hc.
Qed.

(** [remove_client] takes it out. *)
Lemma remove_client_spec s l1 l2 p c :
  srv_rep s (l1 ++ p :: l2) -> p_clients s.2 !! p = Some c ->
  exists s', remove_client p s = Done tt s' /\ srv_rep s' (l1 ++ l2) /\
    p_net s'.2 = p_net s.2 /\ p_log s'.2 = p_log s.2 /\
    server_sock (fst s') = server_sock (fst s) /\
    unlinked_client <$> p_clients s'.2 = unlinked_client <$> p_clients s.2.
Proof.
  intros [Hnd Hl Hh Hn Hr] Hc.
  pose proof (fun x => linked_next _ _ _ l1 l2 p _ c x Hnd Hl Hc) as Hnx.
  pose proof (fun x => linked_prev _ _ _ l1 l2 p _ c x Hnd Hl Hc) as Hpv.
  pose proof (removed_head _ _ _ l1 l2 p _ c (clients s.1) Hnd Hl Hc Hh) as Hhead.
  assert (linked (unlinked next prev set_next set_prev (p_clients s.2) c) (l1 ++ l2)) as Hl'
    by (by eapply unlinked_linked).
  exists (mk_server (server_sock s.1) (head (l1 ++ l2)) (zlen (l1 ++ l2)) (server_context s.1),
          mk_proc (p_net s.2) (unlinked next prev set_next set_prev (p_clients s.2) c) (p_log s.2)).
  assert (u32_sub (num_clients s.1) 1 = zlen (l1 ++ l2)) as Hsub.
  { rewrite Hn. rewrite !zlen_app, zlen_cons in *. unfold u32_sub.
    pose proof (zlen_nonneg l1). pose proof (zlen_nonneg l2). rewrite Z.mod_small; lia. }
  split; [|split; [|split; [done|split; [done|split; [done|]]]]].
  - unfold remove_client, mbnd at 1. rewrite (deref_done p c) by done.
    unfold mbnd at 1, get_server. rewrite <- Hhead, <- Hsub.
    set (s1 := (set_clients (if bool_decide (clients s.1 = Some p) then next c else clients s.1) s.1,
                s.2) : srv).
    unfold mbnd at 1.
    assert ((if bool_decide (clients s.1 = Some p) then upd_server (set_clients (next c))
             else mret tt) s = Done tt s1) as ->
      by (subst s1; case_bool_decide; [done | by destruct s as [[] []]]).
    unfold unlinked. destruct (next c) as [n|] eqn:En.
    + destruct (Hnx n eq_refl) as [Hnp Hni]. unfold mbnd at 1. rewrite client_update_alter by done.
      unfold mbnd at 1. rewrite (deref_done p c) by (cbn; by rewrite lookup_alter_ne).
      destruct (prev c) as [q|] eqn:Eq; [|done]. destruct (Hpv q eq_refl) as [Hqp Hqi].
      unfold mbnd at 1. rewrite En, client_update_alter; [done|]. cbn. by apply lookup_alter_is_Some.
    + unfold mbnd at 1. cbn [mret]. unfold mbnd at 1. rewrite (deref_done p c) by done.
      destruct (prev c) as [q|] eqn:Eq; [|by subst s1; destruct s as [? []]]. destruct (Hpv q eq_refl) as [Hqp Hqi].
      unfold mbnd at 1. rewrite En, client_update_alter by done. done.
  - split; cbn; try done.
    + apply NoDup_app in Hnd as (H1 & H2 & H3). apply NoDup_cons in H3 as [_ H3].
      apply NoDup_app. split; [done|]. split; [|done]. intros x Hx Hx2. apply (H2 x Hx). by right.
    + rewrite !zlen_app, zlen_cons in *. lia.
  - cbn. unfold unlinked. destruct (next c), (prev c); rewrite ?alter_unlinked by done; done.
Qed.
End Rep.

(** ** Calls that leave the list as it is *)

Definition links (c : client_t) : option Z * option Z := (next c, prev c).

Section Links.
Context `{SK : Sockets} {SS : ServerSys SK} `{L : LuaApi} `{Q : Qsort}.
Context (cliser_write cliser_read : lua_value -> option (Z -> M io unit)).

Record same_links (s s' : srv) : Prop := {
  sl_links : links <$> p_clients s'.2 = links <$> p_clients s.2;
  sl_head : clients (fst s') = clients (fst s);
  sl_count : num_clients (fst s') = num_clients (fst s);
}.

#[local] Instance same_links_pre : PreOrder same_links.
Proof.
  split; [by split|]. intros s1 s2 s3 [] []. split; congruence.
Qed.

Lemma linked_links (m m' : gmap Z client_t) l :
  links <$> m' = links <$> m -> linked m l -> linked m' l.
Proof.
  intros E Hl i p Hp. destruct (Hl i p Hp) as (c & Ec & Hn & Hpv & _).
  assert ((links <$> m') !! p = Some (links c)) as H by (by rewrite E, lookup_fmap, Ec).
  rewrite lookup_fmap in H. destruct (m' !! p) as [c'|]; [|done]. cbn in H.
  injection H as H1 H2. exists c'. repeat split; congruence.
Qed.

Lemma same_links_rep s s' l : same_links s s' -> srv_rep s l -> srv_rep s' l.
Proof.
  intros [] []. split; try congruence; try done. by eapply linked_links.
Qed.

(** Whatever the outcome, the list is as before. *)
Definition keeps {A} (m : M srv A) : Prop := forall s,
  match m s with Done _ s' | Raised _ s' | Blocked s' => same_links s s' | _ => True end.

Lemma keeps_bind {A B} (m : M srv A) (k : A -> M srv B) :
  keeps m -> (forall a, keeps (k a)) -> keeps (mbnd m k).
Proof.
  intros Hm Hk s. unfold mbnd. specialize (Hm s). destruct (m s) as [a s'| | | |]; try done.
  specialize (Hk a s'). destruct (k a s'); try done; by transitivity s'.
Qed.

Lemma keeps_ret {A} (a : A) : keeps (mret a).
Proof. by intros s. Qed.
Lemma keeps_raise {A} e : keeps (raise (A := A) e).
Proof. by intros s. Qed.
Lemma keeps_undef {A} : keeps (undef (A := A)).
Proof. by intros s. Qed.
Lemma keeps_get : keeps get_st.
Proof. by intros s. Qed.
Lemma keeps_errno {A} :
  keeps (fun s => Raised (A := A) (ErrCode (sys_errno (p_net s.2))) s).
Proof. by intros s. Qed.
Lemma keeps_if {A} (b : bool) (m1 m2 : M srv A) :
  keeps m1 -> keeps m2 -> keeps (if b then m1 else m2).
Proof. by destruct b. Qed.

Lemma keeps_deref p : keeps (on_proc (deref p)).
Proof. intros s. unfold on_proc, zoom, deref. by destruct (p_clients s.2 !! p). Qed.

Lemma keeps_update p f : (forall c, links (f c) = links c) -> keeps (on_proc (update p f)).
Proof.
  intros Hf s. unfold on_proc, zoom, update, mbnd, deref.
  destruct (p_clients s.2 !! p) as [c|] eqn:E; [|done]. split; cbn; try done.
  rewrite fmap_insert, Hf. apply insert_id. by rewrite lookup_fmap, E.
Qed.

Lemma keeps_net {A} (f : net -> A * net) : keeps (on_proc (on_net f)).
Proof. intros s. unfold on_proc, zoom, on_net. by destruct (f _). Qed.

Lemma keeps_ctx f : keeps (upd_ctx f).
Proof. by intros s. Qed.

Lemma keeps_srv_ctx {A} (m : M io A) : keeps (on_srv_ctx m).
Proof. intros s. unfold on_srv_ctx, zoom. by destruct (m _). Qed.

Lemma keeps_zoom_client {A} p c (get : srv -> msg_st) f (m : M msg_st A) s :
  p_clients s.2 !! p = Some c -> (forall rb, links (f rb) = links c) ->
  match zoom get (fun x s => (set_server_context x.1.2 s.1,
        mk_proc x.1.1 (<[p := f (sv_rb x.2)]> (p_clients s.2)) (sv_retained x.2))) m s with
  | Done _ s' | Raised _ s' | Blocked s' => same_links s s' | _ => True end.
Proof.
  intros E Hf. unfold zoom. destruct (m _); try done; split; cbn; try done;
    rewrite fmap_insert, Hf; apply insert_id; by rewrite lookup_fmap, E.
Qed.

Lemma keeps_on_send {A} p (m : M msg_st A) : keeps (on_send_of p m).
Proof.
  intros s. unfold on_send_of, mbnd. destruct (p_clients s.2 !! p) as [c|] eqn:E.
  - rewrite (deref_done p c) by done. by apply (keeps_zoom_client p c _ (fun rb => set_send_rb rb c)).
  - unfold on_proc, zoom, deref. by rewrite E.
Qed.

Lemma keeps_on_recv {A} p (m : M msg_st A) : keeps (on_recv_of p m).
Proof.
  intros s. unfold on_recv_of, mbnd. destruct (p_clients s.2 !! p) as [c|] eqn:E.
  - rewrite (deref_done p c) by done. by apply (keeps_zoom_client p c _ (fun rb => set_recv_rb rb c)).
  - unfold on_proc, zoom, deref. by rewrite E.
Qed.

#[local] Hint Resolve keeps_bind keeps_ret keeps_raise keeps_undef keeps_get keeps_if keeps_deref
  keeps_net keeps_ctx keeps_srv_ctx keeps_on_send keeps_on_recv keeps_errno : ipc.

Lemma keeps_select fuel t : forall p, keeps (select_clients fuel t p).
Proof. induction fuel; intros [p|]; cbn; eauto with ipc. by intros s. Qed.

Lemma keeps_for_each f ps : (forall p, keeps (f p)) -> keeps (for_each f ps).
Proof. intros. induction ps; cbn; eauto with ipc. Qed.

Lemma keeps_tagged t : keeps (tagged_clients t).
Proof. unfold tagged_clients. eauto 6 using keeps_select with ipc. Qed.

Lemma keeps_sort invert ps : keeps (sort_clients invert ps).
Proof. unfold sort_clients. eauto with ipc. Qed.

Lemma keeps_send fuel ud v : keeps (cliser_server_send cliser_write fuel ud v).
Proof. unfold cliser_server_send, with_client. destruct ud; eauto 8 with ipc. Qed.

Lemma keeps_recv fuel ud arg : keeps (cliser_server_recv cliser_read fuel ud arg).
Proof. unfold cliser_server_recv, with_client. destruct ud; eauto 9 with ipc. Qed.

Lemma keeps_tag ud t : keeps (cliser_server_tag ud t).
Proof.
  unfold cliser_server_tag, with_client. destruct ud, t; eauto with ipc.
  apply keeps_bind; [by apply keeps_update | eauto with ipc].
Qed.

Lemma keeps_id ud n : keeps (cliser_server_id ud n).
Proof.
  unfold cliser_server_id, with_client. destruct ud, n; eauto with ipc.
  apply keeps_bind; [by apply keeps_update | eauto with ipc].
Qed.

Lemma keeps_broadcast fuel v t : keeps (cliser_server_broadcast cliser_write fuel v t).
Proof.
  unfold cliser_server_broadcast. apply keeps_bind; [apply keeps_tagged|]. intros ps.
  apply keeps_bind; [apply keeps_sort|]. intros ps'. apply keeps_bind; [|eauto with ipc].
  apply keeps_for_each. intros p. unfold send_to. eauto with ipc.
Qed.

Lemma keeps_recv_any fuel t : keeps (cliser_server_recv_any fuel t).
Proof.
  intros s0. unfold cliser_server_recv_any.
  match goal with |- match ?m s0 with _ => _ end => enough (keeps m) as H by apply H end.
  apply keeps_bind; [apply keeps_select|]. intros ps s. destruct (sys_select _ _) as [[[ret ready] n']|];
    [|done].
  match goal with |- match ?m s with _ => _ end => enough (keeps m) as H by apply H end.
  apply keeps_bind; [eauto with ipc|]. intros []. apply keeps_if; [eauto with ipc|].
  apply keeps_bind; [eauto with ipc|]. intros s1. apply keeps_bind; [|eauto with ipc].
  destruct (first_readable _ _ _); eauto 8 with ipc.
Qed.
End Links.

(** ** Calls that change the list *)

Section Changes.
Context `{SK : Sockets} {SS : ServerSys SK} `{L : LuaApi} `{Q : Qsort}.

(** The list is well linked and has every client there is, but for those of [lost]. *)
Definition srv_ok (lost : list Z) (s : srv) (l : list Z) : Prop :=
  srv_rep s l /\ forall p, is_Some (p_clients s.2 !! p) -> p ∈ l \/ p ∈ lost.

Lemma same_links_ok lost s s' l : same_links s s' -> srv_ok lost s l -> srv_ok lost s' l.
Proof.
  intros Hsl [Hr Hall]. split; [by eapply same_links_rep|]. intros p Hp. apply Hall.
  destruct Hsl as [E _ _]. apply (f_equal (.!! p)) in E. rewrite !lookup_fmap in E.
  destruct (p_clients s'.2 !! p); [|by destruct Hp]. by destruct (p_clients s.2 !! p).
Qed.

(** A new client at the head of the list. *)
Lemma accept_one_spec lost s l c :
  srv_ok lost s l -> next c = None -> prev c = None -> zlen l + 1 < U32_MOD ->
  exists p s', (let! p := on_proc (calloc c) in insert_client p) s = Done tt s' /\
    srv_ok lost s' (p :: l) /\ unlinked_client <$> p_clients s'.2 !! p = Some (unlinked_client c).
Proof.
  intros [Hr Hall] Hn Hp Hroom. set (p := fresh (dom (D := gset Z) (p_clients s.2))).
  assert (p_clients s.2 !! p = None) as Hfr.
  { apply not_elem_of_dom. apply is_fresh. }
  set (s1 := (s.1, mk_proc (p_net s.2) (<[p := c]> (p_clients s.2)) (p_log s.2)) : srv).
  assert (p ∉ l) as Hpl.
  { intros Hin. destruct (linked_by_in _ _ _ _ _ _ (sr_linked _ _ Hr) Hin) as (c' & E & _).
    congruence. }
  assert (srv_rep s1 l) as Hr1.
  { destruct Hr. split; try done. cbn. intros i q Hq. destruct (sr_linked0 i q Hq) as (cq & E & H).
    exists cq. split; [|done]. rewrite lookup_insert_ne; [done|]. intros <-.
    apply Hpl. by eapply list_elem_of_lookup_2. }
  destruct (insert_client_spec s1 l p c Hr1 Hpl) as (m & E & Hr2 & Hm); try done;
    [cbn; by rewrite lookup_insert_eq|].
  eexists p, _. split; [exact E|].
  assert (forall q, unlinked_client <$> m !! q = unlinked_client <$> <[p := c]> (p_clients s.2) !! q)
    as Hq by (intros q; by rewrite <- !lookup_fmap, Hm).
  split; [split; [done|]|].
  - intros q. cbn. destruct (decide (q = p)) as [->|Hne]; [by left; left|]. intros Hq'.
    destruct (Hall q); [|left; by right | by right]. specialize (Hq q). rewrite lookup_insert_ne in Hq by done.
    destruct Hq' as [cq Ecq]. rewrite Ecq in Hq. by destruct (p_clients s.2 !! q).
  - cbn. by rewrite Hq, lookup_insert_eq.
Qed.

Lemma accept_client_spec lost fd s l :
  srv_ok lost s l -> zlen l + 1 < U32_MOD ->
  match accept_client fd s with
  | Done _ s' | Raised _ s' => exists l', srv_ok lost s' (l' ++ l) | _ => False end.
Proof.
  intros Hok Hl. unfold accept_client, mbnd at 1. pose proof (keeps_net (sys_accept fd) s) as K.
  destruct (on_proc (on_net (sys_accept fd)) s) as [ret s1| | | |] eqn:E;
    try (unfold on_proc, zoom, on_net in E; by destruct (sys_accept _ _)).
  pose proof (same_links_ok _ _ _ _ K Hok) as Hok1. destruct (ret <=? 0); [by exists []|].
  pose proof (keeps_net (fun n => (tt, fold_left (fun n '(level, opt, value) =>
    sys_setsockopt ret level opt value n) socket_options n)) s1) as K2.
  unfold mbnd at 1, configure_socket.
  destruct (on_proc (on_net _) s1) as [[] s2| | | |] eqn:E2; try done.
  destruct (accept_one_spec lost s2 l (set_ref_count 0 (client_connected ret)))
    as (p & s3 & E3 & Hok3 & _); [by eapply same_links_ok | done..|]. rewrite E3. by exists [p].
Qed.

(** Waiting for clients: with any outcome the clients that were there stay, in the same
    order, and when it returns there are as many as asked for. *)
Lemma accept_loop_spec lost fuel wait t : forall s l,
  srv_ok lost s l -> wait < U32_MOD ->
  match accept_loop fuel wait t s with
  | Done _ s' => exists l', srv_ok lost s' (l' ++ l) /\ wait <= zlen (l' ++ l)
  | Raised _ s' | Blocked s' => exists l', srv_ok lost s' (l' ++ l)
  | Undef => False
  | NoFuel => True
  end.
Proof.
  induction fuel as [|fuel IH]; intros s l Hok Hw; pose proof (sr_count _ _ (proj1 Hok)) as Hn;
    cbn [accept_loop]; unfold mbnd at 1, get_server; rewrite Hn;
    (destruct (Z.ltb_spec (zlen l) wait); [|by exists []]); [done|].
  unfold mbnd at 1. pose proof (keeps_net (sys_select_accept (server_sock s.1)) s) as K1.
  destruct (on_proc (on_net (sys_select_accept _)) s) as [ready s1| | | |] eqn:E1;
    try (unfold on_proc, zoom, on_net in E1; by destruct (sys_select_accept _ _)).
  pose proof (same_links_ok _ _ _ _ K1 Hok) as Hok1. unfold mbnd at 1.
  assert (match (if ready then accept_client (server_sock s.1) else mret tt) s1 with
    | Done _ s2 | Raised _ s2 => exists l', srv_ok lost s2 (l' ++ l) | _ => False end) as H2
    by (destruct ready; [apply accept_client_spec; [done|lia] | by exists []]).
  destruct ((if ready then accept_client (server_sock s.1) else mret tt) s1)
    as [[] s2|e s2| | |]; try done.
  destruct H2 as (l2 & Hok2). unfold mbnd, get_st.
  destruct (t <? sys_seconds (p_net s2.2)); [by exists l2|].
  specialize (IH s2 (l2 ++ l) Hok2 Hw).
  destruct (accept_loop fuel wait t s2); try done.
  - destruct IH as (l' & IH). exists (l' ++ l2). by rewrite <- app_assoc.
  - destruct IH as (l' & IH). exists (l' ++ l2). by rewrite <- app_assoc.
  - destruct IH as (l' & IH). exists (l' ++ l2). by rewrite <- app_assoc.
Qed.

(** [destroy_client] sends the marker, closes the socket and frees the client. *)
Lemma destroy_client_spec p c (s : srv) :
  p_clients s.2 !! p = Some c ->
  match on_proc (destroy_client p) s with
  | Done _ s' => p_clients s'.2 = delete p (p_clients s.2) /\ s'.1 = s.1 /\
      p_net s'.2 = (if sock c =? 0 then p_net s.2 else
        (sys_close (sock c) (sys_send (sock c) (size_bytes LEN_INVALID) (p_net s.2)).2).2)
  | Raised _ s' => p_clients s'.2 = p_clients s.2 /\ s'.1 = s.1
  | _ => False
  end.
Proof.
  intros Hc. unfold on_proc, zoom, destroy_client, mbnd, deref. rewrite Hc.
  destruct (sock c =? 0) eqn:Es; cbn [negb]; [by cbn|]. unfold on_net.
  destruct (sys_send _ _ _) as [r1 n1]. cbn [p_net snd]. destruct (sys_close _ n1) as [r2 n2].
  cbn [p_net]. destruct (r2 =? 0); cbn [negb]; [|done].
  unfold update, mbnd, deref. cbn [p_clients]. rewrite Hc. cbn. split; [|done].
  by rewrite delete_insert_eq.
Qed.

Lemma client_linked_delete m l p : linked m l -> p ∉ l -> linked (delete p m) l.
Proof.
  intros Hl Hp i q Hq. destruct (Hl i q Hq) as (c & E & H). exists c. split; [|done].
  rewrite lookup_delete_ne; [done|]. intros <-. apply Hp. by eapply list_elem_of_lookup_2.
Qed.

(** Closing a client takes it out of the list and frees it, unless [close] fails. *)
Lemma client_close_spec lost s l1 l2 p :
  srv_ok lost s (l1 ++ p :: l2) ->
  match cliser_server_client_close (Some p) s with
  | Done _ s' => srv_ok lost s' (l1 ++ l2) /\ p_clients s'.2 !! p = None
  | Raised _ s' => srv_ok (p :: lost) s' (l1 ++ l2)
  | _ => False
  end.
Proof.
  intros [Hr Hall]. destruct (linked_by_in _ _ _ _ _ p (sr_linked _ _ Hr)) as (c & Hc & _);
    [set_solver|].
  destruct (remove_client_spec s l1 l2 p c Hr Hc) as (s1 & E1 & Hr1 & _ & _ & _ & Hm).
  assert (forall q, is_Some (p_clients s1.2 !! q) -> is_Some (p_clients s.2 !! q)) as Hdom.
  { intros q Hq. apply (f_equal (.!! q)) in Hm. rewrite !lookup_fmap in Hm.
    destruct Hq as [cq Hq]. rewrite Hq in Hm. by destruct (p_clients s.2 !! q). }
  assert (is_Some (p_clients s1.2 !! p)) as [c1 Hc1].
  { apply (f_equal (.!! p)) in Hm. rewrite !lookup_fmap, Hc in Hm.
    by destruct (p_clients s1.2 !! p). }
  assert (p ∉ l1 ++ l2) as Hp.
  { pose proof (sr_nodup _ _ Hr) as Hnd. apply NoDup_app in Hnd as (_ & H1 & [H2 _]%NoDup_cons).
    intros [Hin|Hin]%elem_of_app; [apply (H1 p Hin); left | done]. }
  unfold cliser_server_client_close, with_client, mbnd. rewrite E1.
  pose proof (destroy_client_spec p c1 s1 Hc1) as D.
  destruct (on_proc (destroy_client p) s1) as [[] s2|e s2| | |]; try done.
  - destruct D as (Dm & Ds & _). destruct Hr1. split; [split|].
    + split; try done; try (by rewrite Ds). rewrite Dm. by apply client_linked_delete.
    + intros q. rewrite Dm. destruct (decide (q = p)) as [->|Hne].
      * rewrite lookup_delete_eq. by intros [].
      * rewrite lookup_delete_ne by done. intros Hq%Hdom%Hall. set_solver.
    + by rewrite Dm, lookup_delete_eq.
  - destruct D as (Dm & Ds). destruct Hr1. split.
    + split; try done; try (by rewrite Ds). by rewrite Dm.
    + intros q. rewrite Dm. intros Hq%Hdom%Hall. set_solver.
Qed.

(** The [next] pointers alone: what is left of the list while it is destroyed. *)
Definition chain (m : gmap Z client_t) (l : list Z) : Prop :=
  forall i p, l !! i = Some p -> exists c, m !! p = Some c /\ next c = l !! S i.

Lemma linked_chain m l : linked m l -> chain m l.
Proof. intros H i p Hp. destruct (H i p Hp) as (c & E & Hn & _). eauto. Qed.

Lemma chain_tail m p l : chain m (p :: l) -> chain m l.
Proof. intros H i. apply (H (S i)). Qed.

Lemma destroy_clients_spec fuel : forall l s,
  NoDup l -> chain (p_clients s.2) l -> (length l <= fuel)%nat ->
  match destroy_clients fuel (head l) s with
  | Done _ s' => s'.1 = s.1 /\ forall p, is_Some (p_clients s'.2 !! p) ->
      p ∉ l /\ is_Some (p_clients s.2 !! p)
  | Raised _ s' => dom (p_clients s'.2) ⊆ dom (p_clients s.2) /\
      (dom (p_clients s'.2) = dom (p_clients s.2) -> p_clients s'.2 = p_clients s.2 /\ s'.1 = s.1)
  | _ => False
  end.
Proof.
  induction fuel as [|fuel IH]; intros [|p l] s Hnd Hch Hf; cbn [head destroy_clients];
    try (split; [done|]; intros; split; [set_solver | done]); [cbn in Hf; lia|].
  destruct (Hch 0%nat p eq_refl) as (c & Hc & Hn). unfold mbnd at 1. rewrite (deref_done p c) by done.
  unfold mbnd at 1. pose proof (destroy_client_spec p c s Hc) as D.
  destruct (on_proc (destroy_client p) s) as [[] s1|e s1| | |]; try done;
    [|by destruct D as [-> ->]].
  destruct D as (Dm & Ds & _). apply NoDup_cons in Hnd as [Hp Hnd].
  assert (next c = head l) as -> by (rewrite Hn; by destruct l).
  assert (chain (p_clients s1.2) l) as Hch1.
  { intros i q Hq. destruct (chain_tail _ _ _ Hch i q Hq) as (cq & E & Hnq). exists cq.
    split; [|done]. rewrite Dm, lookup_delete_ne; [done|]. intros <-.
    apply Hp. by eapply list_elem_of_lookup_2. }
  specialize (IH l s1 Hnd Hch1). cbn in Hf.
  destruct (destroy_clients fuel (head l) s1); try (apply IH; lia).
  2:{ destruct IH as [Hsub _]; [lia|]. rewrite Dm, dom_delete_L in Hsub. split; [set_solver|].
      intros Hd. rewrite Hd in Hsub. assert (p ∈ dom (p_clients s.2)) by by apply elem_of_dom.
      set_solver. }
  destruct IH as [E H]; [lia|]. split; [congruence|]. intros q Hq. destruct (H q Hq) as [Hq1 Hq2].
  rewrite Dm in Hq2. destruct (decide (q = p)) as [->|Hne].
  - rewrite lookup_delete_eq in Hq2. by destruct Hq2.
  - rewrite lookup_delete_ne in Hq2 by done. split; [set_solver | done].
Qed.

(** Closing the server frees every client of the list; when a [close] fails before any is
    freed nothing has changed but the sockets. *)
Lemma server_close_spec lost s l : srv_ok lost s l ->
  match cliser_server_close s with
  | Done _ s' => srv_ok lost s' [] /\ server_sock (fst s') = 0
  | Raised _ s' => dom (p_clients s'.2) = dom (p_clients s.2) -> srv_ok lost s' l
  | _ => False
  end.
Proof.
  intros [Hr Hall]. unfold cliser_server_close, destroy_server, mbnd at 1.
  assert (match close_listener s with
    | Done _ s1 => same_links s s1 /\ p_clients s1.2 = p_clients s.2 /\ server_sock (fst s1) = 0
    | Raised _ s1 => same_links s s1 | _ => False end) as H1.
  { unfold close_listener, mbnd, get_server, on_proc, zoom, on_net.
    destruct (Z.eqb_spec (server_sock s.1) 0); cbn [negb]; [by split; [|split]|].
    destruct (sys_close _ _) as [r n1]. by destruct (r =? 0). }
  destruct (close_listener s) as [[] s1|e s1| | |]; try done;
    [|intros _; by apply (same_links_ok _ _ _ _ H1)].
  destruct H1 as (Hsl & Hm & Hz). assert (srv_ok lost s1 l) as Hok1
    by (apply (same_links_ok _ _ _ _ Hsl); by split).
  clear Hr. pose proof (proj1 Hok1) as Hr. unfold mbnd at 1, get_st. unfold mbnd at 1.
  rewrite (sr_head _ _ Hr).
  pose proof (destroy_clients_spec (size (p_clients s1.2)) l s1 (sr_nodup _ _ Hr)) as D.
  assert (length l <= size (p_clients s1.2))%nat as Hsz
    by (apply (linked_by_size _ _ _ _ _ (sr_nodup _ _ Hr) (sr_linked _ _ Hr))).
  assert (chain (p_clients s1.2) l) as Hch by (by apply linked_chain, Hr).
  specialize (D Hch Hsz). destruct (destroy_clients _ (head l) s1) as [[] s2|e s2| | |]; try done.
  2:{ rewrite <- Hm. intros Hd. destruct D as [_ D]. destruct (D Hd) as [Em Es].
      destruct Hok1 as [[] Hall1]. split; [split|]; rewrite ?Es; try done; by rewrite Em. }
  destruct D as [E D]. cbn. rewrite E. split; [split; [split; cbn; try done|] | exact Hz].
  - constructor.
  - intros p Hp. cbn in Hp. destruct (D p Hp) as [H1 H2]. right. by destruct (proj2 Hok1 p H2).
Qed.
End Changes.

(** ** The clients a call works on *)

Section Walk.
Context `{SK : Sockets} {SS : ServerSys SK} `{L : LuaApi} `{Q : Qsort} {Qok : QsortOk Q}.
Context (cliser_write : lua_value -> option (Z -> M io unit)).

(** The clients of the list with the tag. *)
Definition tagged (s : srv) (t : option (list byte)) (l : list Z) : list Z :=
  List.filter (fun p => from_option (has_tag t) false (p_clients s.2 !! p)) l.

Lemma select_clients_spec fuel t s : forall l,
  chain (p_clients s.2) l -> (length l <= fuel)%nat ->
  select_clients fuel t (head l) s = Done (tagged s t l) s.
Proof.
  induction fuel as [|fuel IH]; intros [|p l] Hch Hf; try done; [cbn in Hf; lia|].
  destruct (Hch 0%nat p eq_refl) as (c & Hc & Hn). cbn [head select_clients].
  unfold mbnd at 1. rewrite (deref_done p c) by done.
  assert (next c = head l) as -> by (rewrite Hn; by destruct l).
  unfold mbnd. rewrite IH by (by eapply chain_tail || (cbn in Hf; lia)).
  unfold tagged. cbn [List.filter]. rewrite Hc. cbn. by destruct (has_tag t c).
Qed.

Lemma zlen_filter {A} (f : A -> bool) l : zlen (List.filter f l) <= zlen l.
Proof. unfold zlen. pose proof (List.filter_length_le f l). lia. Qed.

(** The array of the clients is large enough, and holds those of the list. *)
Lemma tagged_clients_spec s l t : srv_rep s l -> tagged_clients t s = Done (tagged s t l) s.
Proof.
  intros []. unfold tagged_clients, mbnd, get_st. rewrite sr_head0.
  rewrite select_clients_spec; [|by apply linked_chain | by eapply linked_by_size].
  rewrite sr_count0. pose proof (zlen_filter (fun p =>
    from_option (has_tag t) false (p_clients s.2 !! p)) l) as H.
  unfold tagged in *. by rewrite (proj2 (Z.ltb_ge _ _)).
Qed.

(** Ids no two of which are [2^31] or more apart. *)
Definition ids_close (s : srv) (l : list Z) : Prop :=
  forall p q c d, p ∈ l -> q ∈ l -> p_clients s.2 !! p = Some c -> p_clients s.2 !! q = Some d ->
  - 2 ^ 31 <= client_id c - client_id d < 2 ^ 31.

Lemma ids_close_ok s l : ids_close s l ->
  forallb (fun a => forallb (int_sub_ok a) (ids_of s.2 l)) (ids_of s.2 l) = true.
Proof.
  intros H. apply forallb_forall. intros a Ha. apply forallb_forall. intros b Hb.
  rewrite <- list_elem_of_In in Ha, Hb. unfold ids_of in *.
  apply list_elem_of_omap in Ha as (p & Hp & (c & Hc & ->)%fmap_Some).
  apply list_elem_of_omap in Hb as (q & Hq & (d & Hd & ->)%fmap_Some).
  specialize (H p q c d Hp Hq Hc Hd). unfold int_sub_ok. apply andb_true_intro. lia.
Qed.

Lemma sorted_weaken {A} (R1 R2 : A -> A -> Prop) l :
  (forall x y, R1 x y -> R2 x y) -> StronglySorted R1 l -> StronglySorted R2 l.
Proof.
  intros H. induction 1 as [|x l _ IH Hx]; constructor; [done|].
  eapply List.Forall_impl; [|exact Hx]. auto.
Qed.

(** The order the clients are worked on in. *)
Definition visit_order (invert : bool) (s : srv) (ps qs : list Z) : Prop :=
  qs ≡ₚ ps /\
  StronglySorted (fun p q => if invert then id_of s.2 q <= id_of s.2 p
                             else id_of s.2 p <= id_of s.2 q) qs.

Lemma sort_clients_spec invert s ps : ids_close s ps ->
  exists qs, sort_clients invert ps s = Done qs s /\ visit_order invert s ps qs.
Proof.
  intros H. unfold sort_clients, mbnd, get_st. rewrite ids_close_ok by done.
  eexists. split; [reflexivity|]. split; [apply qsort_permutation|].
  destruct invert; [|apply (qsort_sorted (id_of s.2))].
  eapply sorted_weaken; [|apply (qsort_sorted (fun p => - id_of s.2 p))].
  cbn. intros. lia.
Qed.
End Walk.

(** ** Broadcast *)

Section Broadcast.
Context `{SK : Sockets} {SKok : SocketsOk SK} {SS : ServerSys SK}.
Context `{L : LuaApi} {Lok : LuaApiOk L} `{Q : Qsort} {Qok : QsortOk Q}.
Context (cliser_write : lua_value -> option (Z -> M io unit)).
Context (fuel : nat) (Hfuel : (msg_fuel <= fuel)%nat) (v : lua_value) (bs : list byte).
Hypothesis Hv : message v bs.

Definition sock_of (s : srv) (p : Z) : Z := from_option sock 0 (p_clients s.2 !! p).

(** A client a message can be sent to. *)
Definition can_send (s : srv) (p : Z) : Prop :=
  exists c, p_clients s.2 !! p = Some c /\ connected (p_net s.2) (sock c) /\ idle (send_rb c).

Lemma send_to_spec s p :
  can_send s p -> counts_ok (server_context (fst s)) ->
  exists s', send_to cliser_write fuel v p s = Done tt s' /\
    sent (p_net s.2) (sock_of s p) (frame bs) (p_net s'.2) /\
    (forall q, sock_of s' q = sock_of s q) /\ (forall q, can_send s q -> can_send s' q) /\
    counts_ok (server_context (fst s')).
Proof.
  intros (c & Hc & Hcn & Hi) Hk.
  destruct (sock_send_msg_spec fuel v bs (sock c) (p_net s.2) (server_context s.1) (send_rb c)
    (p_log s.2)) as (n' & cc & rb' & E & Hs & Hi' & _ & Hk'); try done.
  unfold send_to, mbnd. rewrite (deref_done p c), (message_userdata v bs) by done.
  unfold on_send_of, mbnd. rewrite (deref_done p c) by done. unfold zoom. rewrite E.
  eexists. split; [reflexivity|]. cbn [fst snd p_net]. unfold sock_of. cbn [snd p_clients].
  split; [by rewrite Hc|]. split; [|split; [|done]].
  - intros q. destruct (decide (q = p)) as [->|]; [by rewrite lookup_insert_eq, Hc|].
    by rewrite lookup_insert_ne.
  - intros q (d & Hd & Hdn & Hdi). unfold can_send. cbn [snd p_clients p_net].
    destruct (decide (q = p)) as [->|].
    + rewrite lookup_insert_eq. eexists. split; [reflexivity|]. split; [|done]. by apply Hs.
    + rewrite lookup_insert_ne by done. exists d. split; [done|]. split; [by apply Hs | done].
Qed.

Lemma send_all_spec qs : forall s,
  (forall p, p ∈ qs -> can_send s p) -> counts_ok (server_context (fst s)) ->
  NoDup (map (fun p => peer (sock_of s p)) qs) ->
  exists s', for_each (send_to cliser_write fuel v) qs s = Done tt s' /\
    (forall x, unread (p_net s'.2) x =
       if bool_decide (x ∈ map (fun p => peer (sock_of s p)) qs)
       then unread (p_net s.2) x ++ frame bs else unread (p_net s.2) x) /\
    (forall q, can_send s q -> can_send s' q) /\ (forall q, sock_of s' q = sock_of s q).
Proof.
  induction qs as [|p qs IH]; intros s Hcs Hk Hnd; cbn [for_each map] in *.
  - exists s. split; [done|]. split; [|done]. intros x. by rewrite bool_decide_false by set_solver.
  - apply NoDup_cons in Hnd as [Hp Hnd].
    destruct (send_to_spec s p) as (s1 & E1 & [Hu1 _] & Hso & Hcs1 & Hk1);
      [apply Hcs; left | done |].
    assert (map (fun p => peer (sock_of s1 p)) qs = map (fun p => peer (sock_of s p)) qs) as Em
      by (apply map_ext; intros q; by rewrite Hso).
    destruct (IH s1) as (s' & E & Hu & Hcs' & Hso'); [|done|by rewrite Em|].
    { intros q Hq. apply Hcs1, Hcs. by right. }
    unfold mbnd. rewrite E1. exists s'. split; [exact E|]. rewrite Em in Hu.
    split; [|split; [by auto | intros q; by rewrite Hso', Hso]].
    intros x. rewrite Hu, Hu1. destruct (decide (x = peer (sock_of s p))) as [->|Hne].
    + rewrite bool_decide_false by done. by rewrite bool_decide_true by left.
    + case_bool_decide as Hx; [by rewrite bool_decide_true by (by right)|].
      rewrite bool_decide_false; [done|]. intros [|]%elem_of_cons; done.
Qed.
End Broadcast.

(** ** Theorems *)

Section Theorems.
Context `{SK : Sockets} {SKok : SocketsOk SK} {SS : ServerSys SK}.
Context `{L : LuaApi} {Lok : LuaApiOk L} `{Q : Qsort} {Qok : QsortOk Q}.
Context (cliser_write cliser_read : lua_value -> option (Z -> M io unit)).

(** The calls on a server and its clients, those a callback makes included. *)
Inductive call :=
  | Accept (fuel : nat) (wait t : Z)
  | CloseClient (p : Z)
  | SetTag (ud : option Z) (t : option (list byte))
  | SetId (ud : option Z) (n : option Z)
  | Send (fuel : nat) (ud : option Z) (v : lua_value)
  | Recv (fuel : nat) (ud : option Z) (arg : lua_value)
  | RecvAny (fuel : nat) (t : option (list byte))
  | Broadcast (fuel : nat) (v : lua_value) (t : option (list byte))
  | CloseServer.

Definition do_call (c : call) : M srv unit :=
  match c with
  | Accept fuel wait t => accept_loop fuel wait t
  | CloseClient p => cliser_server_client_close (Some p)
  | SetTag ud t => cliser_server_tag ud t ;;; mret tt
  | SetId ud n => cliser_server_id ud n ;;; mret tt
  | Send fuel ud v => cliser_server_send cliser_write fuel ud v
  | Recv fuel ud arg => cliser_server_recv cliser_read fuel ud arg ;;; mret tt
  | RecvAny fuel t => cliser_server_recv_any fuel t ;;; mret tt
  | Broadcast fuel v t => cliser_server_broadcast cliser_write fuel v t
  | CloseServer => cliser_server_close
  end.

(** A client is closed through what the server hands out: one on its list. *)
Definition legal (s : srv) (c : call) : Prop :=
  match c with
  | Accept _ wait _ => wait < U32_MOD
  | CloseClient p => exists ps, reply_of (tagged_clients None s) = Returns ps /\ p ∈ ps
  | _ => True
  end.

(** What a call leaves, whether it returns, raises or sleeps.  Only a closing of the server
    that fails after it has freed a client is left out: the list then has freed clients
    ([failed_close_leaves_freed_clients]).  [lost] are the clients whose closing failed, which
    are off the list and not freed. *)
Definition leads_to (s : srv) (lost : list Z) (c : call) (s' : srv) (lost' : list Z) : Prop :=
  match do_call c s with
  | Done _ s1 | Blocked s1 => s' = s1 /\ lost' = lost
  | Raised _ s1 => s' = s1 /\
      match c with
      | CloseClient p => lost' = p :: lost
      | CloseServer => lost' = lost /\ dom (p_clients s1.2) = dom (p_clients s.2)
      | _ => lost' = lost
      end
  | _ => False
  end.

Inductive reachable : srv -> list Z -> Prop :=
  | reach_new fd n log :
      reachable (mk_server fd None 0 (mk_cc no_stats no_stats 0), mk_proc n ∅ log) []
  | reach_call s lost c s' lost' :
      reachable s lost -> legal s c -> leads_to s lost c s' lost' -> reachable s' lost'.

Lemma tagged_all s l : srv_rep s l -> tagged s None l = l.
Proof.
  intros []. unfold tagged. apply List.forallb_filter_id. apply forallb_forall. intros p Hp.
  rewrite <- list_elem_of_In in Hp.
  by destruct (linked_by_in _ _ _ _ _ p sr_linked0 Hp) as (c & -> & _).
Qed.

Lemma keeps_call s lost c l : srv_ok lost s l -> keeps (do_call c) ->
  match c with CloseClient _ | CloseServer => False | _ => True end ->
  forall s' lost', leads_to s lost c s' lost' -> srv_ok lost' s' l.
Proof.
  intros Hok K Hc s' lost' H. specialize (K s). unfold leads_to in H.
  destruct (do_call c s); try done; destruct H as [-> H];
    (assert (lost' = lost) as -> by (by destruct c)); by eapply same_links_ok.
Qed.

Lemma call_ok s lost c s' lost' l :
  srv_ok lost s l -> legal s c -> leads_to s lost c s' lost' -> exists l', srv_ok lost' s' l'.
Proof.
  intros Hok Hlegal H.
  destruct c; try (exists l; eapply keeps_call; try done; cbn;
    eauto using keeps_bind, keeps_ret, keeps_tag, keeps_id, keeps_send, keeps_recv,
      keeps_recv_any, keeps_broadcast; fail); unfold leads_to in H; cbn [do_call] in H.
  - pose proof (accept_loop_spec lost fuel wait t s l Hok Hlegal) as A.
    destruct (accept_loop fuel wait t s); try done; destruct H as [-> ->].
    + destruct A as (l' & A & _). eauto.
    + destruct A as (l' & A). eauto.
    + destruct A as (l' & A). eauto.
  - destruct Hlegal as (ps & Et & Hp). rewrite (tagged_clients_spec s l None) in Et by apply Hok.
    injection Et as <-. rewrite tagged_all in Hp by apply Hok.
    apply list_elem_of_split in Hp as (l1 & l2 & ->).
    pose proof (client_close_spec lost s l1 l2 p Hok) as A.
    destruct (cliser_server_client_close (Some p) s); try done; destruct H as [-> ->]; [|eauto].
    destruct A as [A _]. eauto.
  - pose proof (server_close_spec lost s l Hok) as A.
    destruct (cliser_server_close s); try done; destruct H as [-> H].
    + rewrite H. destruct A as [A _]. eauto.
    + destruct H as [-> Hd]. eauto.
Qed.


(** [server:clients] calls the function once for each client that has the tag, in
    ascending order of their ids (descending when the order is inverted), and returns
    their number. *)
Theorem server_clients_visits fuel wait t invert f s l :
  srv_rep s l -> wait <= zlen l -> ids_close s (tagged s t l) ->
  exists qs, visit_order invert s (tagged s t l) qs /\
    cliser_server_clients fuel wait t invert f s = (for_each f qs ;;; mret (zlen qs)) s.
Proof.
  intros Hr Hw Hids. destruct (sort_clients_spec invert s _ Hids) as (qs & E & Ho).
  exists qs. split; [done|]. unfold cliser_server_clients, mbnd at 1, get_st. unfold mbnd at 1.
  replace (accept_loop _ _ _ s) with (Done (S := srv) tt s).
  - unfold mbnd at 1. rewrite (tagged_clients_spec s l) by done. unfold mbnd at 1. by rewrite E.
  - destruct fuel; cbn [accept_loop]; unfold mbnd, get_server; rewrite (sr_count _ _ Hr);
      by rewrite (proj2 (Z.ltb_ge _ _)) by done.
Qed.

(** C19: [server:broadcast] sends the message to each client that has the tag, once, and
    to no other socket. *)
Theorem broadcast_reaches_tagged fuel v bs t s l :
  (msg_fuel <= fuel)%nat -> message v bs -> srv_rep s l ->
  (forall p, p ∈ tagged s t l -> can_send s p) -> ids_close s (tagged s t l) ->
  counts_ok (server_context (fst s)) ->
  NoDup (map (fun p => peer (sock_of s p)) (tagged s t l)) ->
  exists s', cliser_server_broadcast cliser_write fuel v t s = Done tt s' /\ srv_rep s' l /\
    forall x, unread (p_net s'.2) x =
      if bool_decide (x ∈ map (fun p => peer (sock_of s p)) (tagged s t l))
      then unread (p_net s.2) x ++ frame bs else unread (p_net s.2) x.
Proof.
  intros Hf Hv Hr Hcs Hids Hk Hnd.
  destruct (sort_clients_spec false s _ Hids) as (qs & E & Hp & _).
  destruct (send_all_spec cliser_write fuel Hf v bs Hv qs s) as (s1 & E1 & Hu & _); [|done|..].
  { intros p. rewrite Hp. apply Hcs. }
  { by rewrite Hp. }
  pose proof (keeps_broadcast cliser_write fuel v t s) as K.
  assert (cliser_server_broadcast cliser_write fuel v t s
    = Done tt (set_server_context (set_tx count_call (server_context s1.1)) s1.1, s1.2)) as Eb.
  { unfold cliser_server_broadcast, mbnd at 1. rewrite (tagged_clients_spec s l) by done.
    unfold mbnd at 1. rewrite E. unfold mbnd at 1. by rewrite E1. }
  rewrite Eb in K. eexists. split; [exact Eb|]. split; [by eapply same_links_rep|].
  cbn [snd]. intros x. rewrite Hu. erewrite bool_decide_ext; [done|]. by rewrite Hp.
Qed.
End Theorems.

(** ** Concrete runs *)

(** Connections arrive at once. *)
Definition ref_accept (_ : Z) (n : RefNet.state) : Z * RefNet.state :=
  let k := RefNet.accepted n + 1 in
  (2 * k, RefNet.mk_net (RefNet.wires n) (RefNet.shut n) k).

Definition ref_select (socks : list Z) (n : RefNet.state)
  : option (Z * list Z * RefNet.state) :=
  let ready := List.filter (fun s => 0 <? zlen (RefNet.wire n s)) socks in
  if 0 <? zlen ready then Some (zlen ready, ready, n) else None.

Definition ref_server_sys out inp : ServerSys (RefNet.sockets out inp) :=
  @Build_ServerSys (RefNet.sockets out inp) (fun _ n => (true, n)) ref_accept
    (fun _ _ _ _ n => n) (fun _ => 0) ref_select.

Definition cmp_le (cmp : Z -> Z -> Z) (a b : Z) : Prop := cmp a b <= 0.
#[export] Instance cmp_le_dec cmp : RelDecision (cmp_le cmp).
Proof. unfold cmp_le. solve_decision. Defined.

Definition ref_qsort : Qsort := {| qsort cmp := merge_sort (cmp_le cmp) |}.

#[export] Instance ref_qsort_ok : QsortOk ref_qsort.
Proof.
  split.
  - intros cmp l. apply merge_sort_Permutation.
  - intros key l. eapply sorted_weaken; [|apply StronglySorted_merge_sort].
    + unfold cmp_le. intros. lia.
    + unfold cmp_le. intros a b c ? ?. lia.
    + unfold cmp_le. intros a b. lia.
Qed.

Section Runs.
#[local] Existing Instance RefLua.api_ok.
#[local] Instance lua53 : LuaApi := RefLua.api 503 false.
#[local] Instance net53 : Sockets := RefNet.sockets 5 3.
#[local] Instance net53_ok : SocketsOk net53 := RefNet.sockets_ok 5 3 eq_refl eq_refl.
#[local] Instance sys53 : ServerSys net53 := ref_server_sys 5 3.
#[local] Existing Instance ref_qsort.

(** Two clients, the first one tagged. *)
Definition two_clients : srv :=
  (mk_server 3 (Some 1) 2 (mk_cc no_stats no_stats 0),
   mk_proc RefNet.fresh
     (<[1 := set_tag (Some (str "a")) (set_id 7 (set_next (Some 2) (client_connected 10)))]>
      {[2 := set_id 4 (set_prev (Some 1) (client_connected 12))]}) []).

Lemma two_clients_rep : srv_rep two_clients [1; 2].
Proof.
  split; try done.
  - repeat constructor; set_solver.
  - intros [|[|i]] p Hp; cbn in Hp; simplify_eq; eexists; (split; [reflexivity | done]).
Qed.

Lemma server_clients_visits_witness :
  let f p := upd_server (set_clients (Some p)) in
  exists qs, visit_order false two_clients [1; 2] qs /\
    cliser_server_clients 1 0 None false f two_clients
      = (for_each f qs ;;; mret (zlen qs)) two_clients.
Proof.
  intros f. apply (server_clients_visits 1 0 None false f two_clients [1; 2]);
    [apply two_clients_rep | done |].
  intros p q c d Hp Hq Hc Hd. cbn in Hp, Hq. change (tagged two_clients None [1; 2]) with [1; 2] in *.
  assert (forall p c, p ∈ [1; 2] -> p_clients two_clients.2 !! p = Some c ->
    4 <= client_id c <= 7) as H.
  { clear. intros p c Hp Hc. apply (f_equal (fmap client_id)) in Hc.
    assert (p = 1 \/ p = 2) as [-> | ->] by set_solver.
    - change (Some 7 = Some (client_id c)) in Hc. injection Hc. lia.
    - change (Some 4 = Some (client_id c)) in Hc. injection Hc. lia. }
  specialize (H p c Hp Hc) as H1. specialize (H q d Hq Hd). lia.
Defined.

Lemma broadcast_reaches_tagged_witness :
  exists s', cliser_server_broadcast no_method msg_fuel (LBoolean true) (Some (str "a")) two_clients
      = Done tt s' /\ srv_rep s' [1; 2] /\
    forall x, unread (p_net s'.2) x =
      if bool_decide (x ∈ [11]) then unread RefNet.fresh x ++ frame [Byte.x01; Byte.x01]
      else unread RefNet.fresh x.
Proof.
  destruct (broadcast_reaches_tagged no_method msg_fuel (LBoolean true) [Byte.x01; Byte.x01]
    (Some (str "a")) two_clients [1; 2]) as (s' & E & Hr & Hu);
    [done | split; [done | split; [vm_compute; reflexivity | done]]
    | apply two_clients_rep | | | done | |].
  - change (tagged two_clients (Some (str "a")) [1; 2]) with [1].
    intros p ->%list_elem_of_singleton. eexists. split; [reflexivity|].
    split; [by split | apply idle_create].
  - change (tagged two_clients (Some (str "a")) [1; 2]) with [1].
    intros p q c d ->%list_elem_of_singleton ->%list_elem_of_singleton Hc Hd.
    rewrite Hc in Hd. simplify_eq. lia.
  - apply NoDup_singleton.
  - exists s'. split; [exact E|]. split; [exact Hr|]. intros x. rewrite Hu.
    change (map _ _) with [11]. done.
Defined.
End Runs.

(** A network on which closing socket 4 fails, and a server with three clients there, on the
    sockets 6, 4 and 2. *)
Section FailingClose.
#[local] Existing Instance RefLua.api_ok.
#[local] Instance lua53_close : LuaApi := RefLua.api 503 false.
#[local] Existing Instance ref_qsort.

Definition EIO : Z := 5.

#[local] Instance failing_net : Sockets := {|
  net := RefNet.state;
  sys_send := RefNet.send 5;
  sys_recv := RefNet.recv 3;
  sys_peek := RefNet.peek None;
  sys_close s n := if s =? 4 then (-1, n) else RefNet.close s n;
  sys_errno _ := EIO;
|}.

#[local] Instance failing_sys : ServerSys failing_net :=
  @Build_ServerSys failing_net (fun _ n => (true, n)) ref_accept (fun _ _ _ _ n => n)
    (fun _ => 0) ref_select.

Definition after (c : call) (s : srv) : srv := end_state (do_call no_method no_method c) s.

Definition new_server : srv :=
  (mk_server 3 None 0 (mk_cc no_stats no_stats 0), mk_proc RefNet.fresh ∅ []).

Definition served : srv :=
  after (SetTag (Some 1) (Some (str "a"))) (after (Accept 4 3 300) new_server).

Lemma reach_after s lost c :
  reachable no_method no_method s lost -> legal s c ->
  reply_of (do_call no_method no_method c s) = Returns tt ->
  reachable no_method no_method (after c s) lost.
Proof.
  intros Hs Hl E. eapply reach_call; [done | done|]. unfold leads_to, after.
  pose proof (reply_run (do_call no_method no_method c) s) as H. rewrite E in H. by rewrite H.
Qed.


(** The server is closed, and closing the second client fails: the first has been freed, and is
    still the head of the list. *)
Theorem failed_close_leaves_freed_clients :
  exists s, cliser_server_close served = Raised (ErrCode EIO) s /\
    clients s.1 = Some 2 /\ p_clients s.2 !! 2 = None /\ num_clients s.1 = 3.
Proof.
  exists (after CloseServer served).
  pose proof (reply_run cliser_server_close served) as H.
  replace (reply_of _) with (Raises (A := unit) (ErrCode EIO)) in H by (vm_compute; reflexivity).
  split; [exact H|]. split; [|split]; vm_compute; reflexivity.
Qed.
End FailingClose.
