(* ===== verification/Connect.v ===== *)
(** * Opening connections ([cliser_server] and [cliser_client] of [src/cliser.c]).

    How a server gets its listening socket and a client its connection, and what is open
    afterwards, whatever fails on the way.  The calls that set up a socket are the operating
    system's: [NetSetup] has them and [NetSetupOk] what is documented about descriptors (on
    Linux [close] frees the descriptor whatever it returns).  That a second of [sleep] is a
    second of the clock is not promised, and is a hypothesis ([seconds_pass]) of what says how
    often the client tries.  Built without CUDA, [can_use_fastpath] returns 0 and reads neither address. *)
From Stdlib Require Import DecimalString.
From S2P Require Import Prelude RingBuffer Lua Serialize Growth DList Net Cliser Server.

#[local] Open Scope ipc_scope.

Class NetSetup `(SS : ServerSys) := {
  (** [getaddrinfo] for [AF_INET]: the first address, or the message of the error. *)
  sys_getaddrinfo : list byte -> option (list byte) -> net -> (list byte + list byte) * net;
  sys_socket : net -> Z * net;
  sys_bind : Z -> list byte -> net -> Z * net;
  sys_listen : Z -> Z -> net -> Z * net;
  (** [getsockname]: the return value and the address stored. *)
  sys_getsockname : Z -> net -> Z * list byte * net;
  sys_connect : Z -> list byte -> net -> Z * net;
  sys_sleep : Z -> net -> net;
}.

Definition DEFAULT_HOST : list byte := str "127.0.0.1".
Definition SOCKADDR_SIZE : Z := 16.
Definition EBADF : Z := 9.

(** [snprintf(port_str, 16, "%d", port)]: at most 15 characters. *)
Definition port_str (port : Z) : list byte :=
  ztake 15 (str (NilZero.string_of_int (Z.to_int port))).

(** [ntohs(sin.sin_port)]: the third and fourth byte, the higher one first. *)
Definition sin_port (sin : list byte) : Z := le_combine (rev (ztake 2 (zdrop 2 sin))).

Section Connect.
Context `{NS : NetSetup}.

Definition fail_errno {A} : M proc A := fun w => Raised (ErrCode (sys_errno (p_net w))) w.

(** [close(sock); return LUA_HANDLE_ERROR(L, errno)]. *)
Definition close_and_fail {A} (sock : Z) : M proc A :=
  let! _ := on_net (sys_close sock) in fail_errno.

Definition get_sockaddr (host : list byte) (port : option (list byte)) (addrlen : Z)
  : M proc (list byte) :=
  let! r := on_net (sys_getaddrinfo host port) in
  match r with
  | inr msg => raise (ErrStr msg)
  | inl addr => if addrlen <? zlen addr then raise (ErrCode ENOMEM) else mret addr
  end.

(** [host] and [port] are the arguments, where they are given; the results are the server in
    its userdata and the port it listens on. *)
Definition cliser_server (host : option (list byte)) (port : option Z) : M proc (server_t * Z) :=
  let host := from_option cstr DEFAULT_HOST host in
  let port := int_of_size (default 0 port) in
  let! addr := get_sockaddr host (if negb (port =? 0) then Some (port_str port) else None)
                 SOCKADDR_SIZE in
  let! ret := on_net sys_socket in
  if ret <=? 0 then fail_errno else
  let sock := ret in
  let! ret := on_net (sys_bind sock addr) in
  if negb (ret =? 0) then close_and_fail sock else
  let! ret := on_net (sys_listen sock 1024) in
  if negb (ret =? 0) then close_and_fail sock else
  let! (ret, sin) := on_net (sys_getsockname sock) in
  if negb (ret =? 0) then close_and_fail sock else
  mret (mk_server sock None 0 (mk_cc no_stats no_stats 0), sin_port sin).

(** The loop that tries once a second until the time [t]; [tv] is the time read last, [sock]
    and [ret] are the variables of [cliser_client]. *)
Fixpoint connect_loop (fuel : nat) (addr : list byte) (t tv sock ret : Z) : M proc (Z * Z) :=
  if tv <? t then
    match fuel with
    | O => out_of_fuel
    | S fuel' =>
        let! ret := on_net sys_socket in
        if ret <=? 0 then fail_errno else
        let sock := ret in
        configure_socket ret ;;;
        let! ret := on_net (sys_connect sock addr) in
        if ret =? 0 then mret (sock, ret) else
        let! _ := on_net (sys_close sock) in
        on_net (fun n => (tt, sys_sleep 1 n)) ;;;
        let! w := get_st in
        connect_loop fuel' addr t (sys_seconds (p_net w)) sock ret
    end
  else mret (sock, ret).

(** Connecting to an address; the result is the client the userdata points to. *)
Definition connect_to (fuel : nat) (addr : list byte) : M proc Z :=
  let! w := get_st in
  let tv := sys_seconds (p_net w) in
  let! (sock, ret) := connect_loop fuel addr (tv + DEFAULT_TIMEOUT_SECONDS) tv (-1) 0 in
  if negb (ret =? 0) then close_and_fail sock else
  let! (ret, bind_addr) := on_net (sys_getsockname sock) in
  if negb (ret =? 0) then close_and_fail sock else
  calloc (client_connected sock).

(** [lua_tostring] is what it gives for an argument; [None] is also an argument that is not
    there.  A null [host] is the host itself for [getaddrinfo]. *)
Definition cliser_client (lua_tostring : lua_value -> option (list byte)) (fuel : nat)
    (args : list lua_value) : M proc Z :=
  let tostring (i : Z) := cstr <$> (nthz args i ≫= lua_tostring) in
  let '(host, port) :=
    match nthz args 0 with
    | Some (LString s) => (cstr s, tostring 1)
    | _ => (DEFAULT_HOST, tostring 0)
    end in
  let! addr := get_sockaddr host port SOCKADDR_SIZE in
  connect_to fuel addr.
End Connect.

(** ** What the operating system promises *)

(** The open descriptors. *)
Class Descriptors `(NS : NetSetup) := { fds : net -> gset Z }.

(** A call that opens and closes nothing. *)
Definition keeps_fds `{D : Descriptors} (n n' : net) : Prop := fds n' = fds n.

Class NetSetupOk `(D : Descriptors) := {
  socket_opens n :
    let '(s, n') := sys_socket n in
      (s = -1 /\ fds n' = fds n) \/ (0 <= s /\ s ∉ fds n /\ fds n' = {[s]} ∪ fds n);
  close_closes n s : let '(r, n') := sys_close s n in
    fds n' = fds n ∖ {[s]} /\ (s ∉ fds n -> r = -1 /\ sys_errno n' = EBADF);
  getaddrinfo_keeps n h p : keeps_fds n (sys_getaddrinfo h p n).2;
  bind_keeps n s a : keeps_fds n (sys_bind s a n).2;
  listen_keeps n s k : keeps_fds n (sys_listen s k n).2;
  getsockname_keeps n s : keeps_fds n (sys_getsockname s n).2;
  connect_keeps n s a : keeps_fds n (sys_connect s a n).2;
  send_keeps n s bs : keeps_fds n (sys_send s bs n).2;
  setsockopt_keeps n s l o v : keeps_fds n (sys_setsockopt s l o v n);
  sleep_keeps n : keeps_fds n (sys_sleep 1 n);
}.

(** The clock is not set back, and no signal interrupts [sleep(1)]. *)
Record seconds_pass `{NS : NetSetup} : Prop := {
  sp_socket n : sys_seconds n <= sys_seconds (sys_socket n).2;
  sp_setsockopt n s l o v : sys_seconds n <= sys_seconds (sys_setsockopt s l o v n);
  sp_connect n s a : sys_seconds n <= sys_seconds (sys_connect s a n).2;
  sp_close n s : sys_seconds n <= sys_seconds (sys_close s n).2;
  sp_sleep n : sys_seconds n + 1 <= sys_seconds (sys_sleep 1 n);
}.

#[export] Hint Resolve getaddrinfo_keeps bind_keeps listen_keeps getsockname_keeps connect_keeps
  send_keeps setsockopt_keeps sleep_keeps : ipc.

(** ** What is open afterwards *)

Section Settled.
Context `{NO : NetSetupOk}.

Lemma keeps_fds_refl n : keeps_fds n n.
Proof. done. Qed.

Lemma keeps_fds_trans n1 n2 n3 : keeps_fds n1 n2 -> keeps_fds n2 n3 -> keeps_fds n1 n3.
Proof. unfold keeps_fds. congruence. Qed.

(** The process has the descriptors [F] and the objects [H]. *)
Record holding (F : gset Z) (H : gmap Z client_t) (w : proc) : Prop := {
  hd_fds : fds (p_net w) = F;
  hd_objs : p_clients w = H;
}.

(** A run returns with [Q], or raises an error with only [F] open and the objects as they
    were. *)
Definition settles {A} (F : gset Z) (H : gmap Z client_t) (Q : A -> proc -> Prop)
    (o : outcome proc A) : Prop :=
  match o with
  | Done a w' => Q a w'
  | Raised _ w' => holding F H w'
  | NoFuel => True
  | _ => False
  end.

Lemma settles_bind {A B} F H (Q : A -> proc -> Prop) (R : B -> proc -> Prop) m k w :
  settles F H Q (m w) -> (forall a w', Q a w' -> settles F H R (k a w')) ->
  settles F H R (mbnd m k w).
Proof. unfold mbnd. destruct (m w); cbn; auto. Qed.

(** A call on the network that keeps the descriptors [G] of the moment. *)
Lemma settles_net {A B} F H G (R : B -> proc -> Prop) (f : net -> A * net) k w :
  holding G H w -> keeps_fds (p_net w) (f (p_net w)).2 ->
  (forall w', holding G H w' -> settles F H R (k (f (p_net w)).1 w')) ->
  settles F H R (mbnd (on_net f) k w).
Proof.
  intros [Hg Ho] Ef Hk. unfold mbnd, on_net, keeps_fds in *.
  destruct (f (p_net w)) as [a n'] eqn:E.
  cbn in *. apply (Hk (mk_proc n' (p_clients w) (p_log w))). split; cbn; congruence.
Qed.

Lemma settles_close {B} F H (R : B -> proc -> Prop) s k w :
  s ∉ F -> holding ({[s]} ∪ F) H w ->
  (forall r w', holding F H w' -> settles F H R (k r w')) ->
  settles F H R (mbnd (on_net (sys_close s)) k w).
Proof.
  intros Hs [Hg Ho] Hk. unfold mbnd, on_net. pose proof (close_closes (p_net w) s) as Hc.
  destruct (sys_close s (p_net w)) as [r n']. destruct Hc as (Hf & _).
  apply Hk. split; cbn; [rewrite Hf, Hg; set_solver | done].
Qed.

Lemma settles_close_and_fail {A} F H (R : A -> proc -> Prop) s w :
  s ∉ F -> holding ({[s]} ∪ F) H w -> settles F H R (close_and_fail s w).
Proof. intros Hs Hw. by apply settles_close. Qed.

Lemma settles_socket {B} F H (R : B -> proc -> Prop) k w :
  0 ∈ F -> holding F H w ->
  (forall s w', 0 < s -> s ∉ F -> holding ({[s]} ∪ F) H w' -> settles F H R (k s w')) ->
  settles F H R ((let! ret := on_net sys_socket in if ret <=? 0 then fail_errno else k ret) w).
Proof.
  intros H0 [Hf Ho] Hk. unfold mbnd, on_net. pose proof (socket_opens (p_net w)) as Hs.
  destruct (sys_socket (p_net w)) as [s n']. destruct Hs as [[-> E]|(Hs & Hn & E)].
  - split; cbn; congruence.
  - rewrite Hf in *. assert (s <> 0) by (by intros ->).
    rewrite (proj2 (Z.leb_gt _ _)) by lia. apply Hk; [lia | done | by split].
Qed.

Lemma configure_keeps s n : keeps_fds n (fold_left (fun n '(level, opt, value) =>
    sys_setsockopt s level opt value n) socket_options n).
Proof.
  generalize socket_options. intros os. revert n. induction os as [|[[l o] v] os IH]; intros n;
    [apply keeps_fds_refl | eapply keeps_fds_trans; [apply setsockopt_keeps | apply IH]].
Qed.

Lemma settles_sockaddr {B} F H (R : B -> proc -> Prop) host port size k w :
  holding F H w -> (forall addr w', holding F H w' -> settles F H R (k addr w')) ->
  settles F H R (mbnd (get_sockaddr host port size) k w).
Proof.
  intros Hw Hk. apply settles_bind with (Q := fun _ => holding F H); [|auto].
  unfold get_sockaddr. apply (settles_net _ _ F); auto with ipc. intros w' Hw'.
  destruct ((sys_getaddrinfo _ _ _).1); [|done]. by destruct (_ <? _).
Qed.
End Settled.

(** ** The loop of the client *)

Section Loop.
Context `{NO : NetSetupOk}.
Context (addr : list byte) (t : Z).

(** What the loop leaves: a connected socket, or the number of one that is closed. *)
Definition tried (F : gset Z) (H : gmap Z client_t) (r : Z * Z) (w : proc) : Prop :=
  r.1 ∉ F /\
  if r.2 =? 0 then 0 < r.1 /\ holding ({[r.1]} ∪ F) H w else holding F H w.

Lemma connect_loop_spec F H fuel : forall tv sock ret w,
  0 ∈ F -> holding F H w -> tv < t \/ ret <> 0 /\ sock ∉ F ->
  settles F H (tried F H) (connect_loop fuel addr t tv sock ret w).
Proof.
  induction fuel as [|fuel IH]; intros tv sock ret w H0 Hw Hlast; cbn [connect_loop];
    (destruct (Z.ltb_spec tv t);
      [|destruct Hlast as [?|[Hr Hs]]; [lia|]; split; [done|]; cbn [snd];
        by rewrite (proj2 (Z.eqb_neq _ _))]); [done|].
  apply settles_socket; [done..|]. intros s w1 Hpos Hs Hw1.
  apply (settles_net F H ({[s]} ∪ F)); [done | apply configure_keeps|]. intros w2 Hw2.
  apply (settles_net F H ({[s]} ∪ F)); [done | auto with ipc|]. intros w3 Hw3.
  destruct (Z.eqb_spec (sys_connect s addr (p_net w2)).1 0) as [E|E]; [by rewrite E|].
  apply settles_close; [done..|]. intros r w4 Hw4.
  apply (settles_net F H F); [done | apply sleep_keeps|]. intros w5 Hw5. unfold mbnd, get_st.
  apply IH; [done | done | by right].
Qed.

(** When a turn takes a second, [t - tv] turns are enough. *)
Lemma connect_loop_ends fuel : seconds_pass -> forall tv sock ret w,
  tv <= sys_seconds (p_net w) -> t - tv <= Z.of_nat fuel ->
  connect_loop fuel addr t tv sock ret w <> NoFuel.
Proof.
  intros Hsp. assert (forall s n, sys_seconds n <= sys_seconds (fold_left (fun n '(level, opt, value) =>
    sys_setsockopt s level opt value n) socket_options n)) as Hopt.
  { intros s. generalize socket_options. intros os.
    induction os as [|[[l o] v] os IH]; intros n; cbn [fold_left]; [lia|].
    etrans; [apply (sp_setsockopt Hsp) | apply IH]. }
  induction fuel as [|fuel IH]; intros tv sock ret w Htv Hf; cbn [connect_loop];
    (destruct (Z.ltb_spec tv t); [|done]); [lia|].
  unfold mbnd, on_net, configure_socket, get_st. pose proof (sp_socket Hsp (p_net w)) as H1.
  destruct (sys_socket (p_net w)) as [s n1]. cbn in *. destruct (s <=? 0); [done|]. cbn [p_net].
  specialize (Hopt s n1).
  match goal with |- context [sys_connect s addr ?n] => change (sys_seconds n1 <= sys_seconds n) in Hopt;
    set (n2 := n) in * end.
  pose proof (sp_connect Hsp n2 s addr) as H3. destruct (sys_connect s addr n2) as [r n3].
  cbn in *. destruct (r =? 0); [done|]. cbn [p_net].
  pose proof (sp_close Hsp n3 s) as H4. destruct (sys_close s n3) as [q n4]. cbn in *.
  pose proof (sp_sleep Hsp n4). apply IH; cbn; lia.
Qed.

(** When no connection is made the loop ends by itself, with the error of the last one. *)
Lemma connect_loop_refused fuel : forall tv sock ret w,
  (forall n, 0 < (sys_socket n).1) -> (forall n s, (sys_connect s addr n).1 <> 0) ->
  tv < t \/ ret <> 0 ->
  match connect_loop fuel addr t tv sock ret w with
  | Done r _ => r.2 <> 0 | Raised _ _ => False | _ => True end.
Proof.
  induction fuel as [|fuel IH]; intros tv sock ret w Hs Hc Hlast; cbn [connect_loop];
    (destruct (Z.ltb_spec tv t); [|destruct Hlast; [lia | done]]); [done|].
  unfold mbnd, on_net, configure_socket, get_st. pose proof (Hs (p_net w)).
  destruct (sys_socket (p_net w)) as [s n1]. cbn in *. rewrite (proj2 (Z.leb_gt _ _)) by lia.
  match goal with |- context [sys_connect s addr ?n] =>
    pose proof (Hc n s); destruct (sys_connect s addr n) as [r n2] end.
  cbn in *. rewrite (proj2 (Z.eqb_neq _ _)) by done. cbn [p_net].
  match goal with |- context [sys_close s ?n] => destruct (sys_close s n) end. cbn [p_net].
  apply IH; auto.
Qed.

End Loop.

(** ** Theorems *)

Section Theorems.
Context `{NO : NetSetupOk}.

(** The connection is made, or nothing is left open. *)
Lemma connect_to_spec addr F H fuel w :
  0 ∈ F -> holding F H w ->
  settles F H (fun p w' => exists s, 0 < s /\ s ∉ F /\ H !! p = None /\
    holding ({[s]} ∪ F) (<[p := client_connected s]> H) w') (connect_to fuel addr w).
Proof.
  intros H0 Hw. unfold connect_to. unfold mbnd at 1, get_st.
  eapply settles_bind.
  - apply (connect_loop_spec addr _ F H); [done | done |].
    left. unfold DEFAULT_TIMEOUT_SECONDS. lia.
  - intros [s r] w1 [Hs Hw1]. cbn [fst snd] in *. destruct (r =? 0); cbn [negb].
    + destruct Hw1 as [Hpos Hw1].
      apply (settles_net F H ({[s]} ∪ F)); [done | apply getsockname_keeps|]. intros w2 Hw2.
      destruct (sys_getsockname s (p_net w1)) as [[q sin] n2]. cbn [fst].
      destruct (negb _); [by apply settles_close_and_fail|].
      exists s. split; [done|]. split; [done|]. destruct Hw2 as [Hf Ho].
      split; [|split; cbn; congruence]. rewrite <- Ho. apply not_elem_of_dom, is_fresh.
    + pose proof (close_closes (p_net w1) s) as Hc. unfold close_and_fail, mbnd, on_net.
      destruct (sys_close s (p_net w1)) as [q n2]. destruct Hc as (Hf & _), Hw1 as [Hf1 Ho].
      split; cbn; [rewrite Hf, Hf1; set_solver | done].
Qed.

Lemma close_and_fail_ends {A} s w : close_and_fail (A := A) s w <> NoFuel.
Proof.
  unfold close_and_fail, fail_errno, mbnd, on_net. destruct (sys_close s (p_net w)). discriminate.
Qed.

Lemma connect_to_ends addr fuel w :
  seconds_pass -> DEFAULT_TIMEOUT_SECONDS <= Z.of_nat fuel -> connect_to fuel addr w <> NoFuel.
Proof.
  intros Hsp Hfuel. unfold connect_to. unfold mbnd at 1, get_st. unfold mbnd at 1.
  assert (connect_loop fuel addr (sys_seconds (p_net w) + DEFAULT_TIMEOUT_SECONDS)
    (sys_seconds (p_net w)) (-1) 0 w <> NoFuel) as He by (apply connect_loop_ends; [done | lia..]).
  destruct (connect_loop _ _ _ _ _ _ _) as [[s r] w1| | | |]; try done.
  destruct (negb (r =? 0)); [apply close_and_fail_ends|]. unfold mbnd, on_net, calloc.
  destruct (sys_getsockname s (p_net w1)) as [[q sin] n2].
  destruct (negb _); [apply close_and_fail_ends | discriminate].
Qed.

(** Closing an open descriptor frees it. *)
Lemma close_run F H s w : s ∉ F -> holding ({[s]} ∪ F) H w ->
  exists r w', on_net (sys_close s) w = Done r w' /\ holding F H w'.
Proof.
  intros Hs [Hf Ho]. unfold on_net. pose proof (close_closes (p_net w) s) as Hc.
  destruct (sys_close s (p_net w)) as [r n']. destruct Hc as (Hf' & _).
  eexists r, _. split; [reflexivity|]. split; cbn; [rewrite Hf', Hf; set_solver | done].
Qed.

(** A server that was just made can be closed, which gives the descriptor back, also when
    [close] fails. *)
Lemma close_new_server F H s w : 0 < s -> s ∉ F -> holding ({[s]} ∪ F) H w ->
  match cliser_server_close (mk_server s None 0 (mk_cc no_stats no_stats 0), w) with
  | Done _ (_, w') | Raised _ (_, w') => holding F H w' | _ => False end.
Proof.
  intros Hpos Hs Hw. destruct (close_run F H s w Hs Hw) as (r & w' & E & Hw').
  unfold cliser_server_close, destroy_server, close_listener, get_server, on_proc, zoom, mbnd at 1 2.
  cbn [server_sock fst snd]. rewrite (proj2 (Z.eqb_neq _ _)) by lia. cbn [negb].
  unfold mbnd at 1. cbn [fst snd]. rewrite E. cbn. unfold mbnd, get_st.
  destruct (negb (r =? 0)); cbn; [done|]. by destruct (size _).
Qed.

(** The same for a client: its last reference takes the object along, unless [close] fails. *)
Lemma close_new_client F H s p w : 0 < s -> s ∉ F -> H !! p = None ->
  holding ({[s]} ∪ F) (<[p := client_connected s]> H) w ->
  match cliser_client_close (Some p) w with
  | Done ud w' => ud = None /\ holding F H w'
  | Raised _ w' => fds (p_net w') = F
  | _ => False
  end.
Proof.
  intros Hpos Hs Hp [Hf Ho]. unfold cliser_client_close, update, modify_st, mbnd.
  assert (forall n (m : gmap Z client_t) l c, m !! p = Some c ->
    deref p (mk_proc n m l) = Done c (mk_proc n m l)) as Hd
    by (intros n m l c E; unfold deref; cbn; by rewrite E).
  destruct w as [n m l]. cbn in Ho, Hf. subst m.
  rewrite (Hd _ _ _ (client_connected s)) by apply lookup_insert_eq. cbn [p_net p_clients p_log].
  rewrite insert_insert_eq. change (ref_count (client_connected s) - 1) with 0.
  rewrite (Hd _ _ _ (set_ref_count 0 (client_connected s))) by apply lookup_insert_eq.
  cbn [ref_count set_ref_count Z.eqb]. unfold destroy_client, update, modify_st, mbnd.
  rewrite (Hd _ _ _ (set_ref_count 0 (client_connected s))) by apply lookup_insert_eq.
  cbn [sock set_ref_count client_connected]. rewrite (proj2 (Z.eqb_neq _ _)) by lia. cbn [negb].
  unfold on_net at 1. cbn [p_net p_clients p_log].
  pose proof (send_keeps n s (size_bytes LEN_INVALID)) as Hk. unfold keeps_fds in Hk.
  destruct (sys_send s _ n) as [r n1]. cbn [snd] in Hk.
  destruct (close_run F (<[p := set_ref_count 0 (client_connected s)]> H) s
    (mk_proc n1 (<[p := set_ref_count 0 (client_connected s)]> H) l)) as (q & w' & E & Hw');
    [done | split; cbn; congruence |].
  rewrite E. destruct (q =? 0); cbn [negb]; [|apply Hw'].
  destruct w' as [n2 m2 l2], Hw' as [Hf2 Ho2]. cbn in Hf2, Ho2. subst m2.
  rewrite (Hd _ _ _ (set_ref_count 0 (client_connected s))) by apply lookup_insert_eq.
  unfold mret, free. cbn. split; [done|]. split; [done|]. cbn.
  by rewrite insert_insert_eq, delete_insert_eq, delete_id.
Qed.

(** C24: in a process whose descriptor 0 is open (see [socket_zero_leaks]) [ipc.server] opens
    exactly one descriptor, which the server has, and which [close] gives back, also when it
    fails; when it raises, at whatever call, no descriptor is left open. *)
Theorem server_owns_one_socket F H host port w :
  0 ∈ F -> holding F H w ->
  match cliser_server host port w with
  | Done (v, _) w' =>
      0 < server_sock v /\ server_sock v ∉ F /\ holding ({[server_sock v]} ∪ F) H w' /\
      srv_rep (v, w') [] /\
      match cliser_server_close (v, w') with
      | Done _ (_, w'') | Raised _ (_, w'') => holding F H w'' | _ => False end
  | Raised _ w' => holding F H w'
  | _ => False
  end.
Proof.
  intros H0 Hw. set (Q := fun (r : server_t * Z) w' => holding ({[server_sock r.1]} ∪ F) H w' /\
    server_sock r.1 ∉ F /\ 0 < server_sock r.1 /\
    r.1 = mk_server (server_sock r.1) None 0 (mk_cc no_stats no_stats 0)).
  assert (settles F H Q (cliser_server host port w)) as Hq.
  { unfold cliser_server. apply settles_sockaddr; [done|]. intros addr w0 Hw0.
    apply settles_socket; [done..|]. intros s w1 Hpos Hs Hw1.
    apply (settles_net F H ({[s]} ∪ F)); [done | apply bind_keeps|]. intros w2 Hw2.
    destruct (negb _); [by apply settles_close_and_fail|].
    apply (settles_net F H ({[s]} ∪ F)); [done | apply listen_keeps|]. intros w3 Hw3.
    destruct (negb _); [by apply settles_close_and_fail|].
    apply (settles_net F H ({[s]} ∪ F)); [done | apply getsockname_keeps|]. intros w4 Hw4.
    destruct (sys_getsockname s (p_net w3)) as [[q sin] n]. cbn [fst].
    destruct (negb _); [by apply settles_close_and_fail|]. by split. }
  assert (cliser_server host port w <> NoFuel) as Hnf.
  { unfold cliser_server, get_sockaddr, mbnd, on_net, fail_errno, raise, mret.
    repeat (case_match; simplify_eq; try first [discriminate | apply close_and_fail_ends]). }
  destruct (cliser_server host port w) as [[v q] w'| | | |]; try done.
  destruct Hq as (Hw' & Hs & Hpos & Ev). cbn [fst] in *.
  split; [done|]. split; [done|]. split; [done|]. rewrite Ev. cbn [server_sock].
  split; [|by apply close_new_server].
  split; [apply NoDup_nil_2 | by intros [] | done..].
Qed.

(** C23: in a process whose descriptor 0 is open, [ipc.client] returns a new client with exactly
    one more descriptor, which [close] gives back (with the object, unless [close] fails), or
    it raises and no descriptor is left open; and it ends after [DEFAULT_TIMEOUT_SECONDS]
    attempts at most if the clock is not set back and a [sleep] of a second takes one. *)
Theorem client_owns_one_socket lua_tostring F H fuel args w :
  0 ∈ F -> holding F H w -> DEFAULT_TIMEOUT_SECONDS <= Z.of_nat fuel ->
  match cliser_client lua_tostring fuel args w with
  | Done p w' => exists s, s ∉ F /\ H !! p = None /\
      holding ({[s]} ∪ F) (<[p := client_connected s]> H) w' /\
      match cliser_client_close (Some p) w' with
      | Done ud w'' => ud = None /\ holding F H w''
      | Raised _ w'' => fds (p_net w'') = F
      | _ => False
      end
  | Raised _ w' => holding F H w'
  | NoFuel => ~ seconds_pass
  | _ => False
  end.
Proof.
  intros H0 Hw Hfuel. set (Q := fun p w' => exists s, 0 < s /\ s ∉ F /\ H !! p = None /\
    holding ({[s]} ∪ F) (<[p := client_connected s]> H) w').
  assert (settles F H Q (cliser_client lua_tostring fuel args w)) as Hq.
  { unfold cliser_client. destruct (match nthz args 0 with Some _ => _ | None => _ end).
    apply settles_sockaddr; [done|]. intros addr w1 Hw1. by apply connect_to_spec. }
  assert (seconds_pass -> cliser_client lua_tostring fuel args w <> NoFuel) as Hnf.
  { intros Hsp. unfold cliser_client. destruct (match nthz args 0 with Some _ => _ | None => _ end).
    unfold get_sockaddr, mbnd, on_net, raise, mret.
    destruct (sys_getaddrinfo _ _ _) as [[addr|msg] n1]; [|done]. destruct (_ <? _); [done|].
    by apply connect_to_ends. }
  destruct (cliser_client _ _ _ _) as [p w'| | | |]; try done; [|by intros Hsp%Hnf].
  destruct Hq as (s & Hpos & Hs & Hp & Hw'). exists s. split; [done|]. split; [done|].
  split; [done|]. by apply (close_new_client F H s).
Qed.

(** When no connection is accepted, [ipc.client] raises [EBADF] in place of the error of
    [connect]: it closes the last socket a second time and then reads [errno]. *)
Theorem refused_client_raises_EBADF F H fuel addr w :
  seconds_pass -> 0 ∈ F -> holding F H w -> DEFAULT_TIMEOUT_SECONDS <= Z.of_nat fuel ->
  (forall n, 0 < (sys_socket n).1) -> (forall n s, (sys_connect s addr n).1 <> 0) ->
  exists w', connect_to fuel addr w = Raised (ErrCode EBADF) w' /\ holding F H w'.
Proof.
  intros Hsp H0 Hw Hfuel Hs Hc. unfold connect_to. unfold mbnd at 1, get_st. unfold mbnd at 1.
  set (tv := sys_seconds (p_net w)). set (t := tv + DEFAULT_TIMEOUT_SECONDS).
  assert (tv < t) as Ht by (unfold t, DEFAULT_TIMEOUT_SECONDS; lia).
  assert (connect_loop fuel addr t tv (-1) 0 w <> NoFuel) as He
    by (apply connect_loop_ends; [done | lia..]).
  pose proof (connect_loop_spec addr t F H fuel tv (-1) 0 w H0 Hw (or_introl Ht)) as Ho.
  pose proof (connect_loop_refused addr t fuel tv (-1) 0 w Hs Hc (or_introl Ht)) as Hr.
  destruct (connect_loop fuel addr t tv (-1) 0 w) as [[s r] w1| | | |]; try done.
  destruct Ho as [Hn Hw1]. cbn [fst snd] in *. rewrite (proj2 (Z.eqb_neq _ _)) in * by done.
  pose proof (close_closes (p_net w1) s) as Hcl. unfold close_and_fail, mbnd, on_net. cbn [negb].
  destruct (sys_close s (p_net w1)) as [q n2]. destruct Hcl as (Hf & Heb), Hw1 as [Hf1 Ho].
  destruct Heb as [_ Heb]; [by rewrite Hf1|].
  eexists. split; [unfold fail_errno; cbn; by rewrite Heb|].
  split; cbn; [rewrite Hf, Hf1; set_solver | done].
Qed.

(** Where standard input is closed, [socket] may give descriptor 0, which passes for an error:
    [ipc.server] raises and the socket stays open. *)
Lemma socket_zero_leaks F H host port addr w w1 n' :
  get_sockaddr (from_option cstr DEFAULT_HOST host)
    (let port := int_of_size (default 0 port) in
     if negb (port =? 0) then Some (port_str port) else None) SOCKADDR_SIZE w = Done addr w1 ->
  holding F H w1 -> sys_socket (p_net w1) = (0, n') ->
  exists e w', cliser_server host port w = Raised e w' /\ holding ({[0]} ∪ F) H w'.
Proof.
  intros Ea [Hf Ho] E. unfold cliser_server, mbnd at 1. cbv zeta in *. rewrite Ea. unfold mbnd at 1, on_net at 1.
  rewrite E. cbn. eexists _, _. split; [reflexivity|].
  pose proof (socket_opens (p_net w1)) as Hs. rewrite E in Hs. rewrite <- Hf.
  destruct Hs as [[? _]|(_ & _ & Hs)]; [lia | by split].
Qed.
End Theorems.

(** ** A host *)

Module RefHost.

(** [accepts] tells at which times a connection is accepted. *)
Record state := mk_host { opened : gset Z; clock : Z; err : Z }.

Definition highest (X : gset Z) : Z := foldr Z.max 0 (elements X).

Lemma highest_spec (X : gset Z) s : s ∈ X -> s <= highest X.
Proof.
  rewrite <- elem_of_elements. unfold highest. induction (elements X) as [|x l IH]; cbn; intros Hs.
  - by apply not_elem_of_nil in Hs.
  - apply elem_of_cons in Hs as [->|Hs]; [lia | specialize (IH Hs); lia].
Qed.

Lemma highest_nonneg X : 0 <= highest X.
Proof. unfold highest. induction (elements X); cbn; lia. Qed.

Definition socket (n : state) : Z * state :=
  let s := 1 + highest (opened n) in (s, mk_host ({[s]} ∪ opened n) (clock n) (err n)).

Definition close (s : Z) (n : state) : Z * state :=
  if bool_decide (s ∈ opened n) then (0, mk_host (opened n ∖ {[s]}) (clock n) (err n))
  else (-1, mk_host (opened n ∖ {[s]}) (clock n) EBADF).

Definition connect (accepts : Z -> bool) (_ : Z) (_ : list byte) (n : state) : Z * state :=
  if accepts (clock n) then (0, n) else (-1, mk_host (opened n) (clock n) 111).

Definition address : list byte := [Byte.x02; Byte.x00; Byte.x1f; Byte.x90] ++ replicate 12 Byte.x00.

Definition getaddrinfo (h : list byte) (_ : option (list byte)) (n : state)
  : (list byte + list byte) * state :=
  (if bool_decide (h = DEFAULT_HOST) then inl address else inr (str "Name or service not known"), n).

Definition sockets : Sockets := {|
  net := state;
  sys_send _ bs n := (zlen bs, n);
  sys_recv _ _ _ := None;
  sys_peek _ _ _ := (-1, []);
  sys_close := close;
  sys_errno := err;
|}.

Definition server_sys : ServerSys sockets :=
  @Build_ServerSys sockets (fun _ n => (false, n)) (fun _ n => (-1, n)) (fun _ _ _ _ n => n)
    clock (fun _ _ => None).

Definition setup (accepts : Z -> bool) : NetSetup server_sys :=
  @Build_NetSetup sockets server_sys getaddrinfo socket (fun _ _ n => (0, n)) (fun _ _ n => (0, n))
    (fun _ n => (0, address, n)) (connect accepts)
    (fun k n => mk_host (opened n) (clock n + k) (err n)).

Definition descriptors accepts : Descriptors (setup accepts) :=
  @Build_Descriptors sockets server_sys (setup accepts) opened.

#[export] Instance setup_ok accepts : NetSetupOk (descriptors accepts).
Proof.
  split; try done.
  - intros n. cbn. right. pose proof (highest_nonneg (opened n)).
    split; [lia|]. split; [|done]. intros Hs%highest_spec. lia.
  - intros n s. cbn. unfold close. by case_bool_decide.
  - intros n s a. unfold keeps_fds. cbn. unfold connect. by destruct (accepts _).
Qed.

Lemma setup_seconds accepts : seconds_pass (NS := setup accepts).
Proof.
  split; cbn; intros; try lia.
  - unfold connect. destruct (accepts _); cbn; lia.
  - unfold close. case_bool_decide; cbn; lia.
Qed.
End RefHost.

Section Runs.
#[local] Existing Instance RefHost.sockets.
#[local] Existing Instance RefHost.server_sys.

(** A host with three open descriptors. *)
Definition three : gset Z := {[0; 1; 2]}.
Definition host0 : proc :=
  mk_proc (RefHost.mk_host three 1000 0) ∅ [].

(** Connections are accepted from the time 1002 on. *)
#[local] Instance host_setup : NetSetup RefHost.server_sys := RefHost.setup (fun t => 1002 <=? t).
#[local] Instance host_fds : Descriptors host_setup := RefHost.descriptors (fun t => 1002 <=? t).
#[local] Instance host_ok : NetSetupOk host_fds := RefHost.setup_ok (fun t => 1002 <=? t).

Lemma host0_holding : holding three ∅ host0.
Proof. by split. Qed.

Definition tostring (v : lua_value) : option (list byte) :=
  match v with LString s => Some s | _ => None end.

Lemma server_owns_one_socket_witness :
  exists v w', cliser_server None (Some 8080) host0 = Done (v, 8080) w' /\
    holding {[0; 1; 2; 3]} ∅ w' /\
    exists v' w'', cliser_server_close (v, w') = Done tt (v', w'') /\ holding three ∅ w''.
Proof.
  pose proof (server_owns_one_socket three ∅ None (Some 8080) host0) as T.
  assert (reply_of (cliser_server None (Some 8080) host0)
    = Returns (mk_server 3 None 0 (mk_cc no_stats no_stats 0), 8080)) as R
    by (vm_compute; reflexivity).
  destruct (cliser_server None (Some 8080) host0) as [[v q] w'| | | |]; try discriminate R.
  injection R as -> ->.
  destruct T as (_ & _ & Hw & _ & Hc); [set_solver | apply host0_holding|].
  assert (reply_of (cliser_server_close (mk_server 3 None 0 (mk_cc no_stats no_stats 0), w'))
    = Returns tt) as R.
  { destruct Hw as [Hf Ho], w' as [[X t e] m l]. cbn in Hf, Ho. subst X m. vm_compute. reflexivity. }
  eexists _, w'. split; [done|]. split; cycle 1.
  { destruct (cliser_server_close _) as [[] [v' w'']| | | |]; try discriminate R. by exists v', w''. }
  destruct Hw as [Hf Ho].
  split; [rewrite Hf; unfold three; cbn; set_solver | done].
Defined.

Lemma client_owns_one_socket_witness :
  exists p w' s, cliser_client tostring 300 [LString (str "127.0.0.1"); LString (str "8080")] host0
      = Done p w' /\
    holding ({[s]} ∪ three) {[p := client_connected s]} w' /\
    exists w'', cliser_client_close (Some p) w' = Done None w'' /\ holding three ∅ w''.
Proof.
  pose proof (client_owns_one_socket tostring three ∅ 300
    [LString (str "127.0.0.1"); LString (str "8080")] host0) as T.
  assert (reply_of (mbnd (cliser_client tostring 300
    [LString (str "127.0.0.1"); LString (str "8080")]) (fun p => cliser_client_close (Some p)) host0)
    = Returns None) as R by (vm_compute; reflexivity).
  unfold mbnd in R. destruct (cliser_client _ _ _ _) as [p w'| | | |]; try discriminate R.
  destruct T as (s & _ & _ & Hw & Hc); [set_solver | apply host0_holding | done|].
  exists p, w', s. split; [done|]. split; [done|].
  destruct (cliser_client_close _ _) as [ud w''| | | |]; try discriminate R.
  destruct Hc as [-> Hc]. by exists w''.
Defined.

Lemma refused_client_raises_EBADF_witness :
  exists w', connect_to (NS := RefHost.setup (fun _ => false)) 300 RefHost.address host0
    = Raised (ErrCode EBADF) w' /\ fds w'.(p_net) = three.
Proof.
  destruct (@refused_client_raises_EBADF _ _ _ _ (RefHost.setup_ok (fun _ => false)) three ∅ 300
    RefHost.address host0) as (w' & E & Hw).
  - apply RefHost.setup_seconds.
  - set_solver.
  - by split.
  - done.
  - intros n. cbn. pose proof (RefHost.highest_nonneg (RefHost.opened n)). lia.
  - done.
  - exists w'. split; [exact E | apply (hd_fds _ _ _ Hw)].
Defined.
End Runs.
