(* ===== verification/Tensor.v ===== *)
(** * Tensors and storages over sockets ([src/generic/cliser.c], built without CUDA).

    A storage is an array of elements of [ELEMENT_SIZE] bytes, a tensor a view of one:
    sizes, strides and an offset, all in elements.  What the functions below change
    is the memory of the storage they read into. *)
From S2P Require Import Prelude RingBuffer Lua Serialize Growth Roundtrip Net Cliser.

#[local] Open Scope ipc_scope.

(** The fields of a [THTensor] (of the TH library): [has_storage] is false for a NULL
    [storage]. *)
Record THTensor := mk_tensor {
  t_size : list Z;
  t_stride : list Z;
  has_storage : bool;
  storageOffset : Z;
}.

Definition nDimension (t : THTensor) : Z := zlen (t_size t).

(** The functions of TH the code calls. *)
Class TH := {
  THTensor_isContiguous : THTensor -> bool;
  THTensor_nElement : THTensor -> Z;
}.

(** A [long] is 8 bytes. *)
Definition long_bytes (n : Z) : list byte := le_split 8 n.
Definition longs_bytes (l : list Z) : list byte := concat (map long_bytes l).

(** Entry [i] of an array of [long] that was received. *)
Definition long_at (bs : list byte) (i : Z) : Z := integer_of_bytes (ztake 8 (zdrop (8 * i) bs)).

Definition str_not_implemented : list byte := str "not implemented".
Definition str_unreachable : list byte := str "unreachable".
Definition str_mismatch : list byte := str "local and remote do not match".

Section Tensor.
Context `{SK : Sockets} `{T : TH} (ELEMENT_SIZE : Z).

(** The network, and the memory of the storage. *)
Definition tst : Type := io * list cell.
Definition on_tio {A} : M io A -> M tst A := zoom fst (fun i s => (i, s.2)).

(** [count] elements from element [ptr] of the storage on. *)
Definition write_contiguous (fuel : nat) (sock ptr count : Z) : M tst unit :=
  let! s := get_st in
  let pos := ptr * ELEMENT_SIZE in
  let len := count * ELEMENT_SIZE in
  if (0 <=? pos) && (0 <=? len) && (pos + len <=? zlen s.2) then
    let! bs := of_opt (mapM id (ztake len (zdrop pos s.2))) in
    on_tio (sock_send_raw fuel sock bs)
  else undef.

Definition read_contiguous (fuel : nat) (sock ptr count : Z) : M tst unit :=
  let! s := get_st in
  let! data := on_tio (sock_recv_raw fuel sock s.2 (ptr * ELEMENT_SIZE) (count * ELEMENT_SIZE)) in
  modify_st (fun s => (s.1, data)).

(** The bytes of a local array of [n] longs. *)
Definition recv_longs (fuel : nat) (sock n : Z) : M tst (list byte) :=
  let! out := on_tio (sock_recv_raw fuel sock (uninit (8 * n)) 0 (8 * n)) in
  of_opt (mapM id out).

(** [size] is the number of elements of the storage. *)
Definition storage_write (fuel : nat) (sock size : Z) : M tst unit :=
  on_tio (sock_send_raw fuel sock (longs_bytes [ELEMENT_SIZE; size])) ;;;
  write_contiguous fuel sock 0 size.

Definition storage_read (fuel : nat) (sock size : Z) : M tst unit :=
  let! header := recv_longs fuel sock 2 in
  if negb (long_at header 0 =? ELEMENT_SIZE) then raise (ErrLua str_mismatch) else
  if negb (long_at header 1 =? size) then raise (ErrLua str_mismatch) else
  read_contiguous fuel sock 0 size.

(** [for (long i = 0; i < n; i++) { body; ptr += stride; }] *)
Fixpoint for_stride (n : nat) (stride ptr : Z) (body : Z -> M tst unit) : M tst unit :=
  match n with
  | O => mret tt
  | S n' => body ptr ;;; for_stride n' stride (ptr + stride) body
  end.

Definition size_at (t : THTensor) (d : nat) : Z := default 0 (t_size t !! d).
Definition stride_at (t : THTensor) (d : nat) : Z := default 0 (t_stride t !! d).

(** The recursion over the dimensions [dim], ..., [nDim]; [k] is [nDim - dim]. *)
Fixpoint tensor_write_noncontiguous_rcsv (fuel : nat) (sock : Z) (t : THTensor) (dim k : nat)
    (nDimStride ptr : Z) : M tst unit :=
  match k with
  | O => for_stride (Z.to_nat (size_at t dim)) (stride_at t dim) ptr
           (fun ptr => write_contiguous fuel sock ptr nDimStride)
  | S k' => for_stride (Z.to_nat (size_at t dim)) (stride_at t dim) ptr
           (fun ptr => tensor_write_noncontiguous_rcsv fuel sock t (S dim) k' nDimStride ptr)
  end.

Fixpoint tensor_read_noncontiguous_rcsv (fuel : nat) (sock : Z) (t : THTensor) (dim k : nat)
    (nDimStride ptr : Z) : M tst unit :=
  match k with
  | O => for_stride (Z.to_nat (size_at t dim)) (stride_at t dim) ptr
           (fun ptr => read_contiguous fuel sock ptr nDimStride)
  | S k' => for_stride (Z.to_nat (size_at t dim)) (stride_at t dim) ptr
           (fun ptr => tensor_read_noncontiguous_rcsv fuel sock t (S dim) k' nDimStride ptr)
  end.

(** [while (i >= 0 && bc == tensor->stride[i]) { bc *= tensor->size[i]; i--; }] with [i1]
    one more than [i]: the [bc] and [i1] it ends with. *)
Fixpoint collapse (t : THTensor) (bc : Z) (i1 : nat) : Z * nat :=
  match i1 with
  | O => (bc, O)
  | S i => if bc =? stride_at t i then collapse t (bc * size_at t i) i else (bc, i1)
  end.

(** The first entry of a tensor's header: contiguous or not, the fast path, the size of an
    element. *)
Definition header_flags (bc : bool) (fastpath : Z) : Z :=
  Z.lor (Z.lor (Z.land (if bc then 1 else 0) 1) (Z.land (Z.shiftl fastpath 1) 2))
        (Z.land (Z.shiftl ELEMENT_SIZE 4) 240).

(** Sizes and strides, alternating. *)
Definition header_dims (t : THTensor) : list Z :=
  concat (zip_with (fun n s => [n; s]) (t_size t) (t_stride t)).

(** The part of [tensor_write] and of [tensor_read] for tensors that are not contiguous:
    [rcsv] is the recursion. *)
Definition noncontiguous (t : THTensor)
    (rcsv : THTensor -> nat -> nat -> Z -> Z -> M tst unit) : M tst unit :=
  if nDimension t <? 2 then raise (ErrLua str_not_implemented) else
  let n := length (t_size t) in
  if negb (stride_at t (n - 1) =? 1) then raise (ErrLua str_not_implemented) else
  let '(bc, i1) := collapse t (size_at t (n - 1)) (n - 1) in
  match i1 with
  | O => raise (ErrLua str_unreachable)
  | S i => if has_storage t then rcsv t 0%nat i bc (storageOffset t) else undef
  end.

Definition tensor_write (fuel : nat) (sock : Z) (t : THTensor) : M tst unit :=
  let! s := get_st in
  let bc := THTensor_isContiguous t in
  let ne := THTensor_nElement t in
  let header := header_flags bc (use_fastpath s.1.2) :: header_dims t in
  on_tio (sock_send_raw fuel sock (longs_bytes header)) ;;;
  if bc then
    if has_storage t then write_contiguous fuel sock (storageOffset t) ne else mret tt
  else noncontiguous t (tensor_write_noncontiguous_rcsv fuel sock).

(** The comparisons of a received header with the tensor's own. *)
Definition header_matches (header : list byte) (bc : bool) (fastpath : Z) (t : THTensor) : bool :=
  let flags := long_at header 0 in
  (Z.land flags 1 =? (if bc then 1 else 0)) &&
  (Z.shiftr (Z.land flags 2) 1 =? fastpath) &&
  (Z.shiftr (Z.land flags 240) 4 =? ELEMENT_SIZE) &&
  forallb (fun d => (long_at header (2 * Z.of_nat d + 1) =? size_at t d) &&
                    (long_at header (2 * Z.of_nat d + 2) =? stride_at t d))
    (seq 0 (length (t_size t))).

Definition tensor_read (fuel : nat) (sock : Z) (t : THTensor) : M tst unit :=
  let! s := get_st in
  let bc := THTensor_isContiguous t in
  let ne := THTensor_nElement t in
  let! header := recv_longs fuel sock (2 * nDimension t + 1) in
  if negb (header_matches header bc (use_fastpath s.1.2) t) then raise (ErrLua str_mismatch) else
  if bc then
    if has_storage t then read_contiguous fuel sock (storageOffset t) ne else mret tt
  else noncontiguous t (tensor_read_noncontiguous_rcsv fuel sock).
End Tensor.

(** ** Where the elements of a tensor are *)

Definition dims (t : THTensor) : list (Z * Z) := zip (t_size t) (t_stride t).

(** The offsets of the elements from the first one, the last dimension running fastest. *)
Fixpoint offsets (ds : list (Z * Z)) : list Z :=
  match ds with
  | [] => [0]
  | (n, s) :: ds' => concat (map (fun i => map (Z.add (i * s)) (offsets ds')) (seqZ 0 n))
  end.

(** The positions of the elements in the storage; a tensor without dimensions has none. *)
Definition positions (t : THTensor) : list Z :=
  match dims t with [] => [] | ds => map (Z.add (storageOffset t)) (offsets ds) end.

(** A tensor as TH makes them: as many strides as sizes, and no size below 1. *)
Definition tensor_ok (t : THTensor) : Prop :=
  length (t_size t) = length (t_stride t) /\ Forall (fun n => 0 < n) (t_size t).

(** What the code relies on of TH: contiguous means that the elements are next to each
    other, in order, and both answers depend on sizes and strides only. *)
Class THOk `(T : TH) : Prop := {
  TH_contiguous t : tensor_ok t -> THTensor_isContiguous t = true -> 0 < nDimension t ->
    offsets (dims t) = seqZ 0 (THTensor_nElement t);
  TH_no_element t : nDimension t = 0 -> THTensor_nElement t = 0;
  TH_same_dims t u : t_size t = t_size u -> t_stride t = t_stride u ->
    THTensor_isContiguous t = THTensor_isContiguous u /\
    THTensor_nElement t = THTensor_nElement u;
}.

Lemma seqZ_map_add p m n : map (Z.add p) (seqZ m n) = seqZ (p + m) n.
Proof. apply fmap_add_seqZ. Qed.

(** [n] blocks of [b] consecutive offsets, [b] apart, are [b * n] consecutive offsets. *)
Lemma seqZ_blocks b (n : nat) : 0 <= b ->
  concat (map (fun i => map (Z.add (i * b)) (seqZ 0 b)) (seqZ 0 (Z.of_nat n)))
  = seqZ 0 (b * Z.of_nat n).
Proof.
  intros Hb. induction n as [|n IH]; [by rewrite Z.mul_0_r|].
  rewrite seqZ_S, map_app, concat_app, IH. cbn [map concat].
  replace (b * Z.of_nat (S n)) with (b * Z.of_nat n + b) by lia.
  rewrite (seqZ_app 0 (b * Z.of_nat n) b) by lia.
  f_equal. rewrite app_nil_r, seqZ_map_add. f_equal. lia.
Qed.

Lemma offsets_packed n b ds : 0 <= b -> 0 <= n -> offsets ds = seqZ 0 b ->
  offsets ((n, b) :: ds) = seqZ 0 (b * n).
Proof.
  intros Hb Hn E. cbn [offsets]. rewrite E.
  rewrite <- (Z2Nat.id n) by done. by apply seqZ_blocks.
Qed.

(** ** The traversal of a tensor that is not contiguous *)

Section Traversal.
Context (t : THTensor) (Ht : tensor_ok t).

Lemma dims_length : length (dims t) = length (t_size t).
Proof. unfold dims. rewrite length_zip. destruct Ht. lia. Qed.

Lemma dims_drop d : (d < length (dims t))%nat ->
  drop d (dims t) = (size_at t d, stride_at t d) :: drop (S d) (dims t).
Proof.
  intros Hd. apply drop_S. rewrite dims_length in Hd. unfold dims, size_at, stride_at.
  destruct Ht as [Hl _].
  destruct (lookup_lt_is_Some_2 (t_size t) d) as [n En]; [lia|].
  destruct (lookup_lt_is_Some_2 (t_stride t) d) as [s Es]; [lia|].
  rewrite lookup_zip_with, En, Es. done.
Qed.

Lemma size_pos d : (d < length (dims t))%nat -> 0 < size_at t d.
Proof.
  rewrite dims_length. intros Hd. unfold size_at.
  destruct (lookup_lt_is_Some_2 (t_size t) d Hd) as [n En]. rewrite En. cbn.
  destruct Ht as [_ Hp]. rewrite Forall_lookup in Hp. by eapply Hp.
Qed.

(** The dimensions [collapse] has gone through are one block. *)
Lemma collapse_packed i1 : forall bc,
  (i1 <= length (dims t))%nat -> 0 < bc -> offsets (drop i1 (dims t)) = seqZ 0 bc ->
  let '(bc', i1') := collapse t bc i1 in
  0 < bc' /\ (i1' <= i1)%nat /\ offsets (drop i1' (dims t)) = seqZ 0 bc'.
Proof.
  induction i1 as [|i IH]; intros bc Hi Hbc E; cbn [collapse]; [done|].
  destruct (Z.eqb_spec bc (stride_at t i)) as [Hs|_]; [|done].
  pose proof (size_pos i ltac:(lia)) as Hp.
  specialize (IH (bc * size_at t i) ltac:(lia) ltac:(nia)).
  destruct (collapse t (bc * size_at t i) i) as [bc' i1'].
  destruct IH as (? & ? & ?); [|repeat split; [done | lia | done]].
  rewrite dims_drop, <- Hs by lia. apply offsets_packed; [lia | lia | done].
Qed.

Lemma offsets_nonempty : offsets (dims t) <> [].
Proof.
  assert (forall k, (k <= length (dims t))%nat -> offsets (drop (length (dims t) - k) (dims t)) <> [])
    as H; [|specialize (H (length (dims t)) ltac:(lia)); by rewrite Nat.sub_diag in H].
  induction k as [|k IH]; intros Hk.
  - by rewrite drop_ge by lia.
  - rewrite dims_drop by lia. cbn [offsets]. rewrite seqZ_cons by (apply size_pos; lia).
    replace (S (length (dims t) - S k)) with (length (dims t) - k)%nat by lia. cbn [map concat].
    specialize (IH ltac:(lia)). by destruct (offsets (drop _ _)).
Qed.

(** The last dimension alone, with stride 1. *)
Lemma last_packed n : length (dims t) = S n -> stride_at t n = 1 ->
  offsets (drop n (dims t)) = seqZ 0 (size_at t n).
Proof.
  intros Hl Hs. rewrite dims_drop, Hs by lia. rewrite drop_ge by lia.
  replace (size_at t n) with (1 * size_at t n) at 2 by lia.
  apply offsets_packed; [lia | pose proof (size_pos n ltac:(lia)); lia | done].
Qed.
End Traversal.

(** A property of programs and the positions they go through, in order. *)
Section Follows.
Context `{SK : Sockets} (P : M tst unit -> list Z -> Prop).
Hypothesis P_ret : P (mret tt) [].
Hypothesis P_bind : forall m1 m2 ps1 ps2, P m1 ps1 -> P m2 ps2 -> P (m1 ;;; m2) (ps1 ++ ps2).

Lemma for_stride_follows (f : Z -> list Z) body stride (n : nat) : forall ptr,
  (forall i, 0 <= i < Z.of_nat n -> P (body (ptr + i * stride)) (f (ptr + i * stride))) ->
  P (for_stride n stride ptr body)
    (concat (map (fun i => f (ptr + i * stride)) (seqZ 0 (Z.of_nat n)))).
Proof.
  induction n as [|n IH]; intros ptr H; [apply P_ret|].
  rewrite seqZ_cons by lia. cbn [map concat for_stride]. apply P_bind.
  - specialize (H 0 ltac:(lia)). by rewrite Z.mul_0_l, Z.add_0_r in *.
  - replace (Z.pred (Z.of_nat (S n))) with (Z.of_nat n) by lia.
    rewrite <- (seqZ_map_add 1 0), map_map.
    specialize (IH (ptr + stride)). erewrite map_ext; [apply IH|].
    + intros i Hi. specialize (H (i + 1) ltac:(lia)).
      by replace (ptr + stride + i * stride) with (ptr + (i + 1) * stride) by lia.
    + intros i. cbn. f_equal. lia.
Qed.

Context (t : THTensor) (Ht : tensor_ok t) (leaf : Z -> M tst unit).

(** Both recursions of the code, with what is done on a block as an argument. *)
Fixpoint traverse (dim k : nat) (ptr : Z) : M tst unit :=
  match k with
  | O => for_stride (Z.to_nat (size_at t dim)) (stride_at t dim) ptr leaf
  | S k' => for_stride (Z.to_nat (size_at t dim)) (stride_at t dim) ptr (traverse (S dim) k')
  end.

Context (ok : Z -> Prop).

Lemma traverse_follows k : forall dim ptr,
  (dim + k < length (dims t))%nat ->
  (forall p, Forall ok (map (Z.add p) (offsets (drop (S (dim + k)) (dims t)))) ->
     P (leaf p) (map (Z.add p) (offsets (drop (S (dim + k)) (dims t))))) ->
  Forall ok (map (Z.add ptr) (offsets (drop dim (dims t)))) ->
  P (traverse dim k ptr) (map (Z.add ptr) (offsets (drop dim (dims t)))).
Proof.
  assert (forall dim ptr body,
    (dim < length (dims t))%nat ->
    (forall p, Forall ok (map (Z.add p) (offsets (drop (S dim) (dims t)))) ->
       P (body p) (map (Z.add p) (offsets (drop (S dim) (dims t))))) ->
    Forall ok (map (Z.add ptr) (offsets (drop dim (dims t)))) ->
    P (for_stride (Z.to_nat (size_at t dim)) (stride_at t dim) ptr body)
      (map (Z.add ptr) (offsets (drop dim (dims t))))) as Hfor.
  { intros dim ptr body Hd Hbody Hok. rewrite dims_drop in * by done. cbn [offsets] in *.
    rewrite concat_map, map_map in *. pose proof (size_pos t Ht dim Hd) as Hs.
    set (f := fun p => map (Z.add p) (offsets (drop (S dim) (dims t)))).
    assert (forall i, map (Z.add ptr) (map (Z.add (i * stride_at t dim))
      (offsets (drop (S dim) (dims t)))) = f (ptr + i * stride_at t dim)) as Ef.
    { intros i. unfold f. rewrite map_map. apply map_ext. intros. lia. }
    erewrite map_ext in *; [|exact Ef..]. rewrite <- (Z2Nat.id (size_at t dim)) at 2 by lia.
    apply for_stride_follows. intros i Hi. apply Hbody.
    rewrite Forall_concat, Forall_fmap, Forall_seqZ in Hok. apply Hok. lia. }
  induction k as [|k IH]; intros dim ptr Hd Hleaf Hok; cbn [traverse]; (apply Hfor; [lia | | done]).
  - by rewrite Nat.add_0_r in Hleaf.
  - intros p Hp. apply IH; [lia | | done]. by rewrite <- Nat.add_succ_comm in Hleaf.
Qed.
End Follows.

(** ** What is sent *)

Lemma for_stride_ext `{SK : Sockets} n stride b1 b2 : (forall p, b1 p = b2 p) ->
  forall ptr, for_stride n stride ptr b1 = for_stride n stride ptr b2.
Proof.
  intros H. induction n as [|n IH]; intros ptr; [done|]. cbn. by rewrite H, IH.
Qed.

Section Sends.
Context `{SK : Sockets} {SKok : SocketsOk SK} (ELEMENT_SIZE : Z) (fuel : nat) (sock : Z).
Context (He : 0 < ELEMENT_SIZE <= 8).
(** The contents of the storage. *)
Context (data : list byte).

Definition elem (o : Z) : list byte := ztake ELEMENT_SIZE (zdrop (o * ELEMENT_SIZE) data).
Definition nelems : Z := zlen data / ELEMENT_SIZE.

(** A run that sends [bs] and nothing else. *)
Definition sends (m : M tst unit) (bs : list byte) : Prop :=
  forall n c, connected n sock -> counts_ok c ->
  exists n' c', m ((n, c), Some <$> data) = Done tt ((n', c'), Some <$> data) /\
    sent n sock bs n' /\ counts_ok c' /\ use_fastpath c' = use_fastpath c.

Lemma sends_ret : sends (mret tt) [].
Proof. intros n c Hc Hk. exists n, c. split; [done|]. by split; [apply sent_nil|]. Qed.

Lemma sends_bind m1 m2 b1 b2 : sends m1 b1 -> sends m2 b2 -> sends (m1 ;;; m2) (b1 ++ b2).
Proof.
  intros H1 H2 n c Hc Hk. destruct (H1 n c Hc Hk) as (n1 & c1 & E1 & Hs1 & Hk1 & Hf1).
  destruct (H2 n1 c1) as (n2 & c2 & E2 & Hs2 & Hk2 & Hf2); [by apply (proj2 Hs1) | done|].
  exists n2, c2. unfold mbnd. rewrite E1, E2. split; [done|]. split; [by eapply sent_app|].
  split; [done | congruence].
Qed.

Lemma sends_raw bs : (length bs <= fuel)%nat -> zlen bs < 2 ^ 31 ->
  sends (on_tio (sock_send_raw fuel sock bs)) bs.
Proof.
  intros Hf Hl n c Hc Hk. pose proof (zlen_nonneg bs).
  destruct (sock_send_spec fuel sock bs n c Hc Hk Hf) as (n' & c' & E & Hs & (_ & _ & Hfp) & Hk').
  exists n', c'. unfold on_tio, zoom, sock_send_raw, mbnd. cbn [fst snd].
  rewrite E, check_count_ok by lia. done.
Qed.

Definition in_storage (o : Z) : Prop := 0 <= o < nelems.

Lemma in_storage_bytes o : in_storage o -> 0 <= o * ELEMENT_SIZE /\
  (o + 1) * ELEMENT_SIZE <= zlen data.
Proof.
  unfold in_storage, nelems. intros [H1 H2]. split; [nia|].
  pose proof (Z.mul_div_le (zlen data) ELEMENT_SIZE ltac:(lia)). nia.
Qed.

(** A block of elements is its elements. *)
Lemma block_elems (n : nat) : forall ptr,
  0 <= ptr -> (ptr + Z.of_nat n) * ELEMENT_SIZE <= zlen data ->
  ztake (Z.of_nat n * ELEMENT_SIZE) (zdrop (ptr * ELEMENT_SIZE) data)
  = concat (map elem (seqZ ptr (Z.of_nat n))).
Proof.
  induction n as [|n IH]; intros ptr Hp Hl; [done|].
  rewrite seqZ_cons by lia. cbn [map concat].
  replace (Z.pred (Z.of_nat (S n))) with (Z.of_nat n) by lia. rewrite <- Z.add_1_r, <- IH by lia.
  unfold elem, ztake, zdrop. rewrite <- (take_drop (Z.to_nat ELEMENT_SIZE)
    (take (Z.to_nat (Z.of_nat (S n) * ELEMENT_SIZE)) _)). rewrite take_take, skipn_firstn_comm, drop_drop.
  f_equal; [f_equal; lia|]. f_equal; [|f_equal]; lia.
Qed.

Lemma zlen_elem o : in_storage o -> zlen (elem o) = ELEMENT_SIZE.
Proof.
  intros H%in_storage_bytes. unfold elem. apply zlen_ztake. rewrite zlen_zdrop by lia. lia.
Qed.

(** Positions next to each other, in the storage. *)
Lemma block_in ptr count : 0 < count -> Forall in_storage (seqZ ptr count) ->
  0 <= ptr /\ (ptr + count) * ELEMENT_SIZE <= zlen data.
Proof.
  intros Hc H. rewrite Forall_seqZ in H.
  pose proof (in_storage_bytes ptr (H ptr ltac:(lia))).
  pose proof (in_storage_bytes _ (H (ptr + count - 1) ltac:(lia))). nia.
Qed.

Lemma sends_block ptr count :
  0 < count -> Forall in_storage (seqZ ptr count) ->
  (length data <= fuel)%nat -> count * ELEMENT_SIZE < 2 ^ 31 ->
  sends (write_contiguous ELEMENT_SIZE fuel sock ptr count)
    (concat (map elem (seqZ ptr count))).
Proof.
  intros Hc Hin Hf Hl. destruct (block_in ptr count Hc Hin) as [H1 H2].
  pose proof (block_elems (Z.to_nat count) ptr H1) as Hb. rewrite Z2Nat.id in Hb by lia.
  rewrite <- Hb by done. clear Hb.
  set (bs := ztake (count * ELEMENT_SIZE) (zdrop (ptr * ELEMENT_SIZE) data)).
  assert (zlen bs = count * ELEMENT_SIZE) as Hbs
    by (subst bs; rewrite zlen_ztake; [done|]; rewrite zlen_zdrop; nia).
  pose proof (sends_raw bs) as Hs. unfold sends, write_contiguous in *. intros n c Hcn Hk.
  unfold mbnd, get_st, of_opt. cbn [snd]. rewrite zlen_fmap.
  rewrite (proj2 (Z.leb_le 0 _)), (proj2 (Z.leb_le 0 _)), (proj2 (Z.leb_le (_ + _) _)) by nia.
  cbn [andb]. rewrite zdrop_fmap, ztake_fmap, mapM_id_Some. apply Hs; try done.
  - subst bs. unfold ztake, zdrop. rewrite length_take, length_drop. lia.
  - lia.
Qed.
End Sends.

(** ** Whole tensors *)

Section Whole.
Context `{SK : Sockets} `{T : TH} {Tok : THOk T}.

(** The tensors the code transfers: contiguous ones, and others whose last dimension has
    stride 1. *)
Definition supported (t : THTensor) : bool :=
  let n := length (t_size t) in
  has_storage t &&
  (THTensor_isContiguous t ||
   ((2 <=? nDimension t) && (stride_at t (n - 1) =? 1) &&
    negb (Nat.eqb (collapse t (size_at t (n - 1)) (n - 1)).2 0))).

(** The transfer of the elements, given that of a block of [bc] elements. *)
Definition elements_by (leaf : Z -> Z -> M tst unit) (t : THTensor) : M tst unit :=
  if THTensor_isContiguous t then
    if has_storage t then leaf (THTensor_nElement t) (storageOffset t) else mret tt
  else noncontiguous t (fun t dim k bc ptr => traverse t (leaf bc) dim k ptr).

Lemma elements_follow (P : M tst unit -> list Z -> Prop) (leaf : Z -> Z -> M tst unit)
    (ok : Z -> Prop) t :
  P (mret tt) [] ->
  (forall m1 m2 ps1 ps2, P m1 ps1 -> P m2 ps2 -> P (m1 ;;; m2) (ps1 ++ ps2)) ->
  (forall bc p, 0 < bc -> Forall ok (seqZ p bc) -> P (leaf bc p) (seqZ p bc)) ->
  tensor_ok t -> supported t = true -> 0 < nDimension t -> Forall ok (positions t) ->
  P (elements_by leaf t) (positions t).
Proof.
  intros Pret Pbind Pleaf Ht [Hst Hsup]%andb_prop Hn Hok. unfold elements_by.
  assert (dims t <> []) as Hd.
  { intros E. pose proof (dims_length t Ht) as Hl. rewrite E in Hl.
    unfold nDimension, zlen in Hn. rewrite <- Hl in Hn. cbn in Hn. lia. }
  assert (positions t = map (Z.add (storageOffset t)) (offsets (dims t))) as Ep
    by (unfold positions; by destruct (dims t)).
  rewrite Ep in *. destruct (THTensor_isContiguous t) eqn:Hc.
  - rewrite Hst. rewrite TH_contiguous, seqZ_map_add, Z.add_0_r in * by done.
    destruct (Z.le_gt_cases (THTensor_nElement t) 0) as [Hz|Hz]; [|by apply Pleaf].
    pose proof (TH_contiguous t Ht Hc Hn) as E. rewrite seqZ_nil in E by done.
    destruct (offsets_nonempty t Ht E).
  - cbn [orb] in Hsup. apply andb_prop in Hsup as [[H2 H1]%andb_prop H0].
    unfold noncontiguous. rewrite (proj2 (Z.ltb_ge _ 2)), H1 by lia. cbn [negb].
    set (n := (length (t_size t) - 1)%nat) in *.
    assert (length (dims t) = S n) as Hl.
    { rewrite dims_length by done. unfold nDimension, zlen in *. lia. }
    pose proof (collapse_packed t Ht n (size_at t n) ltac:(lia) (size_pos t Ht n ltac:(lia))
      (last_packed t Ht n Hl ltac:(lia))) as C.
    destruct (collapse t (size_at t n) n) as [bc i1]. destruct C as (Hbc & Hi & Hoff).
    destruct i1 as [|i]; [done|]. rewrite Hst.
    change (offsets (dims t)) with (offsets (drop 0 (dims t))) in *.
    apply (traverse_follows P Pret Pbind t Ht (leaf bc) ok i 0 (storageOffset t)); cbn [Nat.add];
      [lia | | done].
    intros p. rewrite Hoff, seqZ_map_add, Z.add_0_r. by apply Pleaf.
Qed.
End Whole.

(** ** What is received *)

Section Receives.
Context `{SK : Sockets} {SKok : SocketsOk SK} (ELEMENT_SIZE : Z) (fuel : nat) (sock : Z).
Context (He : 0 < ELEMENT_SIZE <= 8).
(** The bytes of the storage that is read into. *)
Context (len : Z).

(** The memory with the elements [es] stored at the positions [ps]. *)
Fixpoint fill (mem : list cell) (ps : list Z) (es : list (list byte)) : list cell :=
  match ps, es with
  | p :: ps', b :: es' => fill (store mem (p * ELEMENT_SIZE) b) ps' es'
  | _, _ => mem
  end.

Definition fits (o : Z) : Prop := 0 <= o /\ (o + 1) * ELEMENT_SIZE <= len.
Definition elems (es : list (list byte)) : Prop := Forall (fun b => zlen b = ELEMENT_SIZE) es.

Lemma zlen_elems es : elems es -> zlen (concat es) = zlen es * ELEMENT_SIZE.
Proof.
  induction 1 as [|b es Hb _ IH]; [done|]. cbn [concat]. rewrite zlen_app, zlen_cons. lia.
Qed.

Lemma zlen_fill ps : forall es mem, zlen mem = len -> Forall fits ps -> elems es ->
  zlen (fill mem ps es) = len.
Proof.
  induction ps as [|p ps IH]; intros [|b es] mem Hm Hps Hes; try done. cbn [fill].
  inversion Hps as [|? ? [? ?] ?]; subst. inversion Hes as [|? ? Hb ?]; subst.
  apply IH; [|done|done]. rewrite zlen_store; [done | nia | rewrite Hb; nia].
Qed.

Lemma fill_app ps1 : forall es1 ps2 es2 mem, length es1 = length ps1 ->
  fill mem (ps1 ++ ps2) (es1 ++ es2) = fill (fill mem ps1 es1) ps2 es2.
Proof.
  induction ps1 as [|p ps1 IH]; intros [|b es1] ps2 es2 mem Hl; try done. cbn [app fill].
  apply IH. by injection Hl.
Qed.

(** A block stored at once. *)
Lemma store_block es : forall mem p, zlen mem = len -> elems es ->
  0 <= p -> (p + zlen es) * ELEMENT_SIZE <= len ->
  store mem (p * ELEMENT_SIZE) (concat es) = fill mem (seqZ p (zlen es)) es.
Proof.
  induction es as [|b es IH]; intros mem p Hm Hes Hp Hl; [apply store_nil|].
  inversion Hes as [|? ? Hb Hes']; subst. rewrite zlen_cons in *. pose proof (zlen_nonneg es).
  rewrite seqZ_cons by lia. cbn [concat fill].
  rewrite <- store_store by nia. rewrite Hb.
  replace (p * ELEMENT_SIZE + ELEMENT_SIZE) with ((p + 1) * ELEMENT_SIZE) by lia.
  rewrite IH; [do 2 f_equal; lia | | done | lia | nia].
  rewrite zlen_store; [done | nia | rewrite Hb; nia].
Qed.

(** A run that receives the elements at the positions [ps]. *)
Definition receives (m : M tst unit) (ps : list Z) : Prop :=
  Forall fits ps -> forall es n c mem rest,
  length es = length ps -> elems es -> zlen mem = len -> connected n sock -> counts_ok c ->
  unread n sock = concat es ++ rest ->
  exists n' c', m ((n, c), mem) = Done tt ((n', c'), fill mem ps es) /\
    received n sock (zlen (concat es)) n' /\ counts_ok c'.

Lemma receives_ret : receives (mret tt) [].
Proof.
  intros _ [|] n c mem rest Hl _ _ Hc Hk _; [|done]. exists n, c.
  split; [done|]. split; [apply received_0 | done].
Qed.

Lemma receives_bind m1 m2 ps1 ps2 :
  receives m1 ps1 -> receives m2 ps2 -> receives (m1 ;;; m2) (ps1 ++ ps2).
Proof.
  intros H1 H2 [Hp1 Hp2]%Forall_app es n c mem rest Hl Hes Hm Hc Hk Hu.
  rewrite length_app in Hl. rewrite <- (take_drop (length ps1) es) in *.
  set (es1 := take (length ps1) es) in *. set (es2 := drop (length ps1) es) in *.
  assert (length es1 = length ps1) as Hl1
    by (subst es1 es2; rewrite length_app, length_take, length_drop in Hl; rewrite length_take; lia).
  rewrite length_app in Hl. apply Forall_app in Hes as [He1 He2].
  rewrite concat_app, <- app_assoc in Hu.
  destruct (H1 Hp1 es1 n c mem (concat es2 ++ rest)) as (n1 & c1 & E1 & Hr1 & Hk1); try done.
  assert (unread n1 sock = concat es2 ++ rest) as Hu1.
  { rewrite (proj1 Hr1), decide_True, Hu by done. by apply zdrop_zdrop_app. }
  destruct (H2 Hp2 es2 n1 c1 (fill mem ps1 es1) rest) as (n2 & c2 & E2 & Hr2 & Hk2); try done.
  { lia. } { by apply zlen_fill. } { by apply (proj2 Hr1). }
  exists n2, c2. unfold mbnd. rewrite E1, E2, fill_app by done. split; [done|].
  split; [|done]. rewrite concat_app, zlen_app.
  eapply received_add; [apply zlen_nonneg.. | done | done].
Qed.

Lemma receives_block p bc : 0 < bc -> bc * ELEMENT_SIZE < 2 ^ 31 ->
  (Z.to_nat len <= fuel)%nat ->
  receives (read_contiguous ELEMENT_SIZE fuel sock p bc) (seqZ p bc).
Proof.
  intros Hbc Hmax Hf Hps es n c mem rest Hl Hes Hm Hc Hk Hu. rewrite length_seqZ in Hl.
  rewrite Forall_seqZ in Hps.
  destruct (Hps p ltac:(lia)) as [Hp _]. destruct (Hps (p + bc - 1) ltac:(lia)) as [_ Hp'].
  assert (zlen es = bc) as Hn by (unfold zlen; lia).
  pose proof (zlen_elems es Hes) as Hlen. rewrite Hn in Hlen.
  destruct (sock_recv_spec fuel sock mem (p * ELEMENT_SIZE) (concat es) rest n c)
    as (n' & c' & E & Hr & _ & Hk'); try done.
  { unfold zlen in *. nia. } { unfold SIZE_MOD. lia. } { nia. } { nia. }
  exists n', c'. split; [|done]. unfold read_contiguous, mbnd, get_st, on_tio, zoom.
  cbn [fst snd]. unfold sock_recv_raw, mbnd. rewrite <- Hlen, E, check_count_ok by lia.
  unfold mret, modify_st. cbn [fst snd]. do 2 f_equal. rewrite <- Hn. apply store_block; try done.
  nia.
Qed.
End Receives.

(** ** The elements of a memory *)

Section Cells.
Context (ELEMENT_SIZE : Z) (He : 0 < ELEMENT_SIZE).

(** The element at position [o]. *)
Definition cells (mem : list cell) (o : Z) : list cell :=
  ztake ELEMENT_SIZE (zdrop (o * ELEMENT_SIZE) mem).

Lemma zlen_cells mem o : fits ELEMENT_SIZE (zlen mem) o -> zlen (cells mem o) = ELEMENT_SIZE.
Proof. intros []. unfold cells. apply zlen_ztake. rewrite zlen_zdrop; nia. Qed.

Lemma cells_store mem p b o :
  fits ELEMENT_SIZE (zlen mem) p -> fits ELEMENT_SIZE (zlen mem) o -> zlen b = ELEMENT_SIZE ->
  cells (store mem (p * ELEMENT_SIZE) b) o = if decide (o = p) then Some <$> b else cells mem o.
Proof.
  intros [Hp1 Hp2] Ho Hb. pose proof Ho as [Ho1 Ho2].
  assert (zlen (store mem (p * ELEMENT_SIZE) b) = zlen mem) as Hs by (apply zlen_store; nia).
  assert (zlen (cells (store mem (p * ELEMENT_SIZE) b) o) = ELEMENT_SIZE) as Hlen
    by (apply zlen_cells; by rewrite Hs).
  apply nthz_ext; rewrite Hlen.
  - case_decide; [by rewrite zlen_fmap | by rewrite zlen_cells].
  - intros k Hk. unfold cells at 1. rewrite nthz_ztake, nthz_zdrop by nia.
    rewrite nthz_store by nia. rewrite (proj2 (Z.ltb_lt k _)), (proj2 (Z.ltb_ge k 0)) by lia.
    rewrite Hb. case_decide as Hop.
    + subst p. rewrite (proj2 (Z.leb_le _ _)), (proj2 (Z.ltb_lt _ _)) by lia. cbn [andb].
      f_equal. lia.
    + unfold cells. rewrite nthz_ztake, nthz_zdrop by nia.
      rewrite (proj2 (Z.ltb_lt k _)), (proj2 (Z.ltb_ge k 0)) by lia.
      destruct (_ && _) eqn:E; [|done]. apply andb_prop in E as [E1 E2]. exfalso. apply Hop. nia.
Qed.

(** After the elements were stored at different positions, they are there, and the other
    elements are as before. *)
Lemma cells_fill ps : forall es mem,
  NoDup ps -> length es = length ps -> elems ELEMENT_SIZE es ->
  Forall (fits ELEMENT_SIZE (zlen mem)) ps ->
  map (cells (fill ELEMENT_SIZE mem ps es)) ps = map (fmap Some) es /\
  (forall o, fits ELEMENT_SIZE (zlen mem) o -> o ∉ ps ->
     cells (fill ELEMENT_SIZE mem ps es) o = cells mem o).
Proof.
  induction ps as [|p ps IH]; intros [|b es] mem Hnd Hl Hes Hps; try done. cbn [fill map].
  apply NoDup_cons in Hnd as [Hp Hnd]. inversion Hps as [|? ? Hfp Hps']; subst.
  inversion Hes as [|? ? Hb Hes']; subst.
  assert (zlen (store mem (p * ELEMENT_SIZE) b) = zlen mem) as Hs
    by (destruct Hfp; apply zlen_store; nia).
  destruct (IH es (store mem (p * ELEMENT_SIZE) b)) as [H1 H2]; try done.
  { by injection Hl. } { by rewrite Hs. }
  rewrite Hs in H2. split.
  - rewrite H1. f_equal. rewrite H2, cells_store by done. by rewrite decide_True.
  - intros o Ho [Hne Hin]%not_elem_of_cons. rewrite H2, cells_store by done.
    by rewrite decide_False.
Qed.
End Cells.

(** ** Headers *)

Lemma zlen_longs l : zlen (longs_bytes l) = 8 * zlen l.
Proof.
  induction l as [|z l IH]; [done|]. unfold longs_bytes in *. cbn [map concat].
  rewrite zlen_app, zlen_cons, IH. unfold long_bytes. rewrite zlen_le8. lia.
Qed.

Definition long (z : Z) : Prop := - 2 ^ 63 <= z < 2 ^ 63.

Lemma long_at_spec l : forall i z, l !! i = Some z -> long z ->
  long_at (longs_bytes l) (Z.of_nat i) = z.
Proof.
  induction l as [|x l IH]; intros [|i] z Hi Hz; try done; cbn in Hi.
  - injection Hi as ->. unfold long_at, longs_bytes. cbn [map concat].
    change (zdrop (8 * Z.of_nat 0) ?x) with x. rewrite ztake_ztake_app by apply zlen_le8.
    by apply integer_of_integer.
  - rewrite <- (IH i z Hi Hz). unfold long_at, longs_bytes. cbn [map concat].
    replace (8 * Z.of_nat (S i)) with (8 + 8 * Z.of_nat i) by lia. do 2 f_equal.
    unfold zdrop. rewrite Z2Nat.inj_add, <- drop_drop by lia. f_equal.
Qed.

Lemma header_dims_cons n s ns ss b o :
  header_dims (mk_tensor (n :: ns) (s :: ss) b o) = n :: s :: header_dims (mk_tensor ns ss b o).
Proof. done. Qed.

Lemma header_dims_lookup t d : tensor_ok t -> (d < length (t_size t))%nat ->
  header_dims t !! (2 * d)%nat = Some (size_at t d) /\
  header_dims t !! (2 * d + 1)%nat = Some (stride_at t d).
Proof.
  destruct t as [ns ss b o]. intros [Hl _]. cbn [t_size t_stride] in *. revert ns ss Hl.
  induction d as [|d IH]; intros [|n ns] [|s ss] Hl Hd; try done; cbn in Hl, Hd; try lia.
  rewrite header_dims_cons. replace (2 * S d)%nat with (S (S (2 * d))) by lia.
  apply (IH ns ss); lia.
Qed.

Lemma header_dims_length t : tensor_ok t -> zlen (header_dims t) = 2 * nDimension t.
Proof.
  destruct t as [ns ss b o]. intros [Hl _]. unfold nDimension. cbn [t_size t_stride] in *.
  revert ss Hl. induction ns as [|n ns IH]; intros [|s ss] Hl; try done.
  rewrite header_dims_cons, !zlen_cons, IH by (by injection Hl). lia.
Qed.

(** The flags are read back, for every size of an element. *)
Lemma flags_read e bc : 0 < e <= 8 ->
  let flags := header_flags e bc 0 in
  long flags /\ Z.land flags 1 = (if bc then 1 else 0) /\ Z.shiftr (Z.land flags 2) 1 = 0 /\
  Z.shiftr (Z.land flags 240) 4 = e.
Proof.
  intros He. assert (e = 1 \/ e = 2 \/ e = 3 \/ e = 4 \/ e = 5 \/ e = 6 \/ e = 7 \/ e = 8) as H by lia.
  clear He. unfold long.
  destruct bc; destruct_or! H; subst; (repeat split; vm_compute; congruence).
Qed.

(** Sizes and strides that fit a [long]. *)
Definition dims_long (t : THTensor) : Prop := Forall long (t_size t) /\ Forall long (t_stride t).

Lemma header_matches_own e t (bc : bool) : 0 < e <= 8 -> tensor_ok t -> dims_long t ->
  header_matches e (longs_bytes (header_flags e bc 0 :: header_dims t)) bc 0 t = true.
Proof.
  intros He Ht [Hz Hs]. destruct (flags_read e bc He) as (Hl & H1 & H2 & H3).
  unfold header_matches. rewrite (long_at_spec _ 0 (header_flags e bc 0)) by done.
  rewrite H1, H2, H3, !Z.eqb_refl. cbn [andb]. apply forallb_forall.
  intros d [_ Hd]%in_seq. cbn in Hd. destruct (header_dims_lookup t d Ht Hd) as [E1 E2].
  assert (long (size_at t d) /\ long (stride_at t d)) as [L1 L2].
  { unfold size_at, stride_at. destruct Ht as [Hlen _].
    destruct (lookup_lt_is_Some_2 (t_size t) d) as [n En]; [lia|].
    destruct (lookup_lt_is_Some_2 (t_stride t) d) as [s Es]; [lia|].
    rewrite En, Es. cbn. rewrite Forall_lookup in *. eauto. }
  replace (2 * Z.of_nat d + 1) with (Z.of_nat (S (2 * d))) by lia.
  replace (2 * Z.of_nat d + 2) with (Z.of_nat (S (2 * d + 1))) by lia.
  rewrite (long_at_spec _ (S (2 * d)) (size_at t d)), (long_at_spec _ (S (2 * d + 1)) (stride_at t d))
    by done.
  by rewrite !Z.eqb_refl.
Qed.

(** ** Theorems *)

Section Theorems.
Context `{SK : Sockets} {SKok : SocketsOk SK} `{T : TH} {Tok : THOk T}.
Context (ELEMENT_SIZE : Z) (He : 0 < ELEMENT_SIZE <= 8) (fuel : nat).

(** The bytes of a tensor's header. *)
Definition header (t : THTensor) : list byte :=
  longs_bytes (header_flags ELEMENT_SIZE (THTensor_isContiguous t) 0 :: header_dims t).

Lemma zlen_header t : tensor_ok t -> zlen (header t) = 8 * (2 * nDimension t + 1).
Proof.
  intros. unfold header. rewrite zlen_longs, zlen_cons, header_dims_length by done. lia.
Qed.

Lemma noncontiguous_ext t r1 r2 (s : tst) :
  (forall t dim k bc ptr, r1 t dim k bc ptr = r2 t dim k bc ptr) ->
  noncontiguous t r1 s = noncontiguous t r2 s.
Proof.
  intros H. unfold noncontiguous. destruct (_ <? 2); [done|]. destruct (negb _); [done|].
  destruct (collapse _ _ _) as [bc [|i]]; [done|]. by rewrite H.
Qed.

Lemma write_rcsv_traverse sock t k : forall dim bc ptr,
  tensor_write_noncontiguous_rcsv ELEMENT_SIZE fuel sock t dim k bc ptr
  = traverse t (fun p => write_contiguous ELEMENT_SIZE fuel sock p bc) dim k ptr.
Proof. induction k as [|k IH]; intros dim bc ptr; [done|]. cbn. by apply for_stride_ext. Qed.

Lemma read_rcsv_traverse sock t k : forall dim bc ptr,
  tensor_read_noncontiguous_rcsv ELEMENT_SIZE fuel sock t dim k bc ptr
  = traverse t (fun p => read_contiguous ELEMENT_SIZE fuel sock p bc) dim k ptr.
Proof. induction k as [|k IH]; intros dim bc ptr; [done|]. cbn. by apply for_stride_ext. Qed.

(** A transfer is its header and then its elements. *)
Lemma tensor_write_split sock t n c mem : use_fastpath c = 0 ->
  tensor_write ELEMENT_SIZE fuel sock t ((n, c), mem)
  = (on_tio (sock_send_raw fuel sock (header t)) ;;;
     elements_by (fun bc p => write_contiguous ELEMENT_SIZE fuel sock p bc) t) ((n, c), mem).
Proof.
  intros Hf. unfold tensor_write, mbnd at 1, get_st, header. cbn [fst snd]. rewrite Hf.
  unfold mbnd. destruct (on_tio _ _); try done. unfold elements_by.
  destruct (THTensor_isContiguous t); [done|]. apply noncontiguous_ext. intros.
  apply write_rcsv_traverse.
Qed.

Lemma fits_in_storage (data : list byte) o :
  fits ELEMENT_SIZE (zlen data) o -> in_storage ELEMENT_SIZE data o.
Proof.
  intros [H1 H2]. split; [done|]. unfold nelems.
  assert (o + 1 <= zlen data / ELEMENT_SIZE); [|lia]. apply Z.div_le_lower_bound; lia.
Qed.

(** What the sizes of a transfer are bounded by: memory below 2 GiB, since the byte counts
    pass through an [int], and the turns of the loops. *)
Definition bounded (t : THTensor) (mem : Z) : Prop :=
  mem < 2 ^ 31 /\ 8 * (2 * nDimension t + 1) < 2 ^ 31 /\
  (Z.to_nat mem <= fuel)%nat /\ (Z.to_nat (8 * (2 * nDimension t + 1)) <= fuel)%nat.

Lemma tensor_write_spec sock t data n c :
  tensor_ok t -> supported t = true -> 0 < nDimension t ->
  Forall (fits ELEMENT_SIZE (zlen data)) (positions t) -> bounded t (zlen data) ->
  connected n sock -> counts_ok c -> use_fastpath c = 0 ->
  exists n' c', tensor_write ELEMENT_SIZE fuel sock t ((n, c), Some <$> data)
      = Done tt ((n', c'), Some <$> data) /\
    sent n sock (header t ++ concat (map (elem ELEMENT_SIZE data) (positions t))) n'.
Proof.
  intros Ht Hs Hn Hps (B1 & B2 & B3 & B4) Hc Hk Hf. rewrite tensor_write_split by done.
  assert (sends sock data (on_tio (sock_send_raw fuel sock (header t)) ;;;
      elements_by (fun bc p => write_contiguous ELEMENT_SIZE fuel sock p bc) t)
    (header t ++ concat (map (elem ELEMENT_SIZE data) (positions t)))) as H.
  { pose proof (zlen_header t Ht) as Hh. apply sends_bind.
    - apply sends_raw; [unfold zlen in *; lia | lia].
    - apply (elements_follow (fun m ps => sends sock data m
        (concat (map (elem ELEMENT_SIZE data) ps))) _ (in_storage ELEMENT_SIZE data));
        try done.
      + apply sends_ret.
      + intros m1 m2 ps1 ps2 H1 H2. rewrite map_app, concat_app. by apply sends_bind.
      + intros bc p Hbc Hin. pose proof (block_in ELEMENT_SIZE He data p bc Hbc Hin).
        apply sends_block; try done; [unfold zlen in *; lia | nia].
      + eapply Forall_impl; [exact Hps | apply fits_in_storage]. }
  destruct (H n c Hc Hk) as (n' & c' & E & Hsent & _). eauto.
Qed.

(** An array of longs that was sent is received. *)
Lemma recv_longs_spec sock l n c mem rest :
  connected n sock -> counts_ok c -> 8 * zlen l < 2 ^ 31 -> (Z.to_nat (8 * zlen l) <= fuel)%nat ->
  unread n sock = longs_bytes l ++ rest ->
  exists n' c', recv_longs fuel sock (zlen l) ((n, c), mem)
      = Done (longs_bytes l) ((n', c'), mem) /\
    received n sock (8 * zlen l) n' /\ unread n' sock = rest /\ counts_ok c'.
Proof.
  intros Hc Hk Hl Hf Hu. pose proof (zlen_longs l) as Hz. pose proof (zlen_nonneg l) as H0.
  destruct (sock_recv_spec fuel sock (uninit (8 * zlen l)) 0 (longs_bytes l) rest n c)
    as (n' & c' & E & Hr & _ & Hk'); try done.
  { unfold zlen in *. lia. } { unfold SIZE_MOD. lia. } { rewrite zlen_uninit; lia. }
  exists n', c'. rewrite Hz in E, Hr. split; [|split; [done|split; [|done]]].
  - unfold recv_longs, mbnd, on_tio, zoom. cbn [fst snd]. unfold sock_recv_raw, mbnd.
    rewrite E, check_count_ok by lia. cbn [mret snd].
    rewrite store_whole by (rewrite zlen_uninit; lia). unfold of_opt. by rewrite mapM_id_Some.
  - rewrite (proj1 Hr), decide_True, Hu by done. rewrite <- Hz. unfold zdrop, zlen.
    by rewrite Nat2Z.id, drop_app_length.
Qed.

Lemma tensor_read_spec sock t es mem n c rest :
  tensor_ok t -> dims_long t -> supported t = true -> 0 < nDimension t ->
  Forall (fits ELEMENT_SIZE (zlen mem)) (positions t) -> bounded t (zlen mem) ->
  connected n sock -> counts_ok c -> use_fastpath c = 0 ->
  length es = length (positions t) -> elems ELEMENT_SIZE es ->
  unread n sock = header t ++ concat es ++ rest ->
  exists n' c', tensor_read ELEMENT_SIZE fuel sock t ((n, c), mem)
      = Done tt ((n', c'), fill ELEMENT_SIZE mem (positions t) es) /\
    received n sock (zlen (header t ++ concat es)) n'.
Proof.
  intros Ht Hd Hs Hn Hps (B1 & B2 & B3 & B4) Hc Hk Hf Hl Hes Hu.
  pose proof (zlen_header t Ht) as Hh.
  set (l := header_flags ELEMENT_SIZE (THTensor_isContiguous t) 0 :: header_dims t).
  assert (zlen l = 2 * nDimension t + 1) as Hl' by (subst l; rewrite zlen_cons, header_dims_length by done; lia).
  destruct (recv_longs_spec sock l n c mem (concat es ++ rest)) as (n1 & c1 & E1 & Hr1 & Hu1 & Hk1);
    try done; [lia | by rewrite Hl' |].
  assert (receives ELEMENT_SIZE sock (zlen mem)
    (elements_by (fun bc p => read_contiguous ELEMENT_SIZE fuel sock p bc) t) (positions t)) as H.
  { apply (elements_follow _ _ (fits ELEMENT_SIZE (zlen mem))); try done.
    - apply receives_ret.
    - intros. by apply receives_bind.
    - intros bc p Hbc Hin. apply receives_block; try done. rewrite Forall_seqZ in Hin.
      destruct (Hin p ltac:(lia)). destruct (Hin (p + bc - 1) ltac:(lia)). nia. }
  destruct (H Hps es n1 c1 mem rest) as (n2 & c2 & E2 & Hr2 & _); try done;
    [by apply (proj2 Hr1)|].
  exists n2, c2. split; [|rewrite zlen_app, Hh, <- Hl'; eapply received_add; [lia | apply zlen_nonneg | done | done]].
  unfold tensor_read, mbnd at 1, get_st. cbn [fst snd]. unfold mbnd. rewrite <- Hl', E1, Hf.
  subst l. rewrite header_matches_own by done. cbn [negb].
  etransitivity; [|exact E2]. unfold elements_by. destruct (THTensor_isContiguous t); [done|].
  apply noncontiguous_ext. intros. apply read_rcsv_traverse.
Qed.

Lemma same_dims_supported t u : t_size t = t_size u -> t_stride t = t_stride u ->
  has_storage t = has_storage u -> supported t = supported u.
Proof.
  intros E1 E2 E3. unfold supported. destruct (TH_same_dims t u E1 E2) as [-> _].
  assert (forall bc i, collapse t bc i = collapse u bc i) as Hc.
  { intros bc i. revert bc. induction i as [|i IH]; intros bc; [done|]. cbn.
    unfold stride_at, size_at. rewrite E1, E2. by rewrite IH. }
  unfold nDimension, stride_at, size_at. by rewrite E1, E2, E3, Hc.
Qed.

(** C8: a tensor sent by [tensor_write] and received by [tensor_read] into a tensor of the
    same sizes and strides arrives whole: every element of the destination, in index
    order, is the element of the source, the other elements of the destination's storage
    are as before, the source is as before, and no byte is left on the wire.  This
    covers contiguous tensors and views of larger ones, which are sent block by block. *)
Theorem tensor_roundtrip src dst data mem s r n c d :
  connected n s -> connected n r -> peer s = r -> unread n r = [] ->
  counts_ok c -> counts_ok d -> use_fastpath c = 0 -> use_fastpath d = 0 ->
  tensor_ok src -> dims_long src -> supported src = true -> 0 < nDimension src ->
  t_size dst = t_size src -> t_stride dst = t_stride src -> has_storage dst = true ->
  Forall (fits ELEMENT_SIZE (zlen data)) (positions src) -> bounded src (zlen data) ->
  Forall (fits ELEMENT_SIZE (zlen mem)) (positions dst) -> bounded dst (zlen mem) ->
  NoDup (positions dst) ->
  exists n1 c1 n2 d2 mem',
    tensor_write ELEMENT_SIZE fuel s src ((n, c), Some <$> data)
      = Done tt ((n1, c1), Some <$> data) /\
    tensor_read ELEMENT_SIZE fuel r dst ((n1, d), mem) = Done tt ((n2, d2), mem') /\
    unread n2 r = [] /\
    map (cells ELEMENT_SIZE mem') (positions dst)
      = map (fun o => Some <$> elem ELEMENT_SIZE data o) (positions src) /\
    forall o, fits ELEMENT_SIZE (zlen mem) o -> o ∉ positions dst ->
      cells ELEMENT_SIZE mem' o = cells ELEMENT_SIZE mem o.
Proof.
  intros Cs Cr Hp Hu Kc Kd Fc Fd Ht Hdl Hsup Hn E1 E2 Hst Hps B1 Hpd B2 Hnd.
  destruct (tensor_write_spec s src data n c) as (n1 & c1 & Ew & Hs); try done.
  assert (has_storage src = true) as Hst' by (by apply andb_prop in Hsup as [? _]).
  assert (tensor_ok dst) as Htd by (unfold tensor_ok in *; by rewrite E1, E2).
  assert (dims dst = dims src) as Hdims by (unfold dims; by rewrite E1, E2).
  assert (header dst = header src) as Hh.
  { unfold header, header_dims. rewrite E1, E2. by destruct (TH_same_dims dst src E1 E2) as [-> _]. }
  set (es := map (elem ELEMENT_SIZE data) (positions src)) in *.
  assert (elems ELEMENT_SIZE es) as Hes.
  { subst es. apply Forall_fmap. eapply Forall_impl; [exact Hps|]. intros o Ho.
    apply zlen_elem; [done|]. by apply fits_in_storage. }
  assert (length es = length (positions dst)) as Hl.
  { subst es. rewrite length_map. unfold positions. rewrite Hdims. destruct (dims src); [done|].
    by rewrite !length_map. }
  assert (unread n1 r = header dst ++ concat es ++ []) as Hu1.
  { rewrite (proj1 Hs), decide_True, Hu, Hh, app_nil_r by done. done. }
  destruct (tensor_read_spec r dst es mem n1 d []) as (n2 & d2 & Er & Hr); try done.
  { unfold dims_long in *. by rewrite E1, E2. }
  { rewrite (same_dims_supported dst src); congruence. }
  { unfold nDimension in *. by rewrite E1. } { by apply (proj2 Hs). }
  destruct (cells_fill ELEMENT_SIZE ltac:(lia) (positions dst) es mem) as [Hc1 Hc2]; try done.
  eexists n1, c1, n2, d2, _. split; [exact Ew|]. split; [exact Er|].
  split; [|split; [|exact Hc2]].
  - rewrite (proj1 Hr), decide_True, Hu1, app_nil_r by done. unfold zdrop, zlen.
    by rewrite Nat2Z.id, drop_all.
  - rewrite Hc1. subst es. by rewrite map_map.
Qed.

Lemma storage_write_spec sock size data n c :
  connected n sock -> counts_ok c -> zlen data = size * ELEMENT_SIZE -> zlen data < 2 ^ 31 ->
  (16 <= fuel)%nat -> (length data <= fuel)%nat ->
  exists n' c', storage_write ELEMENT_SIZE fuel sock size ((n, c), Some <$> data)
      = Done tt ((n', c'), Some <$> data) /\
    sent n sock (longs_bytes [ELEMENT_SIZE; size] ++ data) n'.
Proof.
  intros Hc Hk Hl Hb Hf Hfd. pose proof (zlen_nonneg data).
  assert (sends sock data (storage_write ELEMENT_SIZE fuel sock size)
    (longs_bytes [ELEMENT_SIZE; size] ++ data)) as H1.
  { apply sends_bind; [by apply sends_raw|]. intros n0 c0 Hc0 Hk0.
    unfold write_contiguous, mbnd, get_st, of_opt. cbn [snd]. rewrite zlen_fmap.
    rewrite (proj2 (Z.leb_le _ _)), (proj2 (Z.leb_le _ _)), (proj2 (Z.leb_le _ _)) by lia.
    cbn [andb]. change (zdrop (0 * ELEMENT_SIZE) ?x) with x. rewrite <- Hl. unfold ztake, zlen.
    rewrite Nat2Z.id, firstn_all2 by (rewrite length_fmap; lia). rewrite mapM_id_Some.
    by apply sends_raw. }
  destruct (H1 n c Hc Hk) as (n' & c' & E & Hsent & _). eauto.
Qed.

Lemma storage_read_spec sock e size e' size' data mem n c :
  connected n sock -> counts_ok c -> long e -> long size ->
  zlen data = size * e -> zlen data < 2 ^ 31 -> (16 <= fuel)%nat -> (length data <= fuel)%nat ->
  zlen mem = size' * e' -> unread n sock = longs_bytes [e; size] ++ data ->
  let same := (e =? e') && (size =? size') in
  exists n' c', storage_read e' fuel sock size' ((n, c), mem)
      = (if same then Done tt ((n', c'), Some <$> data)
         else Raised (ErrLua str_mismatch) ((n', c'), mem)) /\
    unread n' sock = if same then [] else data.
Proof.
  intros Hc Hk He1 Hs1 Hl Hb Hf Hfd Hm Hu same. pose proof (zlen_nonneg data).
  destruct (recv_longs_spec sock [e; size] n c mem data) as (n1 & c1 & E1 & Hr1 & Hu1 & Hk1); try done.
  unfold storage_read, mbnd. change 2 with (zlen [e; size]). rewrite E1.
  rewrite (long_at_spec _ 0 e), (long_at_spec _ 1 size) by done. subst same.
  destruct (Z.eqb_spec e e') as [<-|]; cbn [negb andb]; [|eauto].
  destruct (Z.eqb_spec size size') as [<-|]; cbn [negb]; [|eauto].
  destruct (sock_recv_spec fuel sock mem 0 data [] n1 c1) as (n2 & c2 & E2 & Hr2 & _); try done.
  { by apply (proj2 Hr1). } { unfold SIZE_MOD. lia. } { by rewrite app_nil_r. } { lia. }
  exists n2, c2. split.
  - unfold read_contiguous, mbnd, get_st, on_tio, zoom. cbn [fst snd]. unfold sock_recv_raw, mbnd.
    change (0 * e) with 0. rewrite <- Hl, E2, check_count_ok by lia. unfold mret, modify_st. cbn [fst snd].
    rewrite store_whole by lia. done.
  - rewrite (proj1 Hr2), decide_True, Hu1 by done. unfold zdrop, zlen. by rewrite Nat2Z.id, drop_all.
Qed.

(** C9: a storage of [size] elements of [e] bytes sent by [storage_write] arrives whole when
    [storage_read] reads into one of [size] elements of [e] bytes.  When the number or the size
    of the elements differs, [storage_read] raises with its storage as it was, and the elements
    sent stay on the wire, where the next receive will take them for a message.  Only sizes are
    compared: two element types of one size, as [int] and [float], are not told apart. *)
Theorem storage_roundtrip size e' size' data mem s r n c d :
  connected n s -> connected n r -> peer s = r -> unread n r = [] -> counts_ok c -> counts_ok d ->
  long size -> zlen data = size * ELEMENT_SIZE -> zlen data < 2 ^ 31 -> zlen mem = size' * e' ->
  (16 <= fuel)%nat -> (length data <= fuel)%nat ->
  let same := (ELEMENT_SIZE =? e') && (size =? size') in
  exists n1 c1 n2 d2,
    storage_write ELEMENT_SIZE fuel s size ((n, c), Some <$> data)
      = Done tt ((n1, c1), Some <$> data) /\
    storage_read e' fuel r size' ((n1, d), mem)
      = (if same then Done tt ((n2, d2), Some <$> data)
         else Raised (ErrLua str_mismatch) ((n2, d2), mem)) /\
    unread n2 r = if same then [] else data.
Proof.
  intros Cs Cr Hp Hu Kc Kd Hsz Hl Hb Hm Hf Hfd same.
  destruct (storage_write_spec s size data n c) as (n1 & c1 & Ew & Hs); try done.
  destruct (storage_read_spec r ELEMENT_SIZE size e' size' data mem n1 d) as (n2 & d2 & Er & Hun);
    try done.
  { by apply (proj2 Hs). } { unfold long. lia. }
  { by rewrite (proj1 Hs), decide_True, Hu. }
  exists n1, c1, n2, d2. done.
Qed.

(** A count of [2^31] or more does not survive the [int] it is stored in. *)
Lemma check_count_large n msg (st : io) : 2 ^ 31 <= n < 2 ^ 63 ->
  exists e, check_count n n msg st = Raised e st.
Proof.
  intros Hl. unfold check_count, int_of_size.
  pose proof (Z.mod_pos_bound n (2 ^ 32) ltac:(lia)) as Hm.
  set (m := n mod 2 ^ 32) in *.
  destruct (Z.ltb_spec m (2 ^ 31)) as [H1|H1].
  - rewrite (proj2 (Z.ltb_ge m 0)) by lia. unfold size_of_int, SIZE_MOD.
    rewrite Z.mod_small by lia. rewrite (proj2 (Z.eqb_neq m n)) by lia. cbn. eauto.
  - rewrite (proj2 (Z.ltb_lt (m - 2 ^ 32) 0)) by lia. unfold errno_error. eauto.
Qed.

(** C40: a transfer of [2^31] bytes or more raises an error at either end although all the bytes
    are moved: the count passes through an [int].  The sender has put all the bytes on the wire,
    the receiver has taken all of them off it. *)
Theorem two_gigabytes_raise s r bs n c d out pos :
  connected n s -> connected n r -> peer s = r -> unread n r = [] -> counts_ok c -> counts_ok d ->
  (length bs <= fuel)%nat -> 2 ^ 31 <= zlen bs < 2 ^ 63 ->
  0 <= pos -> pos + zlen bs <= zlen out ->
  exists e n1 c1 e' n2 d2,
    sock_send_raw fuel s bs (n, c) = Raised e (n1, c1) /\ sent n s bs n1 /\
    sock_recv_raw fuel r out pos (zlen bs) (n1, d) = Raised e' (n2, d2) /\
    received n1 r (zlen bs) n2 /\ unread n2 r = [].
Proof.
  intros Hc Hr Hp Hu Hk Hd Hf Hl H0 Hout.
  destruct (sock_send_spec fuel s bs n c Hc Hk Hf) as (n1 & c1 & E & Hs & _).
  assert (unread n1 r = bs ++ []) as Hu1
    by (rewrite (proj1 Hs), decide_True, Hu by done; by rewrite app_nil_r).
  destruct (sock_recv_spec fuel r out pos bs [] n1 d) as (n2 & d2 & E2 & Hr2 & _); try done.
  { by apply (proj2 Hs). } { unfold SIZE_MOD. lia. }
  destruct (check_count_large (zlen bs) str_send_count (n1, c1) Hl) as [x Hx].
  destruct (check_count_large (zlen bs) str_recv_count (n2, d2) Hl) as [y Hy].
  exists x, n1, c1, y, n2, d2.
  unfold sock_send_raw, sock_recv_raw, mbnd. rewrite E, E2, Hx, Hy. split; [done|]. split; [done|]. split; [done|].
  split; [done|]. rewrite (proj1 Hr2), decide_True, Hu1, app_nil_r by done. unfold zdrop, zlen.
  by rewrite Nat2Z.id, drop_all.
Qed.
End Theorems.

(** ** Concrete runs *)

(** The answers of TH, computed from the positions of the elements. *)
Definition ref_nElement (t : THTensor) : Z :=
  if nDimension t =? 0 then 0 else zlen (offsets (dims t)).
Definition ref_TH : TH := {|
  THTensor_isContiguous t := bool_decide (offsets (dims t) = seqZ 0 (ref_nElement t));
  THTensor_nElement := ref_nElement;
|}.

#[export] Instance ref_TH_ok : THOk ref_TH.
Proof.
  split.
  - intros t _ H%bool_decide_eq_true _. exact H.
  - intros t H. cbn. unfold ref_nElement. by rewrite H.
  - intros t u E1 E2. cbn. unfold ref_nElement, nDimension, dims. by rewrite E1, E2.
Qed.

Section Runs.
#[local] Instance net53 : Sockets := RefNet.sockets 5 3.
#[local] Instance net53_ok : SocketsOk net53 := RefNet.sockets_ok 5 3 eq_refl eq_refl.
#[local] Existing Instance ref_TH.

(** Two columns of a matrix of two rows and four columns, of two-byte elements. *)
Definition columns (first : Z) : THTensor := mk_tensor [2; 2] [4; 1] true first.
Definition matrix : list byte :=
  concat (map (fun b => [b; Byte.xff]) [Byte.x00; Byte.x01; Byte.x02; Byte.x03;
                                        Byte.x10; Byte.x11; Byte.x12; Byte.x13]).

Lemma tensor_roundtrip_witness :
  let c := mk_cc no_stats no_stats 0 in
  exists n1 c1 n2 d2 mem',
    tensor_write 2 60 8 (columns 1) ((RefNet.fresh, c), Some <$> matrix)
      = Done tt ((n1, c1), Some <$> matrix) /\
    tensor_read 2 60 9 (columns 0) ((n1, c), uninit 12) = Done tt ((n2, d2), mem') /\
    map (cells 2 mem') [0; 1; 4; 5]
      = map (fun b => [Some b; Some Byte.xff]) [Byte.x01; Byte.x02; Byte.x11; Byte.x12].
Proof.
  destruct (tensor_roundtrip (SK := net53) 2 ltac:(lia) 60 (columns 1) (columns 0) matrix (uninit 12) 8 9
    RefNet.fresh (mk_cc no_stats no_stats 0) (mk_cc no_stats no_stats 0))
    as (n1 & c1 & n2 & d2 & mem' & E1 & E2 & _ & E3 & _);
    [by split | by split | reflexivity | reflexivity | by split | by split | reflexivity
    | reflexivity | .. ].
  - split; [reflexivity | by repeat constructor].
  - split; repeat (constructor; [unfold long; cbn; lia|]); constructor.
  - vm_compute. reflexivity.
  - reflexivity.
  - reflexivity.
  - reflexivity.
  - reflexivity.
  - change (positions _) with [1; 2; 5; 6]. change (zlen matrix) with 16. unfold fits.
    repeat (constructor; [lia|]). constructor.
  - split; [reflexivity|]. split; [reflexivity|]. split; vm_compute; lia.
  - change (positions _) with [0; 1; 4; 5]. change (zlen _) with 12. unfold fits.
    repeat (constructor; [lia|]). constructor.
  - split; [reflexivity|]. split; [reflexivity|]. split; vm_compute; lia.
  - change (positions _) with [0; 1; 4; 5]. repeat (constructor; [set_solver|]). constructor.
  - exists n1, c1, n2, d2, mem'. split; [exact E1|]. split; [exact E2|]. exact E3.
Defined.

(** Three two-byte elements, read into a storage of three and into one of two. *)
Lemma storage_roundtrip_witness :
  let c := mk_cc no_stats no_stats 0 in
  let data := ztake 6 matrix in
  (exists n1 c1 n2 d2,
    storage_write 2 60 8 3 ((RefNet.fresh, c), Some <$> data) = Done tt ((n1, c1), Some <$> data) /\
    storage_read 2 60 9 3 ((n1, c), uninit 6) = Done tt ((n2, d2), Some <$> data)) /\
  (exists n1 c1 n2 d2,
    storage_write 2 60 8 3 ((RefNet.fresh, c), Some <$> data) = Done tt ((n1, c1), Some <$> data) /\
    storage_read 2 60 9 2 ((n1, c), uninit 4) = Raised (ErrLua str_mismatch) ((n2, d2), uninit 4) /\
    unread n2 9 = data).
Proof.
  pose proof (storage_roundtrip (SK := net53) 2 ltac:(lia) 60 3 2) as H.
  split.
  - destruct (H 3 (ztake 6 matrix) (uninit 6) 8 9 RefNet.fresh (mk_cc no_stats no_stats 0)
      (mk_cc no_stats no_stats 0)) as (n1 & c1 & n2 & d2 & E1 & E2 & _);
      [by split | by split | reflexivity | reflexivity | by split | by split | done | reflexivity
      | reflexivity | reflexivity | lia | vm_compute; lia |].
    exists n1, c1, n2, d2. split; [exact E1 | exact E2].
  - destruct (H 2 (ztake 6 matrix) (uninit 4) 8 9 RefNet.fresh (mk_cc no_stats no_stats 0)
      (mk_cc no_stats no_stats 0)) as (n1 & c1 & n2 & d2 & E1 & E2 & E3);
      [by split | by split | reflexivity | reflexivity | by split | by split | done | reflexivity
      | reflexivity | reflexivity | lia | vm_compute; lia |].
    exists n1, c1, n2, d2. split; [exact E1|]. split; [exact E2 | exact E3].
Defined.

Lemma two_gigabytes_raise_witness :
  let bs := repeat Byte.x00 (Z.to_nat (2 ^ 31)) in
  let c := mk_cc no_stats no_stats 0 in
  exists e n1 c1 e' n2 d2,
    sock_send_raw (SK := net53) (length bs) 8 bs (RefNet.fresh, c) = Raised e (n1, c1) /\
    sent RefNet.fresh 8 bs n1 /\
    sock_recv_raw (SK := net53) (length bs) 9 (uninit (2 ^ 31)) 0 (zlen bs) (n1, c)
      = Raised e' (n2, d2) /\
    received n1 9 (zlen bs) n2 /\ unread n2 9 = [].
Proof.
  intros bs c. assert (zlen bs = 2 ^ 31) as Hl
    by (unfold zlen, bs; rewrite repeat_length; apply Z2Nat.id; lia).
  clearbody bs. apply (two_gigabytes_raise (SK := net53) (length bs) 8 9 bs RefNet.fresh c c);
    [by split | by split | reflexivity | reflexivity | done | done | lia | lia | lia |].
  rewrite zlen_uninit by lia. lia.
Defined.
End Runs.
