(* ===== verification/Cuda.v ===== *)
(** * The transfer of device memory (src/generic/cliser.c, built with CUDA).

    The contents of a tensor on a GPU go through two halves of a staging buffer: while the
    GPU copies one block, the other is on the socket.  Between two processes of one host
    the receiver maps the sender's memory instead; it keeps what it has mapped in
    [remote_ptrs].  CUDA is a parameter: class [Cuda], with what its manual says of
    streams, events and mapped memory in [CudaOk].  A copy that was started touches its
    half of the buffer until an event recorded after it was waited for, and using that half
    meanwhile is undefined. *)
From Stdlib Require Import Sorted.
From stdpp Require Import sorting.
From S2P Require Import Prelude RingBuffer Lua Serialize Growth Roundtrip Net Cliser Tensor.

#[local] Open Scope ipc_scope.

Definition CUDA_BLOCK_SIZE : Z := 512 * 1024.
Definition CUDA_REMOTE_PTRS : Z := 256.

(** [cudaIpcMemHandle_t] is 64 bytes. *)
Abbreviation handle := (list byte) (only parsing).

#[export] Instance byte_countable : Countable byte :=
  inj_countable Byte.to_N Byte.of_N Byte.of_to_N.

(** Each call returns its error code.  Addresses and sizes are in bytes; the staging halves
    are 0 and 1. *)
Class Cuda := {
  gpu : Type;
  cuda_message : Z -> list byte;
  cudaEventCreate : gpu -> Z * gpu;
  cudaEventDestroy : gpu -> Z * gpu;
  (** [malloc] of the two halves, and [free]. *)
  malloc_halves : Z -> gpu -> gpu;
  free_halves : gpu -> gpu;
  (** [cudaMemcpyAsync] to a half, and from one; [cudaMemcpy] from one. *)
  cudaMemcpyAsync_out : nat -> Z -> Z -> gpu -> Z * gpu;
  cudaMemcpyAsync_in : Z -> nat -> Z -> gpu -> Z * gpu;
  cudaMemcpy_in : Z -> nat -> Z -> gpu -> Z * gpu;
  cudaEventRecord : gpu -> Z * gpu;
  cudaEventSynchronize : gpu -> Z * gpu;
  cudaDeviceSynchronize : gpu -> Z * gpu;
  (** A half as the processor reads and writes it; [None] while a copy uses it. *)
  host_read : nat -> gpu -> option (list cell);
  host_write : nat -> list cell -> gpu -> option gpu;
  (** Memory shared between processes: its handle, the address it is mapped at. *)
  cudaIpcGetMemHandle : Z -> gpu -> Z * handle;
  cudaIpcOpenMemHandle : handle -> gpu -> Z * Z * gpu;
  cudaIpcCloseMemHandle : Z -> gpu -> Z * gpu;
  (** [cudaMemcpy] from an address mapped. *)
  cudaMemcpy_remote : Z -> Z -> Z -> gpu -> Z * gpu;
}.

(** An entry of [remote_ptrs]. *)
Record remote_ptr_t := mk_remote {
  r_handle : handle;
  r_ptr : Z;
  r_dev_ptr : Z;
  r_count : Z;
  r_sock : Z;
}.

(** What [calloc] makes. *)
Definition no_remote : remote_ptr_t := mk_remote (replicate 64 Byte.x00) 0 0 0 0.

(** What [copy_context_t] has beside the counts: whether the event and the buffer exist,
    and the [num_remote_ptrs] entries in use. *)
Record cuda_context := mk_cuda {
  has_buf : bool;
  remote_ptrs : list remote_ptr_t;
  max_remote_ptrs : Z;
}.

Definition set_remote_ptrs (l : list remote_ptr_t) (c : cuda_context) : cuda_context :=
  mk_cuda (has_buf c) l (max_remote_ptrs c).
Definition set_max_remote_ptrs (x : Z) (c : cuda_context) : cuda_context :=
  mk_cuda (has_buf c) (remote_ptrs c) x.

Section Transfer.
Context `{SK : Sockets} `{CU : Cuda}.
Context (ELEMENT_SIZE : Z).

Definition CUDA_BLOCK_COUNT : Z := CUDA_BLOCK_SIZE / ELEMENT_SIZE.

(** The network with the counts, and the context with the device. *)
Definition cst : Type := io * (cuda_context * gpu).
Definition on_cio {A} : M io A -> M cst A := zoom fst (fun i s => (i, s.2)).
Definition get_gpu : M cst gpu := fun s => Done s.2.2 s.
Definition set_gpu (g : gpu) : M cst unit := modify_st (fun s => (s.1, (s.2.1, g))).
Definition get_context : M cst cuda_context := fun s => Done s.2.1 s.
Definition upd_context (f : cuda_context -> cuda_context) : M cst unit :=
  modify_st (fun s => (s.1, (f s.2.1, s.2.2))).

(** [THCudaCheck]: raises on an error. *)
Definition THCudaCheck (f : gpu -> Z * gpu) : M cst unit := fun s =>
  let '(e, g) := f s.2.2 in
  let s' := (s.1, (s.2.1, g)) in
  if e =? 0 then Done tt s' else Raised (ErrLua (cuda_message e)) s'.

Definition init_copy_context : M cst unit :=
  let! c := get_context in
  if negb (has_buf c) then
    THCudaCheck cudaEventCreate ;;;
    let! g := get_gpu in
    set_gpu (malloc_halves CUDA_BLOCK_SIZE g) ;;;
    upd_context (fun c => mk_cuda true ((fun _ => no_remote) <$> remote_ptrs c) CUDA_REMOTE_PTRS)
  else mret tt.

(** Of the context of a client or a server that is freed.  The event and the buffer are made
    together; [remote_ptrs] is left as it is. *)
Definition destroy_copy_context : M cst unit :=
  let! c := get_context in
  if has_buf c then
    THCudaCheck cudaEventDestroy ;;;
    let! g := get_gpu in
    set_gpu (free_halves g) ;;;
    upd_context (fun c => mk_cuda false (remote_ptrs c) (max_remote_ptrs c))
  else mret tt.

(** [sock_send_raw] and [sock_recv_raw] on a half. *)
Definition send_staged (fuel : nat) (sock : Z) (which : nat) (n : Z) : M cst unit :=
  let! g := get_gpu in
  let! buf := of_opt (host_read which g) in
  if zlen buf <? n then undef else
  let! bs := of_opt (mapM id (ztake n buf)) in
  on_cio (sock_send_raw fuel sock bs).

Definition recv_staged (fuel : nat) (sock : Z) (which : nat) (n : Z) : M cst unit :=
  let! g := get_gpu in
  let! buf := of_opt (host_read which g) in
  let! buf' := on_cio (sock_recv_raw fuel sock buf 0 n) in
  let! g' := of_opt (host_write which buf' g) in
  set_gpu g'.

(** The elements of the next block. *)
Definition next_block (count : Z) : Z :=
  if CUDA_BLOCK_COUNT <? count then CUDA_BLOCK_COUNT else count.

(** The loop of the sender: [which] is the half the next block goes to, [last_cb] the elements
    in the other one.  It has a turn per block. *)
Fixpoint write_blocks (turns fuel : nat) (sock ptr count : Z) (which : nat) (last_cb : Z)
  : M cst (nat * Z) :=
  if 0 <? count then
    match turns with
    | O => out_of_fuel
    | S turns' =>
        (if 0 <? last_cb then THCudaCheck cudaEventSynchronize else mret tt) ;;;
        let cb := next_block count in
        THCudaCheck (cudaMemcpyAsync_out which (ptr * ELEMENT_SIZE) (cb * ELEMENT_SIZE)) ;;;
        THCudaCheck cudaEventRecord ;;;
        (if 0 <? last_cb then send_staged fuel sock (1 - which) (last_cb * ELEMENT_SIZE)
         else mret tt) ;;;
        write_blocks turns' fuel sock (ptr + cb) (count - cb) (1 - which) cb
    end
  else mret (which, last_cb).

Definition write_staged (fuel : nat) (sock ptr count : Z) : M cst unit :=
  let! (which, last_cb) := write_blocks (Z.to_nat count) fuel sock ptr count 0 0 in
  if 0 <? last_cb then
    THCudaCheck cudaEventSynchronize ;;;
    send_staged fuel sock (1 - which) (last_cb * ELEMENT_SIZE)
  else mret tt.

(** The loop of the receiver; the block in the other half belongs at [ptr]. *)
Fixpoint read_blocks (turns fuel : nat) (sock ptr count : Z) (which : nat) (last_cb : Z)
  : M cst (Z * nat * Z) :=
  if 0 <? count then
    match turns with
    | O => out_of_fuel
    | S turns' =>
        (if 0 <? last_cb then
           THCudaCheck cudaEventSynchronize ;;;
           THCudaCheck (cudaMemcpyAsync_in (ptr * ELEMENT_SIZE) (1 - which)
                          (last_cb * ELEMENT_SIZE)) ;;;
           THCudaCheck cudaEventRecord
         else mret tt) ;;;
        let ptr := if 0 <? last_cb then ptr + last_cb else ptr in
        let cb := next_block count in
        recv_staged fuel sock which (cb * ELEMENT_SIZE) ;;;
        read_blocks turns' fuel sock ptr (count - cb) (1 - which) cb
    end
  else mret (ptr, which, last_cb).

Definition read_staged (fuel : nat) (sock ptr count : Z) : M cst unit :=
  (if 0 <? count then THCudaCheck cudaEventRecord else mret tt) ;;;
  let! (ptr, which, last_cb) := read_blocks (Z.to_nat count) fuel sock ptr count 0 0 in
  if 0 <? last_cb then
    THCudaCheck cudaEventSynchronize ;;;
    THCudaCheck (cudaMemcpy_in (ptr * ELEMENT_SIZE) (1 - which) (last_cb * ELEMENT_SIZE))
  else mret tt.

(** *** Between two processes of a host *)

(** [remote_ptr_t] as it travels: the fields [dev_ptr] and [sock] and the padding are what
    the stack held, [junk]. *)
Definition remote_bytes (junk h : list byte) (ptr count : Z) : list byte :=
  h ++ le_split 8 ptr ++ ztake 8 junk ++ le_split 8 count ++ zdrop 8 junk.
Definition sizeof_remote_ptr : Z := 96.
Definition sizeof_int : Z := 4.

Definition remote_of (bs : list byte) : remote_ptr_t :=
  mk_remote (ztake 64 bs) (le_combine (ztake 8 (zdrop 64 bs))) 0
    (le_combine (ztake 8 (zdrop 80 bs))) 0.

Definition recv_bytes (fuel : nat) (sock n : Z) : M cst (list byte) :=
  let! out := on_cio (sock_recv_raw fuel sock (uninit n) 0 n) in
  of_opt (mapM id out).

Definition count_ipc (k : Z) (n : net_stats_t) : net_stats_t :=
  mk_ns (num_bytes n) (num_regions n) (num_calls n) (num_system_calls n)
    (size_add (cuda_ipc_bytes n) k).

Definition write_shared (fuel : nat) (junk : list byte) (sock ptr count : Z) : M cst unit :=
  let! g := get_gpu in
  let '(e, h) := cudaIpcGetMemHandle (ptr * ELEMENT_SIZE) g in
  THCudaCheck (fun g => (e, g)) ;;;
  THCudaCheck cudaDeviceSynchronize ;;;
  on_cio (sock_send_raw fuel sock (remote_bytes junk h (ptr * ELEMENT_SIZE) count)) ;;;
  recv_bytes fuel sock sizeof_int ;;;
  modify_st (fun s => ((s.1.1, set_tx (count_ipc (count * ELEMENT_SIZE)) s.1.2), s.2)).

(** On the addresses of the first and the last element, in blocks of memory: the address after
    a block's last byte is at most [2 ^ 64], so that the pointers do not wrap around. *)
Definition has_overlap (p0 c0 p1 c1 : Z) : bool :=
  let ep0 := p0 + (c0 - 1) * ELEMENT_SIZE in
  let ep1 := p1 + (c1 - 1) * ELEMENT_SIZE in
  if (p1 <=? p0) && (p0 <=? ep1) then true else
  if (p1 <=? ep0) && (ep0 <=? ep1) then true else
  if (p0 <=? p1) && (p1 <=? ep0) then true else
  (p0 <=? ep1) && (ep1 <=? ep0).

(** The search for the handle of [r] from entry [cb] on; the entries of the same socket it
    passes that overlap [r] are taken out ([memmove]).  It has a turn per entry. *)
Fixpoint find_remote (turns : nat) (sock : Z) (r : remote_ptr_t) (cb : nat) : M cst nat :=
  let! c := get_context in
  match remote_ptrs c !! cb with
  | None => mret cb
  | Some e =>
      if bool_decide (r_handle r = r_handle e) then mret cb else
      match turns with
      | O => out_of_fuel
      | S turns' =>
          if (r_sock e =? sock) && has_overlap (r_ptr r) (r_count r) (r_ptr e) (r_count e) then
            THCudaCheck (cudaIpcCloseMemHandle (r_dev_ptr e)) ;;;
            upd_context (fun c => set_remote_ptrs (delete cb (remote_ptrs c)) c) ;;;
            find_remote turns' sock r cb
          else find_remote turns' sock r (cb + 1)
      end
  end.

(** Mapping the memory of a handle that was not found: a new entry at the end, in an array
    that is full only when it is made longer.  Writing it where there is no room is out of
    bounds. *)
Definition make_room : M cst unit :=
  upd_context (fun c =>
    if zlen (remote_ptrs c) =? max_remote_ptrs c
    then set_max_remote_ptrs (max_remote_ptrs c + CUDA_REMOTE_PTRS) c else c).

Definition map_remote (sock : Z) (r : remote_ptr_t) : M cst unit :=
  make_room ;;;
  let! c := get_context in
  if max_remote_ptrs c <=? zlen (remote_ptrs c) then undef else
  let! g := get_gpu in
  let '(e, d, g') := cudaIpcOpenMemHandle (r_handle r) g in
  THCudaCheck (fun _ => (e, g')) ;;;
  upd_context (fun c => set_remote_ptrs
    (remote_ptrs c ++ [mk_remote (r_handle r) (r_ptr r) d (r_count r) sock]) c).

(** The entry for [r]. *)
Definition remote_entry (sock : Z) (r : remote_ptr_t) : M cst remote_ptr_t :=
  let! c := get_context in
  let! cb := find_remote (length (remote_ptrs c)) sock r 0 in
  let! c := get_context in
  (if (cb =? length (remote_ptrs c))%nat then map_remote sock r else mret tt) ;;;
  let! c := get_context in
  of_opt (remote_ptrs c !! cb).

Definition read_shared (fuel : nat) (sock ptr count : Z) : M cst unit :=
  let! bs := recv_bytes fuel sock sizeof_remote_ptr in
  let! e := remote_entry sock (remote_of bs) in
  THCudaCheck (cudaMemcpy_remote (ptr * ELEMENT_SIZE) (r_dev_ptr e) (count * ELEMENT_SIZE)) ;;;
  THCudaCheck cudaDeviceSynchronize ;;;
  on_cio (sock_send_raw fuel sock (le_split 4 1)) ;;;
  modify_st (fun s => ((s.1.1, set_rx (count_ipc (count * ELEMENT_SIZE)) s.1.2), s.2)).

(** *** The two functions *)

Definition use_shared : M cst bool := fun s => Done (negb (use_fastpath s.1.2 =? 0)) s.

Definition write_contiguous (fuel : nat) (junk : list byte) (sock ptr count : Z) : M cst unit :=
  init_copy_context ;;;
  let! shared := use_shared in
  if (shared : bool) then write_shared fuel junk sock ptr count
  else write_staged fuel sock ptr count.

Definition read_contiguous (fuel : nat) (sock ptr count : Z) : M cst unit :=
  init_copy_context ;;;
  let! shared := use_shared in
  if (shared : bool) then read_shared fuel sock ptr count else read_staged fuel sock ptr count.
End Transfer.

(** ** What CUDA promises *)

(** [src] written into [dst] at [pos]. *)
Definition blit (dst : list cell) (pos : Z) (src : list cell) : list cell :=
  ztake pos dst ++ src ++ zdrop (pos + zlen src) dst.

(** The memory of the device and the two halves as they are once the copies started are
    done; the halves copies in flight use, and those of them that the event recorded last
    does not cover; the handles mapped, with their addresses. *)
Class Streams `(CU : Cuda) := {
  device : gpu -> list cell;
  staged : gpu -> nat -> list cell;
  in_flight : gpu -> gset nat;
  uncovered : gpu -> gset nat;
  mapped : gpu -> gmap handle Z;
}.

(** A call that touches the event and the copies in flight only. *)
Record keeps_memory `{ST : Streams} (g g' : gpu) : Prop := {
  km_device : device g' = device g;
  km_staged : staged g' = staged g;
  km_mapped : mapped g' = mapped g;
}.

Class CudaOk `(ST : Streams) := {
  create_ok g : exists g', cudaEventCreate g = (0, g') /\ keeps_memory g g' /\
    in_flight g' = in_flight g /\ uncovered g' = uncovered g;
  malloc_ok n g : 0 <= n -> let g' := malloc_halves n g in
    device g' = device g /\ (forall b, (b < 2)%nat -> zlen (staged g' b) = n) /\
    mapped g' = mapped g /\ in_flight g' = in_flight g /\ uncovered g' = uncovered g;
  destroy_ok g : let '(_, g') := cudaEventDestroy g in device g' = device g /\ mapped g' = mapped g;
  free_ok g : let g' := free_halves g in device g' = device g /\ mapped g' = mapped g;
  copy_out_ok b p n g : 0 <= p -> 0 <= n -> p + n <= zlen (device g) -> n <= zlen (staged g b) ->
    exists g', cudaMemcpyAsync_out b p n g = (0, g') /\ device g' = device g /\
      (forall b', staged g' b' = if decide (b' = b) then blit (staged g b) 0 (ztake n (zdrop p (device g)))
                                 else staged g b') /\
      mapped g' = mapped g /\
      in_flight g' = {[b]} ∪ in_flight g /\ uncovered g' = {[b]} ∪ uncovered g;
  copy_in_ok p b n g : 0 <= p -> 0 <= n -> p + n <= zlen (device g) -> n <= zlen (staged g b) ->
    exists g', cudaMemcpyAsync_in p b n g = (0, g') /\
      device g' = blit (device g) p (ztake n (staged g b)) /\ staged g' = staged g /\
      mapped g' = mapped g /\
      in_flight g' = {[b]} ∪ in_flight g /\ uncovered g' = {[b]} ∪ uncovered g;
  (** A copy that blocks ends after those in flight. *)
  copy_in_now_ok p b n g : 0 <= p -> 0 <= n -> p + n <= zlen (device g) -> n <= zlen (staged g b) ->
    exists g', cudaMemcpy_in p b n g = (0, g') /\
      device g' = blit (device g) p (ztake n (staged g b)) /\ staged g' = staged g /\
      mapped g' = mapped g /\ in_flight g' = ∅ /\ uncovered g' = ∅;
  record_ok g : exists g', cudaEventRecord g = (0, g') /\ keeps_memory g g' /\
    in_flight g' = in_flight g /\ uncovered g' = ∅;
  synchronize_ok g : exists g', cudaEventSynchronize g = (0, g') /\ keeps_memory g g' /\
    in_flight g' = uncovered g /\ uncovered g' = uncovered g;
  host_read_ok b g : b ∉ in_flight g -> host_read b g = Some (staged g b);
  host_write_ok b bs g : b ∉ in_flight g -> zlen bs = zlen (staged g b) ->
    exists g', host_write b bs g = Some g' /\ device g' = device g /\
      (forall b', staged g' b' = if decide (b' = b) then bs else staged g b') /\
      mapped g' = mapped g /\ in_flight g' = in_flight g /\ uncovered g' = uncovered g;
  (** Mapping fails or gives an address not in use. *)
  open_ok h g : mapped g !! h = None ->
    let '(e, d, g') := cudaIpcOpenMemHandle h g in
    device g' = device g /\ staged g' = staged g /\ mapped g' = if e =? 0 then <[h := d]> (mapped g) else mapped g;
  close_ok h d g : mapped g !! h = Some d ->
    let '(e, g') := cudaIpcCloseMemHandle d g in
    device g' = device g /\ staged g' = staged g /\
    mapped g' = if e =? 0 then delete h (mapped g) else mapped g;
}.

(** ** Blocks *)

Lemma zlen_0 {A} (l : list A) : zlen l <= 0 -> l = [].
Proof. destruct l as [|x l]; [done|]. pose proof (zlen_nonneg l). rewrite zlen_cons. lia. Qed.

Section Blocks.
Context (ELEMENT_SIZE : Z) (Hes : 0 < ELEMENT_SIZE <= CUDA_BLOCK_SIZE).
Context (data : list byte).

(** [c] elements from element [a] on. *)
Definition block (a c : Z) : list byte := ztake (c * ELEMENT_SIZE) (zdrop (a * ELEMENT_SIZE) data).

Definition inside (a c : Z) : Prop :=
  0 <= a /\ 0 <= c /\ (a + c) * ELEMENT_SIZE <= zlen data.

Lemma zlen_block a c : inside a c -> zlen (block a c) = c * ELEMENT_SIZE.
Proof. intros (? & ? & ?). unfold block. rewrite zlen_ztake; [done|]. rewrite zlen_zdrop; nia. Qed.

Lemma block_0 a : block a 0 = [].
Proof. done. Qed.

Lemma block_app a c1 c2 : inside a c1 -> inside (a + c1) c2 ->
  block a c1 ++ block (a + c1) c2 = block a (c1 + c2).
Proof.
  intros (? & ? & ?) (? & ? & ?). unfold block.
  replace ((a + c1) * ELEMENT_SIZE) with (c1 * ELEMENT_SIZE + a * ELEMENT_SIZE) by lia.
  unfold ztake, zdrop.
  replace (Z.to_nat (c1 * ELEMENT_SIZE + a * ELEMENT_SIZE))
    with (Z.to_nat (a * ELEMENT_SIZE) + Z.to_nat (c1 * ELEMENT_SIZE))%nat by lia.
  replace (Z.to_nat ((c1 + c2) * ELEMENT_SIZE))
    with (Z.to_nat (c1 * ELEMENT_SIZE) + Z.to_nat (c2 * ELEMENT_SIZE))%nat by nia.
  rewrite <- drop_drop. apply take_take_drop.
Qed.

Lemma next_block_spec c : 0 < c ->
  0 < next_block ELEMENT_SIZE c <= c /\
  next_block ELEMENT_SIZE c * ELEMENT_SIZE <= CUDA_BLOCK_SIZE.
Proof.
  intros Hc. unfold next_block, CUDA_BLOCK_COUNT.
  pose proof (Z.mul_div_le CUDA_BLOCK_SIZE ELEMENT_SIZE ltac:(lia)).
  pose proof (Z.div_le_lower_bound CUDA_BLOCK_SIZE ELEMENT_SIZE 1 ltac:(lia) ltac:(lia)).
  case_cmp; nia.
Qed.
End Blocks.

(** ** The sender's two halves *)

Section Staged.
Context `{SK : Sockets} {SKok : SocketsOk SK} `{CO : CudaOk}.
Context (ELEMENT_SIZE : Z) (Hes : 0 < ELEMENT_SIZE <= CUDA_BLOCK_SIZE).
Context (fuel : nat) (sock : Z) (cc : cuda_context).

Lemma check_run f g g' (i : io) :
  f g = (0, g') -> THCudaCheck f (i, (cc, g)) = Done tt (i, (cc, g')).
Proof. intros E. unfold THCudaCheck. cbn. by rewrite E. Qed.

Lemma mbnd_done {S A B} (m : M S A) (k : A -> M S B) s a s' :
  m s = Done a s' -> mbnd m k s = k a s'.
Proof. intros E. unfold mbnd. by rewrite E. Qed.

Lemma mbnd_assoc_done {S A B} (m1 : M S unit) (m2 : M S A) (k : A -> M S B) s a s' :
  (m1 ;;; m2) s = Done a s' -> (m1 ;;; let! x := m2 in k x) s = k a s'.
Proof. unfold mbnd. destruct (m1 s); try done. by intros ->. Qed.

(** Both halves are there, and no copy is left over. *)
Definition halves (g : gpu) : Prop := forall b, (b < 2)%nat -> zlen (staged g b) = CUDA_BLOCK_SIZE.

(** What a sending function leaves of the network and the counts. *)
Definition sent_by (n : net) (c : copy_context_t) (bs : list byte) (n' : net) (c' : copy_context_t)
  : Prop := sent n sock bs n' /\ counts_ok c' /\ use_fastpath c' = use_fastpath c.

Lemma sent_by_nil n c : counts_ok c -> sent_by n c [] n c.
Proof. intros. split; [apply sent_nil | done]. Qed.

Lemma sent_by_app n c b1 n1 c1 b2 n2 c2 :
  sent_by n c b1 n1 c1 -> sent_by n1 c1 b2 n2 c2 -> sent_by n c (b1 ++ b2) n2 c2.
Proof.
  intros (S1 & K1 & F1) (S2 & K2 & F2). split; [by eapply sent_app|]. split; [done | congruence].
Qed.

Lemma send_raw_run bs n c : connected n sock -> counts_ok c -> (length bs <= fuel)%nat ->
  zlen bs < 2 ^ 31 ->
  exists n' c', sock_send_raw fuel sock bs (n, c) = Done tt (n', c') /\ sent_by n c bs n' c'.
Proof.
  intros Hc Hk Hf Hl. pose proof (zlen_nonneg bs).
  destruct (sock_send_spec fuel sock bs n c Hc Hk Hf) as (n' & c' & E & Hs & (_ & _ & Hfp) & Hk').
  exists n', c'. unfold sock_send_raw, mbnd. rewrite E, check_count_ok by lia. done.
Qed.

Lemma send_staged_run which bs n c g : which ∉ in_flight g ->
  ztake (zlen bs) (staged g which) = Some <$> bs ->
  connected n sock -> counts_ok c -> (length bs <= fuel)%nat -> zlen bs < 2 ^ 31 ->
  exists n' c', send_staged fuel sock which (zlen bs) ((n, c), (cc, g)) = Done tt ((n', c'), (cc, g)) /\
    sent_by n c bs n' c'.
Proof.
  intros Hw Hb Hc Hk Hf Hl. destruct (send_raw_run bs n c Hc Hk Hf Hl) as (n' & c' & E & H).
  exists n', c'. split; [|done]. unfold send_staged, mbnd, get_gpu, of_opt. cbn [snd].
  rewrite host_read_ok by done.
  assert (zlen bs <= zlen (staged g which)) as Hle.
  { apply (f_equal zlen) in Hb. rewrite zlen_fmap in Hb. unfold zlen, ztake in *.
    rewrite length_take in Hb. lia. }
  rewrite (proj2 (Z.ltb_ge _ _)) by done. rewrite Hb, mapM_id_Some. unfold on_cio, zoom.
  cbn [fst snd]. by rewrite E.
Qed.

Context (data : list byte).
Abbreviation block := (block ELEMENT_SIZE data).
Abbreviation inside := (inside ELEMENT_SIZE data).

(** At the head of the loop: the half not written next holds the [last] elements before
    [ptr], once the copies in flight are done; the event covers those. *)
Record loaded (g : gpu) (ptr : Z) (which : nat) (last : Z) : Prop := {
  ld_device : device g = Some <$> data;
  ld_halves : halves g;
  ld_which : (which < 2)%nat;
  ld_inside : inside (ptr - last) last;
  ld_size : last * ELEMENT_SIZE <= CUDA_BLOCK_SIZE;
  ld_held : ztake (last * ELEMENT_SIZE) (staged g (1 - which)) = Some <$> block (ptr - last) last;
  ld_flight : in_flight g ⊆ {[(1 - which)%nat]};
  ld_covered : 0 < last -> uncovered g = ∅;
  ld_idle : last = 0 -> in_flight g = ∅;
}.

Lemma loaded_halves g b : halves g -> (b < 2)%nat -> zlen (staged g b) = CUDA_BLOCK_SIZE.
Proof. auto. Qed.

Lemma ztake_blit {n} dst src : zlen src = n -> ztake n (blit dst 0 src) = src.
Proof. intros <-. unfold blit. change (ztake 0 dst) with (@nil cell). rewrite app_nil_l. by apply ztake_ztake_app. Qed.

Lemma zlen_blit dst pos src : 0 <= pos -> pos + zlen src <= zlen dst ->
  zlen (blit dst pos src) = zlen dst.
Proof.
  intros. pose proof (zlen_nonneg src). unfold blit.
  rewrite !zlen_app, zlen_ztake, zlen_zdrop by lia. lia.
Qed.

(** The copy of a block to the device's side of the loop: started and covered by the event. *)
Lemma load_block_run i g ptr which last cb : loaded g ptr which last -> in_flight g = ∅ ->
  inside ptr cb -> 0 < cb -> cb * ELEMENT_SIZE <= CUDA_BLOCK_SIZE ->
  exists g', (THCudaCheck (cudaMemcpyAsync_out which (ptr * ELEMENT_SIZE) (cb * ELEMENT_SIZE)) ;;;
      THCudaCheck cudaEventRecord) (i, (cc, g)) = Done tt (i, (cc, g')) /\
    loaded g' (ptr + cb) (1 - which) cb /\ staged g' (1 - which) = staged g (1 - which) /\
    in_flight g' = {[which]}.
Proof.
  intros [Hd Hh Hw Hi Hs Hheld Hfl Hcov _] Hidle (Hp & Hc & Hin) Hcb Hsz.
  destruct (copy_out_ok which (ptr * ELEMENT_SIZE) (cb * ELEMENT_SIZE) g)
    as (g1 & E1 & Hd1 & Hs1 & _ & Hf1 & Hu1); [nia | nia | | rewrite Hh by done; lia |].
  { rewrite Hd, zlen_fmap. nia. }
  destruct (record_ok g1) as (g2 & E2 & [Hd2 Hs2 _] & Hf2 & Hu2).
  exists g2. unfold mbnd. rewrite (check_run _ _ _ _ E1), (check_run _ _ _ _ E2).
  split; [done|].
  assert (zlen (block ptr cb) = cb * ELEMENT_SIZE) as Hlen by (apply zlen_block; done).
  assert (ztake (cb * ELEMENT_SIZE) (zdrop (ptr * ELEMENT_SIZE) (device g)) = Some <$> block ptr cb)
    as Hsrc by (by rewrite Hd, zdrop_fmap, ztake_fmap).
  rewrite Hsrc in Hs1.
  split; [|split; [rewrite Hs2, Hs1; rewrite decide_False by lia; done | rewrite Hf2, Hf1, Hidle; set_solver]].
  assert (1 - (1 - which) = which)%nat as Hww by lia.
  split; try rewrite Hww; try lia.
  - congruence.
  - intros b Hb. rewrite Hs2, Hs1. case_decide; [subst|by apply Hh].
    rewrite zlen_blit; [by apply Hh | lia | rewrite zlen_fmap, Hlen, Hh by done; lia].
  - replace (ptr + cb - cb) with ptr by lia. done.
  - rewrite Hs2, Hs1, decide_True by done. replace (ptr + cb - cb) with ptr by lia.
    apply ztake_blit. by rewrite zlen_fmap.
  - rewrite Hf2, Hf1, Hidle. set_solver.
  - done.
Qed.

(** Waiting for the event, where a block is held, leaves no copy in flight. *)
Lemma synchronize_run i g ptr which last : loaded g ptr which last ->
  exists g', (if 0 <? last then THCudaCheck cudaEventSynchronize else mret tt : M cst unit) (i, (cc, g))
      = Done tt (i, (cc, g')) /\
    loaded g' ptr which last /\ in_flight g' = ∅.
Proof.
  intros Hl. pose proof Hl as [Hd Hh Hw Hi Hs Hheld Hfl Hcov Hidle]. destruct (Z.ltb_spec 0 last).
  - destruct (synchronize_ok g) as (g' & E & [Hd' Hs' _] & Hf & Hu).
    exists g'. split; [by apply check_run|]. rewrite Hcov in * by done. split; [|done].
    split; try done; [congruence | intros b; rewrite Hs'; apply Hh | by rewrite Hs' | set_solver].
  - exists g. split; [done|]. destruct Hi as (_ & ? & _). split; [done | apply Hidle; lia].
Qed.

Lemma write_blocks_spec turns : forall ptr count which last g n c,
  (length data <= fuel)%nat -> (Z.to_nat count <= turns)%nat ->
  loaded g ptr which last -> inside ptr count -> connected n sock -> counts_ok c ->
  exists which' last' g' n' c',
    write_blocks ELEMENT_SIZE turns fuel sock ptr count which last ((n, c), (cc, g))
      = Done (which', last') ((n', c'), (cc, g')) /\
    loaded g' (ptr + count) which' last' /\
    exists sentb, sentb ++ block (ptr + count - last') last' = block (ptr - last) (last + count) /\
      sent_by n c sentb n' c'.
Proof.
  induction turns as [|turns IH]; intros ptr count which last g n c Hfuel Ht Hl Hin Hc Hk;
    pose proof Hin as (Hp & Hcount & Hend); cbn [write_blocks];
    (destruct (Z.ltb_spec 0 count); [|exists which, last, g, n, c; replace count with 0 by lia;
      rewrite !Z.add_0_r; split; [done|]; split; [done|]; exists []; by split; [|apply sent_by_nil]]);
    [lia|].
  destruct (next_block_spec ELEMENT_SIZE Hes count) as [Hcb Hsz]; [done|].
  set (cb := next_block ELEMENT_SIZE count) in *.
  destruct (synchronize_run (n, c) g ptr which last Hl) as (g1 & E1 & Hl1 & Hf1).
  assert (inside ptr cb) as Hin1 by (split; [done|split; nia]).
  assert (inside (ptr + cb) (count - cb)) as Hin2 by (split; [lia|split; [lia | nia]]).
  destruct (load_block_run (n, c) g1 ptr which last cb Hl1 Hf1 Hin1) as (g2 & E2 & Hl2 & Hst2 & Hf2);
    [lia | done|].
  pose proof (ld_inside _ _ _ _ Hl1) as Hil. pose proof (ld_which _ _ _ _ Hl1) as Hwh.
  assert (zlen (block (ptr - last) last) = last * ELEMENT_SIZE) as Hlen by by apply zlen_block.
  assert (exists n1 c1, (if 0 <? last then send_staged fuel sock (1 - which) (last * ELEMENT_SIZE)
      else mret tt : M cst unit) ((n, c), (cc, g2)) = Done tt ((n1, c1), (cc, g2)) /\
    sent_by n c (block (ptr - last) last) n1 c1) as (n1 & c1 & E3 & Hs1).
  { destruct (Z.ltb_spec 0 last).
    - rewrite <- Hlen. pose proof (ld_size _ _ _ _ Hl1). apply send_staged_run; try done.
      + rewrite Hf2. set_solver by lia.
      + rewrite Hst2, Hlen. apply (ld_held _ _ _ _ Hl1).
      + destruct Hil as (? & ? & ?). unfold zlen in *. nia.
      + rewrite Hlen. unfold CUDA_BLOCK_SIZE in *. lia.
    - destruct Hil as (_ & ? & _). replace last with 0 by lia. exists n, c. split; [done|].
      by apply sent_by_nil. }
  destruct (IH (ptr + cb) (count - cb) (1 - which)%nat cb g2 n1 c1) as
    (which' & last' & g' & n' & c' & E & Hl' & sb & Hsb & Hs'); try done;
    [lia | by apply Hs1 | by apply Hs1 |].
  exists which', last', g', n', c'. replace (ptr + cb + (count - cb)) with (ptr + count) in * by lia.
  split.
  { etransitivity; [exact (mbnd_done _ _ _ _ _ E1)|]. cbv zeta.
    etransitivity; [exact (mbnd_assoc_done _ _ _ _ _ _ E2)|].
    etransitivity; [exact (mbnd_done _ _ _ _ _ E3) | exact E]. }
  split; [done|]. exists (block (ptr - last) last ++ sb). split; [|by eapply sent_by_app].
  rewrite <- app_assoc, Hsb. replace (ptr + cb - cb) with (ptr - last + last) by lia.
  replace (cb + (count - cb)) with count by lia. apply block_app; [done | done | by replace (ptr - last + last) with ptr by lia].
Qed.

(** The device idle, with [data] in its memory. *)
Record ready (g : gpu) : Prop := {
  rd_device : device g = Some <$> data;
  rd_halves : halves g;
  rd_flight : in_flight g = ∅;
}.

Lemma ready_loaded g ptr count : ready g -> inside ptr count -> loaded g ptr 0 0.
Proof.
  intros [Hd Hh Hf] (Hp & Hc & Hend). split; try done; [lia | | rewrite Hf; set_solver].
  split; [lia|]. split; [lia | nia].
Qed.

Lemma cuda_loaded_ready g ptr which last : loaded g ptr which last -> in_flight g = ∅ -> ready g.
Proof. intros [] ?. by split. Qed.

Lemma write_staged_spec ptr count g n c :
  (length data <= fuel)%nat -> ready g -> inside ptr count -> connected n sock -> counts_ok c ->
  exists n' c' g', write_staged ELEMENT_SIZE fuel sock ptr count ((n, c), (cc, g))
      = Done tt ((n', c'), (cc, g')) /\
    sent_by n c (block ptr count) n' c' /\ ready g'.
Proof.
  intros Hfuel Hr Hin Hc Hk.
  destruct (write_blocks_spec (Z.to_nat count) ptr count 0 0 g n c)
    as (which & last & g1 & n1 & c1 & E1 & Hl & sb & Hsb & Hs); eauto using ready_loaded.
  destruct (synchronize_run (n1, c1) g1 (ptr + count) which last Hl) as (g2 & E2 & Hl2 & Hf2).
  replace (ptr - 0) with ptr in Hsb by lia. rewrite Z.add_0_l in Hsb.
  unfold write_staged, mbnd at 1. rewrite E1.
  pose proof (ld_inside _ _ _ _ Hl2) as Hil. pose proof (zlen_block _ Hes _ _ _ Hil) as Hlen.
  destruct (Z.ltb_spec 0 last).
  - destruct (send_staged_run (1 - which) (block (ptr + count - last) last) n1 c1 g2)
      as (n' & c' & E3 & Hs3); try (apply Hs); try done.
    + rewrite Hf2. set_solver.
    + rewrite Hlen. apply (ld_held _ _ _ _ Hl2).
    + destruct Hil as (? & ? & ?). unfold zlen in *. nia.
    + pose proof (ld_size _ _ _ _ Hl2). rewrite Hlen. unfold CUDA_BLOCK_SIZE in *. lia.
    + exists n', c', g2. split; [etransitivity; [exact (mbnd_done _ _ _ _ _ E2)|]; by rewrite <- Hlen|].
      split; [rewrite <- Hsb; by eapply sent_by_app | by eapply cuda_loaded_ready].
  - exists n1, c1, g1. injection E2 as <-. split; [done|].
    destruct Hil as (_ & ? & _). replace last with 0 in * by lia.
    rewrite block_0, app_nil_r in Hsb. subst sb. split; [done | by eapply cuda_loaded_ready].
Qed.

(** ** The receiver's two halves *)

Lemma blit_store mem pos bs : blit mem pos (Some <$> bs) = store mem pos bs.
Proof. unfold blit, store. by rewrite zlen_fmap. Qed.

(** What a receiving function leaves of the network and the counts. *)
Definition received_by (n : net) (c : copy_context_t) (k : Z) (n' : net) (c' : copy_context_t)
  : Prop := received n sock k n' /\ counts_ok c' /\ use_fastpath c' = use_fastpath c.

Lemma recv_staged_run which bs rest n c g : which ∉ in_flight g -> (which < 2)%nat -> halves g ->
  unread n sock = bs ++ rest -> zlen bs <= CUDA_BLOCK_SIZE ->
  connected n sock -> counts_ok c -> (length bs <= fuel)%nat ->
  exists n' c' g', recv_staged fuel sock which (zlen bs) ((n, c), (cc, g))
      = Done tt ((n', c'), (cc, g')) /\ received_by n c (zlen bs) n' c' /\
    device g' = device g /\ halves g' /\ in_flight g' = in_flight g /\ uncovered g' = uncovered g /\
    ztake (zlen bs) (staged g' which) = Some <$> bs.
Proof.
  intros Hw Hw2 Hh Hu Hl Hc Hk Hf. pose proof (zlen_nonneg bs). unfold CUDA_BLOCK_SIZE in Hl.
  destruct (sock_recv_spec fuel sock (staged g which) 0 bs rest n c)
    as (n' & c' & E & Hr & (_ & _ & Hfp) & Hk'); try done.
  { unfold SIZE_MOD. lia. } { rewrite Hh by done. unfold CUDA_BLOCK_SIZE. lia. }
  assert (zlen (store (staged g which) 0 bs) = CUDA_BLOCK_SIZE) as Hz.
  { rewrite zlen_store; [by apply Hh | lia | rewrite Hh by done; unfold CUDA_BLOCK_SIZE; lia]. }
  destruct (host_write_ok which (store (staged g which) 0 bs) g)
    as (g' & Eg & Hd & Hs & _ & Hf' & Hu'); [done | by rewrite Hz, Hh|].
  exists n', c', g'. split.
  { unfold recv_staged, mbnd, get_gpu, of_opt. cbn [snd]. rewrite host_read_ok by done.
    unfold on_cio, zoom. cbn [fst snd]. unfold sock_recv_raw, mbnd.
    rewrite E, check_count_ok by lia. cbn [mret]. by rewrite Eg. }
  split; [done|]. split; [done|]. split; [|split; [done|split; [done|]]].
  - intros b Hb. rewrite Hs. case_decide; [done | by apply Hh].
  - rewrite Hs, decide_True by done. rewrite <- blit_store. apply ztake_blit, zlen_fmap.
Qed.

Context (mem : list cell) (start : Z).

(** At the head of the loop: [got] is in the memory of the device from [start] on, once the
    copies in flight are done, and the [last] elements after it, [kept], are in the other
    half. *)
Record filled (g : gpu) (ptr : Z) (which : nat) (last : Z) (got kept : list byte) : Prop := {
  fl_device : device g = store mem (start * ELEMENT_SIZE) got;
  fl_halves : halves g;
  fl_which : (which < 2)%nat;
  fl_ptr : ptr * ELEMENT_SIZE = start * ELEMENT_SIZE + zlen got;
  fl_size : 0 <= last /\ zlen kept = last * ELEMENT_SIZE /\ last * ELEMENT_SIZE <= CUDA_BLOCK_SIZE;
  fl_kept : ztake (last * ELEMENT_SIZE) (staged g (1 - which)) = Some <$> kept;
  fl_covered : uncovered g = ∅;
  fl_idle : last = 0 -> in_flight g = ∅;
}.

Definition room (got kept : list byte) : Prop :=
  0 <= start /\ start * ELEMENT_SIZE + zlen got + zlen kept <= zlen mem.

(** Before a block is received the one before goes on its way to the device. *)
Lemma unload_block_run i g ptr which last got kept :
  filled g ptr which last got kept -> room got kept ->
  exists g', (if 0 <? last then
       THCudaCheck cudaEventSynchronize ;;;
       THCudaCheck (cudaMemcpyAsync_in (ptr * ELEMENT_SIZE) (1 - which) (last * ELEMENT_SIZE)) ;;;
       THCudaCheck cudaEventRecord
     else mret tt : M cst unit) (i, (cc, g)) = Done tt (i, (cc, g')) /\
    device g' = store mem (start * ELEMENT_SIZE) (got ++ kept) /\ halves g' /\
    which ∉ in_flight g' /\ uncovered g' = ∅.
Proof.
  intros [Hd Hh Hw Hp (Hl & Hk & Hs) Hkept Hcov Hidle] (H0 & Hroom).
  pose proof (zlen_nonneg got). pose proof (zlen_nonneg kept).
  destruct (Z.ltb_spec 0 last).
  - destruct (synchronize_ok g) as (g1 & E1 & [Hd1 Hs1 _] & Hf1 & Hu1).
    assert (zlen (device g1) = zlen mem) as Hz1 by (rewrite Hd1, Hd; apply zlen_store; nia).
    destruct (copy_in_ok (ptr * ELEMENT_SIZE) (1 - which) (last * ELEMENT_SIZE) g1)
      as (g2 & E2 & Hd2 & Hs2 & _ & Hf2 & Hu2); [nia | nia | lia | rewrite Hs1, Hh by lia; lia|].
    destruct (record_ok g2) as (g3 & E3 & [Hd3 Hs3 _] & Hf3 & Hu3).
    exists g3. split.
    { etransitivity; [exact (mbnd_done _ _ _ _ _ (check_run _ _ _ _ E1))|].
      etransitivity; [exact (mbnd_done _ _ _ _ _ (check_run _ _ _ _ E2))|]. by apply check_run. }
    split; [|split; [intros b Hb; rewrite Hs3, Hs2, Hs1; by apply Hh|split; [|done]]].
    + rewrite Hd3, Hd2, Hd1, Hd, Hs1, Hkept, blit_store, Hp. apply store_store; nia.
    + rewrite Hf3, Hf2, Hf1, Hcov. set_solver by lia.
  - exists g. split; [done|]. replace last with 0 in * by lia.
    assert (kept = []) as -> by (apply zlen_0; lia).
    rewrite app_nil_r. split; [done|]. split; [done|]. rewrite Hidle by done. split; [set_solver | done].
Qed.

Lemma room_app got kept bs : room got (kept ++ bs) <-> room (got ++ kept) bs.
Proof. unfold room. rewrite !zlen_app. lia. Qed.

(** One turn: the block in the other half is on its way to the device, the next is received. *)
Lemma read_turn_run ptr which last g n c got kept cb bs rest :
  filled g ptr which last got kept -> room got kept -> 0 < cb ->
  cb * ELEMENT_SIZE <= CUDA_BLOCK_SIZE -> zlen bs = cb * ELEMENT_SIZE -> (length bs <= fuel)%nat ->
  unread n sock = bs ++ rest -> connected n sock -> counts_ok c ->
  exists n1 c1 g2,
    ((if 0 <? last then
        THCudaCheck cudaEventSynchronize ;;;
        THCudaCheck (cudaMemcpyAsync_in (ptr * ELEMENT_SIZE) (1 - which) (last * ELEMENT_SIZE)) ;;;
        THCudaCheck cudaEventRecord
      else mret tt) ;;;
     recv_staged fuel sock which (cb * ELEMENT_SIZE) : M cst unit) ((n, c), (cc, g))
    = Done tt ((n1, c1), (cc, g2)) /\
    filled g2 (if 0 <? last then ptr + last else ptr) (1 - which) cb (got ++ kept) bs /\
    received_by n c (zlen bs) n1 c1.
Proof.
  intros Hfl Hroom Hcb Hsz Hl Hfuel Hu Hc Hk.
  destruct (unload_block_run (n, c) g ptr which last got kept Hfl Hroom)
    as (g1 & E1 & Hd1 & Hh1 & Hw1 & Hu1).
  pose proof (fl_which _ _ _ _ _ _ Hfl) as Hw2. pose proof (fl_ptr _ _ _ _ _ _ Hfl) as Hptr.
  pose proof (fl_size _ _ _ _ _ _ Hfl) as (Hla & Hkl & _).
  destruct (recv_staged_run which bs rest n c g1)
    as (n1 & c1 & g2 & E2 & Hr1 & Hd2 & Hh2 & Hf2 & Hu2 & Hs2); try done; [lia|].
  exists n1, c1, g2. split; [|split; [|done]].
  { rewrite Hl in E2. etransitivity; [exact (mbnd_done _ _ _ _ _ E1) | exact E2]. }
  assert ((if 0 <? last then ptr + last else ptr) = ptr + last) as -> by (case_cmp; lia).
  split; try done; try lia.
  - by rewrite Hd2, Hd1.
  - rewrite zlen_app. nia.
  - replace (1 - (1 - which))%nat with which by lia. by rewrite <- Hl.
  - congruence.
Qed.

Lemma read_blocks_spec turns : forall ptr count which last g n c got kept bs rest,
  (length bs <= fuel)%nat -> (Z.to_nat count <= turns)%nat -> zlen bs = count * ELEMENT_SIZE ->
  filled g ptr which last got kept -> room got (kept ++ bs) ->
  unread n sock = bs ++ rest -> connected n sock -> counts_ok c ->
  exists ptr' which' last' g' n' c' got' kept',
    read_blocks ELEMENT_SIZE turns fuel sock ptr count which last ((n, c), (cc, g))
      = Done (ptr', which', last') ((n', c'), (cc, g')) /\
    filled g' ptr' which' last' got' kept' /\ got' ++ kept' = got ++ kept ++ bs /\
    received_by n c (zlen bs) n' c'.
Proof.
  induction turns as [|turns IH];
    intros ptr count which last g n c got kept bs rest Hfuel Ht Hbs Hfl Hroom Hu Hc Hk;
    cbn [read_blocks]; (destruct (Z.ltb_spec 0 count); [|
      pose proof (zlen_nonneg bs); assert (bs = []) as -> by (apply zlen_0; nia);
      exists ptr, which, last, g, n, c, got, kept; rewrite app_nil_r; split; [done|];
      split; [done|]; split; [done|]; split; [apply received_0 | done]]); [lia|].
  destruct (next_block_spec ELEMENT_SIZE Hes count) as [Hcb Hsz]; [done|].
  set (cb := next_block ELEMENT_SIZE count) in *. apply room_app in Hroom as Hroom'.
  assert (room got kept) as Hroom1
    by (unfold room in *; rewrite zlen_app in Hroom; pose proof (zlen_nonneg bs); lia).
  set (b1 := ztake (cb * ELEMENT_SIZE) bs). set (b2 := zdrop (cb * ELEMENT_SIZE) bs).
  assert (b1 ++ b2 = bs) as Hb by apply ztake_zdrop.
  assert (zlen b1 = cb * ELEMENT_SIZE) as Hl1 by (apply zlen_ztake; nia).
  assert (zlen b2 = (count - cb) * ELEMENT_SIZE) as Hl2
    by (unfold b2; rewrite zlen_zdrop by nia; rewrite Hbs; lia).
  assert (length b1 <= length bs /\ length b2 <= length bs)%nat as [Hlb1 Hlb2]
    by (rewrite <- Hb, length_app; lia).
  destruct (read_turn_run ptr which last g n c got kept cb b1 (b2 ++ rest) Hfl Hroom1)
    as (n1 & c1 & g2 & E1 & Hfl2 & Hr1); try done; try lia; [by rewrite app_assoc, Hb |].
  set (ptr1 := if 0 <? last then ptr + last else ptr) in *.
  destruct (IH ptr1 (count - cb) (1 - which)%nat cb g2 n1 c1 (got ++ kept) b1 b2 rest) as
    (ptr' & which' & last' & g' & n' & c' & got' & kept' & E & Hfl' & Hg & Hr2); try done;
    try lia; [by rewrite Hb | | by apply Hr1 | by apply Hr1 |].
  { destruct Hr1 as ((U & _) & _). rewrite U, decide_True, Hu by done.
    rewrite <- Hb, <- app_assoc. by apply zdrop_zdrop_app. }
  exists ptr', which', last', g', n', c', got', kept'. split.
  { etransitivity; [exact (mbnd_assoc_done _ _ _ _ _ _ E1) | exact E]. }
  split; [done|]. split; [rewrite Hg, <- app_assoc; by rewrite Hb|].
  destruct Hr1 as (R1 & _ & F1), Hr2 as (R2 & K2 & F2). split; [|split; [done | congruence]].
  rewrite <- Hb, zlen_app. eapply received_add; try done; nia.
Qed.

(** The last block goes with a copy that blocks. *)
Lemma cuda_finish_run i g ptr which last got kept :
  filled g ptr which last got kept -> room got kept ->
  exists g', (if 0 <? last then
       THCudaCheck cudaEventSynchronize ;;;
       THCudaCheck (cudaMemcpy_in (ptr * ELEMENT_SIZE) (1 - which) (last * ELEMENT_SIZE))
     else mret tt : M cst unit) (i, (cc, g)) = Done tt (i, (cc, g')) /\
    device g' = store mem (start * ELEMENT_SIZE) (got ++ kept) /\ halves g' /\ in_flight g' = ∅.
Proof.
  intros [Hd Hh Hw Hp (Hl & Hk & Hs) Hkept Hcov Hidle] (H0 & Hroom).
  pose proof (zlen_nonneg got). pose proof (zlen_nonneg kept).
  destruct (Z.ltb_spec 0 last).
  - destruct (synchronize_ok g) as (g1 & E1 & [Hd1 Hs1 _] & Hf1 & Hu1).
    assert (zlen (device g1) = zlen mem) as Hz1 by (rewrite Hd1, Hd; apply zlen_store; nia).
    destruct (copy_in_now_ok (ptr * ELEMENT_SIZE) (1 - which) (last * ELEMENT_SIZE) g1)
      as (g2 & E2 & Hd2 & Hs2 & _ & Hf2 & Hu2); [nia | nia | lia | rewrite Hs1, Hh by lia; lia|].
    exists g2. split.
    { etransitivity; [exact (mbnd_done _ _ _ _ _ (check_run _ _ _ _ E1))|]. by apply check_run. }
    split; [|split; [intros b Hb; rewrite Hs2, Hs1; by apply Hh | done]].
    rewrite Hd2, Hd1, Hd, Hs1, Hkept, blit_store, Hp. apply store_store; nia.
  - exists g. split; [done|]. assert (kept = []) as -> by (apply zlen_0; nia).
    rewrite app_nil_r. split; [done|]. split; [done | apply Hidle; lia].
Qed.

Lemma read_staged_spec count g n c bs rest :
  (length bs <= fuel)%nat -> zlen bs = count * ELEMENT_SIZE -> 0 <= count -> 0 <= start ->
  start * ELEMENT_SIZE + zlen bs <= zlen mem ->
  device g = mem -> halves g -> in_flight g = ∅ ->
  unread n sock = bs ++ rest -> connected n sock -> counts_ok c ->
  exists n' c' g', read_staged ELEMENT_SIZE fuel sock start count ((n, c), (cc, g))
      = Done tt ((n', c'), (cc, g')) /\
    received_by n c (zlen bs) n' c' /\ device g' = store mem (start * ELEMENT_SIZE) bs /\
    halves g' /\ in_flight g' = ∅.
Proof.
  intros Hfuel Hbs Hc0 Hs0 Hroom Hd Hh Hf Hu Hc Hk. unfold read_staged.
  destruct (Z.ltb_spec 0 count).
  2:{ assert (bs = []) as -> by (apply zlen_0; nia). exists n, c, g.
      replace count with 0 by lia. rewrite store_nil. split; [done|].
      split; [split; [apply received_0 | done] | done]. }
  destruct (record_ok g) as (g1 & E1 & [Hd1 Hs1 _] & Hf1 & Hu1).
  assert (filled g1 start 0 0 [] []) as Hfl.
  { split; [by rewrite store_nil, Hd1 | intros b; rewrite Hs1; apply Hh | lia
      | change (zlen []) with 0; lia | change (zlen []) with 0; unfold CUDA_BLOCK_SIZE; lia
      | done | done | congruence]. }
  destruct (read_blocks_spec (Z.to_nat count) start count 0 0 g1 n c [] [] bs rest)
    as (ptr & which & last & g2 & n2 & c2 & got & kept & E2 & Hfl2 & Hg & Hr); try done.
  { split; [done|]. cbn [app]. rewrite zlen_nil. lia. }
  assert (room got kept) as Hroom2.
  { split; [done|]. apply (f_equal zlen) in Hg. cbn in Hg. rewrite zlen_app in Hg. lia. }
  destruct (cuda_finish_run (n2, c2) g2 ptr which last got kept Hfl2 Hroom2)
    as (g3 & E3 & Hd3 & Hh3 & Hf3).
  exists n2, c2, g3. split; [|split; [done|]; split; [by rewrite Hd3, Hg | done]].
  etransitivity; [exact (mbnd_done _ _ _ _ _ (check_run _ _ _ _ E1))|].
  etransitivity; [exact (mbnd_done _ _ _ _ _ E2) | exact E3].
Qed.
End Staged.

(** ** What is mapped *)

Section Cache.
Context `{SK : Sockets} `{CO : CudaOk} (ELEMENT_SIZE : Z).
Abbreviation has_overlap := (has_overlap ELEMENT_SIZE).

(** On non-empty ranges of aligned elements the test is that they meet. *)
Lemma has_overlap_spec p0 c0 p1 c1 : 0 < ELEMENT_SIZE -> 0 < c0 -> 0 < c1 ->
  (ELEMENT_SIZE | p0) -> (ELEMENT_SIZE | p1) ->
  has_overlap p0 c0 p1 c1 = true <->
  exists a, p0 <= a < p0 + c0 * ELEMENT_SIZE /\ p1 <= a < p1 + c1 * ELEMENT_SIZE.
Proof.
  intros Hes H0 H1 [k0 ->] [k1 ->]. set (E := ELEMENT_SIZE) in *. split.
  - unfold Cuda.has_overlap. fold E. intros H.
    exists (Z.max (k0 * E) (k1 * E)). repeat case_match; try nia.
  - intros (a & Ha0 & Ha1). assert (k0 < k1 + c1 /\ k1 < k0 + c0) as [? ?] by nia.
    unfold Cuda.has_overlap. fold E.
    replace (k0 * E + (c0 - 1) * E) with ((k0 + c0 - 1) * E) by lia.
    replace (k1 * E + (c1 - 1) * E) with ((k1 + c1 - 1) * E) by lia.
    assert (forall a b, (a * E <=? b * E) = (a <=? b)) as Hle.
    { intros x y. destruct (Z.leb_spec x y); [apply Z.leb_le | apply Z.leb_gt]; nia. }
    rewrite !Hle. repeat case_cmp; cbn; try done; lia.
Qed.

Definition meets (r e : remote_ptr_t) : bool := has_overlap (r_ptr r) (r_count r) (r_ptr e) (r_count e).

(** The entries are what is mapped, each once, fit the array, and those of one socket do not
    overlap. *)
Record cache_ok (cc : cuda_context) (g : gpu) : Prop := {
  ca_room : zlen (remote_ptrs cc) <= max_remote_ptrs cc;
  ca_mapped : forall h d, mapped g !! h = Some d <->
    exists e, e ∈ remote_ptrs cc /\ r_handle e = h /\ r_dev_ptr e = d;
  ca_handles : NoDup (r_handle <$> remote_ptrs cc);
  ca_apart : StronglySorted (fun e e' => r_sock e = r_sock e' -> meets e' e = false)
    (remote_ptrs cc);
}.

(** An entry the search goes past. *)
Definition passed (sock : Z) (r e : remote_ptr_t) : Prop :=
  r_handle r <> r_handle e /\ (r_sock e = sock -> meets r e = false).

Lemma cache_delete cc g g' cb e :
  cache_ok cc g -> remote_ptrs cc !! cb = Some e -> mapped g' = delete (r_handle e) (mapped g) ->
  cache_ok (set_remote_ptrs (delete cb (remote_ptrs cc)) cc) g'.
Proof.
  intros [Hroom Hmap Hnd Hap] He Hg. destruct cc as [hb l mx]. cbn in *.
  apply list_elem_of_split_length in He as (l1 & l2 & -> & ->).
  rewrite delete_middle. rewrite fmap_app, fmap_cons in Hnd.
  apply NoDup_app in Hnd as (Hn1 & Hn12 & [He Hn2]%NoDup_cons).
  apply StronglySorted_app in Hap as (Ha12 & Ha1 & [Ha2 _]%StronglySorted_inv).
  split; cbn.
  - rewrite zlen_app in *. rewrite zlen_cons in Hroom. lia.
  - intros h d. rewrite Hg, lookup_delete_Some, Hmap. split.
    + intros (Hne & e' & Hin & <- & <-). exists e'. split; [|done].
      apply elem_of_app. apply elem_of_app in Hin as [?|[->|?]%elem_of_cons]; auto. done.
    + intros (e' & Hin & <- & <-). apply elem_of_app in Hin.
      split; [|exists e'; split; [set_solver | done]]. intros Heq. destruct Hin as [Hin|Hin].
      * apply (Hn12 (r_handle e')); [by apply list_elem_of_fmap_2 | rewrite <- Heq; left].
      * apply He. rewrite Heq. by apply list_elem_of_fmap_2.
  - rewrite fmap_app. apply NoDup_app. split; [done|]. split; [|done].
    intros h Hh ?. apply (Hn12 h Hh). by right.
  - apply StronglySorted_app. split; [|done]. intros x y Hx Hy. apply Ha12; [done | by right].
Qed.

(** What the search leaves: the entries it kept, and where it stopped. *)
Definition searched (sock : Z) (r : remote_ptr_t) (cc cc' : cuda_context) (cb : nat) : Prop :=
  remote_ptrs cc' ⊆ remote_ptrs cc /\ Forall (passed sock r) (take cb (remote_ptrs cc')) /\
  match remote_ptrs cc' !! cb with
  | Some e => r_handle e = r_handle r
  | None => cb = length (remote_ptrs cc')
  end.

Lemma find_remote_spec sock r turns : forall cb (i : io) cc g,
  cache_ok cc g -> (cb <= length (remote_ptrs cc) <= turns + cb)%nat ->
  Forall (passed sock r) (take cb (remote_ptrs cc)) ->
  match find_remote ELEMENT_SIZE turns sock r cb (i, (cc, g)) with
  | Done cb' (i', (cc', g')) => i' = i /\ cache_ok cc' g' /\ searched sock r cc cc' cb'
  | Raised _ (_, (cc', g')) => cache_ok cc' g'
  | _ => False
  end.
Proof.
  induction turns as [|turns IH]; intros cb i cc g Hok Hcb Hpass; cbn [find_remote];
    unfold mbnd at 1, get_context; cbn [fst snd];
    (destruct (remote_ptrs cc !! cb) as [e|] eqn:He;
     [|split; [done|]; split; [done|]; split; [done|]; split; [done|]; rewrite He;
       apply lookup_ge_None in He; lia]);
    pose proof (lookup_lt_Some _ _ _ He); [lia|].
  case_bool_decide as Hh; [split; [done|]; split; [done|]; split; [done|]; by rewrite He|].
  destruct ((r_sock e =? sock) && _) eqn:Ho.
  - assert (mapped g !! r_handle e = Some (r_dev_ptr e)) as Hm.
    { apply (ca_mapped _ _ Hok). exists e. split; [by eapply list_elem_of_lookup_2 | done]. }
    pose proof (close_ok _ _ _ Hm) as Hc. unfold mbnd at 1, THCudaCheck. cbn [fst snd].
    destruct (cudaIpcCloseMemHandle (r_dev_ptr e) g) as [code g'].
    destruct Hc as (_ & _ & Hg'). destruct (code =? 0).
    2:{ destruct Hok. by split; rewrite ?Hg'. }
    unfold mbnd, upd_context, modify_st. cbn [fst snd].
    set (cc' := set_remote_ptrs (delete cb (remote_ptrs cc)) cc).
    assert (cache_ok cc' g') as Hok' by by eapply cache_delete.
    assert (take cb (remote_ptrs cc') = take cb (remote_ptrs cc)) as Htk
      by (cbn; rewrite delete_take_drop, take_app_le, take_take, Nat.min_id; [done | rewrite length_take; lia]).
    specialize (IH cb i cc' g' Hok'). cbn [remote_ptrs cc' set_remote_ptrs] in IH.
    rewrite length_delete in IH by done. specialize (IH ltac:(lia)). rewrite <- Htk in Hpass.
    specialize (IH Hpass). destruct (find_remote _ _ _ _ _ _) as [cb' [i' [cc2 g2]]| | | |]; try done.
    destruct IH as (-> & Hok2 & Hsub & Hrest). split; [done|]. split; [done|]. split; [|done].
    intros x Hx. apply Hsub in Hx. eapply elem_of_submseteq; [exact Hx|]. apply sublist_submseteq, sublist_delete.
  - apply (IH (cb + 1)%nat i cc g Hok); [lia|].
    rewrite Nat.add_1_r, (take_S_r _ _ e) by done. apply Forall_app. split; [done|].
    constructor; [|done]. split; [done|]. intros <-. rewrite Z.eqb_refl in Ho. exact Ho.
Qed.

(** The new entry. *)
Definition entry_for (sock : Z) (r : remote_ptr_t) (d : Z) : remote_ptr_t :=
  mk_remote (r_handle r) (r_ptr r) d (r_count r) sock.

Lemma cache_insert cc g g' sock r d mx :
  cache_ok cc g -> Forall (passed sock r) (remote_ptrs cc) ->
  mapped g' = <[r_handle r := d]> (mapped g) -> zlen (remote_ptrs cc) < mx ->
  cache_ok (mk_cuda (has_buf cc) (remote_ptrs cc ++ [entry_for sock r d]) mx) g'.
Proof.
  intros [Hroom Hmap Hnd Hap] Hpass Hg Hmx. rewrite Forall_forall in Hpass.
  assert (forall e, e ∈ remote_ptrs cc -> r_handle e <> r_handle r) as Hne
    by (intros e He Heq; by destruct (Hpass e He)).
  split; cbn.
  - rewrite zlen_app. change (zlen [_]) with 1. lia.
  - intros h d'. rewrite Hg, lookup_insert_Some, Hmap. split.
    + intros [[<- <-]|(Hh & e & He & <- & <-)].
      * exists (entry_for sock r d). set_solver.
      * exists e. set_solver.
    + intros (e & [He| ->%list_elem_of_singleton]%elem_of_app & <- & <-); [right | by left].
      split; [intros Heq; by apply (Hne e) | by exists e].
  - rewrite fmap_app. apply NoDup_app. split; [done|]. split; [|apply NoDup_singleton].
    intros h (e & -> & He)%list_elem_of_fmap Heq%list_elem_of_singleton. by apply (Hne e).
  - apply StronglySorted_app. split; [|split; [done | by repeat constructor]].
    intros e e' He ->%list_elem_of_singleton Hs. by apply (Hpass e He).
Qed.

Lemma map_remote_spec sock r (i : io) cc g :
  cache_ok cc g -> Forall (passed sock r) (remote_ptrs cc) ->
  match map_remote sock r (i, (cc, g)) with
  | Done _ (i', (cc', g')) => i' = i /\ cache_ok cc' g' /\
      exists d, remote_ptrs cc' = remote_ptrs cc ++ [entry_for sock r d]
  | Raised _ (_, (cc', g')) => cache_ok cc' g'
  | _ => False
  end.
Proof.
  intros Hok Hpass. unfold map_remote, make_room, mbnd at 1, upd_context at 1, modify_st.
  cbn [fst snd].
  set (cc1 := if zlen (remote_ptrs cc) =? max_remote_ptrs cc then _ else _).
  assert (cache_ok cc1 g /\ remote_ptrs cc1 = remote_ptrs cc /\
    zlen (remote_ptrs cc1) < max_remote_ptrs cc1) as (Hok1 & Hl1 & Hmx).
  { unfold cc1, CUDA_REMOTE_PTRS. pose proof (ca_room _ _ Hok). case_cmp;
      (split; [|split; [done | cbn; lia]]); [|done]. destruct Hok. split; try done. cbn. lia. }
  unfold mbnd, get_context, get_gpu. cbn [fst snd]. rewrite (proj2 (Z.leb_gt _ _)) by done.
  rewrite <- Hl1 in Hpass.
  assert (mapped g !! r_handle r = None) as Hnone.
  { destruct (mapped g !! r_handle r) as [d|] eqn:E; [|done].
    apply (ca_mapped _ _ Hok1) in E as (e & He & Hh & _). rewrite Forall_forall in Hpass.
    destruct (Hpass e He). congruence. }
  pose proof (open_ok _ _ Hnone) as Ho. unfold THCudaCheck. cbn [fst snd].
  destruct (cudaIpcOpenMemHandle (r_handle r) g) as [[code d] g']. destruct Ho as (_ & _ & Hg').
  cbn [fst snd]. destruct (code =? 0).
  - split; [done|]. split; [|exists d; cbn; by rewrite Hl1].
    destruct cc1 as [hb l mx]. by apply (cache_insert _ g).
  - destruct Hok1. by split; rewrite ?Hg'.
Qed.

(** C26: the table of mapped memory stays what is mapped: whatever is received, on whatever
    socket, every mapping has one entry, no handle is mapped twice, the array is long enough,
    and the ranges noted for one socket do not overlap; the entry used is the one of the
    handle received.  A mapping or unmapping that fails raises and keeps the table so. *)
Theorem remote_entry_keeps_cache sock r (i : io) cc g :
  cache_ok cc g ->
  match remote_entry ELEMENT_SIZE sock r (i, (cc, g)) with
  | Done e (i', (cc', g')) => i' = i /\ cache_ok cc' g' /\
      e ∈ remote_ptrs cc' /\ r_handle e = r_handle r /\
      mapped g' !! r_handle r = Some (r_dev_ptr e) /\
      (e ∈ remote_ptrs cc \/ e = entry_for sock r (r_dev_ptr e))
  | Raised _ (_, (cc', g')) => cache_ok cc' g'
  | _ => False
  end.
Proof.
  intros Hok. unfold remote_entry, mbnd at 1, get_context at 1. cbn [fst snd].
  pose proof (find_remote_spec sock r (length (remote_ptrs cc)) 0 i cc g Hok ltac:(lia)
    (List.Forall_nil _)) as Hf.
  unfold mbnd at 1. destruct (find_remote _ _ _ _ _ _) as [cb [i1 [cc1 g1]]| | | |]; try done.
  destruct Hf as (-> & Hok1 & Hsub & Hpass & Hcb). unfold mbnd at 1, get_context. cbn [fst snd].
  destruct (remote_ptrs cc1 !! cb) as [e|] eqn:He.
  - pose proof (lookup_lt_Some _ _ _ He). rewrite (proj2 (Nat.eqb_neq _ _)) by lia.
    unfold mbnd, of_opt. cbn. rewrite He.
    assert (e ∈ remote_ptrs cc1) as Hin by by eapply list_elem_of_lookup_2.
    split; [done|]. split; [done|]. split; [done|]. split; [done|].
    split; [|by left; apply Hsub]. apply (ca_mapped _ _ Hok1). by exists e.
  - subst cb. rewrite Nat.eqb_refl. rewrite take_ge in Hpass by lia. unfold mbnd at 1.
    pose proof (map_remote_spec sock r i cc1 g1 Hok1 Hpass) as Hm.
    destruct (map_remote sock r _) as [[] [i2 [cc2 g2]]| | | |]; try done.
    destruct Hm as (-> & Hok2 & d & Hl). unfold mbnd, of_opt. cbn [fst snd].
    rewrite Hl, list_lookup_middle by done.
    assert (entry_for sock r d ∈ remote_ptrs cc2) as Hin by (rewrite Hl; set_solver).
    split; [done|]. split; [done|]. split; [done|]. split; [done|].
    split; [|by right]. apply (ca_mapped _ _ Hok2). by exists (entry_for sock r d).
Qed.
End Cache.

(** ** The same bytes as from the memory of the host *)

Section Theorems.
Context `{SK : Sockets} {SKok : SocketsOk SK} `{CO : CudaOk}.
Context (ELEMENT_SIZE : Z) (Hes : 0 < ELEMENT_SIZE <= CUDA_BLOCK_SIZE).
Context (fuel : nat) (sock : Z).

(** Between transfers: no copy in flight, and the halves are there if they were made. *)
Definition primed (cc : cuda_context) (g : gpu) : Prop :=
  in_flight g = ∅ /\ (has_buf cc = true -> halves g).

Lemma init_run i cc g : primed cc g ->
  exists cc' g', init_copy_context (i, (cc, g)) = Done tt (i, (cc', g')) /\
    device g' = device g /\ in_flight g' = ∅ /\ has_buf cc' = true /\ halves g'.
Proof.
  intros [Hf Hh]. unfold init_copy_context, mbnd at 1, get_context. cbn [fst snd].
  destruct (has_buf cc) eqn:Hb; cbn [negb].
  - exists cc, g. repeat (split; [done|]). by apply Hh.
  - destruct (create_ok g) as (g1 & E1 & [Hd1 _ _] & Hf1 & _).
    destruct (malloc_ok CUDA_BLOCK_SIZE g1 ltac:(done)) as (Hd2 & Hh2 & _ & Hf2 & _).
    eexists _, (malloc_halves CUDA_BLOCK_SIZE g1). split.
    { etransitivity; [exact (mbnd_done _ _ _ _ _ (check_run _ _ _ _ _ E1))|]. reflexivity. }
    split; [congruence|]. split; [congruence | done].
Qed.

(** Destroying a context frees the staging buffer and keeps every mapping: the memory of the
    other process stays mapped, with no table left to say where. *)
Lemma destroy_keeps_mappings i cc g :
  match destroy_copy_context (i, (cc, g)) with
  | Done _ (i', (cc', g')) => i' = i /\ has_buf cc' = false /\
      remote_ptrs cc' = remote_ptrs cc /\ device g' = device g /\ mapped g' = mapped g
  | Raised _ (i', (cc', g')) => i' = i /\ cc' = cc /\ mapped g' = mapped g
  | _ => False
  end.
Proof.
  unfold destroy_copy_context, mbnd, get_context, THCudaCheck. cbn [fst snd].
  destruct (has_buf cc) eqn:Hb; [|by repeat split]. cbn [fst snd]. pose proof (destroy_ok g) as Hd.
  destruct (cudaEventDestroy g) as [e g1]. destruct Hd as [Hd Hm]. destruct (e =? 0); [|done].
  pose proof (free_ok g1) as [Hd1 Hm1]. cbn. by rewrite Hd1, Hm1.
Qed.

Lemma host_write_run data ptr count n c :
  (length data <= fuel)%nat -> inside ELEMENT_SIZE data ptr count -> count * ELEMENT_SIZE < 2 ^ 31 ->
  connected n sock -> counts_ok c ->
  exists n' c', Tensor.write_contiguous ELEMENT_SIZE fuel sock ptr count ((n, c), Some <$> data)
      = Done tt ((n', c'), Some <$> data) /\
    sent_by sock n c (block ELEMENT_SIZE data ptr count) n' c'.
Proof.
  intros Hfuel Hin Hl Hc Hk. pose proof (zlen_block _ Hes _ _ _ Hin) as Hlen.
  pose proof Hin as (Hp & Hcnt & Hend).
  destruct (send_raw_run fuel sock (block ELEMENT_SIZE data ptr count) n c)
    as (n' & c' & E & Hs); try done; [unfold zlen in *; nia | by rewrite Hlen|].
  exists n', c'. split; [|done]. unfold Tensor.write_contiguous, mbnd, get_st. cbn [fst snd].
  rewrite zlen_fmap, !(proj2 (Z.leb_le _ _)) by nia. cbn [andb].
  rewrite zdrop_fmap, ztake_fmap. unfold of_opt. rewrite mapM_id_Some.
  unfold on_tio, zoom. cbn [fst snd]. fold (block ELEMENT_SIZE data ptr count). by rewrite E.
Qed.

(** C12: sending from the memory of a GPU, in blocks through the two halves, puts on the wire
    what sending the same elements from the memory of the host does; no half is sent
    before its copy is done, and the next transfer can start. *)
Theorem staged_write_is_host_write junk data ptr count n c cc g :
  (length data <= fuel)%nat -> inside ELEMENT_SIZE data ptr count -> count * ELEMENT_SIZE < 2 ^ 31 ->
  connected n sock -> counts_ok c -> use_fastpath c = 0 ->
  primed cc g -> device g = Some <$> data ->
  exists n1 c1 cc' g' n2 c2,
    write_contiguous ELEMENT_SIZE fuel junk sock ptr count ((n, c), (cc, g))
      = Done tt ((n1, c1), (cc', g')) /\
    Tensor.write_contiguous ELEMENT_SIZE fuel sock ptr count ((n, c), Some <$> data)
      = Done tt ((n2, c2), Some <$> data) /\
    (forall s, unread n1 s = unread n2 s) /\ device g' = device g /\ primed cc' g'.
Proof.
  intros Hfuel Hin Hl Hc Hk Hfp Hpr Hd.
  destruct (init_run (n, c) cc g Hpr) as (cc1 & g1 & E1 & Hd1 & Hf1 & Hb1 & Hh1).
  destruct (write_staged_spec ELEMENT_SIZE Hes fuel sock cc1 data ptr count g1 n c)
    as (n1 & c1 & g2 & E2 & ([U1 _] & _ & _) & [Hd2 Hh2 Hf2]); try done; [split; [congruence | done | done]|].
  destruct (host_write_run data ptr count n c) as (n2 & c2 & E3 & ([U2 _] & _ & _)); try done.
  exists n1, c1, cc1, g2, n2, c2. split.
  { etransitivity; [exact (mbnd_done _ _ _ _ _ E1)|]. unfold mbnd, use_shared. cbn [fst snd].
    by rewrite Hfp. }
  split; [done|]. split; [intros s; by rewrite U1, U2|]. split; [congruence | by split].
Qed.

(** C13: receiving into the memory of a GPU leaves there what receiving into the memory of the
    host leaves, and takes the same bytes off the wire. *)
Theorem staged_read_is_host_read ptr count bs rest n c cc g mem :
  (length bs <= fuel)%nat -> zlen bs = count * ELEMENT_SIZE -> zlen bs < 2 ^ 31 -> 0 <= ptr ->
  0 <= count -> ptr * ELEMENT_SIZE + zlen bs <= zlen mem ->
  unread n sock = bs ++ rest -> connected n sock -> counts_ok c -> use_fastpath c = 0 ->
  primed cc g -> device g = mem ->
  exists n1 c1 cc' g' n2 c2 mem',
    read_contiguous ELEMENT_SIZE fuel sock ptr count ((n, c), (cc, g))
      = Done tt ((n1, c1), (cc', g')) /\
    Tensor.read_contiguous ELEMENT_SIZE fuel sock ptr count ((n, c), mem)
      = Done tt ((n2, c2), mem') /\
    device g' = mem' /\ (forall s, unread n1 s = unread n2 s) /\ primed cc' g'.
Proof.
  intros Hfuel Hbs Hl Hp Hcnt Hroom Hu Hc Hk Hfp Hpr Hd. pose proof (zlen_nonneg bs).
  destruct (init_run (n, c) cc g Hpr) as (cc1 & g1 & E1 & Hd1 & Hf1 & Hb1 & Hh1).
  destruct (read_staged_spec ELEMENT_SIZE Hes fuel sock cc1 mem ptr count g1 n c bs rest)
    as (n1 & c1 & g2 & E2 & ([U1 _] & _ & _) & Hd2 & Hh2 & Hf2); try done; [congruence|].
  destruct (sock_recv_spec fuel sock mem (ptr * ELEMENT_SIZE) bs rest n c)
    as (n2 & c2 & E3 & [U2 _] & _); try done; [unfold SIZE_MOD; lia | nia |].
  exists n1, c1, cc1, g2, n2, c2, (store mem (ptr * ELEMENT_SIZE) bs). split.
  { etransitivity; [exact (mbnd_done _ _ _ _ _ E1)|]. unfold mbnd, use_shared. cbn [fst snd].
    by rewrite Hfp. }
  split.
  { unfold Tensor.read_contiguous, mbnd, get_st, on_tio, zoom. cbn [fst snd].
    unfold sock_recv_raw, mbnd. rewrite <- Hbs, E3, check_count_ok by lia. done. }
  split; [done|]. split; [intros s; by rewrite U1, U2 | by split].
Qed.
End Theorems.

(** ** A device *)

Module RefCuda.

(** Copies are made at once, but use their half until they are waited for.  The address of a
    mapping tells its handle. *)
Record state := mk_gpu {
  mem : list cell;
  half : nat -> list cell;
  flight : gset nat;
  late : gset nat;
  maps : gset handle;
}.

Definition address (h : handle) : Z := Z.pos (encode h).

Definition copy_out (b : nat) (p n : Z) (g : state) : Z * state :=
  (0, mk_gpu (mem g) (fun b' => if decide (b' = b) then blit (half g b) 0 (ztake n (zdrop p (mem g)))
                                else half g b')
        ({[b]} ∪ flight g) ({[b]} ∪ late g) (maps g)).
Definition copy_in (p : Z) (b : nat) (n : Z) (g : state) : Z * state :=
  (0, mk_gpu (blit (mem g) p (ztake n (half g b))) (half g) ({[b]} ∪ flight g) ({[b]} ∪ late g)
        (maps g)).
Definition copy_in_now (p : Z) (b : nat) (n : Z) (g : state) : Z * state :=
  (0, mk_gpu (blit (mem g) p (ztake n (half g b))) (half g) ∅ ∅ (maps g)).

Definition open (h : handle) (g : state) : Z * Z * state :=
  (0, address h, mk_gpu (mem g) (half g) (flight g) (late g) ({[h]} ∪ maps g)).
Definition close (d : Z) (g : state) : Z * state :=
  (0, mk_gpu (mem g) (half g) (flight g) (late g) (filter (fun h => address h <> d) (maps g))).

Definition cuda : Cuda := {|
  gpu := state;
  cuda_message _ := str "cuda";
  cudaEventCreate g := (0, g);
  cudaEventDestroy g := (0, g);
  malloc_halves n g := mk_gpu (mem g) (fun _ => uninit n) (flight g) (late g) (maps g);
  free_halves g := mk_gpu (mem g) (fun _ => []) (flight g) (late g) (maps g);
  cudaMemcpyAsync_out := copy_out;
  cudaMemcpyAsync_in := copy_in;
  cudaMemcpy_in := copy_in_now;
  cudaEventRecord g := (0, mk_gpu (mem g) (half g) (flight g) ∅ (maps g));
  cudaEventSynchronize g := (0, mk_gpu (mem g) (half g) (late g) (late g) (maps g));
  cudaDeviceSynchronize g := (0, mk_gpu (mem g) (half g) ∅ ∅ (maps g));
  host_read b g := if bool_decide (b ∈ flight g) then None else Some (half g b);
  host_write b bs g := if bool_decide (b ∈ flight g) then None else
    Some (mk_gpu (mem g) (fun b' => if decide (b' = b) then bs else half g b') (flight g) (late g)
            (maps g));
  cudaIpcGetMemHandle p _ := (0, le_split 64 p);
  cudaIpcOpenMemHandle := open;
  cudaIpcCloseMemHandle := close;
  cudaMemcpy_remote _ _ _ g := (0, g);
|}.

Definition streams : Streams cuda :=
  @Build_Streams cuda mem half flight late
    (fun g => map_imap (fun h _ => Some (address h)) (gset_to_gmap tt (maps g))).

Lemma lookup_mapped g h : @mapped cuda streams g !! h = if decide (h ∈ maps g) then Some (address h) else None.
Proof.
  cbn. rewrite map_lookup_imap, lookup_gset_to_gmap. case_decide.
  - by rewrite option_guard_True.
  - by rewrite option_guard_False.
Qed.

Lemma address_inj h h' : address h = address h' -> h = h'.
Proof. unfold address. intros [= H]. by apply (inj encode). Qed.

#[export] Instance cuda_ok : CudaOk streams.
Proof.
  split.
  - intros g. exists g. by repeat split.
  - intros n g Hn. cbn. repeat (split; [done|]). split; [|done]. intros b _. by apply zlen_uninit.
  - intros g. by split.
  - intros g. by split.
  - intros b p n g ? ? ? ?. eexists. split; [reflexivity|]. by repeat split.
  - intros p b n g ? ? ? ?. eexists. split; [reflexivity|]. by repeat split.
  - intros p b n g ? ? ? ?. eexists. split; [reflexivity|]. by repeat split.
  - intros g. eexists. split; [reflexivity|]. by repeat split.
  - intros g. eexists. split; [reflexivity|]. by repeat split.
  - intros b g Hb. cbn in *. by rewrite bool_decide_eq_false_2.
  - intros b bs g Hb _. cbn in *. rewrite bool_decide_eq_false_2 by done.
    eexists. split; [reflexivity|]. by repeat split.
  - intros h g Hh. split; [done|]. split; [done|]. apply map_eq. intros h'.
    rewrite lookup_mapped. change (maps (open h g).2) with ({[h]} ∪ maps g). cbn [Z.eqb].
    destruct (decide (h = h')) as [<-|Hne].
    + rewrite lookup_insert_eq, decide_True by set_solver. done.
    + rewrite lookup_insert_ne, lookup_mapped by done. repeat case_decide; set_solver.
  - intros h d g Hh. rewrite lookup_mapped in Hh. case_decide; [|done]. injection Hh as <-.
    split; [done|]. split; [done|]. apply map_eq. intros h'. rewrite lookup_mapped.
    cbn [close snd maps Z.eqb]. destruct (decide (h = h')) as [<-|Hne].
    + rewrite lookup_delete_eq, decide_False by set_solver. done.
    + rewrite lookup_delete_ne, lookup_mapped by done.
      assert (h' ∈ filter (fun x => address x <> address h) (maps g) <-> h' ∈ maps g) as Hiff.
      { rewrite elem_of_filter. split; [tauto|]. intros. split; [|done].
        intros Ha%address_inj. done. }
      repeat case_decide; tauto.
Qed.

(** A device with eight bytes of memory. *)
Definition fresh : state := mk_gpu (Some <$> le_split 8 42) (fun _ => []) ∅ ∅ ∅.
End RefCuda.

Section Runs.
#[local] Instance net53 : Sockets := RefNet.sockets 5 3.
#[local] Instance net53_ok : SocketsOk net53 := RefNet.sockets_ok 5 3 eq_refl eq_refl.
#[local] Existing Instance RefCuda.cuda.
#[local] Existing Instance RefCuda.streams.
#[local] Existing Instance RefCuda.cuda_ok.

Definition no_cache : cuda_context := mk_cuda false [] 0.

Lemma staged_write_is_host_write_witness :
  let c := mk_cc no_stats no_stats 0 in
  exists n1 c1 cc' g' n2 c2,
    write_contiguous 4 8 [] 0 0 2 ((RefNet.fresh, c), (no_cache, RefCuda.fresh))
      = Done tt ((n1, c1), (cc', g')) /\
    Tensor.write_contiguous 4 8 0 0 2 ((RefNet.fresh, c), Some <$> le_split 8 42)
      = Done tt ((n2, c2), Some <$> le_split 8 42) /\
    (forall s, unread n1 s = unread n2 s) /\ device g' = device RefCuda.fresh /\ primed cc' g'.
Proof.
  apply (staged_write_is_host_write 4 ltac:(done) 8 0 [] (le_split 8 42) 0 2 RefNet.fresh
    (mk_cc no_stats no_stats 0) no_cache RefCuda.fresh); done.
Defined.

Lemma staged_read_is_host_read_witness :
  let c := mk_cc no_stats no_stats 0 in
  let n := RefNet.mk_net {[1 := le_split 8 7]} ∅ 0 in
  exists n1 c1 cc' g' n2 c2 mem',
    read_contiguous 4 8 1 0 2 ((n, c), (no_cache, RefCuda.fresh)) = Done tt ((n1, c1), (cc', g')) /\
    Tensor.read_contiguous 4 8 1 0 2 ((n, c), Some <$> le_split 8 42) = Done tt ((n2, c2), mem') /\
    device g' = mem' /\ (forall s, unread n1 s = unread n2 s) /\ primed cc' g'.
Proof.
  apply (staged_read_is_host_read 4 ltac:(done) 8 1 0 2 (le_split 8 7) []
    (RefNet.mk_net {[1 := le_split 8 7]} ∅ 0) (mk_cc no_stats no_stats 0) no_cache RefCuda.fresh
    (Some <$> le_split 8 42)); done.
Defined.

(** A second buffer of the sender, at an address the first one had. *)
Definition buffer (h : handle) : remote_ptr_t := mk_remote h 1000 0 16 0.
Definition start_shared : cst :=
  ((RefNet.fresh, mk_cc no_stats no_stats 0), (no_cache, RefCuda.fresh)).
Definition after_entry (h : handle) (s : cst) : cst := end_state (remote_entry 4 3 (buffer h)) s.

Lemma start_cache_ok : cache_ok 4 start_shared.2.1 start_shared.2.2.
Proof.
  split; [done | | apply NoDup_nil_2 | constructor]. intros h d. rewrite RefCuda.lookup_mapped.
  split; [done | intros (e & He & _); by apply not_elem_of_nil in He].
Qed.

Lemma remote_entry_keeps_cache_witness :
  let s1 := after_entry [Byte.x01] start_shared in
  let s2 := after_entry [Byte.x02] s1 in
  cache_ok 4 s1.2.1 s1.2.2 /\ cache_ok 4 s2.2.1 s2.2.2 /\
  r_handle <$> remote_ptrs s1.2.1 = [[Byte.x01]] /\ r_handle <$> remote_ptrs s2.2.1 = [[Byte.x02]].
Proof.
  assert (forall h (s : cst), cache_ok 4 s.2.1 s.2.2 ->
    match reply_of (remote_entry 4 3 (buffer h) s) with Returns _ => True | _ => False end ->
    cache_ok 4 (after_entry h s).2.1 (after_entry h s).2.2) as Hstep.
  { intros h [i [cc g]] Hok Hr. pose proof (remote_entry_keeps_cache 4 3 (buffer h) i cc g Hok) as H.
    unfold after_entry, end_state.
    destruct (remote_entry _ _ _ _) as [e [i1 [cc1 g1]]| | | |]; try done. apply H. }
  assert (cache_ok 4 (after_entry [Byte.x01] start_shared).2.1
    (after_entry [Byte.x01] start_shared).2.2) as H1
    by (apply Hstep; [apply start_cache_ok | by vm_compute]).
  split; [exact H1|]. split; [apply Hstep; [exact H1 | by vm_compute]|].
  split; vm_compute; reflexivity.
Defined.
End Runs.
