(* ===== verification/Fastpath.v ===== *)
(** * Shared device memory or not ([can_use_fastpath] of src/cliser.c, built with CUDA).

    Two processes of one host tell each other their device once connected, and each decides
    whether its device can reach the other's.  This file has the call and what two calls, one
    at each end, come to.  A tensor is then sent one way or the other, so the two should decide
    alike, but each asks only its own process ([ends_may_disagree]). *)
From S2P Require Import Prelude Serialize Net.

#[local] Open Scope ipc_scope.

(** The CUDA calls; each returns its error code first. *)
Class CudaDevices := {
  devs : Type;
  cuda_error : Z -> list byte;
  cudaErrorNoDevice : Z;
  cudaErrorPeerAccessAlreadyEnabled : Z;
  cudaGetDevice : devs -> Z * Z;
  (** Clears the error kept for the thread. *)
  cudaGetLastError : devs -> devs;
  cudaDeviceCanAccessPeer : Z -> Z -> devs -> Z * bool;
  cudaDeviceEnablePeerAccess : Z -> devs -> Z * devs;
}.

Section Fastpath.
Context `{SK : Sockets} `{CD : CudaDevices}.

Definition fp_st : Type := net * devs.

(** [close(sock)] and the error of [errno] as it is then. *)
Definition close_and_raise {A} (sock : Z) : M fp_st A := fun s =>
  let n := (sys_close sock s.1).2 in Raised (ErrCode (sys_errno n)) (n, s.2).

Definition cuda_check (e : Z) : M fp_st unit :=
  if e =? 0 then mret tt else raise (ErrLua (cuda_error e)).

(** The first half: the device, sent to the other end; [None] without a device. *)
Definition announce (sock : Z) : M fp_st (option Z) :=
  let! s := get_st in
  let '(err, device) := cudaGetDevice s.2 in
  if negb (err =? 0) && (err =? cudaErrorNoDevice) then
    modify_st (fun s => (s.1, cudaGetLastError s.2)) ;;; mret None
  else
    cuda_check err ;;;
    let! s := get_st in
    let '(ret, n) := sys_send sock (int_bytes device) s.1 in
    modify_st (fun s => (n, s.2)) ;;;
    if ret <? 0 then close_and_raise sock else mret (Some device).

(** The second half: the other end's device, and whether it can be reached.  Comparing an
    [int] that was not received whole is undefined.  (The messages printed aside.) *)
Definition judge (sock device : Z) : M fp_st Z :=
  let! s := get_st in
  match sys_recv sock 4 s.1 with
  | None => fun s => Blocked s
  | Some (ret, bs, n) =>
      modify_st (fun s => (n, s.2)) ;;;
      if ret <=? 0 then close_and_raise sock else
      if ret <? 4 then undef else
      let remote_device := int_of_bytes bs in
      if device =? remote_device then mret 0 else
      let '(e, can) := cudaDeviceCanAccessPeer device remote_device s.2 in
      cuda_check e ;;;
      if (can : bool) then
        let '(e, d) := cudaDeviceEnablePeerAccess remote_device s.2 in
        modify_st (fun s => (s.1, d)) ;;;
        if e =? cudaErrorPeerAccessAlreadyEnabled then
          modify_st (fun s => (s.1, cudaGetLastError s.2)) ;;; mret 1
        else mret (if e =? 0 then 1 else 0)
      else mret 0
  end.

Definition can_use_fastpath (sock bind_addr addr : Z) : M fp_st Z :=
  if bind_addr =? addr then
    let! device := announce sock in
    match device with None => mret 0 | Some d => judge sock d end
  else mret 0.
End Fastpath.

(** ** Two ends *)

Section TwoEnds.
Context `{SO : SocketsOk} `{CD : CudaDevices}.

(** The connection and the devices of the two processes. *)
Definition two_ends : Type := net * (devs * devs).
Definition at_a {A} : M fp_st A -> M two_ends A :=
  zoom (fun s => (s.1, s.2.1)) (fun t s => (t.1, (t.2, s.2.2))).
Definition at_b {A} : M fp_st A -> M two_ends A :=
  zoom (fun s => (s.1, s.2.2)) (fun t s => (t.1, (s.2.1, t.2))).

(** The calls at the two ends of a connection: both announce, then both judge. *)
Definition both_ends (a b : Z) : M two_ends (Z * Z) :=
  let go s o : M fp_st Z := match o with None => mret 0 | Some d => judge s d end in
  let! oa := at_a (announce a) in
  let! ob := at_b (announce b) in
  let! ra := at_a (go a oa) in
  let! rb := at_b (go b ob) in
  mret (ra, rb).

(** Whether process [d], on [dev], reaches device [dev']. *)
Definition reaches (d : devs) (dev dev' : Z) : bool :=
  negb (dev =? dev') && (cudaDeviceCanAccessPeer dev dev' d).2 &&
  (let e := (cudaDeviceEnablePeerAccess dev' d).1 in
   (e =? 0) || (e =? cudaErrorPeerAccessAlreadyEnabled)).

(** Whether both ends receive the other's device whole, in one call of [recv] each. *)
Definition both_whole (n : net) (a b x y : Z) : bool :=
  let n := (sys_send a (int_bytes x) n).2 in
  let n := (sys_send b (int_bytes y) n).2 in
  match sys_recv a 4 n with
  | Some (ra, _, n) =>
      (ra =? 4) && match sys_recv b 4 n with Some (rb, _, _) => rb =? 4 | None => false end
  | None => false
  end.

(** Announcing puts a first part of the device on the way, not nothing. *)
Lemma announce_spec (n : net) (s : Z) (d : devs) dev :
  connected n s -> cudaGetDevice d = (0, dev) ->
  exists n' r, announce s (n, d) = Done (Some dev) (n', d) /\
    n' = (sys_send s (int_bytes dev) n).2 /\ 0 < r <= 4 /\
    unread n' (peer s) = unread n (peer s) ++ ztake r (int_bytes dev) /\
    (forall s', s' <> peer s -> unread n' s' = unread n s') /\
    (forall s', connected n s' -> connected n' s').
Proof.
  intros Hs Hd.
  destruct (send_moves n s (int_bytes dev) Hs) as (r & n' & E & Hr & Hun & Hc); [done|].
  rewrite zlen_int in Hr. exists n', r. rewrite E. unfold announce, mbnd, get_st. cbn. rewrite Hd. cbn.
  rewrite E. cbn. rewrite (proj2 (Z.ltb_ge _ _)) by lia. do 3 (split; [done|]). split; [|split; [|done]].
  - by rewrite Hun, decide_True.
  - intros s' Hne. by rewrite Hun, decide_False.
Qed.

(** Judging is as [reaches] says when the device comes whole, and undefined otherwise. *)
Lemma judge_spec (n : net) (s : Z) (d : devs) dev bs :
  connected n s -> unread n s = bs -> bs <> [] ->
  exists r n', sys_recv s 4 n = Some (r, ztake r bs, n') /\ 0 < r <= 4 /\ r <= zlen bs /\
    unread n' s = zdrop r bs /\
    (forall s', s' <> s -> unread n' s' = unread n s') /\
    (forall s', connected n s' -> connected n' s') /\
    (r <> 4 -> judge s dev (n, d) = Undef) /\
    (r = 4 -> forall dev' rest, bs = int_bytes dev' ++ rest -> - 2 ^ 31 <= dev' < 2 ^ 31 ->
      (cudaDeviceCanAccessPeer dev dev' d).1 = 0 ->
      exists d', judge s dev (n, d) = Done (if reaches d dev dev' then 1 else 0) (n', d')).
Proof.
  intros Hs Hu Hne. destruct (recv_moves n s 4 Hs) as (r & n' & E & Hr & Hl & Hun & Hc);
    [done | congruence |].
  rewrite Hu in *. exists r, n'. do 3 (split; [done|]). split; [by rewrite Hun, decide_True|].
  split; [intros s' Hs'; by rewrite Hun, decide_False|]. split; [done|].
  unfold judge, mbnd, get_st, modify_st. cbn. rewrite E. cbn.
  rewrite (proj2 (Z.leb_gt r 0)) by lia. split.
  - intros Hr4. by rewrite (proj2 (Z.ltb_lt r 4)) by lia.
  - intros -> dev' rest Ebs Hd Hcan. rewrite Ebs, ztake_ztake_app, int_of_int by (done || apply zlen_int).
    unfold reaches, cuda_check. cbn. destruct (dev =? dev'); cbn; [by exists d|].
    destruct (cudaDeviceCanAccessPeer dev dev' d) as [e can]. cbn in *. subst e. cbn.
    destruct can; cbn; [|by exists d].
    destruct (cudaDeviceEnablePeerAccess dev' d) as [e d']. cbn.
    destruct (e =? cudaErrorPeerAccessAlreadyEnabled); rewrite ?orb_true_r, ?orb_false_r;
      by eexists.
Qed.

(** A part of a device. *)
Lemma zlen_ztake_int r x : 0 <= r <= 4 -> zlen (ztake r (int_bytes x)) = r.
Proof. intros Hr. apply zlen_ztake. by rewrite zlen_int. Qed.

Lemma ztake_int_nonempty r x : 0 < r <= 4 -> ztake r (int_bytes x) <> [].
Proof. intros Hr E. enough (zlen (ztake r (int_bytes x)) = 0) as Hz by (rewrite zlen_ztake_int in Hz; lia). by rewrite E.
Qed.

(** C27: two processes that both have a device, whatever pieces the network makes of what they
    send: when both receive the other's device whole, each end decides for shared memory
    exactly when its device reaches the other's, and nothing of the exchange is left on the
    connection; when one of them receives a part, what it decides is undefined. *)
Theorem fastpath_decided (n : net) (a b : Z) (da db : devs) (x y : Z) :
  connected n a -> connected n b -> peer a = b -> peer b = a -> a <> b ->
  unread n a = [] -> unread n b = [] ->
  cudaGetDevice da = (0, x) -> cudaGetDevice db = (0, y) ->
  - 2 ^ 31 <= x < 2 ^ 31 -> - 2 ^ 31 <= y < 2 ^ 31 ->
  (cudaDeviceCanAccessPeer x y da).1 = 0 -> (cudaDeviceCanAccessPeer y x db).1 = 0 ->
  if both_whole n a b x y then
    exists n' ds, both_ends a b (n, (da, db))
        = Done (if reaches da x y then 1 else 0, if reaches db y x then 1 else 0) (n', ds) /\
      unread n' a = [] /\ unread n' b = [] /\ connected n' a /\ connected n' b
  else both_ends a b (n, (da, db)) = Undef.
Proof.
  intros Ha Hb Pa Pb Hne Ua Ub Da Db Hx Hy Hca Hcb. unfold both_ends, both_whole, at_a, at_b.
  destruct (announce_spec n a da x Ha Da) as (n1 & r1 & E1 & En1 & R1 & U1 & O1 & C1).
  destruct (announce_spec n1 b db y (C1 _ Hb) Db) as (n2 & r2 & E2 & En2 & R2 & U2 & O2 & C2).
  rewrite Pa, Ub in U1. rewrite Pb, O1, Ua in U2 by congruence. cbn [app] in *.
  rewrite <- En1, <- En2. unfold mbnd, zoom, mret. cbn [fst snd]. rewrite E1. cbn [fst snd].
  rewrite E2. cbn [fst snd].
  destruct (judge_spec n2 a da x _ (C2 _ (C1 _ Ha)) U2) as (r3 & n3 & -> & R3 & L3 & U3 & O3 & C3 & J3 & K3);
    [apply ztake_int_nonempty; lia|].
  destruct (Z.eqb_spec r3 4) as [->|Hr3]; [|by rewrite J3].
  assert (r2 = 4) as -> by (rewrite zlen_ztake_int in L3; lia).
  rewrite ztake_all in * by (rewrite zlen_int; lia).
  destruct (K3 eq_refl y []) as (d3 & ->); [by rewrite app_nil_r | done | done |].
  cbn [fst snd andb].
  destruct (judge_spec n3 b db y (ztake r1 (int_bytes x)) (C3 _ (C2 _ (C1 _ Hb))))
    as (r4 & n4 & -> & R4 & L4 & U4 & O4 & C4 & J4 & K4);
    [by rewrite O3, O2, U1 by congruence | apply ztake_int_nonempty; lia |].
  destruct (Z.eqb_spec r4 4) as [->|Hr4]; [|by rewrite J4].
  assert (r1 = 4) as -> by (rewrite zlen_ztake_int in L4; lia).
  rewrite ztake_all in * by (rewrite zlen_int; lia).
  destruct (K4 eq_refl x []) as (d4 & ->); [by rewrite app_nil_r | done | done |].
  eexists n4, _. split; [done|]. split; [rewrite O4, U3 by done|split; [rewrite U4|auto 10]];
    rewrite <- (app_nil_r (int_bytes _)); apply zdrop_zdrop_app, zlen_int.
Qed.

(** When one end has no device it takes no part, and the other takes the first four bytes of
    its first message for a device: what is left does not start with a length. *)
Theorem no_device_takes_message (n : net) (a b : Z) (da db : devs) (y : Z) first4 rest :
  connected n b -> unread n b = int_bytes first4 ++ rest -> - 2 ^ 31 <= first4 < 2 ^ 31 ->
  a <> b -> peer b = a ->
  cudaErrorNoDevice <> 0 -> cudaGetDevice da = (cudaErrorNoDevice, 0) -> cudaGetDevice db = (0, y) ->
  (cudaDeviceCanAccessPeer y first4 db).1 = 0 ->
  (exists bs n', sys_recv b 4 (sys_send b (int_bytes y) n).2 = Some (4, bs, n')) ->
  exists rb n' ds, both_ends a b (n, (da, db)) = Done (0, rb) (n', ds) /\ unread n' b = rest /\
    unread n' a <> [].
Proof.
  intros Hb Ub Hf Hne Pb Hnd Da Db Hcan (bs & n' & Hw). unfold both_ends, at_a, at_b.
  assert (announce a (n, da) = Done None (n, cudaGetLastError da)) as Ea.
  { unfold announce, mbnd, get_st. cbn. rewrite Da, Z.eqb_refl.
    by rewrite (proj2 (Z.eqb_neq cudaErrorNoDevice 0) Hnd). }
  destruct (announce_spec n b db y Hb Db) as (n1 & r1 & E1 & En1 & R1 & U1 & O1 & C1).
  rewrite Pb in *. rewrite <- En1 in Hw.
  destruct (judge_spec n1 b db y (int_bytes first4 ++ rest) (C1 _ Hb))
    as (r & n2 & E2 & _ & _ & U2 & O2 & _ & _ & K); [by rewrite O1 by congruence | done |].
  rewrite E2 in Hw. injection Hw as -> _ <-.
  destruct (K eq_refl first4 rest) as (d' & E3); [done..|].
  unfold mbnd, zoom. cbn [fst snd]. rewrite Ea. cbn [fst snd]. rewrite E1. cbn [fst snd mret].
  rewrite E3. eexists _, _, _. split; [reflexivity|]. cbn [fst]. split.
  - rewrite U2. apply zdrop_zdrop_app, zlen_int.
  - rewrite O2, U1 by done. intros [_ E]%app_eq_nil. by apply (ztake_int_nonempty r1 y) in E; [|lia].
Qed.
End TwoEnds.

(** ** A concrete exchange *)

Module RefDevices.
(** A process is its device, if any, and how many peers it may still enable; devices 0 and 1
    reach each other. *)
Definition devices : CudaDevices := {|
  devs := option Z * Z;
  cuda_error _ := str "error";
  cudaErrorNoDevice := 100;
  cudaErrorPeerAccessAlreadyEnabled := 704;
  cudaGetDevice d := match d.1 with Some x => (0, x) | None => (100, 0) end;
  cudaGetLastError d := d;
  cudaDeviceCanAccessPeer x y _ := (0, (x <? 2) && (y <? 2));
  cudaDeviceEnablePeerAccess _ d := if 0 <? d.2 then (0, (d.1, d.2 - 1)) else (711, d);
|}.
End RefDevices.

Section Runs.
#[local] Existing Instance RefDevices.devices.
#[local] Instance net8 : Sockets := RefNet.sockets 8 8.
#[local] Instance net8_ok : SocketsOk net8 := RefNet.sockets_ok 8 8 eq_refl eq_refl.

Definition process (device : option Z) (peers : Z) : @devs RefDevices.devices := (device, peers).

(** Nothing makes the two ends decide alike: here one may not enable another peer
    ([cudaErrorTooManyPeers]), so the other shares its memory with an end that expects copies. *)
Theorem ends_may_disagree :
  exists n ds, both_ends 0 1 (RefNet.fresh : @net net8, (process (Some 0) 1, process (Some 1) 0))
    = Done (1, 0) (n, ds).
Proof. by eexists _, _. Qed.

Lemma fastpath_decided_witness :
  exists n ds, both_ends 0 1 (RefNet.fresh : @net net8, (process (Some 0) 1, process (Some 1) 1))
    = Done (1, 1) (n, ds) /\ unread n 0 = [] /\ unread n 1 = [].
Proof.
  pose proof (fastpath_decided (RefNet.fresh : @net net8) 0 1 (process (Some 0) 1)
    (process (Some 1) 1) 0 1) as T.
  assert (both_whole (RefNet.fresh : @net net8) 0 1 0 1 = true) as E by (vm_compute; reflexivity).
  rewrite E in T. destruct T as (n & ds & ? & ? & ? & _); [by split | by split | done .. |].
  by exists n, ds.
Defined.

(** With a network that moves two bytes at a time the decision is undefined. *)
#[local] Instance net2 : Sockets := RefNet.sockets 2 2.
#[local] Instance net2_ok : SocketsOk net2 := RefNet.sockets_ok 2 2 eq_refl eq_refl.

Example short_devices :
  both_ends 0 1 (RefNet.fresh : @net net2, (process (Some 0) 1, process (Some 1) 1)) = Undef.
Proof. by vm_compute. Qed.

Lemma no_device_takes_message_witness :
  let n : @net net8 := RefNet.mk_net {[ 1 := int_bytes 9 ++ int_bytes 0 ]} ∅ 0 in
  exists rb (n' : @net net8) ds, both_ends 0 1 (n, (process None 1, process (Some 1) 1))
    = Done (0, rb) (n', ds) /\ unread n' 1 = int_bytes 0.
Proof.
  intros n. destruct (no_device_takes_message n 0 1 (process None 1) (process (Some 1) 1)
    1 9 (int_bytes 0)) as (rb & n' & ds & E & U & _); [by split | done .. | |].
  - eexists _, _. vm_compute. reflexivity.
  - by exists rb, n', ds.
Defined.
End Runs.
