(* ===== verification/Map.v ===== *)
(** * Parallel maps ([src/map.c]): a function run by several threads, each with a Lua
    state of its own.

    The arguments go to a thread through its ring buffer, which then carries its
    results back.  A thread works on its own buffer and [ret] only, and the code that
    created it touches them when it has joined the thread ([checkErrors] reads [ret]
    before, to learn whether it is worth joining): what a thread does is one step, taken at any time
    between its creation and its join. *)
From S2P Require Import Prelude RingBuffer Lua Serialize Growth.

#[local] Open Scope ipc_scope.

Definition MAX_ARG_SIZE : Z := 16 * 1024.

Definition str_require : list byte :=
  str "require 'torch'; require 'libipc'; pcall(function() require 'twutil' end)".
Definition str_map_function : list byte := str "map arg #2 expected a function".
Definition str_extended_init : list byte :=
  str "map_extended arg #2 expected a function, string or nil".
Definition str_extended_function : list byte :=
  str "map_extended arg #3 expected a function".
(** What Lua prints for a NULL string. *)
Definition str_null : list byte := str "(null)".

(** ** The interpreter of a thread *)

Inductive pcall_ret :=
  | Returned (vs : list lua_value)
  | Failed (code : Z) (e : lua_value).

Class LuaThreads := {
  lua_state : Type;
  (** The state thread [i] starts with, its libraries opened. *)
  luaL_newstate : nat -> lua_state;
  (** [luaL_loadstring]: the chunk, or the message of a syntax error. *)
  luaL_loadstring : list byte -> lua_value;
  (** [lua_pcall] of a function; [None] when it never returns. *)
  lua_pcall : lua_state -> lua_value -> list lua_value -> option (pcall_ret * lua_state);
  (** [lua_tolstring]: [None] for a value that is neither a string nor a number. *)
  lua_tolstring : lua_value -> option (list byte);
}.

Class LuaThreadsOk (T : LuaThreads) : Prop := {
  lua_tolstring_string s : lua_tolstring (LString s) = Some s;
  lua_tolstring_function b c us : lua_tolstring (LFunction b c us) = None;
  lua_pcall_code l f args code e l' : lua_pcall l f args = Some (Failed code e, l') -> code <> 0;
}.

(** ** Threads *)

(** A pointer to a ring buffer. *)
Inductive rb_ptr := RbNull | RbLive (rb : ringbuffer_t) | RbFreed.

(** A thread in the eyes of the one that creates and joins it. *)
Inductive pthread_state := NotCreated | Running | Exited | Joined.

Record map_thread_t := mk_thread {
  thread : pthread_state;
  rb : rb_ptr;
  ret : Z;
}.

Definition set_thread (x : pthread_state) (t : map_thread_t) : map_thread_t :=
  mk_thread x (rb t) (ret t).
Definition set_rb (x : rb_ptr) (t : map_thread_t) : map_thread_t := mk_thread (thread t) x (ret t).
Definition set_ret (x : Z) (t : map_thread_t) : map_thread_t := mk_thread (thread t) (rb t) x.

(** A thread and the log of [retain] calls. *)
Definition th : Type := map_thread_t * list Z.

Definition upd_thread (f : map_thread_t -> map_thread_t) : M th unit :=
  modify_st (fun s => (f s.1, s.2)).

(** Runs on the ring buffer the pointer designates. *)
Definition on_rb {A} (m : M save_state A) : M th A := fun s =>
  match rb s.1 with
  | RbLive r => zoom (fun s => mk_sv r s.2)
                     (fun sv s => (set_rb (RbLive (sv_rb sv)) s.1, sv_retained sv)) m s
  | _ => Undef
  end.

(** An error Lua raises outside of a protected call ends the process. *)
Definition unprotected {A} (m : M th A) : M th A := fun s =>
  match m s with Raised _ _ => Undef | o => o end.

Section Threads.
Context `{L : LuaApi} `{T : LuaThreads}.

Definition load_rb : M th load_ret :=
  on_rb (zoom sv_rb (fun r s => mk_sv r (sv_retained s)) rb_load).

Definition peek_rb : M th Z := on_rb (fun s => Done (ringbuffer_peek (sv_rb s)) s).

(** [while (ringbuffer_peek(rb)) rb_load(L, rb)]: for each turn the value pushed, [None]
    for a load that failed.  A turn reads a byte at least. *)
Fixpoint load_loop (fuel : nat) : M th (list (option lua_value)) :=
  let! n := peek_rb in
  if n =? 0 then mret [] else
  match fuel with
  | O => out_of_fuel
  | S fuel' =>
      let! r := load_rb in
      let! rs := load_loop fuel' in
      mret ((match r with LdVal v => Some v | _ => None end) :: rs)
  end.

Definition load_all : M th (list (option lua_value)) :=
  let! n := peek_rb in load_loop (Z.to_nat n).

(** Saves the values in order, up to the first that cannot be: 0 or its error. *)
Fixpoint save_each (fuel : nat) (vs : list lua_value) : M th Z :=
  match vs with
  | [] => mret 0
  | v :: vs' =>
      let! ret := on_rb (save_growing fuel v MAX_ARG_SIZE) in
      if negb (ret =? 0) then mret ret else save_each fuel vs'
  end.

(** A protected call: the values it leaves above its function and arguments, [ret] set to
    its code. *)
Definition call_function (l : lua_state) (f : lua_value) (args : list lua_value)
  : M th (pcall_ret * lua_state) := fun s =>
  match lua_pcall l f args with
  | None => Blocked s
  | Some (r, l') => Done (r, l') s
  end.

Definition code_of (r : pcall_ret) : Z := match r with Returned _ => 0 | Failed c _ => c end.
Definition values_of (r : pcall_ret) : list lua_value :=
  match r with Returned vs => vs | Failed _ e => [e] end.

(** Each function below returns the values above [top]. The chunk of [start_thread] is a
    literal, which compiles. *)
Definition start_thread (i : nat) : M th (bool * lua_state * list lua_value) :=
  let l := luaL_newstate i in
  let! (r, l') := call_function l (luaL_loadstring str_require) [] in
  upd_thread (set_ret (code_of r)) ;;;
  match r with
  | Returned _ => mret (true, l', [])
  | Failed _ e => mret (false, l', [e])
  end.

(** A value that fails to load ends the process too. *)
Definition core_thread (l : lua_state) : M th (list lua_value) :=
  let! rs := unprotected load_all in
  let! vs := of_opt (mapM id rs) in
  match vs with
  | [] => undef
  | f :: args =>
      let! (r, _) := call_function l f args in
      upd_thread (set_ret (code_of r)) ;;;
      mret (values_of r)
  end.

Definition end_thread (fuel : nat) (vs : list lua_value) : M th unit :=
  let! ret := unprotected (save_each fuel vs) in
  if negb (ret =? 0) then upd_thread (set_ret ret) else mret tt.

Definition thread_func (fuel : nat) (i : nat) : M th unit :=
  let! (ok, l, vs) := start_thread i in
  let! vs := (if (ok : bool) then core_thread l else mret vs) in
  end_thread fuel vs.

(** A string is compiled up to its first NUL. *)
Definition init_function (v : lua_value) : lua_value :=
  match v with LString s => luaL_loadstring (cstr s) | _ => v end.

Definition thread_extended_func (fuel : nat) (i : nat) : M th unit :=
  let! (ok, l, vs) := start_thread i in
  let! vs :=
    (if (ok : bool) then
       let! r := unprotected load_rb in
       let! v := (match r with LdVal v => mret v | _ => undef end) in
       let f := init_function v in
       let! (r, l) :=
         (if is_nil f then mret (Returned [], l) else call_function l f []) in
       upd_thread (set_ret (code_of r)) ;;;
       match r with
       | Failed code e => if negb (code =? 0) then mret [e] else core_thread l
       | Returned _ => core_thread l
       end
     else mret vs) in
  end_thread fuel vs.
End Threads.

(** ** Maps *)

(** The array of a map, [num_threads] long, and the log. *)
Definition map_st : Type := list map_thread_t * list Z.

Definition get_thread (i : nat) : M map_st map_thread_t := fun s =>
  match s.1 !! i with Some t => Done t s | None => Undef end.

Definition on_thread {A} (i : nat) (m : M th A) : M map_st A :=
  let! t := get_thread i in
  zoom (fun s => (t, s.2)) (fun x s => (<[i := x.1]> s.1, x.2)) m.

Section Maps.
Context `{L : LuaApi} `{T : LuaThreads}.
Context (pthread_create : nat -> Z).

(** [func] is the function the threads run. *)
Section Run.
Context (func : nat -> M th unit).

(** Thread [i] runs, if it has not yet. *)
Definition run_thread (i : nat) : M map_st unit :=
  let! t := get_thread i in
  match thread t with
  | Running => on_thread i (func i) ;;; on_thread i (upd_thread (set_thread Exited))
  | _ => mret tt
  end.

(** The caller waits for the thread; a thread is joined once. *)
Definition pthread_join (i : nat) : M map_st unit :=
  run_thread i ;;;
  let! t := get_thread i in
  match thread t with
  | Exited => on_thread i (upd_thread (set_thread Joined))
  | _ => undef
  end.

(** One entry of the Lua stack of the caller, counted from its top. *)
Definition from_top (stack : list lua_value) (idx : Z) : option lua_value :=
  if idx <? 0 then nthz stack (zlen stack + idx) else None.

(** [LUA_HANDLE_ERROR_STR(L, lua_tostring(L, idx))] *)
Definition raise_value {A} (stack : list lua_value) (idx : Z) : M map_st A :=
  let! v := of_opt (from_top stack idx) in
  raise (ErrStr (match lua_tolstring v with Some s => cstr s | None => str_null end)).

Definition destroy_rb : M th unit := fun s =>
  match rb s.1 with RbLive _ => Done tt (set_rb RbFreed s.1, s.2) | _ => Undef end.

(** [stack] is the stack of the caller: what [rb_load] loads is pushed there. *)
Fixpoint join_loop (ids : list nat) (stack : list lua_value) (rc err_rc : Z)
  : M map_st (list lua_value * Z * Z) :=
  match ids with
  | [] => mret (stack, rc, err_rc)
  | i :: ids' =>
      let! t := get_thread i in
      match rb t with
      | RbNull => join_loop ids' stack rc err_rc
      | _ =>
          pthread_join i ;;;
          let! t := get_thread i in
          let err_rc := if negb (ret t =? 0) then rc else err_rc in
          let! rs := on_thread i load_all in
          on_thread i destroy_rb ;;;
          join_loop ids' (stack ++ omap id rs) (rc + zlen rs) err_rc
      end
  end.

(** The results are the [rc] values on top of the stack. *)
Definition map_join (stack : list lua_value) : M map_st (list lua_value) :=
  let! s := get_st in
  let! (stack, rc, err_rc) := join_loop (seq 0 (length s.1)) stack 0 (-1) in
  modify_st (fun s => ([], s.2)) ;;;
  if 0 <=? err_rc then raise_value stack (err_rc - rc)
  else if zlen stack <? rc then undef
  else mret (zdrop (zlen stack - rc) stack).

Fixpoint check_loop (ids : list nat) (stack : list lua_value) : M map_st unit :=
  match ids with
  | [] => mret tt
  | i :: ids' =>
      let! t := get_thread i in
      if negb (ret t =? 0) then
        pthread_join i ;;;
        let! rs := on_thread i load_all in
        on_thread i destroy_rb ;;;
        on_thread i (upd_thread (set_rb RbNull)) ;;;
        raise_value (stack ++ omap id rs) (-1)
      else check_loop ids' stack
  end.

Definition map_check_errors (stack : list lua_value) : M map_st unit :=
  let! s := get_st in check_loop (seq 0 (length s.1)) stack.
End Run.

(** Saves the arguments and starts the threads, in order.  [args] are the arguments from
    the second on. *)
Fixpoint create_loop (fuel : nat) (args : list lua_value) (ids : list nat) : M map_st unit :=
  match ids with
  | [] => mret tt
  | i :: ids' =>
      on_thread i (upd_thread (set_rb (RbLive (ringbuffer_create MAX_ARG_SIZE)))) ;;;
      let! ret := on_thread i (save_each fuel args) in
      if negb (ret =? 0) then raise (ErrCode ret) else
      let! ret := on_thread i (save_each fuel [lua_pushinteger (Z.of_nat i + 1)]) in
      if negb (ret =? 0) then raise (ErrCode ret) else
      let ret := pthread_create i in
      if negb (ret =? 0) then raise (ErrCode ret) else
      on_thread i (upd_thread (set_thread Running)) ;;;
      create_loop fuel args ids'
  end.

Definition core_map (fuel : nat) (num_threads : nat) (args : list lua_value) : M map_st unit :=
  modify_st (fun s => (replicate num_threads (mk_thread NotCreated RbNull 0), s.2)) ;;;
  create_loop fuel args (seq 0 num_threads).

Definition map_open (fuel : nat) (num_threads : nat) (args : list lua_value) : M map_st unit :=
  match args with
  | LFunction _ _ _ :: _ => core_map fuel num_threads args
  | _ => raise (ErrStr str_map_function)
  end.

Definition map_extended_open (fuel : nat) (num_threads : nat) (args : list lua_value)
  : M map_st unit :=
  match args with
  | (LFunction _ _ _ | LString _ | LNil) :: args' =>
      match args' with
      | LFunction _ _ _ :: _ => core_map fuel num_threads args
      | _ => raise (ErrStr str_extended_function)
      end
  | _ => raise (ErrStr str_extended_init)
  end.
End Maps.

(** ** Buffers *)

Section Buffers.
Context `{L : LuaApi} {Lok : LuaApiOk L}.

(** Values a buffer that holds nothing takes, in less than [fuel] turns each. *)
Definition passable (fuel : nat) (vs : list lua_value) : bool :=
  forallb (writable 0) vs && (total_len 0 vs <? Z.of_nat fuel) && (total_len 0 vs <? 2 ^ 62).

Lemma save_each_spec fuel vs : forall t log r items,
  rb t = RbLive r -> holds r items -> forallb (writable 0) vs = true ->
  rcb r + total_len 0 vs < Z.of_nat fuel -> rcb r + total_len 0 vs < 2 ^ 62 ->
  exists r' log', save_each fuel vs (t, log) = Done 0 (set_rb (RbLive r') t, log') /\
    holds r' (items ++ vs) /\ rcb r' = rcb r + total_len 0 vs.
Proof.
  induction vs as [|v vs IH]; intros t log r items Hr Hh Hw Hf Hm; cbn [save_each].
  { exists r, log. rewrite app_nil_r. change (total_len 0 []) with 0.
    split; [destruct t; cbn in *; by subst | split; [done | lia]]. }
  rewrite total_len_cons in *. pose proof (total_len_nonneg 0 vs).
  assert (0 <= enc_len 0 v) by apply zlen_nonneg.
  apply andb_prop in Hw as [Hw1 Hw2].
  destruct (ring_bounds _ (holds_ring _ _ Hh)).
  destruct (save_growing_spec v MAX_ARG_SIZE fuel (mk_sv r log) items) as (st' & E & Hh' & Hr');
    try done; [cbn [sv_rb]; change MAX_ARG_SIZE with 16384; lia | unfold grow_fuel; cbn [sv_rb]; lia |].
  unfold mbnd, on_rb at 1, zoom. cbn [fst snd]. rewrite Hr, E.
  cbn [fst snd sv_rb sv_retained negb Z.eqb] in *.
  destruct (IH (set_rb (RbLive (sv_rb st')) t) (sv_retained st') (sv_rb st') (items ++ [v]))
    as (r' & log' & -> & Hh2 & Hr2); try done; [lia | lia |].
  exists r', log'. rewrite <- app_assoc in Hh2. split; [done | split; [done | lia]].
Qed.

Lemma passable_saved fuel vs t log r : rb t = RbLive r -> holds r [] -> passable fuel vs = true ->
  exists r' log', save_each fuel vs (t, log) = Done 0 (set_rb (RbLive r') t, log') /\ holds r' vs.
Proof.
  intros Hr Hh [[Hw Hf]%andb_prop Hm]%andb_prop. pose proof (holds_nil _ Hh).
  destruct (save_each_spec fuel vs t log r []) as (r' & log' & E & Hh' & _);
    [done | done | done | lia | lia | by exists r', log'].
Qed.

Lemma peek_rb_run t log r : rb t = RbLive r -> peek_rb (t, log) = Done (rcb r) (t, log).
Proof. intros H. unfold peek_rb, on_rb, zoom. cbn. rewrite H. cbn. destruct t; cbn in *. by subst. Qed.

Lemma load_rb_run t log r v vs : rb t = RbLive r -> holds r (v :: vs) ->
  exists r', load_rb (t, log) = Done (LdVal (transported v)) (set_rb (RbLive r') t, log) /\
    holds r' vs /\ rcb r' <= rcb r.
Proof.
  intros Hr Hh. destruct (holds_load r v vs Hh) as (r' & E & Hh' & _ & Hle).
  exists r'. split; [|done]. unfold load_rb, on_rb, zoom. cbn. by rewrite Hr, E.
Qed.

Lemma load_loop_spec vs : forall fuel t log r,
  rb t = RbLive r -> holds r vs -> (length vs <= fuel)%nat ->
  exists r', load_loop fuel (t, log)
      = Done (Some <$> (transported <$> vs)) (set_rb (RbLive r') t, log) /\ holds r' [].
Proof.
  induction vs as [|v vs IH]; intros fuel t log r Hr Hh Hf.
  - exists r. split; [|done]. destruct fuel; cbn [load_loop]; unfold mbnd;
      rewrite (peek_rb_run _ _ r), (holds_nil r) by done; destruct t; cbn in *; by subst.
  - destruct fuel as [|fuel]; cbn [length] in Hf; [lia|]. cbn [load_loop]. unfold mbnd at 1.
    rewrite (peek_rb_run _ _ r) by done. pose proof (holds_cons_pos _ _ _ Hh).
    rewrite (proj2 (Z.eqb_neq (rcb r) 0)) by lia. unfold mbnd at 1.
    destruct (load_rb_run t log r v vs) as (r1 & -> & Hh1 & _); [done..|].
    destruct (IH fuel (set_rb (RbLive r1) t) log r1) as (r' & E & Hh'); [done | done | lia |].
    exists r'. unfold mbnd. by rewrite E.
Qed.

Lemma load_all_spec t log r vs : rb t = RbLive r -> holds r vs ->
  exists r', load_all (t, log)
      = Done (Some <$> (transported <$> vs)) (set_rb (RbLive r') t, log) /\ holds r' [].
Proof.
  intros Hr Hh. unfold load_all, mbnd. rewrite (peek_rb_run _ _ r) by done.
  apply (load_loop_spec vs _ t log r); [done..|].
  pose proof (holds_length _ _ Hh). unfold zlen in *. lia.
Qed.
End Buffers.

(** ** What a thread does *)

Section ThreadSpec.
Context `{L : LuaApi} {Lok : LuaApiOk L} `{T : LuaThreads} {Tok : LuaThreadsOk T}.

(** The function of a thread, given the values [vs], ends with [ret] at [code] and the values
    [out] in its buffer. *)
Definition runs_to (func : M th unit) (vs : list lua_value) (code : Z) (out : list lua_value)
  : Prop :=
  forall t log r, rb t = RbLive r -> holds r vs -> rcb r = total_len 0 vs ->
  exists r' log', func (t, log) = Done tt (set_ret code (set_rb (RbLive r') t), log') /\
    holds r' out.

(** The state of thread [i] once the modules are loaded. *)
Definition started (i : nat) (l : lua_state) : Prop :=
  exists us, lua_pcall (luaL_newstate i) (luaL_loadstring str_require) [] = Some (Returned us, l).

Lemma start_thread_run i l t log : started i l ->
  start_thread i (t, log) = Done (true, l, []) (set_ret 0 t, log).
Proof. intros [us E]. unfold start_thread, mbnd, call_function. by rewrite E. Qed.

Lemma core_thread_run l l' f args res t log r :
  rb t = RbLive r -> holds r (f :: args) ->
  lua_pcall l (transported f) (transported <$> args) = Some (res, l') ->
  exists r', core_thread l (t, log)
      = Done (values_of res) (set_ret (code_of res) (set_rb (RbLive r') t), log) /\ holds r' [].
Proof.
  intros Hr Hh E. destruct (load_all_spec t log r _ Hr Hh) as (r' & El & Hh').
  exists r'. split; [|done]. unfold core_thread, mbnd, unprotected. rewrite El.
  rewrite mapM_id_Some. cbn. unfold call_function. by rewrite E.
Qed.

Lemma end_thread_run fuel vs t log r : rb t = RbLive r -> holds r [] -> passable fuel vs = true ->
  exists r' log', end_thread fuel vs (t, log) = Done tt (set_rb (RbLive r') t, log') /\
    holds r' vs.
Proof.
  intros Hr Hh Hp. destruct (passable_saved fuel vs t log r Hr Hh Hp) as (r' & log' & E & Hh').
  exists r', log'. unfold end_thread, mbnd, unprotected. by rewrite E.
Qed.

Lemma thread_func_spec fuel i l l' f args res :
  started i l -> lua_pcall l (transported f) (transported <$> args) = Some (res, l') ->
  passable fuel (values_of res) = true ->
  runs_to (thread_func fuel i) (f :: args) (code_of res) (values_of res).
Proof.
  intros Hs E Hp t log r Hr Hh _. unfold thread_func, mbnd. rewrite (start_thread_run i l) by done.
  destruct (core_thread_run l l' f args res (set_ret 0 t) log r) as (r1 & E1 & Hh1); [done..|].
  rewrite E1. destruct (end_thread_run fuel (values_of res)
    (set_ret (code_of res) (set_rb (RbLive r1) (set_ret 0 t))) log r1) as (r' & log' & E2 & Hh');
    [done..|].
  rewrite E2. exists r', log'. split; [done | exact Hh'].
Qed.

(** [init] runs in the state before the function, unless it is nil. *)
Definition initialised (i : nat) (init : lua_value) (l : lua_state) : Prop :=
  exists l0, started i l0 /\
    let f := init_function (transported init) in
    if is_nil f then l = l0 else exists us, lua_pcall l0 f [] = Some (Returned us, l).

Lemma thread_extended_func_spec fuel i l l' init f args res :
  initialised i init l -> lua_pcall l (transported f) (transported <$> args) = Some (res, l') ->
  passable fuel (values_of res) = true ->
  runs_to (thread_extended_func fuel i) (init :: f :: args) (code_of res) (values_of res).
Proof.
  intros (l0 & Hs & Hi) E Hp t log r Hr Hh _. unfold thread_extended_func, mbnd at 1.
  rewrite (start_thread_run i l0) by done.
  destruct (load_rb_run (set_ret 0 t) log r init (f :: args)) as (r0 & E0 & Hh0 & _); [done..|].
  destruct (core_thread_run l l' f args res (set_ret 0 (set_rb (RbLive r0) (set_ret 0 t))) log r0)
    as (r1 & E1 & Hh1); [done..|].
  destruct (end_thread_run fuel (values_of res)
    (set_ret (code_of res) (set_rb (RbLive r1) (set_ret 0 (set_rb (RbLive r0) (set_ret 0 t)))))
    log r1) as (r' & log' & E2 & Hh'); [done..|].
  exists r', log'. split; [|exact Hh']. unfold mbnd, unprotected. rewrite E0. cbn beta iota zeta.
  cbv zeta in Hi. destruct (is_nil (init_function _)) eqn:En.
  - subst l0. unfold mret, upd_thread, modify_st. cbn beta iota zeta. rewrite En. cbn [code_of fst snd].
    rewrite E1. cbn beta iota. exact E2.
  - destruct Hi as [us Eu]. unfold mret, upd_thread, modify_st, call_function.
    cbn beta iota zeta. rewrite En, Eu.
    cbn beta iota. cbn [code_of fst snd]. rewrite E1. cbn beta iota. exact E2.
Qed.

(** When [init] fails its message goes behind the arguments, which nobody took out. *)
Lemma thread_extended_init_fails fuel i l0 l init args code m :
  started i l0 -> is_nil (init_function (transported init)) = false ->
  lua_pcall l0 (init_function (transported init)) [] = Some (Failed code (LString m), l) ->
  passable fuel (init :: args ++ [LString m]) = true ->
  runs_to (thread_extended_func fuel i) (init :: args) code (args ++ [LString m]).
Proof.
  intros Hs En E [[Hw Hf]%andb_prop Hm]%andb_prop t log r Hr Hh Hlen.
  unfold thread_extended_func, mbnd at 1. rewrite (start_thread_run i l0) by done.
  destruct (load_rb_run (set_ret 0 t) log r init args) as (r0 & E0 & Hh0 & Hle); [done..|].
  rewrite total_len_cons, total_len_app, total_len_cons in Hf, Hm. rewrite total_len_cons in Hlen.
  change (total_len 0 []) with 0 in *. cbn [forallb] in Hw. rewrite forallb_app in Hw.
  apply andb_prop in Hw as [_ [_ Hw]%andb_prop].
  destruct (save_each_spec fuel [LString m] (set_ret code (set_rb (RbLive r0) (set_ret 0 t))) log r0 args)
    as (r' & log' & E2 & Hh' & _); [done | done | done | rewrite total_len_cons;
    change (total_len 0 []) with 0; lia ..|].
  exists r', log'. split; [|exact Hh']. unfold mbnd, unprotected. rewrite E0. cbn beta iota.
  unfold mret, call_function. cbn beta iota zeta. rewrite En, E. cbn beta iota. cbn [code_of].
  unfold upd_thread, modify_st, end_thread, mbnd, unprotected. cbn [fst snd].
  rewrite (proj2 (Z.eqb_neq code 0)) by (eapply lua_pcall_code; exact E).
  unfold mret. cbn [negb]. by rewrite E2.
Qed.
End ThreadSpec.

(** ** The threads of a map *)

Section MapSpec.
Context `{L : LuaApi} {Lok : LuaApiOk L} `{T : LuaThreads} {Tok : LuaThreadsOk T}.
Context (n : nat) (args : list lua_value) (func : nat -> M th unit).
Context (code : nat -> Z) (out : nat -> list lua_value).

(** What thread [i] finds in its buffer: the arguments, then its number. *)
Definition arguments (i : nat) : list lua_value := args ++ [lua_pushinteger (Z.of_nat i + 1)].

Hypothesis Hfunc : forall i, (i < n)%nat -> runs_to (func i) (arguments i) (code i) (out i).

(** A thread that has not run yet, has run, or was reported by [checkErrors]. *)
Inductive stat := Waiting | Ended | Gone.

#[local] Instance stat_eq_dec : EqDecision stat.
Proof. solve_decision. Defined.

Definition rep_at (i : nat) (s : stat) (t : map_thread_t) : Prop :=
  match s with
  | Waiting => thread t = Running /\ ret t = 0 /\ exists r, rb t = RbLive r /\
      holds r (arguments i) /\ rcb r = total_len 0 (arguments i)
  | Ended => thread t = Exited /\ ret t = code i /\ exists r, rb t = RbLive r /\ holds r (out i)
  | Gone => thread t = Joined /\ ret t = code i /\ rb t = RbNull
  end.

Definition rep_in (ids : list nat) (st : nat -> stat) (ts : list map_thread_t) : Prop :=
  forall i, i ∈ ids -> (i < n)%nat /\ exists t, ts !! i = Some t /\ rep_at i (st i) t.

Definition set_stat (i : nat) (s : stat) (st : nat -> stat) : nat -> stat :=
  fun j => if decide (j = i) then s else st j.

Lemma rep_in_incl ids ids' st ts : (forall i, i ∈ ids' -> i ∈ ids) ->
  rep_in ids st ts -> rep_in ids' st ts.
Proof. intros H Hr i Hi. by apply Hr, H. Qed.

Lemma rep_in_insert ids st ts i s t :
  rep_in ids st ts -> i ∈ ids -> rep_at i s t -> rep_in ids (set_stat i s st) (<[i := t]> ts).
Proof.
  intros Hr Hi Ht j Hj. destruct (Hr j Hj) as (Hn & u & Hu & Hrep). split; [done|].
  unfold set_stat. destruct (Hr i Hi) as (_ & v & Hv & _).
  case_decide as E; [subst|].
  - exists t. split; [|done]. apply list_lookup_insert_eq. by apply lookup_lt_Some in Hv.
  - exists u. by rewrite list_lookup_insert_ne.
Qed.

Lemma rep_in_other ids st ts i t : i ∉ ids -> rep_in ids st ts -> rep_in ids st (<[i := t]> ts).
Proof.
  intros Hi Hr j Hj. destruct (Hr j Hj) as (Hn & u & Hu & Hrep). split; [done|]. exists u.
  rewrite list_lookup_insert_ne; [done | by intros ->].
Qed.

Lemma on_thread_run {A} i (m : M th A) ts log t a t' log' :
  ts !! i = Some t -> m (t, log) = Done a (t', log') ->
  on_thread i m (ts, log) = Done a (<[i := t']> ts, log').
Proof. intros Ht E. unfold on_thread, mbnd, get_thread, zoom. cbn. rewrite Ht. cbn. by rewrite E. Qed.

Lemma get_thread_run i ts log t : ts !! i = Some t -> get_thread i (ts, log) = Done t (ts, log).
Proof. intros H. unfold get_thread. cbn. by rewrite H. Qed.

Definition after (s : stat) : stat := match s with Waiting => Ended | s => s end.

Lemma run_thread_run i s ts log t : (i < n)%nat -> ts !! i = Some t -> rep_at i s t ->
  exists t' log', run_thread func i (ts, log) = Done tt (<[i := t']> ts, log') /\
    rep_at i (after s) t'.
Proof.
  intros Hi Ht Hr. unfold run_thread, mbnd at 1. rewrite (get_thread_run _ _ _ t) by done.
  destruct s; cbn [rep_at after] in *.
  - destruct Hr as (-> & _ & r & Hr & Hh & Hl).
    destruct (Hfunc i Hi t log r Hr Hh Hl) as (r' & log' & E & Hh').
    unfold mbnd. rewrite (on_thread_run i _ _ _ t _ _ _ Ht E).
    erewrite on_thread_run; [| |reflexivity];
      [|apply list_lookup_insert_eq; by apply lookup_lt_Some in Ht].
    rewrite list_insert_insert_eq. eexists _, log'. split; [reflexivity|]. cbn. eauto.
  - destruct Hr as (E & Hr). rewrite E. exists t, log. rewrite list_insert_id by done. by cbn.
  - destruct Hr as (E & Hr). rewrite E. exists t, log. rewrite list_insert_id by done. by cbn.
Qed.

Lemma pthread_join_run i s ts log t : (i < n)%nat -> ts !! i = Some t -> rep_at i s t -> s <> Gone ->
  exists t' log' r, pthread_join func i (ts, log) = Done tt (<[i := t']> ts, log') /\
    thread t' = Joined /\ ret t' = code i /\ rb t' = RbLive r /\ holds r (out i).
Proof.
  intros Hi Ht Hr Hs. destruct (run_thread_run i s ts log t Hi Ht Hr) as (t1 & log1 & E & Hr1).
  assert (<[i := t1]> ts !! i = Some t1) as Ht1
    by (apply list_lookup_insert_eq; by apply lookup_lt_Some in Ht).
  destruct s; [| |done]; destruct Hr1 as (Eth & Hret & r & Hr' & Hh);
    unfold pthread_join, mbnd; rewrite E, (get_thread_run _ _ _ t1), Eth by done;
    erewrite on_thread_run; [|exact Ht1|reflexivity| |exact Ht1|reflexivity];
    rewrite list_insert_insert_eq; cbn [fst snd]; eexists _, log1, r; (split; [reflexivity|]);
    by cbn.
Qed.

(** A thread that was joined: its results loaded, its buffer freed. *)
Lemma joined_run i ts log t r : ts !! i = Some t -> rb t = RbLive r -> holds r (out i) ->
  exists t', on_thread i load_all (ts, log)
      = Done (Some <$> (transported <$> out i)) (<[i := t']> ts, log) /\
    on_thread i destroy_rb (<[i := t']> ts, log) = Done tt (<[i := set_rb RbFreed t]> ts, log).
Proof.
  intros Ht Hr Hh. destruct (load_all_spec t log r _ Hr Hh) as (r' & E & _).
  exists (set_rb (RbLive r') t). split; [by eapply on_thread_run|].
  rewrite (on_thread_run i destroy_rb _ _ (set_rb (RbLive r') t) tt (set_rb RbFreed t) log);
    [by rewrite list_insert_insert_eq | | done].
  apply list_lookup_insert_eq. by apply lookup_lt_Some in Ht.
Qed.

(** *** Joining *)

Definition live (st : nat -> stat) (i : nat) : bool := match st i with Gone => false | _ => true end.
Definition results (ids : list nat) : list lua_value :=
  concat (map (fun i => transported <$> out i) ids).

(** The place of the first result of the last thread with an error. *)
Fixpoint err_pos (ids : list nat) (rc err_rc : Z) : Z :=
  match ids with
  | [] => err_rc
  | i :: ids' => err_pos ids' (rc + zlen (out i)) (if code i =? 0 then err_rc else rc)
  end.

Lemma omap_Some (vs : list lua_value) : omap id (Some <$> vs) = vs.
Proof. induction vs as [|v vs IH]; [done|]. cbn. by f_equal. Qed.

Lemma join_loop_run ids st : forall stack rc err_rc ts log,
  NoDup ids -> rep_in ids st ts ->
  exists ts' log', let js := List.filter (live st) ids in
    join_loop func ids stack rc err_rc (ts, log)
    = Done (stack ++ results js, rc + zlen (results js), err_pos js rc err_rc) (ts', log').
Proof.
  induction ids as [|i ids IH]; intros stack rc err_rc ts log Hd Hr.
  { exists ts, log. cbn. by rewrite app_nil_r, Z.add_0_r. }
  apply NoDup_cons in Hd as [Hi Hd].
  destruct (Hr i ltac:(left)) as (Hn & t & Ht & Hrep).
  pose proof (rep_in_incl _ ids _ _ ltac:(intros; by right) Hr) as Hr'.
  cbn [join_loop List.filter]. unfold mbnd at 1. rewrite (get_thread_run _ _ _ t) by done.
  destruct (live st i) eqn:Hg; unfold live in Hg; [|destruct (st i); try done;
    destruct Hrep as (_ & _ & ->); by apply IH].
  assert (st i <> Gone) as Hg' by (by intros E; rewrite E in Hg).
  destruct (pthread_join_run i (st i) ts log t Hn Ht Hrep Hg')
    as (t1 & log1 & r & E & _ & Hret & Hrb & Hh).
  assert (<[i := t1]> ts !! i = Some t1) as Ht1
    by (apply list_lookup_insert_eq; by apply lookup_lt_Some in Ht).
  destruct (joined_run i _ log1 t1 r Ht1 Hrb Hh) as (t2 & E1 & E2).
  destruct (IH (stack ++ (transported <$> out i)) (rc + zlen (out i))
    (if code i =? 0 then err_rc else rc) (<[i := set_rb RbFreed t1]> (<[i := t1]> ts)) log1)
    as (ts' & log' & EI); [done | by apply rep_in_other, rep_in_other |].
  exists ts', log'. cbv zeta in *.
  replace (match rb t with RbNull => _ | _ => _ end) with
    (pthread_join func i ;;;
     let! t := get_thread i in
     let err_rc := if negb (ret t =? 0) then rc else err_rc in
     let! rs := on_thread i load_all in
     on_thread i destroy_rb ;;;
     join_loop func ids (stack ++ omap id rs) (rc + zlen rs) err_rc)
    by (destruct (st i); [| |done]; destruct Hrep as (_ & _ & ? & -> & _); done).
  unfold mbnd. rewrite E, (get_thread_run _ _ _ t1), E1, E2, omap_Some, !zlen_fmap, Hret by done.
  replace (if negb (code i =? 0) then rc else err_rc) with (if code i =? 0 then err_rc else rc)
    by (by destruct (code i =? 0)).
  rewrite EI. cbn [map concat err_pos]. unfold results. cbn [map concat].
  rewrite zlen_app, zlen_fmap, <- app_assoc, Z.add_assoc. done.
Qed.

Definition failing (i : nat) : bool := negb (code i =? 0).

Lemma err_pos_spec ids : forall rc err_rc,
  match last (List.filter failing ids) with
  | None => err_pos ids rc err_rc = err_rc
  | Some i => exists l1 l2, ids = l1 ++ i :: l2 /\
      err_pos ids rc err_rc = rc + zlen (results l1)
  end.
Proof.
  induction ids as [|a ids IH]; intros rc err_rc; cbn [err_pos List.filter]; [done|].
  specialize (IH (rc + zlen (out a)) (if code a =? 0 then err_rc else rc)).
  destruct (last (List.filter failing ids)) as [i|] eqn:El.
  - replace (last (if failing a then _ else _)) with (Some i)
      by (destruct (failing a); [rewrite last_cons, El|]; done).
    destruct IH as (l1 & l2 & -> & ->). exists (a :: l1), l2. split; [done|].
    unfold results. cbn [map concat]. rewrite zlen_app, zlen_fmap. lia.
  - apply last_None in El. rewrite IH. unfold failing at 1. destruct (code a =? 0); cbn [negb].
    + by rewrite El.
    + rewrite El. exists [], ids. split; [done|]. change (results []) with (@nil lua_value). by rewrite zlen_nil, Z.add_0_r.
Qed.

(** The message of a thread with an error: its first result as a string. *)
Definition string_of (v : option lua_value) : list byte :=
  match v with
  | Some v => match lua_tolstring v with Some s => cstr s | None => str_null end
  | None => []
  end.
Definition message (i : nat) : list byte := string_of (head (transported <$> out i)).

Lemma raise_value_run {A} stack idx v (s : map_st) :
  from_top stack idx = Some v -> raise_value (A := A) stack idx s = Raised (ErrStr (string_of (Some v))) s.
Proof. intros E. unfold raise_value, mbnd. by rewrite E. Qed.

Lemma from_top_app a v b c : from_top (a ++ b ++ (v :: c)) (- zlen (v :: c)) = Some v.
Proof.
  unfold from_top. rewrite zlen_cons. pose proof (zlen_nonneg c).
  rewrite (proj2 (Z.ltb_lt _ 0)) by lia. rewrite !zlen_app, zlen_cons.
  rewrite app_assoc, nthz_app, zlen_app.
  pose proof (zlen_nonneg a). pose proof (zlen_nonneg b). rewrite (proj2 (Z.ltb_ge _ _)) by lia.
  replace (_ - _) with 0 by lia. done.
Qed.

(** An error of thread [i] is the error of the map if no later thread has one. *)
Definition answer {S} (js : list nat) (s : S) : outcome S (list lua_value) :=
  match last (List.filter failing js) with
  | Some i => Raised (ErrStr (message i)) s
  | None => Done (results js) s
  end.

Lemma map_join_run st stack ts log :
  length ts = n -> rep_in (seq 0 n) st ts ->
  (forall i, (i < n)%nat -> code i <> 0 -> out i <> []) ->
  exists log', map_join func stack (ts, log)
    = answer (List.filter (live st) (seq 0 n)) ([], log').
Proof.
  intros Hl Hr Hout. unfold map_join, mbnd at 1, get_st. cbn [fst]. rewrite Hl.
  destruct (join_loop_run (seq 0 n) st stack 0 (-1) ts log) as (ts' & log' & E);
    [apply NoDup_ListNoDup, seq_NoDup | done |].
  exists log'. cbv zeta in E. set (js := List.filter (live st) (seq 0 n)) in *.
  unfold mbnd at 1. rewrite E. unfold mbnd, modify_st. cbn [snd].
  pose proof (err_pos_spec js 0 (-1)) as He. unfold answer.
  destruct (last (List.filter failing js)) as [i|] eqn:El.
  - destruct He as (l1 & l2 & Hjs & ->). pose proof (zlen_nonneg (results l1)).
    rewrite (proj2 (Z.leb_le 0 _)) by lia.
    assert (i ∈ List.filter failing js) as Hi by (by apply last_Some_elem_of).
    apply list_elem_of_In, filter_In in Hi as [Hi Hf].
    assert (i < n)%nat as Hin.
    { unfold js in Hi. apply filter_In in Hi as [Hi _]. apply in_seq in Hi. lia. }
    destruct (out i) as [|v vs] eqn:Ho.
    { exfalso. apply (Hout i Hin); [|done]. unfold failing in Hf. by destruct (Z.eqb_spec (code i) 0). }
    assert (results js = results l1 ++ transported v :: (transported <$> vs) ++ results l2) as Hres.
    { rewrite Hjs. unfold results. rewrite map_app, concat_app. cbn [map concat]. by rewrite Ho. }
    rewrite Hres at 2. rewrite zlen_app.
    replace (0 + _ - _) with (- zlen (transported v :: (transported <$> vs) ++ results l2)) by lia.
    rewrite Hres. erewrite raise_value_run by apply from_top_app.
    unfold message. by rewrite Ho.
  - rewrite He. change (0 <=? -1) with false. cbv iota. rewrite zlen_app, Z.add_0_l.
    pose proof (zlen_nonneg stack). rewrite (proj2 (Z.ltb_ge _ _)) by lia.
    unfold mret. by rewrite zdrop_zdrop_app by lia.
Qed.

(** *** Looking for errors *)

(** A thread whose error can be seen. *)
Definition shown (st : nat -> stat) (i : nat) : bool :=
  failing i && match st i with Waiting => false | _ => true end.

(** Joining a thread that has failed: its message is raised. *)
Lemma failed_join_run i ts log t stack :
  (i < n)%nat -> ts !! i = Some t -> rep_at i Ended t -> out i <> [] ->
  exists t' log',
    (pthread_join func i ;;;
     let! rs := on_thread i load_all in
     on_thread i destroy_rb ;;;
     on_thread i (upd_thread (set_rb RbNull)) ;;;
     raise_value (stack ++ omap id rs) (-1) : M map_st unit) (ts, log)
    = Raised (ErrStr (string_of (last (transported <$> out i)))) (<[i := t']> ts, log') /\
    rep_at i Gone t'.
Proof.
  intros Hn Ht Hrep Ho.
  destruct (pthread_join_run i Ended ts log t Hn Ht Hrep ltac:(done))
    as (t1 & log1 & r & E & Hth & Hret & Hrb & Hh).
  assert (<[i := t1]> ts !! i = Some t1) as Ht1
    by (apply list_lookup_insert_eq; by apply lookup_lt_Some in Ht).
  destruct (joined_run i _ log1 t1 r Ht1 Hrb Hh) as (t2 & E1 & E2).
  exists (set_rb RbNull (set_rb RbFreed t1)), log1. split; [|by cbn].
  unfold mbnd. rewrite E, E1. unfold mbnd. rewrite E2. unfold mbnd.
  erewrite on_thread_run; [| |reflexivity];
    [|apply list_lookup_insert_eq; by apply lookup_lt_Some in Ht1].
  rewrite !list_insert_insert_eq, omap_Some. cbn [fst snd].
  destruct (exists_last Ho) as (vs & v & ->). rewrite fmap_app.
  cbn [fmap list_fmap]. rewrite last_snoc.
  apply raise_value_run. apply (from_top_app stack (transported v) (transported <$> vs) []).
Qed.

Lemma check_loop_run ids st stack : forall ts log,
  (forall i, i ∈ ids -> code i <> 0 -> out i <> []) -> rep_in ids st ts ->
  match List.filter (shown st) ids with
  | [] => check_loop func ids stack (ts, log) = Done tt (ts, log)
  | i :: _ => i ∈ ids /\
      match st i with
      | Gone => check_loop func ids stack (ts, log) = Undef
      | _ => exists t log', check_loop func ids stack (ts, log)
            = Raised (ErrStr (string_of (last (transported <$> out i)))) (<[i := t]> ts, log') /\
          rep_at i Gone t
      end
  end.
Proof.
  induction ids as [|i ids IH]; intros ts log Hout Hr; [done|].
  destruct (Hr i ltac:(left)) as (Hn & t & Ht & Hrep).
  specialize (IH ts log ltac:(intros; apply Hout; [by right | done])
    ltac:(eapply rep_in_incl; [|exact Hr]; intros; by right)).
  assert (check_loop func (i :: ids) stack (ts, log) =
    (if negb (ret t =? 0) then
       pthread_join func i ;;;
       let! rs := on_thread i load_all in
       on_thread i destroy_rb ;;;
       on_thread i (upd_thread (set_rb RbNull)) ;;;
       raise_value (stack ++ omap id rs) (-1)
     else check_loop func ids stack) (ts, log)) as Hstep
    by (cbn [check_loop]; unfold mbnd at 1; by rewrite (get_thread_run _ _ _ t)).
  cbn [List.filter]. destruct (shown st i) eqn:Hs.
  - unfold shown, failing in Hs. apply andb_prop in Hs as [Hc Hs].
    replace (ret t) with (code i) in Hstep
      by (destruct (st i); [done | |]; by destruct Hrep as (_ & <- & _)).
    rewrite Hc in Hstep. split; [left|]. destruct (st i); [done| |].
    + rewrite Hstep. apply failed_join_run with t; try done. apply Hout; [left|].
      by destruct (Z.eqb_spec (code i) 0).
    + destruct Hrep as (Hth & _). rewrite Hstep. unfold pthread_join, run_thread, mbnd.
      rewrite (get_thread_run _ _ _ t) by done. rewrite Hth. unfold mret.
      by rewrite (get_thread_run _ _ _ t), Hth.
  - replace (negb (ret t =? 0)) with false in Hstep.
    + destruct (List.filter (shown st) ids) as [|j js]; [by rewrite Hstep|].
      destruct IH as [Hj IH]. split; [by right|]. by destruct (st j); rewrite Hstep.
    + unfold shown, failing in Hs. destruct (st i); [destruct Hrep as (_ & -> & _); done | |];
        destruct Hrep as (_ & -> & _); by destruct (code i =? 0).
Qed.

(** *** Any schedule *)

Fixpoint run_threads (sched : list nat) : M map_st unit :=
  match sched with [] => mret tt | i :: sched' => run_thread func i ;;; run_threads sched' end.

Definition scheduled (sched : list nat) : nat -> stat :=
  fun i => if decide (i ∈ sched) then Ended else Waiting.

Lemma run_threads_run ids sched : forall st ts log,
  (forall i, i ∈ sched -> i ∈ ids) -> rep_in ids st ts ->
  exists ts' log', run_threads sched (ts, log) = Done tt (ts', log') /\ length ts' = length ts /\
    rep_in ids (fun i => if decide (i ∈ sched) then after (st i) else st i) ts'.
Proof.
  induction sched as [|i sched IH]; intros st ts log Hin Hr; cbn [run_threads].
  { exists ts, log. split; [done|]. split; [done|]. intros j Hj. destruct (Hr j Hj) as (? & t & ? & ?).
    split; [done|]. exists t. by rewrite decide_False by set_solver. }
  destruct (Hr i ltac:(apply Hin; left)) as (Hn & t & Ht & Hrep).
  destruct (run_thread_run i (st i) ts log t Hn Ht Hrep) as (t1 & log1 & E & Hr1).
  destruct (IH (set_stat i (after (st i)) st) (<[i := t1]> ts) log1) as (ts' & log' & E' & Hl & Hr').
  { intros; apply Hin; by right. }
  { apply rep_in_insert; [done | apply Hin; left | done]. }
  exists ts', log'. unfold mbnd. rewrite E. split; [done|].
  split; [by rewrite Hl, length_insert|]. intros j Hj.
  destruct (Hr' j Hj) as (? & u & ? & Hu). split; [done|]. exists u. split; [done|].
  unfold set_stat in Hu. destruct (decide (j = i)) as [->|Hne].
  - rewrite decide_True by left. case_decide; [|done]. by destruct (st i).
  - destruct (decide (j ∈ sched)); [rewrite decide_True by set_solver | rewrite decide_False by set_solver];
      done.
Qed.

(** *** Starting *)

Definition unborn : map_thread_t := mk_thread NotCreated RbNull 0.

Lemma start_one fuel i ts log : ts !! i = Some unborn -> passable fuel (arguments i) = true ->
  exists t' r log1 log2 ts1,
    (on_thread i (upd_thread (set_rb (RbLive (ringbuffer_create MAX_ARG_SIZE)))) ;;;
     on_thread i (save_each fuel args)) (ts, log) = Done 0 (ts1, log1) /\
    on_thread i (save_each fuel [lua_pushinteger (Z.of_nat i + 1)]) (ts1, log1)
      = Done 0 (<[i := t']> ts, log2) /\
    t' = mk_thread NotCreated (RbLive r) 0 /\ holds r (arguments i) /\
    rcb r = total_len 0 (arguments i).
Proof.
  intros Ht [[Hw Hf]%andb_prop Hm]%andb_prop. unfold arguments in *.
  rewrite forallb_app in Hw. apply andb_prop in Hw as [Hw1 Hw2].
  rewrite total_len_app in *. set (id := lua_pushinteger (Z.of_nat i + 1)) in *.
  pose proof (total_len_nonneg 0 args). pose proof (total_len_nonneg 0 [id]).
  pose proof (holds_create MAX_ARG_SIZE ltac:(unfold MAX_ARG_SIZE; lia)) as Hh0.
  pose proof (holds_nil _ Hh0) as Hr0.
  set (r0 := ringbuffer_create MAX_ARG_SIZE) in *. set (t0 := set_rb (RbLive r0) unborn).
  destruct (save_each_spec fuel args t0 log r0 []) as (r1 & log1 & E1 & Hh1 & Hr1);
    [done | done | done | lia | lia |].
  destruct (save_each_spec fuel [id] (set_rb (RbLive r1) t0) log1 r1 args)
    as (r2 & log2 & E2 & Hh2 & Hr2); [done | done | done | lia | lia |].
  assert (forall t, <[i := t]> ts !! i = Some t) as Hi
    by (intros t; apply list_lookup_insert_eq; by apply lookup_lt_Some in Ht).
  exists (set_rb (RbLive r2) (set_rb (RbLive r1) t0)), r2, log1, log2, (<[i := set_rb (RbLive r1) t0]> ts).
  split.
  - unfold mbnd. rewrite (on_thread_run i _ _ _ unborn tt t0 log) by done.
    rewrite (on_thread_run i _ _ _ t0 _ _ _ (Hi t0) E1). by rewrite list_insert_insert_eq.
  - split; [|split; [done | split; [exact Hh2 | lia]]].
    rewrite (on_thread_run i _ _ _ _ _ _ _ (Hi _) E2). by rewrite list_insert_insert_eq.
Qed.

Lemma create_loop_run pthread_create fuel ids : forall ts log,
  NoDup ids -> (forall i, i ∈ ids -> (i < n)%nat /\ pthread_create i = 0 /\
    passable fuel (arguments i) = true /\ ts !! i = Some unborn) ->
  exists ts' log', create_loop pthread_create fuel args ids (ts, log) = Done tt (ts', log') /\
    length ts' = length ts /\ (forall j, j ∉ ids -> ts' !! j = ts !! j) /\
    rep_in ids (fun _ => Waiting) ts'.
Proof.
  induction ids as [|i ids IH]; intros ts log Hd Hin; cbn [create_loop].
  { exists ts, log. repeat split; try done. all: by apply not_elem_of_nil in H. }
  apply NoDup_cons in Hd as [Hi Hd].
  destruct (Hin i ltac:(left)) as (Hn & Hc & Hp & Ht).
  destruct (start_one fuel i ts log Ht Hp) as (t & r & log1 & log2 & ts1 & E1 & E2 & -> & Hh & Hr).
  set (t1 := set_thread Running (mk_thread NotCreated (RbLive r) 0)).
  destruct (IH (<[i := t1]> ts) log2 Hd) as (ts' & log' & E & Hl & Hother & Hrep).
  { intros j Hj. destruct (Hin j ltac:(by right)) as (? & ? & ? & ?).
    rewrite list_lookup_insert_ne; [done | by intros ->]. }
  exists ts', log'. split; [|split; [by rewrite Hl, length_insert | split]].
  - unfold mbnd in E1 |- *.
    destruct (on_thread i (upd_thread _) (ts, log)) as [a s|e s|s| |]; try done.
    rewrite E1. cbn [negb Z.eqb]. rewrite E2. cbn [negb Z.eqb]. rewrite Hc. cbn [negb Z.eqb].
    erewrite on_thread_run; [| |reflexivity];
      [|apply list_lookup_insert_eq; by apply lookup_lt_Some in Ht].
    rewrite list_insert_insert_eq. exact E.
  - intros j Hj. rewrite Hother by set_solver. apply list_lookup_insert_ne. set_solver.
  - intros j Hj. apply elem_of_cons in Hj as [->|Hj]; [|by apply Hrep].
    split; [done|]. exists t1. rewrite Hother by done.
    split; [apply list_lookup_insert_eq; by apply lookup_lt_Some in Ht|].
    split; [done|]. split; [done|]. by exists r.
Qed.

Lemma core_map_run pthread_create fuel log :
  (forall i, (i < n)%nat -> pthread_create i = 0 /\ passable fuel (arguments i) = true) ->
  exists ts log', core_map pthread_create fuel n args ([], log) = Done tt (ts, log') /\
    length ts = n /\ rep_in (seq 0 n) (fun _ => Waiting) ts.
Proof.
  intros H. unfold core_map, mbnd, modify_st. cbn [fst snd].
  destruct (create_loop_run pthread_create fuel (seq 0 n) (replicate n unborn) log)
    as (ts & log' & E & Hl & _ & Hr).
  - apply NoDup_ListNoDup, seq_NoDup.
  - intros i Hi. apply elem_of_seq in Hi. destruct (H i ltac:(lia)). split; [lia|].
    split; [done|]. split; [done|]. apply lookup_replicate_2. lia.
  - exists ts, log'. split; [exact E|]. rewrite length_replicate in Hl. by split.
Qed.

(** A map that was started, after its threads ran in any order as far as they did. *)
Lemma map_scheduled_run pthread_create fuel log sched :
  (forall i, (i < n)%nat -> pthread_create i = 0 /\ passable fuel (arguments i) = true) ->
  (forall i, i ∈ sched -> (i < n)%nat) ->
  exists ts log1 ts' log', core_map pthread_create fuel n args ([], log) = Done tt (ts, log1) /\
    run_threads sched (ts, log1) = Done tt (ts', log') /\ length ts' = n /\
    rep_in (seq 0 n) (scheduled sched) ts'.
Proof.
  intros H Hs. destruct (core_map_run pthread_create fuel log H) as (ts & log1 & E & Hl & Hr).
  destruct (run_threads_run (seq 0 n) sched (fun _ => Waiting) ts log1)
    as (ts' & log' & E' & Hl' & Hr'); [|done|].
  { intros i Hi. apply elem_of_seq. specialize (Hs i Hi). lia. }
  exists ts, log1, ts', log'. split; [done|]. split; [done|]. split; [congruence|]. exact Hr'.
Qed.
End MapSpec.

(** ** Theorems *)

Section Theorems.
Context `{L : LuaApi} {Lok : LuaApiOk L} `{T : LuaThreads} {Tok : LuaThreadsOk T}.
Context (pthread_create : nat -> Z) (fuel n : nat) (log : list Z) (stack : list lua_value).

(** The threads can be started, and are scheduled at will. *)
Context (args : list lua_value) (sched : list nat).
Hypothesis Hstart : forall i, (i < n)%nat ->
  pthread_create i = 0 /\ passable fuel (arguments args i) = true.
Hypothesis Hsched : forall i, i ∈ sched -> (i < n)%nat.

(** Thread [i] calls [f], in a state [l] that satisfies [P], and the results can be saved. *)
Definition completes (P : nat -> lua_state -> Prop) (f : lua_value) (args : list lua_value)
    (i : nat) (res : pcall_ret) : Prop :=
  exists l l', P i l /\
    lua_pcall l (transported f) (transported <$> arguments args i) = Some (res, l') /\
    passable fuel (values_of res) = true.

(** The results of the threads in their order, or the error of the last one that failed. *)
Definition map_answer {S} (res : nat -> pcall_ret) (ids : list nat) (s : S)
  : outcome S (list lua_value) :=
  answer (fun i => code_of (res i)) (fun i => values_of (res i)) ids s.

Lemma failed_values res (i : nat) : code_of (res i) <> 0 -> values_of (res i) <> [].
Proof. by destruct (res i). Qed.

Lemma live_scheduled ids : List.filter (live (scheduled sched)) ids = ids.
Proof.
  apply List.forallb_filter_id. apply forallb_forall. intros i _. unfold live, scheduled.
  by case_decide.
Qed.

Lemma collects func code out :
  (forall i, (i < n)%nat -> runs_to (func i) (arguments args i) (code i) (out i)) ->
  (forall i, (i < n)%nat -> code i <> 0 -> out i <> []) ->
  exists ts log1 ts' log2 log', core_map pthread_create fuel n args ([], log) = Done tt (ts, log1) /\
    run_threads func sched (ts, log1) = Done tt (ts', log2) /\
    map_join func stack (ts', log2) = answer code out (seq 0 n) ([], log').
Proof.
  intros Hfunc Hout.
  destruct (map_scheduled_run n args func code out Hfunc pthread_create fuel log sched)
    as (ts & log1 & ts' & log2 & E1 & E2 & Hl & Hr); try done.
  destruct (map_join_run n args func code out Hfunc (scheduled sched) stack ts' log2)
    as (log' & E3); try done.
  rewrite live_scheduled in E3. by exists ts, log1, ts', log2, log'.
Qed.

(** C17: [ipc.map(n, f, ...):join()] returns the results of the [n] calls of [f], copied, in the
    order of the threads, in whatever order the threads ran; if some calls failed it raises
    the message of the last of those threads. *)
Theorem map_join_collects f rest res :
  args = f :: rest -> is_function f = true ->
  (forall i, (i < n)%nat -> completes started f rest i (res i)) ->
  exists ts log1 ts' log2 log',
    map_open pthread_create fuel n args ([], log) = Done tt (ts, log1) /\
    run_threads (thread_func fuel) sched (ts, log1) = Done tt (ts', log2) /\
    map_join (thread_func fuel) stack (ts', log2) = map_answer res (seq 0 n) ([], log').
Proof.
  intros Ha Hf Hres.
  destruct (collects (thread_func fuel) (fun i => code_of (res i)) (fun i => values_of (res i)))
    as (ts & log1 & ts' & log2 & log' & E & H); [|auto using failed_values|].
  - intros i Hi. destruct (Hres i Hi) as (l & l' & Hs & E & Hp). rewrite Ha.
    by apply (thread_func_spec fuel i l l' f).
  - exists ts, log1, ts', log2, log'. split; [|exact H]. rewrite <- E, Ha. by destruct f.
Qed.

(** C36: [ipc.map_extended(n, init, f, ...):join()] returns the results of the [n] calls of [f],
    each in the state [init] leaves in its thread, copied, in the order of the threads, whatever
    order the threads ran in; or, when threads failed, it raises the message of the last one. *)
Theorem map_extended_join_collects init f rest res :
  args = init :: f :: rest -> is_function f = true ->
  lua_type init ∈ [LUA_TFUNCTION; LUA_TSTRING; LUA_TNIL] ->
  (forall i, (i < n)%nat -> completes (fun i => initialised i init) f rest i (res i)) ->
  exists ts log1 ts' log2 log',
    map_extended_open pthread_create fuel n args ([], log) = Done tt (ts, log1) /\
    run_threads (thread_extended_func fuel) sched (ts, log1) = Done tt (ts', log2) /\
    map_join (thread_extended_func fuel) stack (ts', log2) = map_answer res (seq 0 n) ([], log').
Proof.
  intros Ha Hf Hinit Hres.
  destruct (collects (thread_extended_func fuel) (fun i => code_of (res i)) (fun i => values_of (res i)))
    as (ts & log1 & ts' & log2 & log' & E & H); [|auto using failed_values|].
  - intros i Hi. destruct (Hres i Hi) as (l & l' & Hs & E & Hp). rewrite Ha.
    by apply (thread_extended_func_spec fuel i l l' init f).
  - exists ts, log1, ts', log2, log'. split; [|exact H]. rewrite <- E, Ha.
    destruct f; try done. by destruct init; try (cbn in Hinit; set_solver).
Qed.

(** C25: [checkErrors] returns while no thread has failed so far; otherwise it raises the message
    of the first one that has, and [join] then answers for the other threads.  But a
    second [checkErrors] joins the reported thread again, which is undefined. *)
Theorem check_errors_reports f rest res :
  args = f :: rest -> is_function f = true ->
  (forall i, (i < n)%nat -> completes started f rest i (res i)) ->
  let func := thread_func fuel in
  let failed i := negb (code_of (res i) =? 0) && bool_decide (i ∈ sched) in
  exists ts log1 ts' log2,
    map_open pthread_create fuel n args ([], log) = Done tt (ts, log1) /\
    run_threads func sched (ts, log1) = Done tt (ts', log2) /\
    match List.filter failed (seq 0 n) with
    | [] => map_check_errors func stack (ts', log2) = Done tt (ts', log2)
    | i :: _ => exists s,
        map_check_errors func stack (ts', log2)
          = Raised (ErrStr (string_of (last (transported <$> values_of (res i))))) s /\
        (exists log', map_join func stack s
          = map_answer res (List.filter (fun j => negb (j =? i)%nat) (seq 0 n)) ([], log')) /\
        map_check_errors func stack s = Undef
    end.
Proof.
  intros Ha Hf Hres func failed. set (code := fun i => code_of (res i)).
  set (out := fun i => values_of (res i)). set (st := scheduled sched).
  assert (forall i, (i < n)%nat -> runs_to (func i) (arguments args i) (code i) (out i)) as Hfunc.
  { intros i Hi. destruct (Hres i Hi) as (l & l' & Hs & E & Hp). rewrite Ha.
    by apply (thread_func_spec fuel i l l' f). }
  destruct (map_scheduled_run n args func code out Hfunc pthread_create fuel log sched)
    as (ts & log1 & ts' & log2 & E1 & E2 & Hl & Hr); try done.
  exists ts, log1, ts', log2. split; [rewrite <- E1, Ha; by destruct f|]. split; [exact E2|].
  assert (forall m lg, length m = n ->
    map_check_errors func stack (m, lg) = check_loop func (seq 0 n) stack (m, lg)) as Hcheck
    by (intros m lg Hm; unfold map_check_errors, mbnd, get_st; cbn [fst]; by rewrite Hm).
  pose proof (check_loop_run n args func code out Hfunc (seq 0 n) st stack ts' log2
    (fun i _ => failed_values res i) Hr) as Hc.
  rewrite (List.filter_ext failed (shown code st))
    by (intros j; unfold failed, shown, failing, st, scheduled, code; case_bool_decide;
        by case_decide).
  rewrite Hcheck by done. destruct (List.filter (shown code st) (seq 0 n)) as [|i js] eqn:Ef; [done|].
  destruct Hc as [Hi Hc]. assert (st i = Ended) as Hst.
  { assert (In i (List.filter (shown code st) (seq 0 n))) as Hin by (rewrite Ef; by left).
    apply filter_In in Hin as [_ [_ Hin]%andb_prop]. unfold st, scheduled in *. by case_decide. }
  rewrite Hst in Hc. destruct Hc as (t & log3 & -> & Ht). exists (<[i := t]> ts', log3).
  pose proof (rep_in_insert n args code out _ _ _ i Gone t Hr Hi Ht) as Hr3.
  assert (length (<[i := t]> ts') = n) as Hl3 by (by rewrite length_insert).
  split; [done|]. split.
  - destruct (map_join_run n args func code out Hfunc _ stack _ log3 Hl3 Hr3) as (log' & E);
      [intros; by apply (failed_values res)|].
    exists log'. rewrite E. unfold map_answer. f_equal. apply List.filter_ext. intros j.
    unfold live, set_stat, scheduled. destruct (Nat.eqb_spec j i) as [->|Hne].
    + by rewrite decide_True.
    + rewrite decide_False by done. by case_decide.
  - pose proof (check_loop_run n args func code out Hfunc (seq 0 n) _ stack _ log3
      (fun i _ => failed_values res i) Hr3) as H3.
    rewrite (List.filter_ext (shown code (set_stat i Gone st)) (shown code st)), Ef in H3.
    + destruct H3 as [_ H3]. unfold set_stat in H3. rewrite decide_True in H3 by done.
      by rewrite Hcheck.
    + intros j. unfold shown, set_stat. destruct (decide (j = i)) as [->|]; [|done]. by rewrite Hst.
Qed.

(** When the [init] of [ipc.map_extended] fails in the threads, its message does not reach
    [join], which raises "(null)": the arguments are still in the buffer, and [join] takes the
    function for the message. *)
Theorem init_error_is_lost init f rest (code : nat -> Z) (m : nat -> list byte) :
  args = init :: f :: rest -> is_function f = true ->
  lua_type init ∈ [LUA_TFUNCTION; LUA_TSTRING; LUA_TNIL] -> (0 < n)%nat ->
  (forall i, (i < n)%nat -> exists l0 l, started i l0 /\
     is_nil (init_function (transported init)) = false /\
     lua_pcall l0 (init_function (transported init)) [] = Some (Failed (code i) (LString (m i)), l) /\
     passable fuel (arguments args i ++ [LString (m i)]) = true) ->
  exists ts log1 ts' log2 log',
    map_extended_open pthread_create fuel n args ([], log) = Done tt (ts, log1) /\
    run_threads (thread_extended_func fuel) sched (ts, log1) = Done tt (ts', log2) /\
    map_join (thread_extended_func fuel) stack (ts', log2) = Raised (ErrStr str_null) ([], log').
Proof.
  intros Ha Hf Hinit Hn Hfail.
  assert (exists b c us, transported f = LFunction b c us) as (b & c & us & Ef)
    by (destruct f; try done; cbn; eauto).
  destruct (collects (thread_extended_func fuel) code
    (fun i => (f :: rest ++ [lua_pushinteger (Z.of_nat i + 1)]) ++ [LString (m i)]))
    as (ts & log1 & ts' & log2 & log' & E & E2 & E3); [|done|].
  - intros i Hi. destruct (Hfail i Hi) as (l0 & l & Hs & Hnil & E & Hp). rewrite Ha in *.
    by apply (thread_extended_init_fails fuel i l0 l init).
  - exists ts, log1, ts', log2, log'. split; [|split; [exact E2|]].
    { rewrite <- E, Ha. destruct f; try done. by destruct init; try (cbn in Hinit; set_solver). }
    rewrite E3. unfold answer. rewrite (List.forallb_filter_id _ (seq 0 n)).
    + destruct n as [|n']; [lia|]. rewrite seq_S, last_snoc. unfold message. cbn.
      by rewrite Ef, lua_tolstring_function.
    + apply forallb_forall. intros i [_ Hi]%in_seq.
      destruct (Hfail i Hi) as (l0 & l & _ & _ & Hc & _). apply lua_pcall_code in Hc.
      unfold failing. by rewrite (proj2 (Z.eqb_neq _ _)).
Qed.
End Theorems.

(** *** Without an initialiser *)

Section NoInit.
Context `{L : LuaApi} {Lok : LuaApiOk L} `{T : LuaThreads} {Tok : LuaThreadsOk T}.

Lemma reply_of_answer {S} code out ids (s s' : S) :
  reply_of (answer code out ids s) = reply_of (answer code out ids s').
Proof. unfold answer. by destruct (last _). Qed.

Lemma answer_settles {S} code out ids (s : S) :
  reply_of (answer code out ids s) ∉ [Sleeps; Fails].
Proof. unfold answer. destruct (last _); set_solver. Qed.

Lemma initialised_nil i l : started i l -> initialised i LNil l.
Proof. by exists l. Qed.

(** C20: [ipc.map_extended(n, nil, f, ...)] is [ipc.map(n, f, ...)]: started with the same
    arguments, each scheduled in any way, the two [join]s give the same results or raise the
    same error. *)
Theorem map_extended_nil_is_map pthread_create fuel n log f rest res sched sched' stack stack' :
  is_function f = true ->
  (forall i, (i < n)%nat -> pthread_create i = 0 /\
     passable fuel (arguments (f :: rest) i) = true /\
     passable fuel (arguments (LNil :: f :: rest) i) = true) ->
  (forall i, i ∈ sched ++ sched' -> (i < n)%nat) ->
  (forall i, (i < n)%nat -> completes fuel started f rest i (res i)) ->
  exists m1 m2 m1' m2' r,
    map_open pthread_create fuel n (f :: rest) ([], log) = Done tt m1 /\
    map_extended_open pthread_create fuel n (LNil :: f :: rest) ([], log) = Done tt m2 /\
    run_threads (thread_func fuel) sched m1 = Done tt m1' /\
    run_threads (thread_extended_func fuel) sched' m2 = Done tt m2' /\
    reply_of (map_join (thread_func fuel) stack m1') = r /\
    reply_of (map_join (thread_extended_func fuel) stack' m2') = r /\ r ∉ [Sleeps; Fails].
Proof.
  intros Hf Hstart Hsched Hres.
  destruct (collects pthread_create fuel n log stack (f :: rest) sched) with
    (func := thread_func fuel) (code := fun i => code_of (res i))
    (out := fun i => values_of (res i)) as (ts & lg & ts' & lg' & log1 & E1 & R1 & J1).
  { intros i Hi. by destruct (Hstart i Hi) as (? & ? & _). }
  { intros i Hi. apply Hsched. set_solver. }
  { intros i Hi. destruct (Hres i Hi) as (l & l' & Hs & E & Hp).
    by apply (thread_func_spec fuel i l l' f). }
  { auto using failed_values. }
  destruct (collects pthread_create fuel n log stack' (LNil :: f :: rest) sched') with
    (func := thread_extended_func fuel) (code := fun i => code_of (res i))
    (out := fun i => values_of (res i)) as (us & ug & us' & ug' & log2 & E2 & R2 & J2).
  { intros i Hi. by destruct (Hstart i Hi) as (? & _ & ?). }
  { intros i Hi. apply Hsched. set_solver. }
  { intros i Hi. destruct (Hres i Hi) as (l & l' & Hs & E & Hp).
    apply (thread_extended_func_spec fuel i l l' LNil f); auto using initialised_nil. }
  { auto using failed_values. }
  eexists (ts, lg), (us, ug), (ts', lg'), (us', ug'), _.
  split; [by destruct f|]. split; [by destruct f|]. split; [exact R1|]. split; [exact R2|].
  split; [reflexivity|]. rewrite J1, J2.
  split; [apply reply_of_answer | apply answer_settles].
Qed.
End NoInit.

(** *** A result that cannot be saved *)

Section Unsaveable.
Context `{L : LuaApi} {Lok : LuaApiOk L} `{T : LuaThreads} {Tok : LuaThreadsOk T}.

Lemma save_each_refused fuel bad vs t log r items :
  (0 < fuel)%nat -> refused bad = true -> rb t = RbLive r -> holds r items ->
  exists r', save_each fuel (bad :: vs) (t, log) = Done (- EPERM) (set_rb (RbLive r') t, log) /\
    holds r' items.
Proof.
  intros Hf Hb Hr Hh. destruct fuel as [|fuel]; [lia|]. exists (ringbuffer_push_write_pos r). split.
  - cbn [save_each]. unfold mbnd, on_rb, zoom. cbn [fst snd]. rewrite Hr. by destruct bad.
  - eapply holds_same; [exact Hh | | done]. apply push_ok. by eapply holds_ring.
Qed.

(** When a thread returns a coroutine (or a light userdata) first, [join] neither returns
    nor raises the error of the thread: it reads its message from stack index 0, which is undefined. *)
Theorem unsaveable_result_undefined pthread_create fuel f rest sched stack log l l' bad vs :
  (0 < fuel)%nat -> is_function f = true -> refused bad = true ->
  pthread_create 0%nat = 0 -> passable fuel (arguments (f :: rest) 0) = true ->
  (forall i, i ∈ sched -> i = 0%nat) -> started 0 l ->
  lua_pcall l (transported f) (transported <$> arguments rest 0) = Some (Returned (bad :: vs), l') ->
  exists ts log1 ts' log2,
    map_open pthread_create fuel 1 (f :: rest) ([], log) = Done tt (ts, log1) /\
    run_threads (thread_func fuel) sched (ts, log1) = Done tt (ts', log2) /\
    map_join (thread_func fuel) stack (ts', log2) = Undef.
Proof.
  intros Hfuel Hf Hb Hc Hp Hs Hst E.
  assert (forall i, (i < 1)%nat ->
    runs_to (thread_func fuel i) (arguments (f :: rest) i) (- EPERM) []) as Hfunc.
  { intros i Hi t lg r Hr Hh _. replace i with 0%nat in * by lia.
    unfold thread_func, mbnd. rewrite (start_thread_run 0 l) by done.
    destruct (core_thread_run l l' f (arguments rest 0) _ (set_ret 0 t) lg r Hr Hh E)
      as (r1 & E1 & Hh1).
    rewrite E1. cbn [values_of code_of].
    destruct (save_each_refused fuel bad vs (set_ret 0 (set_rb (RbLive r1) (set_ret 0 t))) lg r1 [])
      as (r2 & E2 & Hh2); [done..|].
    exists r2, lg. split; [|exact Hh2]. unfold end_thread, mbnd, unprotected. by rewrite E2. }
  destruct (map_scheduled_run 1 (f :: rest) _ _ _ Hfunc pthread_create fuel log sched)
    as (ts & log1 & ts' & log2 & E1 & E2 & Hl & Hr).
  { intros i Hi. by replace i with 0%nat by lia. } { intros i Hi. rewrite (Hs i Hi). lia. }
  exists ts, log1, ts', log2. split; [rewrite <- E1; by destruct f|]. split; [exact E2|].
  destruct (join_loop_run 1 _ _ _ _ Hfunc (seq 0 1) (scheduled sched) stack 0 (-1) ts' log2)
    as (ts3 & log3 & E3); [apply NoDup_ListNoDup, seq_NoDup | done |].
  unfold map_join, mbnd at 1, get_st. cbn [fst]. rewrite Hl. unfold mbnd at 1. rewrite E3.
  rewrite live_scheduled. reflexivity.
Qed.
End Unsaveable.

(** ** Concrete runs *)

Module RefThreads.

(** A state is the number of its thread, counted from [first].  A chunk is a C function that
    knows its source; of the bytecodes, [01] returns its arguments and any other fails in
    thread 1 and returns a coroutine in thread 2. *)
Definition boom : pcall_ret := Failed 2 (LString (str "boom")).

Definition call (l : nat) (f : lua_value) (args : list lua_value) : option (pcall_ret * nat) :=
  Some (match f with
        | LFunction false src _ => if bool_decide (src = str_require) then Returned [] else boom
        | LFunction true code _ =>
            if bool_decide (code = [Byte.x01]) then Returned args
            else if (l =? 1)%nat then boom
            else if (l =? 2)%nat then Returned [LThread] else Returned []
        | _ => Failed 2 (LString (str "attempt to call"))
        end, l).

Definition threads (first : nat) : LuaThreads := {|
  lua_state := nat;
  luaL_newstate i := (first + i)%nat;
  luaL_loadstring s := LFunction false s [];
  lua_pcall := call;
  lua_tolstring v := match v with LString s => Some s | _ => None end;
|}.

#[export] Instance threads_ok first : LuaThreadsOk (threads first).
Proof.
  split; [done | done|]. intros l f args code e l'. cbn. unfold call, boom. intros E.
  injection E as E _. destruct f as [| | | | | | | |[] c ups| |]; try (injection E as <-; done);
    repeat case_match; try done; injection E as <-; done.
Qed.
End RefThreads.

Section Runs.
#[local] Existing Instance RefLua.api_ok.
#[local] Instance lua53 : LuaApi := RefLua.api 503 false.
#[local] Instance threads : LuaThreads := RefThreads.threads 0.
#[local] Instance threads_ok : LuaThreadsOk threads := RefThreads.threads_ok 0.

Definition echo : lua_value := LFunction true [Byte.x01] [].
Definition fails_in_one : lua_value := LFunction true [Byte.x02; Byte.x00] [(str_ENV, LGlobals)].

Lemma map_join_collects_witness :
  exists ts log1 ts' log2 log',
    map_open (fun _ => 0) 100 2 [echo; LBoolean true] ([], []) = Done tt (ts, log1) /\
    run_threads (thread_func 100) [1%nat] (ts, log1) = Done tt (ts', log2) /\
    map_join (thread_func 100) [LNil] (ts', log2)
      = Done [LBoolean true; LInteger 1; LBoolean true; LInteger 2] ([], log').
Proof.
  apply (map_join_collects (fun _ => 0) 100 2 [] [LNil] [echo; LBoolean true] [1%nat])
    with (f := echo) (rest := [LBoolean true])
         (res := fun i => Returned [LBoolean true; LInteger (Z.of_nat i + 1)]).
  - intros [|[|i]] Hi; [split; [done | vm_compute; reflexivity]..|lia].
  - intros i Hi. apply list_elem_of_singleton in Hi. lia.
  - reflexivity.
  - reflexivity.
  - intros [|[|i]] Hi; [| |lia]; eexists _, _; (split; [by eexists|]);
      (split; [reflexivity | vm_compute; reflexivity]).
Defined.

Lemma map_extended_join_collects_witness :
  exists ts log1 ts' log2 log',
    map_extended_open (fun _ => 0) 100 2 [LNil; echo; LBoolean true] ([], []) = Done tt (ts, log1) /\
    run_threads (thread_extended_func 100) [1%nat; 0%nat] (ts, log1) = Done tt (ts', log2) /\
    map_join (thread_extended_func 100) [] (ts', log2)
      = Done [LBoolean true; LInteger 1; LBoolean true; LInteger 2] ([], log').
Proof.
  apply (map_extended_join_collects (fun _ => 0) 100 2 [] [] [LNil; echo; LBoolean true]
    [1%nat; 0%nat]) with (init := LNil) (f := echo) (rest := [LBoolean true])
         (res := fun i => Returned [LBoolean true; LInteger (Z.of_nat i + 1)]).
  - intros [|[|i]] Hi; [split; [done | vm_compute; reflexivity]..|lia].
  - intros i Hi. set_solver by lia.
  - reflexivity.
  - reflexivity.
  - cbn. set_solver.
  - intros [|[|i]] Hi; [| |lia]; eexists _, _; (split; [by eexists _; split; [by eexists|]|]);
      (split; [reflexivity | vm_compute; reflexivity]).
Defined.

Lemma map_extended_nil_is_map_witness :
  exists m1 m2 m1' m2' r,
    map_open (fun _ => 0) 100 2 [fails_in_one] ([], []) = Done tt m1 /\
    map_extended_open (fun _ => 0) 100 2 [LNil; fails_in_one] ([], []) = Done tt m2 /\
    run_threads (thread_func 100) [1%nat] m1 = Done tt m1' /\
    run_threads (thread_extended_func 100) [] m2 = Done tt m2' /\
    reply_of (map_join (thread_func 100) [] m1') = r /\
    reply_of (map_join (thread_extended_func 100) [] m2') = r /\ r ∉ [Sleeps; Fails].
Proof.
  apply (map_extended_nil_is_map (fun _ => 0) 100 2 [] fails_in_one []
    (fun i => if (i =? 1)%nat then RefThreads.boom else Returned []) [1%nat] [] [] []).
  - reflexivity.
  - intros [|[|i]] Hi; [split; [done|]; split; vm_compute; reflexivity..|lia].
  - intros i Hi. set_solver by lia.
  - intros [|[|i]] Hi; [| |lia]; eexists _, _; (split; [by eexists|]);
      (split; [vm_compute; reflexivity | vm_compute; reflexivity]).
Defined.

Lemma check_errors_reports_witness :
  exists ts log1 ts' log2,
    map_open (fun _ => 0) 100 2 [fails_in_one] ([], []) = Done tt (ts, log1) /\
    run_threads (thread_func 100) [1%nat] (ts, log1) = Done tt (ts', log2) /\
    exists s, map_check_errors (thread_func 100) [] (ts', log2) = Raised (ErrStr (str "boom")) s /\
      (exists log', map_join (thread_func 100) [] s = Done [] ([], log')) /\
      map_check_errors (thread_func 100) [] s = Undef.
Proof.
  destruct (check_errors_reports (fun _ => 0) 100 2 ([] : list Z) [] [fails_in_one] [1%nat])
    with (f := fails_in_one) (rest := ([] : list lua_value))
         (res := fun i => if (i =? 1)%nat then RefThreads.boom else Returned [])
    as (ts & log1 & ts' & log2 & E1 & E2 & H).
  - intros [|[|i]] Hi; [split; [done | vm_compute; reflexivity]..|lia].
  - intros i Hi. apply list_elem_of_singleton in Hi. lia.
  - reflexivity.
  - reflexivity.
  - intros [|[|i]] Hi; [| |lia]; eexists _, _; (split; [by eexists|]);
      (split; [vm_compute; reflexivity | vm_compute; reflexivity]).
  - replace (List.filter _ (seq 0 2)) with [1%nat] in H by (vm_compute; reflexivity).
    exists ts, log1, ts', log2. split; [exact E1|]. split; [exact E2|]. exact H.
Defined.

Lemma init_error_is_lost_witness :
  exists ts log1 ts' log2 log',
    map_extended_open (fun _ => 0) 200 1 [LString (str "error()"); echo] ([], []) = Done tt (ts, log1) /\
    run_threads (thread_extended_func 200) [] (ts, log1) = Done tt (ts', log2) /\
    map_join (thread_extended_func 200) [] (ts', log2) = Raised (ErrStr str_null) ([], log').
Proof.
  apply (init_error_is_lost (fun _ => 0) 200 1 [] [] [LString (str "error()"); echo] [])
    with (init := LString (str "error()")) (f := echo) (rest := [])
         (code := fun _ => 2) (m := fun _ => str "boom").
  - intros [|i] Hi; [split; [done | vm_compute; reflexivity]|lia].
  - intros i Hi. by apply not_elem_of_nil in Hi.
  - reflexivity.
  - reflexivity.
  - cbn. set_solver.
  - lia.
  - intros [|i] Hi; [|lia]. eexists _, _. split; [by eexists|]. split; [done|].
    split; [reflexivity | vm_compute; reflexivity].
Defined.

Lemma unsaveable_result_undefined_witness :
  let func := thread_func (T := RefThreads.threads 2) 100 in
  exists ts log1 ts' log2,
    map_open (fun _ => 0) 100 1 [fails_in_one] ([], []) = Done tt (ts, log1) /\
    run_threads func [0%nat] (ts, log1) = Done tt (ts', log2) /\
    map_join (T := RefThreads.threads 2) func [] (ts', log2) = Undef.
Proof.
  apply (unsaveable_result_undefined (T := RefThreads.threads 2)
    (Tok := RefThreads.threads_ok 2) (fun _ => 0) 100 fails_in_one [] [0%nat] [] []
    2%nat 2%nat LThread ([] : list lua_value)).
  - lia.
  - reflexivity.
  - reflexivity.
  - reflexivity.
  - vm_compute. reflexivity.
  - intros i Hi. by apply list_elem_of_singleton in Hi.
  - by eexists.
  - vm_compute. reflexivity.
Defined.
End Runs.
