(* ===== verification/Spawn.v ===== *)
(** * Child processes with pipes ([src/spawn.c]).

    The parent keeps the write end of the child's standard input and the read end of its
    standard output.  The system calls and [posix_spawnp] are the operating system's: class
    [Spawns], with what POSIX documents of them in [SpawnsOk]; [RefSpawn] is a system
    to run on. *)
From S2P Require Import Prelude Lua.

#[local] Open Scope ipc_scope.

(** ** The system *)

(** What a descriptor designates: an end of a pipe, or some other file. *)
Inductive file := PRead (p : Z) | PWrite (p : Z) | Other (f : Z).
Abbreviation table := (gmap Z file).

(** A [posix_spawn_file_actions_t] is the list of its actions. *)
Inductive action := Dup2 (fd newfd : Z) | Close (fd : Z).

(** What the child does with the descriptors it inherits. *)
Definition apply_action (t : table) (a : action) : table :=
  match a with
  | Dup2 fd newfd => match t !! fd with Some e => <[newfd := e]> t | None => t end
  | Close fd => delete fd t
  end.
Definition apply_actions (acts : list action) (t : table) : table := foldl apply_action t acts.

(** A wait status, and the macros on it (Linux: the exit status of a process that was
    killed reads as 0). *)
Inductive wstatus := WExited (code : Z) | WSignaled (sig : Z) | WStopped | WContinued.
Definition WIFEXITED (s : wstatus) : bool := match s with WExited _ => true | _ => false end.
Definition WIFSIGNALED (s : wstatus) : bool := match s with WSignaled _ => true | _ => false end.
Definition WEXITSTATUS (s : wstatus) : Z := match s with WExited c => c mod 256 | _ => 0 end.

Definition SIGKILL : Z := 9.
Definition SIGTERM : Z := 15.

Class Spawns := {
  kernel : Type;
  (** [pipe]: the two ends, or -1. *)
  sys_pipe : kernel -> option (Z * Z) * kernel;
  sys_close : Z -> kernel -> Z * kernel;
  (** [posix_spawn_file_actions_init], [..._adddup2] and [..._addclose],
      [posix_spawnattr_init]: 0 or an error. *)
  file_actions_init : kernel -> Z;
  file_actions_add : action -> kernel -> Z;
  spawnattr_init : kernel -> Z;
  (** [posix_spawnp(file, actions, argv, envp)]; no [envp] is the parent's environment.
      The pid, or the error it returns. *)
  sys_spawnp : list byte -> list action -> list (list byte) -> option (list (list byte)) ->
    kernel -> (Z + Z) * kernel;
  sys_kill : Z -> Z -> kernel -> Z * kernel;
  (** [read], [write] and [waitpid]: [None] while the caller sleeps. *)
  sys_read : Z -> Z -> kernel -> option (Z * list byte * kernel);
  sys_write : Z -> list byte -> kernel -> option (Z * kernel);
  (** A status, or [errno]. *)
  sys_waitpid : Z -> kernel -> option ((wstatus + Z) * kernel);
  (** [waitid] with [WNOHANG | WNOWAIT]: [si_pid], or [errno]. *)
  sys_waitid : Z -> kernel -> Z + Z;
  sys_errno : kernel -> Z;
}.

(** The descriptors of the process and of its children; the bytes a descriptor will still
    deliver before the end of its file, and those written to it so far. *)
Class SpawnsOk (S : Spawns) := {
  fds : kernel -> table;
  child_fds : kernel -> Z -> option table;
  stream : kernel -> Z -> list byte;
  written : kernel -> Z -> list byte;
  pipe_ok k r w k' : sys_pipe k = (Some (r, w), k') ->
    r <> w /\ fds k !! r = None /\ fds k !! w = None /\
    (exists p, fds k' = <[w := PWrite p]> (<[r := PRead p]> (fds k)) /\
      forall fd e, fds k !! fd = Some e -> e <> PRead p /\ e <> PWrite p) /\
    child_fds k' = child_fds k;
  pipe_error k k' : sys_pipe k = (None, k') -> fds k' = fds k;
  (** The descriptor is released in any case. *)
  close_ok fd k : fds (sys_close fd k).2 = delete fd (fds k) /\
    child_fds (sys_close fd k).2 = child_fds k;
  spawn_ok f acts argv envp k pid k' : sys_spawnp f acts argv envp k = (inl pid, k') ->
    fds k' = fds k /\
    forall c, child_fds k' c = if decide (c = pid) then Some (apply_actions acts (fds k))
                               else child_fds k c;
  spawn_error f acts argv envp k e k' : sys_spawnp f acts argv envp k = (inr e, k') ->
    fds k' = fds k /\ e <> 0;
  kill_ok pid sig k : fds (sys_kill pid sig k).2 = fds k;
  wait_ok pid k r k' : sys_waitpid pid k = Some (r, k') -> fds k' = fds k;
  read_moves k fd n : 0 < n -> is_Some (fds k !! fd) -> stream k fd <> [] ->
    exists r k', sys_read fd n k = Some (r, ztake r (stream k fd), k') /\
      0 < r <= n /\ r <= zlen (stream k fd) /\ stream k' fd = zdrop r (stream k fd) /\
      fds k' = fds k;
  read_ends k fd n : 0 < n -> is_Some (fds k !! fd) -> stream k fd = [] ->
    exists k', sys_read fd n k = Some (0, [], k') /\ stream k' fd = [] /\ fds k' = fds k;
  write_moves k fd bs : is_Some (fds k !! fd) -> bs <> [] ->
    exists r k', sys_write fd bs k = Some (r, k') /\ 0 < r <= zlen bs /\
      written k' fd = written k fd ++ ztake r bs /\ fds k' = fds k;
}.

(** ** The object *)

(** [fd[i][j]] is element [2 * i + j]. *)
Record spawn_t := mk_spawn { pid : Z; fd : list Z; file_actions : list action }.

Definition set_pid (x : Z) (p : spawn_t) : spawn_t := mk_spawn x (fd p) (file_actions p).
Definition set_fd (x : nat) (v : Z) (p : spawn_t) : spawn_t :=
  mk_spawn (pid p) (<[x := v]> (fd p)) (file_actions p).
Definition add_action (a : action) (p : spawn_t) : spawn_t :=
  mk_spawn (pid p) (fd p) (file_actions p ++ [a]).
Definition fd_at (x : nat) (p : spawn_t) : Z := default 0 (fd p !! x).

(** The ends the parent keeps: [fd[0][1]] and [fd[1][0]]. *)
Abbreviation STDIN := 1%nat.
Abbreviation STDOUT := 2%nat.

Definition str_single_table : list byte := str "expected a single table argument".
Definition str_file : list byte := str "file: expected a string".
Definition str_args : list byte := str "args: expected a table, or nil".
Definition str_closed : list byte := str "spawn was already closed".
Definition str_signal : list byte := str "unknown signal".

(** A field of the argument that lists strings: absent, a table by its elements, or a value
    of another type. *)
Inductive field := NoField | Elements (vs : list lua_value) | NotTable.
Definition elements (f : field) : list lua_value := match f with Elements vs => vs | _ => [] end.

Section Spawn.
Context `{S : Spawns} (lua_tostring : lua_value -> option (list byte)).

(** The object under construction, or its content, and the system. *)
Definition sp : Type := spawn_t * kernel.
Definition upd_spawn (f : spawn_t -> spawn_t) : M sp unit := modify_st (fun s => (f s.1, s.2)).
Definition close_fd (d : Z) : M sp Z := fun s =>
  let '(ret, k') := sys_close d s.2 in Done ret (s.1, k').
Definition errno_error {A} : M sp A := fun s => Raised (ErrCode (sys_errno s.2)) s.

Fixpoint close_ends (xs : list nat) : M sp unit :=
  match xs with
  | [] => mret tt
  | x :: xs' =>
      let! s := get_st in
      (if negb (fd_at x s.1 =? 0) then
         close_fd (fd_at x s.1) ;;; upd_spawn (set_fd x 0)
       else mret tt) ;;;
      close_ends xs'
  end.

(** The object is freed by the caller's dropping it. *)
Definition spawn_destroy : M sp unit := close_ends [0; 1; 2; 3]%nat.

(** [if (ret) { spawn_destroy(spawn); return LUA_HANDLE_ERROR(L, errno); }] *)
Definition check_ret (ret : Z) : M sp unit :=
  if negb (ret =? 0) then spawn_destroy ;;; errno_error else mret tt.

Definition add_file_action (a : action) : M sp unit :=
  let! s := get_st in
  check_ret (file_actions_add a s.2) ;;;
  upd_spawn (add_action a).

(** Iteration [i] of the loop that makes the pipes. *)
Definition make_pipe (i : nat) : M sp unit :=
  (fun s => match sys_pipe s.2 with
            | (Some (r, w), k') => Done tt (set_fd (2 * i + 1) w (set_fd (2 * i) r s.1), k')
            | (None, k') => check_ret (-1) (s.1, k')
            end) ;;;
  let! s := get_st in
  let rw := if (i =? 0)%nat then 0%nat else 1%nat in
  let nrw := if (i =? 0)%nat then 1%nat else 0%nat in
  add_file_action (Dup2 (fd_at (2 * i + rw) s.1) (Z.of_nat i)) ;;;
  add_file_action (Close (fd_at (2 * i + rw) s.1)) ;;;
  add_file_action (Close (fd_at (2 * i + nrw) s.1)).

(** The strings up to the first NULL, which ends [argv] and [envp]; C reads a string up to
    its first NUL. *)
Fixpoint c_array (l : list (option (list byte))) : list (list byte) :=
  match l with Some s :: l' => cstr s :: c_array l' | _ => [] end.

(** Closes an end the child has, once it has it. *)
Definition close_end (x : nat) : M sp unit :=
  let! s := get_st in
  let! ret := close_fd (fd_at x s.1) in
  check_ret ret ;;;
  upd_spawn (set_fd x 0).

Definition spawn_process (name : list byte) (argv : list (list byte))
    (envp : option (list (list byte))) : M sp unit := fun s =>
  match sys_spawnp name (file_actions s.1) argv envp s.2 with
  | (inl p, k') => Done tt (set_pid p s.1, k')
  | (inr e, k') => check_ret e (s.1, k')
  end.

(** From [calloc] on: the object is the one made there. *)
Definition spawn_start (name : list byte) (argv : list (list byte))
    (envp : option (list (list byte))) : M sp unit :=
  let! s := get_st in
  check_ret (file_actions_init s.2) ;;;
  make_pipe 0 ;;;
  make_pipe 1 ;;;
  let! s := get_st in
  check_ret (spawnattr_init s.2) ;;;
  spawn_process name argv envp ;;;
  close_end 0 ;;;
  close_end 3.

(** The three fields of the table. *)
Definition spawn_open (file : lua_value) (args env : field) : M sp unit :=
  match file, args, env with
  | LString file, (NoField | Elements _), (NoField | Elements _) =>
      spawn_start (cstr file)
        (c_array (Some file :: map lua_tostring (elements args)))
        (match elements env with [] => None | vs => Some (c_array (map lua_tostring vs)) end)
  | LString _, NotTable, _ => raise (ErrStr str_args)
  | LString _, _, NotTable => undef
  | _, _, _ => raise (ErrStr str_file)
  end.

(** ** Methods *)

(** The pointer in the userdata, and the system. *)
Definition usp : Type := option spawn_t * kernel.
Definition with_spawn {A} (m : M sp A) : M usp A := fun s =>
  match s.1 with
  | None => Raised (ErrStr str_closed) s
  | Some p => zoom (fun _ => (p, s.2)) (fun x _ => (Some x.1, x.2)) m s
  end.

Definition do_kill (sig : Z) : M sp unit := fun s =>
  let '(ret, k') := sys_kill (pid s.1) sig s.2 in
  if negb (ret =? 0) then errno_error (s.1, k') else Done tt (s.1, k').

(** [read] at [pos] of a buffer. *)
Definition read_into (d : Z) (buff : list cell) (pos n : Z) : M sp (Z * list cell) := fun s =>
  match sys_read d n s.2 with
  | None => Blocked s
  | Some (x, bs, k') =>
      if x <? 0 then errno_error (s.1, k') else
      match memcpy buff pos (Some <$> bs) 0 x with
      | Some buff' => Done (x, buff') (s.1, k')
      | None => Undef
      end
  end.

Fixpoint drain_stdout (fuel : nat) : M sp unit :=
  match fuel with
  | O => out_of_fuel
  | Datatypes.S fuel' =>
      let! s := get_st in
      let! (x, _) := read_into (fd_at STDOUT s.1) (uninit 1024) 0 1024 in
      if x =? 0 then mret tt else drain_stdout fuel'
  end.

Fixpoint wait_exit (fuel : nat) : M sp wstatus :=
  match fuel with
  | O => out_of_fuel
  | Datatypes.S fuel' => fun s =>
      match sys_waitpid (pid s.1) s.2 with
      | None => Blocked s
      | Some (inr e, k') => Raised (ErrCode e) (s.1, k')
      | Some (inl st, k') =>
          if negb (WIFEXITED st) && negb (WIFSIGNALED st) then wait_exit fuel' (s.1, k')
          else Done st (s.1, k')
      end
  end.

(** [ipc.waitpid] of ipc.c: the exit code, or nothing for a process that was killed. *)
Fixpoint ipc_waitpid (fuel : nat) (c : Z) : M kernel (option Z) :=
  match fuel with
  | O => out_of_fuel
  | Datatypes.S fuel' => fun k =>
      match sys_waitpid c k with
      | None => Blocked k
      | Some (inr e, k') => Raised (ErrCode e) k'
      | Some (inl st, k') =>
          if WIFEXITED st then Done (Some (WEXITSTATUS st)) k'
          else if negb (WIFEXITED st) && negb (WIFSIGNALED st) then ipc_waitpid fuel' c k'
          else Done None k'
      end
  end.

Definition signal_of (name : list byte) : option Z :=
  if bool_decide (cstr name = str "KILL") then Some SIGKILL
  else if bool_decide (cstr name = str "TERM") then Some SIGTERM
  else None.

(** The optional signal to the child. *)
Definition send_signal (signame : option (list byte)) : M sp unit :=
  match signame with
  | None => mret tt
  | Some name =>
      match signal_of name with
      | Some which => do_kill which
      | None => raise (ErrStr str_signal)
      end
  end.

(** Closing the child's input, if it is not closed. *)
Definition close_stdin : M sp unit :=
  let! s := get_st in
  if negb (fd_at STDIN s.1 =? 0) then
    let! ret := close_fd (fd_at STDIN s.1) in
    (if negb (ret =? 0) then errno_error else mret tt) ;;;
    upd_spawn (set_fd STDIN 0)
  else mret tt.

(** After a signal the output is not looked at. *)
Definition finish_stdout (fuel : nat) (signame : option (list byte)) : M sp unit :=
  match signame with
  | Some _ =>
      let! s := get_st in
      close_fd (fd_at STDOUT s.1) ;;;
      upd_spawn (set_fd STDOUT 0)
  | None => drain_stdout fuel
  end.

Definition spawn_wait (fuel : nat) (signame : option (list byte)) : M usp Z :=
  with_spawn (send_signal signame) ;;;
  with_spawn close_stdin ;;;
  with_spawn (finish_stdout fuel signame) ;;;
  let! st := with_spawn (wait_exit fuel) in
  with_spawn spawn_destroy ;;;
  modify_st (fun s => (None, s.2)) ;;;
  mret (WEXITSTATUS st).

Fixpoint write_all (fuel : nat) (bs : list byte) : M sp unit :=
  match bs with
  | [] => mret tt
  | _ =>
      match fuel with
      | O => out_of_fuel
      | Datatypes.S fuel' => fun s =>
          match sys_write (fd_at STDIN s.1) bs s.2 with
          | None => Blocked s
          | Some (x, k') =>
              if x <? 0 then errno_error (s.1, k') else
              if zlen bs <? x then Undef else
              write_all fuel' (zdrop x bs) (s.1, k')
          end
      end
  end.

(** [arg]: what there is to write, if anything was given. *)
Definition spawn_stdin (fuel : nat) (arg : option lua_value) : M usp unit :=
  with_spawn (
    match arg with
    | None =>
        let! s := get_st in
        let! ret := close_fd (fd_at STDIN s.1) in
        (if negb (ret =? 0) then errno_error else mret tt) ;;;
        upd_spawn (set_fd STDIN 0)
    | Some v =>
        match lua_tostring v with Some s => write_all fuel s | None => mret tt end
    end).

(** The first [cb] bytes of the buffer. *)
Definition pushlstring (buff : list cell) (cb : Z) : M sp (option (list byte)) :=
  let! bs := of_opt (if cb <=? zlen buff then mapM id (ztake cb buff) else None) in
  mret (Some bs).

Definition end_of_file (buff : list cell) (cb : Z) : M sp (option (list byte)) :=
  if 0 <? cb then pushlstring buff cb else mret None.

(** [realloc], the new bytes unwritten. *)
Definition grow_buffer (buff : list cell) (cb max_cb : Z) : list cell * Z :=
  if cb + 1 =? max_cb then (buff ++ uninit 1024, max_cb + 1024) else (buff, max_cb).

Definition newline : byte := Byte.x0a.

Fixpoint read_line (fuel : nat) (buff : list cell) (cb max_cb : Z) : M sp (option (list byte)) :=
  match fuel with
  | O => out_of_fuel
  | Datatypes.S fuel' =>
      let! s := get_st in
      let! (x, buff) := read_into (fd_at STDOUT s.1) buff cb 1 in
      if x =? 0 then end_of_file buff cb else
      let! c := of_opt (mjoin (nthz buff cb)) in
      if bool_decide (c = newline) then pushlstring buff cb else
      let cb := cb + 1 in
      let '(buff, max_cb) := grow_buffer buff cb max_cb in
      read_line fuel' buff cb max_cb
  end.

Fixpoint read_all (fuel : nat) (buff : list cell) (cb max_cb : Z) : M sp (option (list byte)) :=
  match fuel with
  | O => out_of_fuel
  | Datatypes.S fuel' =>
      let! s := get_st in
      let! (x, buff) := read_into (fd_at STDOUT s.1) buff cb (max_cb - cb - 1) in
      if x =? 0 then end_of_file buff cb else
      let cb := cb + x in
      let '(buff, max_cb) := grow_buffer buff cb max_cb in
      read_all fuel' buff cb max_cb
  end.

(** The argument: a number of bytes, or a format, ["*l"] when there is none. *)
Inductive amount := Bytes (cb : Z) | Format (fmt : list byte).

Definition is_line (fmt : list byte) : bool := bool_decide (ztake 2 (cstr fmt) = str "*l").

Definition spawn_stdout (fuel : nat) (what : amount) : M usp (option (list byte)) :=
  with_spawn (
    match what with
    | Bytes cb =>
        let! s := get_st in
        let! (n, buff) := read_into (fd_at STDOUT s.1) (uninit (cb + 1)) 0 cb in
        if 0 <? n then pushlstring buff n else mret None
    | Format fmt =>
        if is_line fmt then read_line fuel (uninit 1024) 0 1024
        else read_all fuel (uninit 1024) 0 1024
    end).

Definition spawn_stdout_file_id : M usp Z :=
  with_spawn (let! s := get_st in mret (fd_at STDOUT s.1)).
Definition spawn_pid : M usp Z := with_spawn (let! s := get_st in mret (pid s.1)).

Definition spawn_running : M usp bool :=
  with_spawn (fun s =>
    match sys_waitid (pid s.1) s.2 with
    | inl si_pid => Done (si_pid =? 0) s
    | inr e => Raised (ErrCode e) s
    end).

Definition spawn_gc (fuel : nat) : M usp unit := fun s =>
  match s.1 with
  | None => Done tt s
  | Some _ => (with_spawn (do_kill SIGTERM) ;;; spawn_wait fuel None ;;; mret tt) s
  end.
End Spawn.

(** ** Starting a child *)

Definition new_spawn : spawn_t := mk_spawn 0 [0; 0; 0; 0] [].

Section OpenSpec.
Context `{S : Spawns} {Sok : SpawnsOk S} (lua_tostring : lua_value -> option (list byte)).

(** The table without the descriptors of the object (0 stands for a closed one). *)
Definition delete_all (ds : list Z) (t : table) : table :=
  foldl (fun t d => if d =? 0 then t else delete d t) t ds.

Lemma close_fd_run d (s : sp) : exists ret k',
  close_fd d s = Done ret (s.1, k') /\ fds k' = delete d (fds s.2) /\
  child_fds k' = child_fds s.2.
Proof.
  unfold close_fd. destruct (close_ok d s.2) as [H1 H2].
  destruct (sys_close d s.2) as [ret k']. by exists ret, k'.
Qed.

Lemma close_ends_run xs : forall p k, NoDup xs -> (forall x, x ∈ xs -> (x < length (fd p))%nat) ->
  exists p' k', close_ends xs (p, k) = Done tt (p', k') /\
    fds k' = delete_all (map (fun x => fd_at x p) xs) (fds k).
Proof.
  induction xs as [|x xs IH]; intros p k Hd Hx; [by exists p, k|].
  apply NoDup_cons in Hd as [Hn Hd]. cbn [close_ends]. unfold mbnd at 1, get_st at 1. cbn [fst].
  assert (forall v, map (fun y => fd_at y (set_fd x v p)) xs = map (fun y => fd_at y p) xs) as Hmap.
  { intros v. apply map_ext_in. intros y Hy%list_elem_of_In. unfold fd_at, set_fd. cbn [fd].
    by rewrite list_lookup_insert_ne by (by intros ->). }
  unfold delete_all. cbn [map foldl].
  destruct (Z.eqb_spec (fd_at x p) 0) as [E|E]; cbn [negb].
  - unfold mbnd at 1, mret. apply IH; [done|]. intros; apply Hx; by right.
  - destruct (close_fd_run (fd_at x p) (p, k)) as (ret & k1 & Ec & Hf & _). cbn [fst snd] in *.
    unfold mbnd. rewrite Ec. unfold upd_spawn, modify_st. cbn [fst snd].
    destruct (IH (set_fd x 0 p) k1 Hd) as (p' & k' & E' & Hf').
    { intros y Hy. unfold set_fd. cbn [fd]. rewrite length_insert. apply Hx. by right. }
    exists p', k'. split; [exact E'|]. by rewrite Hf', Hmap, Hf.
Qed.

Lemma destroy_run p k : length (fd p) = 4%nat ->
  exists p' k', spawn_destroy (p, k) = Done tt (p', k') /\ fds k' = delete_all (fd p) (fds k).
Proof.
  intros Hl. destruct (close_ends_run [0; 1; 2; 3]%nat p k) as (p' & k' & E & Hf).
  - repeat (constructor; [set_solver|]). constructor.
  - intros x Hx. rewrite Hl. set_solver by lia.
  - exists p', k'. split; [exact E|]. rewrite Hf. f_equal.
    destruct p as [? l ?]. cbn in *. by do 5 (destruct l as [|? l]; try done).
Qed.

(** [m] ends in [Q], or raises with the descriptors that were open before [spawn_open]. *)
Definition opens {A} (k0 : kernel) (m : M sp A) (s : sp) (Q : A -> sp -> Prop) : Prop :=
  match m s with
  | Done a s' => Q a s'
  | Raised _ s' => fds s'.2 = fds k0
  | _ => False
  end.

Lemma opens_bind {A B} k0 (m : M sp A) (f : A -> M sp B) s Q :
  opens k0 m s (fun a s' => opens k0 (f a) s' Q) -> opens k0 (mbnd m f) s Q.
Proof. unfold opens, mbnd. by destruct (m s). Qed.

Lemma opens_get {B} k0 (f : sp -> M sp B) s Q :
  opens k0 (f s) s Q -> opens k0 (mbnd get_st f) s Q.
Proof. done. Qed.

(** The object's descriptors are those opened since. *)
Definition clean (k0 : kernel) (s : sp) : Prop :=
  length (fd s.1) = 4%nat /\ delete_all (fd s.1) (fds s.2) = fds k0.

Lemma opens_check k0 ret s (Q : unit -> sp -> Prop) :
  clean k0 s -> (ret = 0 -> Q tt s) -> opens k0 (check_ret ret) s Q.
Proof.
  intros [Hl Hc] HQ. unfold check_ret, opens. destruct (Z.eqb_spec ret 0); [by apply HQ|].
  destruct s as [p k]. destruct (destroy_run p k Hl) as (p' & k' & E & Hf). cbn [negb].
  unfold mbnd. rewrite E. cbn. by rewrite Hf.
Qed.

Lemma opens_action k0 a s (Q : unit -> sp -> Prop) : clean k0 s ->
  Q tt (add_action a s.1, s.2) -> opens k0 (add_file_action a) s Q.
Proof.
  intros Hc HQ. unfold add_file_action. apply opens_get, opens_bind.
  apply opens_check; [done|]. intros _. done.
Qed.

Definition ends_table (r w p : Z) (t : table) : table := <[w := PWrite p]> (<[r := PRead p]> t).

Lemma lookup_delete_all ds : forall (t : table) j,
  delete_all ds t !! j = if bool_decide (j ∈ ds /\ j <> 0) then None else t !! j.
Proof.
  induction ds as [|d ds IH]; intros t j; [by rewrite bool_decide_eq_false_2 by set_solver|].
  unfold delete_all. cbn [foldl]. fold (delete_all ds (if d =? 0 then t else delete d t)).
  rewrite IH. destruct (Z.eqb_spec d 0) as [->|Hd].
  - erewrite bool_decide_ext; [done|]. set_solver.
  - destruct (decide (j = d)) as [->|Hne].
    + rewrite (bool_decide_eq_true_2 (d ∈ d :: ds /\ d <> 0)) by (split; [left | done]).
      case_bool_decide; [done|]. apply lookup_delete_eq.
    + rewrite lookup_delete_ne by done. erewrite bool_decide_ext; [done|]. set_solver.
Qed.

(** A pipe just made in two free entries of the object. *)
Lemma clean_pipe k0 k' i p k r w q :
  (i = 0%nat \/ i = 1%nat) -> clean k0 (p, k) -> r <> 0 -> w <> 0 -> r <> w ->
  fds k !! r = None -> fds k !! w = None -> fds k' = ends_table r w q (fds k) ->
  fd p !! (2 * i)%nat = Some 0 -> fd p !! (2 * i + 1)%nat = Some 0 ->
  clean k0 (set_fd (2 * i + 1) w (set_fd (2 * i) r p), k').
Proof.
  intros Hi [Hl Hc] Hr0 Hw0 Hrw Hr Hw Ht E1 E2. split.
  { unfold set_fd. cbn [fd fst]. by rewrite !length_insert. }
  cbn [fst snd] in *. apply map_eq. intros j. rewrite <- Hc, !lookup_delete_all, Ht.
  unfold set_fd. cbn [fd]. destruct p as [? l ?]. cbn [fd] in *.
  assert (forall x, x ∈ <[(2 * i + 1)%nat := w]> (<[(2 * i)%nat := r]> l) /\ x <> 0 <->
    x = r \/ x = w \/ (x ∈ l /\ x <> 0)) as Hin.
  { do 5 (destruct l as [|? l]; try done). destruct Hi as [-> | ->]; cbn in *; intros x;
      injection E1 as ->; injection E2 as ->; rewrite !elem_of_cons; naive_solver. }
  destruct (decide (j = r)) as [->|Hjr]; [|destruct (decide (j = w)) as [->|Hjw]].
  - rewrite bool_decide_eq_true_2 by (apply Hin; by left). by case_bool_decide.
  - rewrite bool_decide_eq_true_2 by (apply Hin; by right; left). by case_bool_decide.
  - rewrite (bool_decide_ext _ (j ∈ l /\ j <> 0)) by (rewrite Hin; tauto).
    unfold ends_table. by rewrite !lookup_insert_ne.
Qed.

Lemma opens_pipe k0 i p k (Q : unit -> sp -> Prop) :
  (i = 0%nat \/ i = 1%nat) -> clean k0 (p, k) -> is_Some (fds k !! 0) ->
  fd p !! (2 * i)%nat = Some 0 -> fd p !! (2 * i + 1)%nat = Some 0 ->
  (forall r w q k', r <> w -> fds k !! r = None -> fds k !! w = None ->
     fds k' = ends_table r w q (fds k) ->
     let p' := set_fd (2 * i + 1) w (set_fd (2 * i) r p) in
     clean k0 (p', k') ->
     let '(own, other) := if (i =? 0)%nat then (r, w) else (w, r) in
     Q tt (mk_spawn (pid p) (fd p')
             (file_actions p ++ [Dup2 own (Z.of_nat i); Close own; Close other]), k')) ->
  opens k0 (make_pipe i) (p, k) Q.
Proof.
  intros Hi Hc [e H0] E1 E2 HQ. unfold make_pipe. apply opens_bind. unfold opens at 1. cbn [fst snd].
  destruct (sys_pipe k) as [[[r w]|] k'] eqn:Ep.
  - destruct (pipe_ok k r w k' Ep) as (Hrw & Hr & Hw & (q & Ht & _) & _).
    assert (clean k0 (set_fd (2 * i + 1) w (set_fd (2 * i) r p), k')) as Hc'
      by (by apply (clean_pipe k0 k' i p k r w q); try (intros ->; congruence)).
    specialize (HQ r w q k' Hrw Hr Hw Ht Hc').
    assert ((2 * i + 1 < length (fd p))%nat) as Hlt by (by apply lookup_lt_Some in E2).
    set (p' := set_fd (2 * i + 1) w (set_fd (2 * i) r p)) in *.
    assert (fd_at (2 * i) p' = r /\ fd_at (2 * i + 1) p' = w) as [Er Ew].
    { unfold fd_at, p', set_fd. cbn [fd]. rewrite (list_lookup_insert_eq _ (2 * i + 1))
        by (rewrite length_insert; lia).
      rewrite (list_lookup_insert_ne _ (2 * i + 1)), list_lookup_insert_eq by lia. done. }
    change (pid p) with (pid p') in HQ. change (file_actions p) with (file_actions p') in HQ.
    clearbody p'. apply opens_get.
    do 2 (apply opens_bind, opens_action; [exact Hc'|]). apply opens_action; [exact Hc'|].
    unfold add_action. cbn [pid fd file_actions fst snd]. rewrite <- !app_assoc.
    destruct Hi as [-> | ->]; cbn [Nat.eqb Nat.mul Nat.add] in *; rewrite Er, Ew; exact HQ.
  - apply (opens_check k0 (-1) (p, k') (fun a s' => opens k0 _ s' Q)); [|done].
    destruct Hc. split; [done|]. cbn in *. by rewrite (pipe_error _ _ Ep).
Qed.

(** An end that is closed, and forgotten if that succeeds. *)
Lemma elem_of_forgotten (l : list Z) x d j : l !! x = Some d -> j <> d -> j <> 0 ->
  j ∈ <[x := 0]> l <-> j ∈ l.
Proof.
  intros Hx Hjd Hj0. rewrite !list_elem_of_lookup. split; intros [y Hy]; exists y.
  - destruct (decide (x = y)) as [->|Hne]; [|by rewrite list_lookup_insert_ne in Hy].
    rewrite list_lookup_insert_eq in Hy by (by eapply lookup_lt_Some). congruence.
  - by rewrite list_lookup_insert_ne by congruence.
Qed.

Lemma opens_close_end k0 x d p k (Q : unit -> sp -> Prop) :
  clean k0 (p, k) -> fd p !! x = Some d -> d <> 0 ->
  (forall k', fds k' = delete d (fds k) -> child_fds k' = child_fds k ->
     clean k0 (set_fd x 0 p, k') -> Q tt (set_fd x 0 p, k')) ->
  opens k0 (close_end x) (p, k) Q.
Proof.
  intros [Hl Hc] Hx Hd HQ. unfold close_end. apply opens_get.
  destruct (close_fd_run d (p, k)) as (ret & k' & E & Hf & Hch). cbn [fst snd] in *.
  apply opens_bind. unfold opens at 1. cbn [fst snd]. unfold fd_at. rewrite Hx. cbn. rewrite E.
  assert (d ∈ fd p) as Hin by (by eapply list_elem_of_lookup_2).
  apply opens_bind, opens_check.
  - split; [done|]. cbn [fst snd] in *. rewrite <- Hc, Hf. apply map_eq. intros j.
    rewrite !lookup_delete_all. destruct (decide (j = d)) as [->|]; [|by rewrite lookup_delete_ne].
    by rewrite !bool_decide_eq_true_2.
  - intros _. apply HQ; [done..|]. split; [unfold set_fd; cbn [fd fst]; by rewrite length_insert|].
    cbn [fst snd] in *. rewrite <- Hc, Hf. unfold set_fd. cbn [fd]. apply map_eq. intros j.
    rewrite !lookup_delete_all. destruct (decide (j = d)) as [->|Hjd].
    + rewrite (bool_decide_eq_true_2 (d ∈ fd p /\ d <> 0)) by done. rewrite lookup_delete_eq.
      by case_bool_decide.
    + rewrite lookup_delete_ne by done. erewrite bool_decide_ext; [done|].
      split; intros [? ?]; (split; [|done]); by eapply elem_of_forgotten.
Qed.

Lemma opens_spawn k0 name argv envp p k (Q : unit -> sp -> Prop) :
  clean k0 (p, k) ->
  (forall c k', fds k' = fds k -> child_fds k' c = Some (apply_actions (file_actions p) (fds k)) ->
     Q tt (set_pid c p, k')) ->
  opens k0 (spawn_process name argv envp) (p, k) Q.
Proof.
  intros [Hl Hc] HQ. unfold spawn_process, opens. cbn [fst snd].
  destruct (sys_spawnp name (file_actions p) argv envp k) as [[c|e] k'] eqn:E.
  - destruct (spawn_ok _ _ _ _ _ _ _ E) as [Hf Hch]. apply HQ; [done|].
    by rewrite Hch, decide_True.
  - destruct (spawn_error _ _ _ _ _ _ _ E) as [Hf He].
    apply (opens_check k0 e (p, k') Q); [|done]. split; [done|]. cbn in *. by rewrite Hf.
Qed.

(** The actions of the child, on a table that has both pipes. *)
Lemma child_table r0 w0 a r1 w1 b (t : table) :
  r0 <> w0 -> r1 <> w1 -> is_Some (t !! 0) -> is_Some (t !! 1) ->
  t !! r0 = None -> t !! w0 = None ->
  ends_table r0 w0 a t !! r1 = None -> ends_table r0 w0 a t !! w1 = None ->
  apply_actions [Dup2 r0 0; Close r0; Close w0; Dup2 w1 1; Close w1; Close r1]
    (ends_table r1 w1 b (ends_table r0 w0 a t))
  = <[1 := PWrite b]> (<[0 := PRead a]> t).
Proof.
  intros H0 H1 [e0 Ht0] [e1 Ht1] Hr0 Hw0 Hr1 Hw1. unfold ends_table in *.
  apply lookup_insert_None in Hr1 as [[Hr1 Hr1r]%lookup_insert_None Hr1w].
  apply lookup_insert_None in Hw1 as [[Hw1 Hw1r]%lookup_insert_None Hw1w].
  assert (r0 <> 0 /\ w0 <> 0 /\ r1 <> 0 /\ w1 <> 0 /\ r0 <> 1 /\ w0 <> 1 /\ r1 <> 1 /\ w1 <> 1)
    as (? & ? & ? & ? & ? & ? & ? & ?) by (repeat split; intros ->; congruence).
  unfold apply_actions. cbn [foldl apply_action].
  rewrite (lookup_insert_ne _ w1), (lookup_insert_ne _ r1), (lookup_insert_ne _ w0),
    lookup_insert_eq by done. cbn [apply_action].
  rewrite !(lookup_delete_ne _ _ w1), lookup_insert_ne, lookup_insert_eq by done.
  apply map_eq. intros j.
  destruct (decide (j = 1)) as [->|]; [by rewrite !lookup_delete_ne, !lookup_insert_eq by done|].
  rewrite (lookup_insert_ne _ 1) by done.
  destruct (decide (j = r1)) as [->|];
    [by rewrite lookup_delete_eq, lookup_insert_ne by done|rewrite lookup_delete_ne by done].
  destruct (decide (j = w1)) as [->|];
    [by rewrite lookup_delete_eq, lookup_insert_ne by done|rewrite lookup_delete_ne by done].
  rewrite (lookup_insert_ne _ 1) by done.
  destruct (decide (j = 0)) as [->|];
    [by rewrite !lookup_delete_ne, !lookup_insert_eq by done|].
  destruct (decide (j = w0)) as [->|];
    [by rewrite lookup_delete_eq, lookup_insert_ne by done|rewrite lookup_delete_ne by done].
  destruct (decide (j = r0)) as [->|];
    [by rewrite lookup_delete_eq, lookup_insert_ne by done|rewrite lookup_delete_ne by done].
  by rewrite !lookup_insert_ne by done.
Qed.

(** A child that runs: the ends the parent keeps, and what both have open. *)
Record wired (k : kernel) (p : spawn_t) (k' : kernel) (w r a b : Z) : Prop := {
  wi_fd : fd p = [0; w; r; 0];
  wi_free : fds k !! w = None /\ fds k !! r = None /\ w <> r;
  wi_parent : fds k' = <[r := PRead b]> (<[w := PWrite a]> (fds k));
  wi_child : child_fds k' (pid p) = Some (<[1 := PWrite b]> (<[0 := PRead a]> (fds k)));
}.

Lemma spawn_start_wires name argv envp k :
  is_Some (fds k !! 0) -> is_Some (fds k !! 1) ->
  opens k (spawn_start name argv envp) (new_spawn, k)
    (fun _ s => exists w r a b, wired k s.1 s.2 w r a b).
Proof.
  intros H0 H1.
  assert (clean k (new_spawn, k)) as Hc by (split; [done|]; by apply map_eq).
  unfold spawn_start. apply opens_get, opens_bind, opens_check; [exact Hc|]. intros _.
  apply opens_bind, opens_pipe; [by left | exact Hc | done | done | done |].
  intros r0 w0 a k1 Hn0 Hr0 Hw0 Ht1 p1 Hc1. cbn in p1, Hc1 |- *.
  assert (is_Some (fds k1 !! 0) /\ is_Some (fds k1 !! 1)) as [H01 H11].
  { destruct H0, H1. rewrite Ht1. unfold ends_table.
    split; (rewrite !lookup_insert_ne by (intros ->; congruence)); by eexists. }
  apply opens_bind, opens_pipe; [by right | exact Hc1 | done | done | done |].
  intros r1 w1 b k2 Hn1 Hr1 Hw1 Ht2 p2 Hc2. cbn in p2, Hc2 |- *.
  apply opens_get, opens_bind, opens_check; [exact Hc2|]. intros _.
  apply opens_bind, opens_spawn; [exact Hc2|]. intros c k3 Hf3 Hch3.
  cbn [file_actions] in Hch3. rewrite Ht2, Ht1, child_table in Hch3; try done;
    [|by rewrite <- Ht1..].
  assert (r0 <> 0 /\ w1 <> 0) as [Hr00 Hw10]
    by (destruct H0, H01; split; intros ->; congruence).
  match goal with |- context [(set_pid c ?p, k3)] => assert (clean k (set_pid c p, k3)) as Hc3 end.
  { destruct Hc2 as [Hl2 Hc2]. split; [exact Hl2|]. rewrite <- Hc2. cbn [snd fst] in *. by rewrite Hf3. }
  apply opens_bind, (opens_close_end k 0 r0); [exact Hc3 | done | done |].
  intros k4 Hf4 Hch4 Hc4. cbn [fst snd] in *.
  assert (fds k4 = <[w1 := PWrite b]> (<[r1 := PRead b]> (<[w0 := PWrite a]> (fds k)))) as Hf4'.
  { rewrite Hf4, Hf3, Ht2, Ht1. unfold ends_table. rewrite Ht1 in Hr1, Hw1. unfold ends_table in *.
    apply lookup_insert_None in Hr1 as [[_ Hr1]%lookup_insert_None _].
    apply lookup_insert_None in Hw1 as [[_ Hw1]%lookup_insert_None _].
    rewrite !delete_insert_ne by congruence. by rewrite delete_insert_id. }
  apply (opens_close_end k 3 w1); [exact Hc4 | done | done |]. intros k5 Hf5 Hch5 _.
  rewrite Ht1 in Hr1, Hw1. unfold ends_table in *.
  apply lookup_insert_None in Hr1 as [[Hr1 _]%lookup_insert_None Hr1w].
  apply lookup_insert_None in Hw1 as [[Hw1 _]%lookup_insert_None Hw1w].
  exists w0, r1, a, b. split; cbn [fst snd]; [done | done | |].
  - rewrite Hf5, Hf4', delete_insert_id; [done|].
    by rewrite !lookup_insert_ne by congruence.
  - rewrite Hch5, Hch4. exact Hch3.
Qed.

Lemma spawn_open_run file args env k :
  is_Some (fds k !! 0) -> is_Some (fds k !! 1) -> env <> NotTable ->
  match spawn_open lua_tostring file args env (new_spawn, k) with
  | Done _ (p, k') => exists w r a b, wired k p k' w r a b
  | Raised _ (_, k') => fds k' = fds k
  | _ => False
  end.
Proof.
  intros H0 H1 Henv.
  pose proof (fun n a e => spawn_start_wires n a e k H0 H1) as H. unfold opens in H.
  destruct file, args, env; try done; unfold spawn_open;
    match goal with |- context [spawn_start ?n ?a ?e _] => specialize (H n a e) end;
    by destruct (spawn_start _ _ _ _) as [? []|? []| | |].
Qed.

(** C21: [ipc.spawn] starts the child with a pipe for its standard input and one for its
    standard output and no other end of them, and keeps the two other ends, on descriptors
    of its own; if anything fails it leaves the process with the descriptors it had.  (Its
    standard input and output are open.) *)
Theorem spawn_open_wires file args env k :
  is_Some (fds k !! 0) -> is_Some (fds k !! 1) -> env <> NotTable ->
  match spawn_open lua_tostring file args env (new_spawn, k) with
  | Done _ (p, k') =>
      fd_at STDIN p <> fd_at STDOUT p /\ exists w r a b, wired k p k' w r a b
  | Raised _ (_, k') => fds k' = fds k
  | _ => False
  end.
Proof.
  intros H0 H1 Henv. pose proof (spawn_open_run file args env k H0 H1 Henv) as H.
  destruct (spawn_open _ _ _ _ _) as [? [p k']|? []| | |]; try done.
  destruct H as (w & r & a0 & b0 & W). split; [|by exists w, r, a0, b0].
  destruct W as [Hfd (_ & _ & Hne) _ _]. unfold fd_at. by rewrite Hfd.
Qed.

(** Pipe ends are not closed on exec: a child started later holds the write end of an earlier
    child's standard input, which therefore does not see the end of its input when the
    parent closes its end. *)
Theorem later_child_holds_stdin file1 args1 env1 file2 args2 env2 k p1 k1 p2 k2 :
  is_Some (fds k !! 0) -> is_Some (fds k !! 1) -> env1 <> NotTable -> env2 <> NotTable ->
  spawn_open lua_tostring file1 args1 env1 (new_spawn, k) = Done tt (p1, k1) ->
  spawn_open lua_tostring file2 args2 env2 (new_spawn, k1) = Done tt (p2, k2) ->
  exists a t1 t2,
    child_fds k1 (pid p1) = Some t1 /\ t1 !! 0 = Some (PRead a) /\
    child_fds k2 (pid p2) = Some t2 /\ t2 !! (fd_at STDIN p1) = Some (PWrite a).
Proof.
  intros H0 H1 He1 He2 E1 E2.
  pose proof (spawn_open_run file1 args1 env1 k H0 H1 He1) as W1. rewrite E1 in W1.
  destruct W1 as (w & r & a & b & [Hfd (Hw & Hr & Hne) Hp Hc]).
  assert (w <> 0 /\ w <> 1 /\ r <> 0 /\ r <> 1) as (? & ? & ? & ?)
    by (destruct H0, H1; repeat split; intros ->; congruence).
  assert (is_Some (fds k1 !! 0) /\ is_Some (fds k1 !! 1)) as [H01 H11]
    by (by rewrite Hp, !lookup_insert_ne by done).
  pose proof (spawn_open_run file2 args2 env2 k1 H01 H11 He2) as W2. rewrite E2 in W2.
  destruct W2 as (w2 & r2 & a2 & b2 & [_ _ _ Hc2]).
  exists a, (<[1 := PWrite b]> (<[0 := PRead a]> (fds k))),
    (<[1 := PWrite b2]> (<[0 := PRead a2]> (fds k1))).
  split; [done|]. split; [by rewrite lookup_insert_ne, lookup_insert_eq|]. split; [done|].
  unfold fd_at. rewrite Hfd. cbn.
  rewrite !lookup_insert_ne, Hp by done. by rewrite lookup_insert_ne, lookup_insert_eq by done.
Qed.
End OpenSpec.

(** ** Reading the child's output *)

Section ReadSpec.
Context `{S : Spawns} {Sok : SpawnsOk S} (lua_tostring : lua_value -> option (list byte)).

(** A buffer of [max] bytes that begins with [pre] and has room for a byte and the NUL. *)
Definition holds_prefix (buff : list cell) (pre : list byte) (max : Z) : Prop :=
  ztake (zlen pre) buff = Some <$> pre /\ zlen buff = max /\ zlen pre + 1 < max.

Lemma prefix_uninit n : 1 < n -> holds_prefix (uninit n) [] n.
Proof. intros. split; [done|]. rewrite zlen_uninit, zlen_nil by lia. lia. Qed.

Lemma prefix_store buff pre max bs : holds_prefix buff pre max -> zlen pre + zlen bs + 1 <= max ->
  let b1 := store buff (zlen pre) bs in
  memcpy buff (zlen pre) (Some <$> bs) 0 (zlen bs) = Some b1 /\
  zlen b1 = max /\ ztake (zlen pre + zlen bs) b1 = Some <$> (pre ++ bs) /\
  let '(b2, max2) := grow_buffer b1 (zlen pre + zlen bs) max in holds_prefix b2 (pre ++ bs) max2.
Proof.
  intros (Hpre & Hl & Hroom) Hfit b1. pose proof (zlen_nonneg pre). pose proof (zlen_nonneg bs).
  assert (b1 = (Some <$> (pre ++ bs)) ++ zdrop (zlen pre + zlen bs) buff) as Hb1.
  { unfold b1, store. by rewrite Hpre, fmap_app, <- app_assoc. }
  assert (zlen b1 = max) as Hl1 by (unfold b1; rewrite zlen_store; lia).
  assert (zlen (pre ++ bs) = zlen pre + zlen bs) as Hz by apply zlen_app.
  assert (forall l, ztake (zlen (pre ++ bs)) ((Some <$> (pre ++ bs)) ++ l) = Some <$> (pre ++ bs)) as Ht
    by (intros l; apply ztake_ztake_app, zlen_fmap).
  split; [apply memcpy_store; lia|]. split; [exact Hl1|].
  split; [rewrite Hb1, <- Hz; apply Ht|].
  unfold grow_buffer. destruct (Z.eqb_spec (zlen pre + zlen bs + 1) max).
  - split; [by rewrite Hb1, <- app_assoc, Ht|]. rewrite zlen_app, zlen_uninit by lia. lia.
  - split; [by rewrite Hb1, Ht|]. lia.
Qed.

Lemma pushlstring_run buff cb bs (s : sp) : ztake cb buff = Some <$> bs -> cb <= zlen buff ->
  pushlstring buff cb s = Done (Some bs) s.
Proof.
  intros E Hl. unfold pushlstring, mbnd. rewrite (proj2 (Z.leb_le _ _)), E, mapM_id_Some by done. done.
Qed.

Lemma end_of_file_run buff pre max (s : sp) : holds_prefix buff pre max ->
  end_of_file buff (zlen pre) s = Done (match pre with [] => None | _ => Some pre end) s.
Proof.
  intros (Hpre & Hl & Hroom). unfold end_of_file. pose proof (zlen_nonneg pre).
  destruct pre as [|c pre]; [done|].
  rewrite zlen_cons in *. pose proof (zlen_nonneg pre). rewrite (proj2 (Z.ltb_lt _ _)) by lia.
  apply pushlstring_run; [done | lia].
Qed.

(** One [read], at the end of what the buffer holds. *)
Lemma read_into_moves d buff pre max n p k : holds_prefix buff pre max ->
  is_Some (fds k !! d) -> 0 < n -> zlen pre + n + 1 <= max -> stream k d <> [] ->
  exists bs rest k', bs <> [] /\ zlen bs <= n /\ stream k d = bs ++ rest /\
    read_into d buff (zlen pre) n (p, k) = Done (zlen bs, store buff (zlen pre) bs) (p, k') /\
    stream k' d = rest /\ fds k' = fds k.
Proof.
  intros Hb Hd Hn Hfit Hs. destruct (read_moves k d n Hn Hd Hs) as (r & k' & E & Hr & Hrs & Hk & Hf).
  assert (zlen (ztake r (stream k d)) = r) as Hz by (apply zlen_ztake; lia).
  exists (ztake r (stream k d)), (zdrop r (stream k d)), k'.
  split; [intros E0; rewrite E0, zlen_nil in Hz; lia|]. split; [lia|].
  split; [by rewrite ztake_zdrop|]. split; [|done].
  unfold read_into. cbn [snd fst]. rewrite E, (proj2 (Z.ltb_ge r 0)) by lia.
  destruct (prefix_store buff pre max (ztake r (stream k d)) Hb ltac:(rewrite Hz; lia)) as (Em & _).
  rewrite Hz in Em. by rewrite Em, Hz.
Qed.

Lemma read_into_ends d buff pos n p k : 0 <= pos <= zlen buff ->
  is_Some (fds k !! d) -> 0 < n -> stream k d = [] ->
  exists k', read_into d buff pos n (p, k) = Done (0, buff) (p, k') /\
    stream k' d = [] /\ fds k' = fds k.
Proof.
  intros Hpos Hd Hn Hs. destruct (read_ends k d n Hn Hd Hs) as (k' & E & Hk & Hf).
  exists k'. split; [|done]. unfold read_into. cbn [snd fst]. rewrite E. cbn [Z.ltb Z.compare].
  rewrite (memcpy_store buff pos [] 0) by (done || lia). by rewrite store_nil.
Qed.

(** The first line of a text, without its newline, and what follows it. *)
Fixpoint split_line (s : list byte) : list byte * list byte :=
  match s with
  | [] => ([], [])
  | c :: s' => if bool_decide (c = newline) then ([], s')
               else (c :: (split_line s').1, (split_line s').2)
  end.

Lemma read_line_spec text : forall fuel buff pre max p k,
  holds_prefix buff pre max -> is_Some (fds k !! fd_at STDOUT p) ->
  stream k (fd_at STDOUT p) = text -> (length text < fuel)%nat ->
  exists k', read_line fuel buff (zlen pre) max (p, k)
      = Done (match pre ++ text with [] => None | _ => Some (pre ++ (split_line text).1) end) (p, k') /\
    stream k' (fd_at STDOUT p) = (split_line text).2 /\ fds k' = fds k.
Proof.
  induction text as [|c text IH]; intros fuel buff pre max p k Hb Hd Hs Hf;
    (destruct fuel as [|fuel]; [cbn in Hf; lia|]); cbn [read_line]; unfold mbnd at 1, get_st; cbn [fst].
  - destruct Hb as (Hpre & Hl & Hroom). pose proof (zlen_nonneg pre).
    destruct (read_into_ends (fd_at STDOUT p) buff (zlen pre) 1 p k) as (k' & E & Hk & Hf');
      [lia | done | done | done |].
    exists k'. unfold mbnd. rewrite E. cbn [Z.eqb]. rewrite (end_of_file_run buff pre max) by done.
    rewrite !app_nil_r. done.
  - pose proof Hb as (Hpre & Hl & Hroom). pose proof (zlen_nonneg pre).
    destruct (read_into_moves (fd_at STDOUT p) buff pre max 1 p k Hb Hd ltac:(lia) ltac:(lia)
      ltac:(by rewrite Hs)) as (bs & rest & k' & Hne & Hlen & Hst & E & Hk & Hf').
    destruct bs as [|c' [|? ?]]; [done | | rewrite !zlen_cons in Hlen;
      match type of Hlen with context [zlen ?l] => pose proof (zlen_nonneg l) end; lia].
    rewrite Hs in Hst. injection Hst as <- <-. change (zlen [c]) with 1 in *.
    unfold mbnd at 1. rewrite E. cbn [Z.eqb].
    destruct (prefix_store buff pre max [c] Hb ltac:(change (zlen [c]) with 1; lia))
      as (_ & Hl1 & Ht & Hgrow). change (zlen [c]) with 1 in *.
    assert (nthz (store buff (zlen pre) [c]) (zlen pre) = Some (Some c)) as Hnth.
    { rewrite <- (ztake_zdrop (zlen pre + 1) (store buff (zlen pre) [c])), Ht, fmap_app, <- app_assoc.
      rewrite nthz_app, zlen_fmap, Z.ltb_irrefl, Z.sub_diag. done. }
    unfold mbnd. rewrite Hnth. cbn [mjoin option_join of_opt]. cbn [split_line].
    destruct (decide (c = newline)) as [Hc|Hc].
    + rewrite !bool_decide_eq_true_2 by done. cbn [fst snd].
      exists k'. rewrite app_nil_r. rewrite (pushlstring_run _ _ pre).
      * split; [by destruct pre|]. done.
      * unfold store. rewrite Hpre. apply ztake_ztake_app, zlen_fmap.
      * lia.
    + rewrite !bool_decide_eq_false_2 by done. cbn [fst snd].
      destruct (grow_buffer _ _ _) as [b2 max2].
      destruct (IH fuel b2 (pre ++ [c]) max2 p k') as (k2 & E2 & Hk2 & Hf2);
        [done | by rewrite Hf' | done | cbn in Hf; lia |].
      exists k2. rewrite zlen_app in E2. change (zlen [c]) with 1 in E2. rewrite E2.
      rewrite <- !app_assoc. cbn [app]. split; [by destruct pre|]. split; [done | congruence].
Qed.

Lemma read_all_spec fuel : forall text buff pre max p k,
  holds_prefix buff pre max -> is_Some (fds k !! fd_at STDOUT p) ->
  stream k (fd_at STDOUT p) = text -> (length text < fuel)%nat ->
  exists k', read_all fuel buff (zlen pre) max (p, k)
      = Done (match pre ++ text with [] => None | t => Some t end) (p, k') /\
    stream k' (fd_at STDOUT p) = [] /\ fds k' = fds k.
Proof.
  induction fuel as [|fuel IH]; intros text buff pre max p k Hb Hd Hs Hf; [lia|].
  cbn [read_all]. unfold mbnd at 1, get_st. cbn [fst].
  pose proof Hb as (Hpre & Hl & Hroom). pose proof (zlen_nonneg pre).
  destruct text as [|c text].
  - destruct (read_into_ends (fd_at STDOUT p) buff (zlen pre) (max - zlen pre - 1) p k)
      as (k' & E & Hk & Hf'); [lia | done | lia | done |].
    exists k'. unfold mbnd. rewrite E. cbn [Z.eqb]. rewrite (end_of_file_run buff pre max) by done.
    rewrite app_nil_r. by destruct pre.
  - destruct (read_into_moves (fd_at STDOUT p) buff pre max (max - zlen pre - 1) p k Hb Hd
      ltac:(lia) ltac:(lia) ltac:(by rewrite Hs)) as (bs & rest & k' & Hne & Hlen & Hst & E & Hk & Hf').
    unfold mbnd. rewrite E.
    assert (0 < zlen bs) as Hpos
      by (destruct bs; [done|]; rewrite zlen_cons; match goal with |- context [zlen ?l] =>
            pose proof (zlen_nonneg l) end; lia).
    rewrite (proj2 (Z.eqb_neq (zlen bs) 0)) by lia.
    destruct (prefix_store buff pre max bs Hb ltac:(lia)) as (_ & _ & _ & Hgrow).
    destruct (grow_buffer _ _ _) as [b2 max2].
    destruct (IH rest b2 (pre ++ bs) max2 p k') as (k2 & E2 & Hk2 & Hf2);
      [done | by rewrite Hf' | done | |].
    { rewrite Hs in Hst. rewrite Hst, length_app in Hf. unfold zlen in Hpos. lia. }
    exists k2. rewrite zlen_app in E2. rewrite E2, <- app_assoc, <- Hst, Hs.
    split; [done|]. split; [done | congruence].
Qed.

(** What a call takes from the child's output [text], and what it leaves. *)
Definition taken (what : amount) (text : list byte) (ans : option (list byte)) (rest : list byte)
  : Prop :=
  match what, text with
  | _, [] => ans = None /\ rest = []
  | Format fmt, _ =>
      if is_line fmt then ans = Some (split_line text).1 /\ rest = (split_line text).2
      else ans = Some text /\ rest = []
  | Bytes cb, _ => exists bs, ans = Some bs /\ bs <> [] /\ zlen bs <= cb /\ text = bs ++ rest
  end.

(** C22: reading the child's output takes a line without its newline, everything up to the
    end, or some bytes, at most as many as asked for, and leaves the rest for the next
    call; at the end of the output it returns nothing.  The buffer grows before it is
    full, whatever the sizes of the reads. *)
Theorem stdout_reads fuel what p k :
  is_Some (fds k !! fd_at STDOUT p) ->
  (length (stream k (fd_at STDOUT p)) < fuel)%nat ->
  match what with Bytes cb => 0 < cb | Format _ => True end ->
  exists ans k', spawn_stdout fuel what (Some p, k) = Done ans (Some p, k') /\
    taken what (stream k (fd_at STDOUT p)) ans (stream k' (fd_at STDOUT p)) /\ fds k' = fds k.
Proof.
  intros Hd Hf Hw. set (text := stream k (fd_at STDOUT p)) in *.
  unfold spawn_stdout, with_spawn, zoom. cbn [fst snd]. destruct what as [cb|fmt].
  - unfold mbnd, get_st. cbn [fst]. destruct (decide (text = [])) as [E0|E0].
    + destruct (read_into_ends (fd_at STDOUT p) (uninit (cb + 1)) 0 cb p k) as (k' & E & Hk & Hf');
        [rewrite zlen_uninit; lia | done | lia | done |].
      exists None, k'. rewrite E. cbn. fold text. rewrite E0, Hk. done.
    + destruct (read_into_moves (fd_at STDOUT p) (uninit (cb + 1)) [] (cb + 1) cb p k)
        as (bs & rest & k' & Hne & Hlen & Hst & E & Hk & Hf'); try done.
      { apply prefix_uninit. lia. }
      change (zlen []) with 0 in E. rewrite E.
      assert (0 < zlen bs) as Hpos by (destruct bs; [done|]; unfold zlen; cbn [length]; lia).
      rewrite (proj2 (Z.ltb_lt 0 (zlen bs))) by lia.
      destruct (prefix_store (uninit (cb + 1)) [] (cb + 1) bs) as (_ & Hl1 & Ht & _).
      { apply prefix_uninit. lia. } { rewrite zlen_nil. lia. }
      change (zlen [] + zlen bs) with (zlen bs) in Ht. change (zlen (@nil byte)) with 0 in Hl1, Ht.
      rewrite (pushlstring_run _ _ bs) by (done || lia).
      exists (Some bs), k'. split; [done|]. split; [|done]. rewrite Hk. unfold taken.
      fold text in Hst. destruct text; [done|]. by exists bs.
  - change 0 with (zlen (@nil byte)). destruct (is_line fmt) eqn:Efmt.
    + destruct (read_line_spec text fuel (uninit 1024) [] 1024 p k (prefix_uninit 1024 eq_refl) Hd eq_refl Hf)
        as (k' & E & Hk & Hf').
      rewrite E. cbn [app]. eexists _, k'. split; [reflexivity|]. split; [|done].
      rewrite Hk. unfold taken. rewrite Efmt. by destruct text.
    + destruct (read_all_spec fuel text (uninit 1024) [] 1024 p k (prefix_uninit 1024 eq_refl) Hd eq_refl Hf)
        as (k' & E & Hk & Hf').
      rewrite E. cbn [app]. eexists _, k'. split; [reflexivity|]. split; [|done].
      rewrite Hk. unfold taken. rewrite Efmt. by destruct text.
Qed.

(** ** Writing to the child's input *)

Lemma write_all_spec fuel : forall bs p k,
  is_Some (fds k !! fd_at STDIN p) -> (length bs <= fuel)%nat ->
  exists k', write_all fuel bs (p, k) = Done tt (p, k') /\
    written k' (fd_at STDIN p) = written k (fd_at STDIN p) ++ bs /\ fds k' = fds k.
Proof.
  induction fuel as [|fuel IH]; intros bs p k Hd Hf.
  { destruct bs; [|cbn in Hf; lia]. exists k. by rewrite app_nil_r. }
  destruct bs as [|c bs]; [exists k; by rewrite app_nil_r|].
  destruct (write_moves k (fd_at STDIN p) (c :: bs) Hd ltac:(done)) as (r & k1 & E & Hr & Hw & Hf1).
  cbn [write_all fst snd]. rewrite E, (proj2 (Z.ltb_ge r 0)), (proj2 (Z.ltb_ge (zlen _) r)) by lia.
  destruct (IH (zdrop r (c :: bs)) p k1) as (k' & E' & Hw' & Hf'); [by rewrite Hf1 | |].
  { unfold zdrop. rewrite length_drop. cbn [length] in *. lia. }
  exists k'. split; [exact E'|]. rewrite Hw', Hw, <- app_assoc, ztake_zdrop. split; [done | congruence].
Qed.

(** [stdin] writes the whole string, in order, however little each system call takes. *)
Theorem stdin_writes_all fuel v bs p k :
  is_Some (fds k !! fd_at STDIN p) -> lua_tostring v = Some bs -> (length bs <= fuel)%nat ->
  exists k', spawn_stdin lua_tostring fuel (Some v) (Some p, k) = Done tt (Some p, k') /\
    written k' (fd_at STDIN p) = written k (fd_at STDIN p) ++ bs /\ fds k' = fds k.
Proof.
  intros Hd Hv Hf. destruct (write_all_spec fuel bs p k Hd Hf) as (k' & E & H).
  exists k'. unfold spawn_stdin, with_spawn, zoom. cbn [fst snd]. by rewrite Hv, E.
Qed.

(** A second [stdin()] on an object closes descriptor 0, the standard input of the
    process itself: the end that was closed is remembered as 0. *)
Theorem second_close_closes_own_stdin fuel p k k1 :
  spawn_stdin lua_tostring fuel None (Some p, k) = Done tt (Some (set_fd STDIN 0 p), k1) ->
  (STDIN < length (fd p))%nat ->
  (sys_close 0 k1).1 = 0 ->
  exists k2, spawn_stdin lua_tostring fuel None (Some (set_fd STDIN 0 p), k1)
      = Done tt (Some (set_fd STDIN 0 p), k2) /\ fds k2 = delete 0 (fds k1).
Proof.
  intros _ Hl Hret. destruct (close_ok 0 k1) as [Hf _].
  unfold spawn_stdin, with_spawn, zoom, mbnd, get_st, close_fd. cbn [fst snd].
  assert (fd_at STDIN (set_fd STDIN 0 p) = 0) as ->
    by (unfold fd_at, set_fd; cbn [fd]; by rewrite list_lookup_insert_eq).
  destruct (sys_close 0 k1) as [ret k2]. cbn in *. subst ret. exists k2. cbn.
  split; [|done]. unfold upd_spawn, modify_st, set_fd. cbn. by rewrite list_insert_insert_eq.
Qed.
End ReadSpec.

(** ** Waiting for the child *)

Section WaitSpec.
Context `{S : Spawns} {Sok : SpawnsOk S}.

Definition final (st : wstatus) : bool := WIFEXITED st || WIFSIGNALED st.

(** [waitpid] reports stops and continuations, [m - 1] of them, then the end. *)
Inductive reaps (c : Z) : kernel -> wstatus -> kernel -> nat -> Prop :=
  | reap_now k st k' : sys_waitpid c k = Some (inl st, k') -> final st = true -> reaps c k st k' 1
  | reap_later k st1 k1 st k' m : sys_waitpid c k = Some (inl st1, k1) -> final st1 = false ->
      reaps c k1 st k' m -> reaps c k st k' (Datatypes.S m).

Lemma wait_exit_run p k st k' m : reaps (pid p) k st k' m -> forall fuel, (m <= fuel)%nat ->
  wait_exit fuel (p, k) = Done st (p, k') /\ fds k' = fds k.
Proof.
  induction 1 as [k st k' E Hst|k st1 k1 st k' m E Hst _ IH]; intros fuel Hf;
    (destruct fuel as [|fuel]; [lia|]); cbn [wait_exit fst snd]; rewrite E, <- negb_orb; unfold final in Hst; rewrite Hst;
    cbn [negb]; pose proof (wait_ok _ _ _ _ E) as Hk.
  - done.
  - destruct (IH fuel ltac:(lia)) as [-> ->]. done.
Qed.

(** [ipc.waitpid] goes on until the process has ended. *)
Lemma ipc_waitpid_run c k st k' m : reaps c k st k' m -> forall fuel, (m <= fuel)%nat ->
  ipc_waitpid fuel c k = Done (if WIFEXITED st then Some (WEXITSTATUS st) else None) k'.
Proof.
  unfold final. induction 1 as [k st k' E Hst|k st1 k1 st k' m E Hst _ IH]; intros fuel Hf;
    (destruct fuel as [|fuel]; [lia|]); cbn [ipc_waitpid]; rewrite E; unfold final in Hst.
  - destruct (WIFEXITED st); [done|]. cbn in *. by rewrite Hst.
  - apply orb_false_elim in Hst as [-> ->]. cbn. apply IH. lia.
Qed.

(** Reading a descriptor until the end of its file. *)
Inductive drains (d : Z) : kernel -> kernel -> Prop :=
  | drains_end k bs k' : sys_read d 1024 k = Some (0, bs, k') -> drains d k k'
  | drains_more k x bs k1 k' : sys_read d 1024 k = Some (x, bs, k1) -> 0 < x ->
      drains d k1 k' -> drains d k k'.

Lemma drain_run fuel : forall p k, is_Some (fds k !! fd_at STDOUT p) ->
  (length (stream k (fd_at STDOUT p)) < fuel)%nat ->
  exists k', drain_stdout fuel (p, k) = Done tt (p, k') /\ drains (fd_at STDOUT p) k k' /\
    fds k' = fds k /\ stream k' (fd_at STDOUT p) = [].
Proof.
  induction fuel as [|fuel IH]; intros p k Hd Hf; [lia|].
  cbn [drain_stdout]. unfold mbnd at 1, get_st. cbn [fst].
  destruct (decide (stream k (fd_at STDOUT p) = [])) as [E0|E0].
  - destruct (read_ends k (fd_at STDOUT p) 1024 ltac:(lia) Hd E0) as (k' & E & Hs & Hk).
    exists k'. unfold mbnd, read_into. cbn [fst snd]. rewrite E.
    split; [done|]. split; [by eapply drains_end | done].
  - destruct (read_moves k (fd_at STDOUT p) 1024 ltac:(lia) Hd E0)
      as (r & k1 & E & Hr & Hrs & Hk & Hk1).
    assert (zlen (ztake r (stream k (fd_at STDOUT p))) = r) as Hz by (apply zlen_ztake; lia).
    unfold mbnd, read_into. cbn [fst snd]. rewrite E, (proj2 (Z.ltb_ge r 0)) by lia.
    rewrite memcpy_store; [|lia | by rewrite Hz | rewrite zlen_uninit; lia].
    rewrite (proj2 (Z.eqb_neq r 0)) by lia.
    destruct (IH p k1) as (k' & E' & Hdr & Hk' & Hs); [by rewrite Hk1 | |].
    + rewrite Hk. unfold zdrop, zlen in *. rewrite length_drop. lia.
    + exists k'. split; [exact E'|]. split; [|split; [congruence | done]].
      eapply drains_more; [exact E | lia | done].
Qed.

Section Wait.
Context (fuel : nat) (p : spawn_t) (w r : Z) (k : kernel).
Hypothesis Hfd : fd p = [0; w; r; 0].
Hypothesis Hr : r <> 0 /\ r <> w /\ is_Some (fds k !! r).

(** The system after the signal, and after the input was closed too. *)
Definition signalled (signame : option (list byte)) : kernel :=
  match signame ≫= signal_of with Some sig => (sys_kill (pid p) sig k).2 | None => k end.
Definition input_closed (signame : option (list byte)) : kernel :=
  if w =? 0 then signalled signame else (sys_close w (signalled signame)).2.

(** The calls before the wait succeed: the signal, or else there is fuel for the output that
    is left, and closing the input. *)
Definition can_wait (signame : option (list byte)) : Prop :=
  match signame with
  | None => (length (stream (input_closed None) r) < fuel)%nat
  | Some name => exists sig, signal_of name = Some sig /\ (sys_kill (pid p) sig k).1 = 0
  end /\ (w = 0 \/ (sys_close w (signalled signame)).1 = 0).

(** The system when it comes to waiting for the child: its output has been read to the end,
    or was closed after a signal. *)
Definition awaits (signame : option (list byte)) (kw : kernel) : Prop :=
  match signame with
  | None => drains r (input_closed None) kw /\ stream kw r = []
  | Some _ => kw = (sys_close r (input_closed signame)).2
  end.

Lemma set_fd_at x v (q : spawn_t) y : (x < length (fd q))%nat ->
  fd_at y (set_fd x v q) = if decide (x = y) then v else fd_at y q.
Proof.
  intros H. unfold fd_at, set_fd. cbn [fd]. case_decide; subst.
  - by rewrite list_lookup_insert_eq.
  - by rewrite list_lookup_insert_ne.
Qed.

Lemma signal_run signame : can_wait signame ->
  send_signal signame (p, k) = Done tt (p, signalled signame) /\ fds (signalled signame) = fds k.
Proof.
  destruct signame as [name|]; [|done]. intros ((sig & Hsig & Hkill) & _).
  unfold send_signal, do_kill, signalled. cbn [mbind option_bind fst snd]. rewrite Hsig.
  split; [|apply kill_ok]. destruct (sys_kill _ _ _) as [ret j]. cbn in *. by subst ret.
Qed.

Lemma close_stdin_run signame : can_wait signame ->
  close_stdin (p, signalled signame) = Done tt (set_fd STDIN 0 p, input_closed signame).
Proof.
  intros [_ Hw]. assert (fd_at STDIN p = w) as Hat by (unfold fd_at; by rewrite Hfd).
  unfold close_stdin, input_closed, mbnd, get_st. cbn [fst snd]. rewrite Hat.
  destruct (Z.eqb_spec w 0) as [Hw0|Hw0]; cbn [negb].
  - unfold mret, set_fd. destruct p as [? l ?]. cbn in *. by subst.
  - destruct Hw as [?|Hc]; [done|].
    unfold close_fd. cbn [fst snd]. destruct (sys_close w _) as [ret j'].
    cbn in Hc. by subst ret.
Qed.

Lemma input_closed_fds signame : can_wait signame ->
  fds (input_closed signame) = delete_all [w] (fds k).
Proof.
  intros [_ Hj]%signal_run. unfold input_closed, delete_all. cbn [foldl].
  destruct (w =? 0); [done|]. destruct (close_ok w (signalled signame)) as [-> _]. by rewrite Hj.
Qed.

(** What the object has left at the wait is all that was not closed. *)
Lemma finish_run signame : can_wait signame ->
  exists q kw, finish_stdout fuel signame (set_fd STDIN 0 p, input_closed signame) = Done tt (q, kw) /\
    awaits signame kw /\ pid q = pid p /\ length (fd q) = 4%nat /\
    delete_all (fd q) (fds kw) = delete_all [w; r] (fds k).
Proof.
  intros Hcan. pose proof (input_closed_fds signame Hcan) as Hj. destruct Hr as (Hr0 & Hrw & Hrk).
  assert (fd (set_fd STDIN 0 p) = [0; 0; r; 0]) as Hp1
    by (unfold set_fd; cbn [fd]; by rewrite Hfd).
  assert (fd_at STDOUT (set_fd STDIN 0 p) = r) as Ho by (unfold fd_at; by rewrite Hp1).
  assert (delete r (fds (input_closed signame)) = delete_all [w; r] (fds k)) as Hall.
  { rewrite Hj. unfold delete_all. cbn [foldl]. by rewrite (proj2 (Z.eqb_neq r 0)). }
  destruct signame as [name|]; cbn [finish_stdout].
  - eexists (set_fd STDOUT 0 (set_fd STDIN 0 p)), _. split; [|split; [reflexivity|split; [done|]]].
    + unfold mbnd, get_st, close_fd. cbn [fst snd]. rewrite Ho.
      by destruct (sys_close r (input_closed (Some name))).
    + replace (fd (set_fd STDOUT 0 (set_fd STDIN 0 p))) with [0; 0; 0; 0]
        by (unfold set_fd at 1; cbn [fd]; by rewrite Hp1).
      split; [done|]. rewrite <- Hall.
      by destruct (close_ok r (input_closed (Some name))) as [<- _].
  - destruct (drain_run fuel (set_fd STDIN 0 p) (input_closed None)) as (j' & E & Hd & Hf & Hs).
    + rewrite Ho, Hj, lookup_delete_all, bool_decide_eq_false_2; [done|]. set_solver.
    + rewrite Ho. apply Hcan.
    + rewrite Ho in *. exists (set_fd STDIN 0 p), j'. split; [exact E|]. split; [done|].
      split; [done|]. rewrite Hp1. split; [done|]. unfold delete_all at 1. cbn [foldl Z.eqb].
      rewrite (proj2 (Z.eqb_neq r 0)), Hf by done. exact Hall.
Qed.

Lemma with_spawn_done {A} (m : M sp A) q j a q' j' : m (q, j) = Done a (q', j') ->
  with_spawn m (Some q, j) = Done a (Some q', j').
Proof. intros E. unfold with_spawn, zoom. cbn [fst snd]. by rewrite E. Qed.

(** C37: [wait] closes the child's input, reads the child's output to its end (or sends the
    signal asked for and closes the output), and only then waits.  When the child ends, after
    any number of stops, it returns the exit code (0 for a child that was killed) and has
    closed everything the object held, which cannot be used after it; when [waitpid] fails it
    raises that error and the object stays. *)
Theorem wait_reaps signame : can_wait signame ->
  exists kw, awaits signame kw /\
    (forall st k1 m, reaps (pid p) kw st k1 m -> (m <= fuel)%nat ->
      exists k', spawn_wait fuel signame (Some p, k) = Done (WEXITSTATUS st) (None, k') /\
        fds k' = delete_all [w; r] (fds k)) /\
    (forall e k1, sys_waitpid (pid p) kw = Some (inr e, k1) -> (0 < fuel)%nat ->
      exists q, spawn_wait fuel signame (Some p, k) = Raised (ErrCode e) (Some q, k1)).
Proof.
  intros Hcan. destruct (signal_run signame Hcan) as [E0 _].
  pose proof (close_stdin_run signame Hcan) as E1.
  destruct (finish_run signame Hcan) as (q & kw & E2 & Haw & Hpid & Hl & Hf2).
  exists kw. split; [done|]. unfold spawn_wait, mbnd.
  rewrite (with_spawn_done _ _ _ _ _ _ E0), (with_spawn_done _ _ _ _ _ _ E1),
    (with_spawn_done _ _ _ _ _ _ E2). split.
  - intros st k3 m Hreap Hm. rewrite <- Hpid in Hreap.
    destruct (wait_exit_run q kw st k3 m Hreap fuel Hm) as [E3 Hf3].
    destruct (destroy_run q k3 Hl) as (q' & k4 & E4 & Hf4). exists k4. split; [|congruence].
    by rewrite (with_spawn_done _ _ _ _ _ _ E3), (with_spawn_done _ _ _ _ _ _ E4).
  - intros e k1 E Hpos. destruct fuel as [|n]; [lia|]. exists q.
    unfold with_spawn, zoom. cbn [wait_exit fst snd]. by rewrite Hpid, E.
Qed.
End Wait.
End WaitSpec.

(** ** A system, for evaluation *)

Module RefSpawn.

(** Descriptors, children's descriptors, what each descriptor has left to deliver, what was
    written to each; the children whose end was reported. *)
Record state := mk_sys {
  tab : table;
  kids : gmap Z table;
  outp : gmap Z (list byte);
  inp : gmap Z (list byte);
  reaped : gset Z;
}.

Definition top (l : list Z) : Z := foldr Z.max 2 l.

Definition pipe_of (e : file) : Z := match e with PRead p | PWrite p | Other p => p end.

Definition free_fd (s : state) : Z := 1 + top (map_to_list (tab s)).*1.
Definition free_pipe (s : state) : Z := 1 + top (pipe_of <$> (map_to_list (tab s)).*2).

Definition pipe (s : state) : option (Z * Z) * state :=
  let r := free_fd s in let p := free_pipe s in
  (Some (r, r + 1), mk_sys (<[r + 1 := PWrite p]> (<[r := PRead p]> (tab s))) (kids s) (outp s) (inp s) (reaped s)).

Definition left (s : state) (d : Z) : list byte := default [] (outp s !! d).
Definition got (s : state) (d : Z) : list byte := default [] (inp s !! d).

(** Three bytes at most in a call. *)
Definition read (d n : Z) (s : state) : option (Z * list byte * state) :=
  let bs := ztake (Z.min 3 n) (left s d) in
  Some (zlen bs, bs, mk_sys (tab s) (kids s) (<[d := zdrop (zlen bs) (left s d)]> (outp s)) (inp s) (reaped s)).

Definition write (d : Z) (bs : list byte) (s : state) : option (Z * state) :=
  let r := Z.min 3 (zlen bs) in
  Some (r, mk_sys (tab s) (kids s) (outp s) (<[d := got s d ++ ztake r bs]> (inp s)) (reaped s)).

(** A child has ended, and that is reported once: then there is no such child ([ECHILD]). *)
Definition waitpid (status : wstatus) (c : Z) (s : state) : option ((wstatus + Z) * state) :=
  Some (if bool_decide (c ∈ reaped s) then (inr 10, s)
        else (inl status, mk_sys (tab s) (kids s) (outp s) (inp s) ({[c]} ∪ reaped s))).

(** Children are numbered; each ends with the same status. *)
Definition system (status : wstatus) : Spawns := {|
  kernel := state;
  sys_pipe := pipe;
  sys_close d s := (0, mk_sys (delete d (tab s)) (kids s) (outp s) (inp s) (reaped s));
  file_actions_init _ := 0;
  file_actions_add _ _ := 0;
  spawnattr_init _ := 0;
  sys_spawnp _ acts _ _ s :=
    let c := 1 + top (map_to_list (kids s)).*1 in
    (inl c, mk_sys (tab s) (<[c := apply_actions acts (tab s)]> (kids s)) (outp s) (inp s) (reaped s));
  sys_kill _ _ s := (0, s);
  sys_read := read;
  sys_write := write;
  sys_waitpid := waitpid status;
  sys_waitid _ _ := inl 0;
  sys_errno _ := 0;
|}.

Lemma top_spec l : 2 <= top l /\ forall x, x ∈ l -> x <= top l.
Proof.
  unfold top. induction l as [|y l [IH1 IH2]]; cbn;
    [split; [lia|]; intros x Hx; by inversion Hx|].
  split; [lia|]. intros x [->|Hx]%elem_of_cons; [lia|]. specialize (IH2 x Hx). lia.
Qed.

Lemma free_fd_spec s d e : tab s !! d = Some e -> d < free_fd s /\ pipe_of e < free_pipe s.
Proof.
  intros H%elem_of_map_to_list. unfold free_fd, free_pipe.
  destruct (top_spec (map_to_list (tab s)).*1) as [_ H1].
  destruct (top_spec (pipe_of <$> (map_to_list (tab s)).*2)) as [_ H2].
  specialize (H1 d). specialize (H2 (pipe_of e)).
  assert (d ∈ (map_to_list (tab s)).*1) as Hd by (apply list_elem_of_fmap; by exists (d, e)).
  assert (pipe_of e ∈ pipe_of <$> (map_to_list (tab s)).*2) as He.
  { apply list_elem_of_fmap. exists e. split; [done|]. apply list_elem_of_fmap. by exists (d, e). }
  specialize (H1 Hd). specialize (H2 He). lia.
Qed.

#[export, program] Instance system_ok status : SpawnsOk (system status) := {|
  fds := (tab : @kernel (system status) -> table);
  child_fds s c := kids s !! c;
  stream := left : @kernel (system status) -> Z -> list byte;
  written := got : @kernel (system status) -> Z -> list byte;
|}.
Next Obligation.
  intros status k r w k' [= <- <- <-]. cbn.
  assert (forall d, free_fd k <= d -> tab k !! d = None) as Hfree.
  { intros d Hd. destruct (tab k !! d) as [e|] eqn:E; [|done].
    destruct (free_fd_spec k d e E). lia. }
  split; [lia|]. split; [apply Hfree; lia|]. split; [apply Hfree; lia|]. split; [|done].
  exists (free_pipe k). split; [done|]. intros d e E. destruct (free_fd_spec k d e E).
  split; intros ->; cbn in *; lia.
Qed.
Next Obligation. done. Qed.
Next Obligation. done. Qed.
Next Obligation.
  intros status f acts argv envp k c k' [= <- <-]. cbn. split; [done|]. intros c.
  case_decide; [subst; by rewrite lookup_insert_eq | by rewrite lookup_insert_ne by congruence].
Qed.
Next Obligation. done. Qed.
Next Obligation. done. Qed.
Next Obligation. intros status c k r k'. cbn. unfold waitpid. by case_bool_decide; intros [= <- <-]. Qed.
Next Obligation.
  intros status k d n Hn _ Hne. cbn in *. unfold read. set (bs := ztake _ _).
  assert (zlen bs <= Z.min 3 n /\ zlen bs <= zlen (left k d) /\ 0 < zlen bs) as (H1 & H2 & H3).
  { unfold bs, ztake, zlen. rewrite length_take.
    destruct (left k d); [done|]. cbn [length]. lia. }
  assert (bs = ztake (zlen bs) (left k d)) as Hb.
  { unfold bs, ztake, zlen. rewrite length_take, Nat2Z.id.
    destruct (Nat.le_ge_cases (Z.to_nat (Z.min 3 n)) (length (left k d))).
    - by rewrite Nat.min_l.
    - rewrite Nat.min_r, !take_ge by lia. done. }
  eexists _, _. split; [f_equal; f_equal; f_equal; exact Hb|]. split; [lia|]. split; [lia|].
  split; [|done]. unfold left at 1. cbn [outp]. by rewrite lookup_insert_eq.
Qed.
Next Obligation.
  intros status k d n Hn _ E. cbn in *. unfold read. rewrite E. unfold ztake.
  rewrite take_nil. eexists. split; [reflexivity|]. split; [|done].
  unfold left. cbn [outp]. by rewrite lookup_insert_eq.
Qed.
Next Obligation.
  intros status k d bs _ Hne. cbn in *. unfold write. eexists _, _. split; [reflexivity|].
  pose proof (zlen_nonneg bs). assert (zlen bs <> 0) by (destruct bs; [done|]; unfold zlen; cbn [length]; lia).
  split; [lia|]. split; [|done]. unfold got at 1. cbn [inp]. by rewrite lookup_insert_eq.
Qed.
End RefSpawn.

Section Runs.
#[local] Instance system : Spawns := RefSpawn.system (WSignaled SIGKILL).
#[local] Instance system_ok : SpawnsOk system := RefSpawn.system_ok (WSignaled SIGKILL).

Definition tostring (v : lua_value) : option (list byte) :=
  match v with LString s => Some s | _ => None end.

Definition terminal : table := {[0 := Other 0; 1 := Other 1; 2 := Other 2]}.
Definition boot (out : gmap Z (list byte)) : kernel := RefSpawn.mk_sys terminal ∅ out ∅ ∅.

Definition start (s : kernel) : outcome sp unit :=
  spawn_open tostring (LString (str "cat")) NoField NoField (new_spawn, s).

Lemma spawn_open_wires_witness :
  exists p k', start (boot ∅) = Done tt (p, k') /\
    fd_at STDIN p <> fd_at STDOUT p /\ exists w r a b, wired (boot ∅) p k' w r a b.
Proof.
  pose proof (spawn_open_wires (S := system) tostring (LString (str "cat")) NoField NoField (boot ∅)
    ltac:(by eexists) ltac:(by eexists) ltac:(done)) as H.
  eexists _, _. split; [vm_compute; reflexivity | exact H].
Defined.

(** Two children, one after the other: descriptor 4 is the input of the first. *)
Lemma later_child_holds_stdin_witness :
  exists p1 k1 p2 k2, start (boot ∅) = Done tt (p1, k1) /\ start k1 = Done tt (p2, k2) /\
    exists a t1 t2, child_fds k1 (pid p1) = Some t1 /\ t1 !! 0 = Some (PRead a) /\
      child_fds k2 (pid p2) = Some t2 /\ t2 !! 4 = Some (PWrite a).
Proof.
  eexists _, _, _, _. split; [vm_compute; reflexivity|]. split; [vm_compute; reflexivity|].
  eapply (later_child_holds_stdin (S := system) tostring (LString (str "cat")) NoField NoField
    (LString (str "cat")) NoField NoField (boot ∅));
    [by eexists | by eexists | done | done | vm_compute; reflexivity | vm_compute; reflexivity].
Defined.

(** An object with its input on 4 and its output on 5. *)
Definition child : spawn_t := mk_spawn 3 [0; 4; 5; 0] [].
Definition talking (text : list byte) : kernel :=
  RefSpawn.mk_sys (<[4 := PWrite 1]> (<[5 := PRead 2]> terminal)) ∅ {[5 := text]} ∅ ∅.
Definition two_lines : list byte := str "one" ++ [newline] ++ str "two".

Lemma stdout_reads_witness :
  exists k', spawn_stdout 20 (Format (str "*line")) (Some child, talking two_lines)
      = Done (Some (str "one")) (Some child, k') /\ stream k' 5 = str "two".
Proof.
  destruct (stdout_reads (S := system) 20 (Format (str "*line")) child (talking two_lines))
    as (ans & k' & E & [-> Hrest] & _); [by eexists | vm_compute; lia | done |].
  exists k'. split; [exact E | exact Hrest].
Defined.

Lemma stdin_writes_all_witness :
  exists k', spawn_stdin tostring 20 (Some (LString two_lines)) (Some child, talking [])
      = Done tt (Some child, k') /\ written k' 4 = two_lines.
Proof.
  destruct (stdin_writes_all (S := system) tostring 20 (LString two_lines) two_lines child (talking []))
    as (k' & E & Hw & _); [by eexists | done | vm_compute; lia |].
  exists k'. split; [exact E | exact Hw].
Defined.

Lemma second_close_closes_own_stdin_witness :
  exists k2, spawn_stdin tostring 0 None (Some (set_fd STDIN 0 child), (end_state (spawn_stdin tostring 0 None) (Some child, talking [])).2)
    = Done tt (Some (set_fd STDIN 0 child), k2) /\ fds k2 !! 0 = None.
Proof.
  destruct (second_close_closes_own_stdin (S := system) tostring 0 child (talking [])
    (end_state (spawn_stdin tostring 0 None) (Some child, talking [])).2) as (k2 & E & Hf);
    [vm_compute; reflexivity | cbn; lia | reflexivity |].
  exists k2. split; [exact E|]. rewrite Hf. apply lookup_delete_eq.
Defined.

Lemma wait_reaps_witness :
  exists k', spawn_wait 20 None (Some child, talking two_lines) = Done 0 (None, k') /\
    fds k' = delete_all [4; 5] (fds (talking two_lines)).
Proof.
  destruct (wait_reaps (S := system) 20 child 4 5 (talking two_lines)) with (signame := @None (list byte))
    as (kw & Haw & Hend & _).
  - reflexivity.
  - split; [done|]. split; [done | by eexists].
  - split; [vm_compute; lia | by right].
  - assert (RefSpawn.reaped kw = ∅) as Hk.
    { destruct Haw as [Hd _]. assert (RefSpawn.reaped (input_closed child 4 (talking two_lines) None) = ∅)
        as H0 by reflexivity. revert H0. induction Hd as [k bs k' [= _ _ <-]|k x bs k1 k' [= _ _ <-] _ _ IH]; auto. }
    eapply (Hend (WSignaled SIGKILL) _ 1%nat); [|lia]. apply reap_now; [|done].
    cbn. unfold RefSpawn.waitpid. by rewrite Hk.
Defined.
End Runs.
