(* ===== verification/Ownership.v ===== *)
(** * References that travel with values.

    A userdata saved into a ring buffer is its pointer: [rb_save] calls the object's
    [retain], and the userdata [rb_load] makes of the pointer calls [__gc] when it is
    collected.  This file composes the serializer, a channel or a workqueue, and the reference
    counts of the objects that are sent through it, and shows that the protocol keeps every
    object alive while a userdata or a message refers to it.  [Counted] is what a kind of object
    promises; mutexes, shared tables, marshal buffers and channels implement it.  [Carrier] is
    what the object they are sent through promises; channels and workqueues implement it. *)
From stdpp Require Import gmultiset.
From S2P Require Import Prelude RingBuffer Lua Serialize Pthread Growth Fifo Object Channel WorkQueue.
From S2P Require Import Mutex Marshal SharedTable.

#[local] Open Scope ipc_scope.

(** ** The log of a save *)

Section Logs.

(** [m] calls [retain] on the pointers [rs], in order: on all of them when it returns 0, on the
    first ones otherwise. *)
Definition logs (rs : list Z) (m : M save_state Z) : Prop :=
  forall st, match m st with
  | Done r st' => exists l, sv_retained st' = sv_retained st ++ l /\ l `prefix_of` rs /\
      (r = 0 -> l = rs)
  | Raised _ st' => exists l, sv_retained st' = sv_retained st ++ l /\ l `prefix_of` rs
  | _ => True
  end.

Lemma logs_quiet m rs :
  (forall st, match m st with
   | Done r st' => sv_retained st' = sv_retained st /\ (r = 0 -> rs = [])
   | Raised _ st' => sv_retained st' = sv_retained st
   | _ => True end) -> logs rs m.
Proof.
  intros H st. specialize (H st). destruct (m st) as [r st'|e st'| | |]; try done.
  - destruct H as [-> H]. exists []. rewrite app_nil_r. split; [done|]. split; [apply prefix_nil|].
    intros E. by rewrite H.
  - exists []. rewrite app_nil_r. split; [done | apply prefix_nil].
Qed.

Lemma logs_ret r rs : (r = 0 -> rs = []) -> logs rs (mret r).
Proof. intros H. by apply logs_quiet. Qed.

Lemma logs_raise e rs : logs rs (raise e).
Proof. by apply logs_quiet. Qed.

Lemma logs_WRITE bs : logs [] (RB_WRITE bs).
Proof.
  apply logs_quiet. intros st. unfold RB_WRITE. destruct (ringbuffer_write _ _ _) as [[n rb']|]; done.
Qed.

Lemma logs_seq rs1 rs2 m1 m2 : logs rs1 m1 -> logs rs2 m2 -> logs (rs1 ++ rs2) (m1 >>? m2).
Proof.
  intros H1 H2 st. specialize (H1 st). unfold and_then, mbnd.
  destruct (m1 st) as [r st1|e st1|st1| |]; try done.
  - destruct H1 as (l1 & E1 & P1 & Z1). destruct (Z.eqb_spec r 0) as [->|Hr].
    + rewrite Z1 in E1 by done. specialize (H2 st1).
      destruct (m2 st1) as [r2 st2|e2 st2|st2| |]; try done.
      * destruct H2 as (l2 & E2 & P2 & Z2). exists (rs1 ++ l2). rewrite E2, E1, app_assoc.
        split; [done|]. split; [by apply prefix_app|]. intros Hz. by rewrite Z2.
      * destruct H2 as (l2 & E2 & P2). exists (rs1 ++ l2). rewrite E2, E1, app_assoc.
        split; [done | by apply prefix_app].
    + exists l1. split; [done|]. split; [by apply prefix_app_r | done].
  - destruct H1 as (l1 & E1 & P1). exists l1. split; [done | by apply prefix_app_r].
Qed.

#[local] Hint Resolve logs_ret logs_raise logs_WRITE : ipc.

(** A block that retains nothing before the others. *)
Lemma logs_seq0 m1 m2 rs : logs [] m1 -> logs rs m2 -> logs rs (m1 >>? m2).
Proof. apply logs_seq. Qed.

Lemma logs_seq_r m1 m2 rs : logs rs m1 -> logs [] m2 -> logs rs (m1 >>? m2).
Proof. intros H1 H2. rewrite <- (app_nil_r rs). by apply logs_seq. Qed.

Lemma logs_writer fuel : forall inp, logs [] (rb_lua_writer_loop fuel inp).
Proof.
  induction fuel as [|fuel IH]; intros inp; cbn [rb_lua_writer_loop];
    destruct (0 <? zlen inp); auto using logs_seq0 with ipc.
  by intros st.
Qed.

Lemma logs_blocks blocks : logs [] (dump_blocks blocks).
Proof.
  induction blocks; cbn [dump_blocks]; unfold rb_lua_writer;
    auto using logs_seq0, logs_writer with ipc.
Qed.

Lemma logs_table m rs name : logs rs m -> logs rs (save_table m name).
Proof.
  intros H. unfold save_table. apply logs_seq0; [apply logs_WRITE|].
  apply logs_seq_r; auto using logs_seq0 with ipc.
Qed.

Lemma logs_unchecked (key : bool) m rs : logs rs m ->
  logs rs (let! ret := m in
           if negb (ret =? 0) && key then raise (ErrLua str_stack_key) else mret ret).
Proof.
  intros H st. specialize (H st). unfold mbnd. destruct (m st) as [r st1|e st1|st1| |]; try done.
  destruct H as (l & E & P & Hz). destruct (negb (r =? 0) && key); cbn; eauto.
Qed.

Context `{L : LuaApi}.

Lemma logs_integer n : logs [] (save_integer n).
Proof. unfold save_integer. case_cmp; auto using logs_seq0 with ipc. Qed.

Lemma logs_entries save es :
  Forall (fun e => logs (retains e.1) (save true e.1) /\ logs (retains e.2) (save false e.2)) es ->
  logs (concat (map (fun e => retains e.1 ++ retains e.2) es)) (save_entries save es).
Proof.
  induction 1 as [|[k x] es [Hk Hx] _ IH]; cbn; [auto with ipc|].
  rewrite <- app_assoc. auto using logs_seq.
Qed.

Lemma logs_upvalues save us : Forall (fun u => logs (retains u.2) (save u.2)) us ->
  forall i, logs (concat (map (fun u => if is_ENV u.1 || is_nil u.2 then [] else retains u.2) us))
              (save_upvalues save i us).
Proof.
  induction 1 as [|[name x] us Hx _ IH]; intros i; cbn; [auto with ipc|].
  destruct (is_ENV name || is_nil x); [apply IH|].
  auto using logs_seq0, logs_seq, logs_integer.
Qed.

(** A save retains the pointers of its value in order: all when it returns 0. *)
Lemma save_logs key oop upval v : logs (retains v) (rb_save_at key oop upval v).
Proof.
  revert key. induction v as [| | | | | |es mt IH| |is_lua code ups IH|ptr mt|] using lua_value_rect';
    intros key; cbn [rb_save_at retains]; auto using logs_seq0, logs_integer with ipc.
  - apply logs_table, logs_entries. by eapply Forall_impl; [exact IH|]; intros e [].
  - by intros st.
  - apply logs_seq0; [auto with ipc|]. destruct (negb is_lua); [auto with ipc|].
    do 3 (apply logs_seq0; [auto using logs_blocks with ipc|]).
    destruct (_ || _).
    + apply logs_seq0; [auto with ipc|]. apply logs_unchecked, logs_table, logs_upvalues.
      by eapply Forall_impl; [exact IH|].
    + destruct (Z.ltb_spec 0 (zlen ups)) as [|Hn]; [auto with ipc|]. apply logs_ret. intros _.
      destruct ups; [done|]. rewrite zlen_cons in Hn. pose proof (zlen_nonneg ups). lia.
  - destruct (negb (oop =? 0)); [by apply logs_ret|].
    destruct (userdata_name mt) as [[type str]|]; [|by apply logs_ret].
    do 4 (apply logs_seq0; [auto with ipc|]).
    unfold callmeta_retain. destruct (from_option mt_retain false mt); [|by apply logs_ret].
    cbn [negb]. destruct (ptr =? 0); [apply logs_raise|]. intros st. exists [ptr]. done.
Qed.
End Logs.

(** ** The log of a write *)

(** The references in a multiset of pointers, and those a list of values holds. *)
Definition refs_of (l : list Z) : gmultiset Z := list_to_set_disj l.
Definition values_refs (vs : list lua_value) : gmultiset Z := refs_of (concat (map retains vs)).

Lemma refs_of_app l1 l2 : refs_of (l1 ++ l2) = refs_of l1 ⊎ refs_of l2.
Proof. apply list_to_set_disj_app. Qed.

Lemma values_refs_app vs ws : values_refs (vs ++ ws) = values_refs vs ⊎ values_refs ws.
Proof. unfold values_refs. by rewrite map_app, concat_app, refs_of_app. Qed.

Lemma values_refs_perm vs ws : vs ≡ₚ ws -> values_refs vs = values_refs ws.
Proof.
  intros H. unfold values_refs, refs_of.
  assert (concat (map retains vs) ≡ₚ concat (map retains ws)) as ->; [|done].
  induction H as [|v vs ws _ IH|v w vs|vs ws us _ IH1 _ IH2]; cbn; [done | by rewrite IH | |].
  - rewrite !app_assoc. f_equiv. apply Permutation_app_comm.
  - by rewrite IH1.
Qed.

Lemma elem_of_refs p l : p ∈ refs_of l <-> p ∈ l.
Proof. apply elem_of_list_to_set_disj. Qed.

Section Writes.
Context `{L : LuaApi}.

#[local] Arguments write_loop _ !_ _ _ !_ _ : simpl nomatch.

Lemma values_refs_cons v vs : values_refs (v :: vs) = refs_of (retains v) ⊎ values_refs vs.
Proof. unfold values_refs. cbn. apply refs_of_app. Qed.

Lemma prefix_refs v vs l p : l `prefix_of` retains v -> p ∈ l -> p ∈ values_refs (v :: vs).
Proof.
  intros [k E] Hp. rewrite values_refs_cons, gmultiset_elem_of_disj_union, elem_of_refs, E.
  left. set_solver.
Qed.

(** What a turn that failed has retained was retained for nothing: the log of a loop
    holds the pointers of the values at least once, and no others. *)
Lemma write_loop_logs fuel n upval : forall vs q r q',
  write_loop fuel n upval vs q = Done r q' ->
  exists l, sv_retained (qc_sv q') = sv_retained (qc_sv q) ++ l /\
    (forall p, p ∈ l -> p ∈ values_refs vs) /\ (r = 0 -> values_refs vs ⊆ refs_of l).
Proof.
  induction fuel as [|fuel IH]; intros vs q r q' E; (destruct vs as [|v vs];
    [injection E as <- <-; exists []; rewrite app_nil_r; split; [done|]; split; [|done];
     intros p Hp; by apply elem_of_nil in Hp | cbn [write_loop] in E]); [done|].
  unfold mbnd, on_sv, zoom, rb_push, rb_pop, rb_grow, modify_st in E. cbn [qc_sv qc_num] in E.
  pose proof (save_logs false 0 upval v
    (mk_sv (ringbuffer_push_write_pos (sv_rb (qc_sv q))) (sv_retained (qc_sv q)))) as Hl.
  fold (rb_save 0 upval v) in Hl.
  destruct (rb_save 0 upval v _) as [r1 st1|e st1|st1| |]; try done.
  destruct Hl as (l1 & E1 & P1 & Z1). cbn [sv_retained] in E1.
  pose proof (prefix_refs v vs l1) as Hin.
  destruct (r1 =? - ENOMEM); [|destruct (Z.eqb_spec r1 0) as [->|]]; cbn [negb] in E.
  - cbn [qc_sv qc_num sv_rb sv_retained] in E.
    destruct (ringbuffer_grow_by _ n) as [rb'|]; [|done].
    apply IH in E as (l2 & E2 & I2 & Z2). cbn [qc_sv sv_retained] in E2.
    exists (l1 ++ l2). rewrite E2, E1, app_assoc, refs_of_app. split; [done|]. split.
    + intros p [?|?]%elem_of_app; auto.
    + intros Hr. specialize (Z2 Hr). multiset_solver.
  - apply IH in E as (l2 & E2 & I2 & Z2). cbn [qc_sv sv_retained] in E2.
    exists (l1 ++ l2). rewrite E2, E1, app_assoc. split; [done|]. split.
    + intros p [?|?]%elem_of_app; [by auto|]. rewrite values_refs_cons. set_solver.
    + intros Hr. specialize (Z2 Hr). rewrite Z1, values_refs_cons, refs_of_app by done.
      multiset_solver.
  - injection E as <- <-. cbn [qc_sv sv_retained]. exists l1. by split; [|split; [auto|]].
Qed.

(** The log of a write to an open channel is the log of its loop. *)
Lemma channel_write_loop fuel t vs c log items c' log' :
  chan_rep c items -> closed c = false ->
  channel_write fuel t vs (c, log) = Done STATUS_OPEN (c', log') ->
  exists q', write_loop fuel (Channel.size_increment c) 0 vs
      (mk_qc (mk_sv (Channel.rb c) log) (num_items c)) = Done 0 q' /\
    log' = sv_retained (qc_sv q').
Proof.
  intros [Hh Hn Hm Hmu Hi Hd] Hc E. unfold channel_write in E. rewrite lock_run in E by done.
  unfold get_ch at 1 in E. unfold mbnd at 1 in E. rewrite Hc in Hd. cbn in Hd, E.
  rewrite Hd, Hc in E. unfold mbnd at 1, on_core, zoom in E. cbn in E.
  destruct (write_loop _ _ _ _ _) as [r q'|? ?|?| |]; try done.
  destruct (Z.eqb_spec r 0) as [->|]; cbn [negb] in E.
  - exists q'. split; [done|]. unfold mbnd, signal, upd, modify_st, mret in E. cbn in E.
    destruct (Channel.unlock t _) as [[] [c1 log1]|? ?|?| |] eqn:Eu; try done.
    injection E as <- <-. unfold Channel.unlock in Eu. cbn in Eu. rewrite Z.eqb_refl in Eu.
    by injection Eu as _ <-.
  - unfold mbnd in E. by destruct (Channel.unlock t _) as [[] [c1 log1]|? ?|?| |].
Qed.

Lemma channel_write_logs fuel t vs c log items c' log' :
  chan_rep c items -> closed c = false ->
  channel_write fuel t vs (c, log) = Done STATUS_OPEN (c', log') ->
  exists l, log' = log ++ l /\ (forall p, p ∈ l -> p ∈ values_refs vs) /\
    values_refs vs ⊆ refs_of l.
Proof.
  intros Hrep Hc E. destruct (channel_write_loop _ _ _ _ _ _ _ _ Hrep Hc E) as (q' & El & ->).
  apply write_loop_logs in El as (l & -> & I1 & Z1). eauto.
Qed.

(** Where everything fits there is one log entry for each reference. *)
Lemma write_loop_fits n vs : forall fuel q r q',
  ring_ok (sv_rb (qc_sv q)) -> forallb (writable 0) vs = true ->
  demand q 0 vs <= cb (sv_rb (qc_sv q)) -> write_loop fuel n 0 vs q = Done r q' ->
  sv_retained (qc_sv q') = sv_retained (qc_sv q) ++ concat (map retains vs).
Proof.
  induction vs as [|v vs IH]; intros fuel q r q' Hok Hvs Hd E.
  - destruct fuel; injection E as <- <-; by rewrite app_nil_r.
  - cbn [forallb] in Hvs. apply andb_prop in Hvs as [Hv Hvs]. destruct fuel as [|fuel]; [done|].
    destruct (writable_item 0 (or_introl eq_refl) v Hv) as (bs & _ & Eb & Hlen & _).
    unfold demand in *. rewrite total_len_cons, Hlen in Hd. pose proof (total_len_nonneg 0 vs).
    destruct (attempt_fits 0 v bs Eb (qc_sv q) Hok) as (rb' & E1 & Hok' & Hc' & Hcb');
      [unfold free_space; lia|].
    assert (rcb rb' = rcb (sv_rb (qc_sv q)) + zlen bs) as Hrcb.
    { rewrite <- (zlen_contents rb') by apply Hok'. rewrite Hc', zlen_app, zlen_fmap.
      by rewrite zlen_contents by apply Hok. }
    rewrite (write_loop_saved _ _ _ _ _ _ _ E1) in E. apply IH in E; cbn [qc_sv sv_rb] in *;
      [| done | done | lia]. rewrite E. cbn [sv_retained map concat]. by rewrite app_assoc.
Qed.

(** A closure without references in its upvalues. *)
Definition bare (us : list (list byte * lua_value)) : Prop := Forall (fun u => retains u.2 = []) us.

Lemma bare_retains is_lua code us : bare us -> retains (LFunction is_lua code us) = [].
Proof.
  intros H. cbn [retains]. induction H as [|u us Hu _ IH]; [done|]. cbn. rewrite IH, Hu.
  by destruct (_ || _).
Qed.

Lemma bare_fresh code : bare (fresh_upvalues code).
Proof.
  assert (bare ((fun name => (name, LNil)) <$> lua_upvalue_names code)) as H
    by (apply List.Forall_forall; intros u (n & -> & _)%list_elem_of_In%list_elem_of_fmap; done).
  unfold fresh_upvalues. destruct (_ <$> _) as [|u us]; [done|].
  destruct (502 <=? _); [|done]. inversion H; subst. by constructor.
Qed.

Lemma bare_rebuilt code e : bare (default [] (rebuild_upvalues code e [])).
Proof.
  unfold rebuild_upvalues, set_env, lua_setupvalue. pose proof (bare_fresh code) as H.
  destruct (0 <? e); cbn; [|done]. destruct (nthz _ _) as [u|]; cbn; [|constructor].
  by apply Forall_insert.
Qed.

(** Saved by value, a function holds no reference; the copy of a value holds the references
    of the value. *)
Lemma enc_function is_lua code ups : is_Some (enc 0 0 (LFunction is_lua code ups)) ->
  forallb (fun u => is_ENV u.1) ups = true.
Proof.
  cbn [enc]. destruct is_lua; [cbn [negb]|by intros []]. change (0 =? 1) with false.
  destruct ups as [|u [|u' ups]]; [done| |].
  - change (zlen [u]) with 1. cbn [Z.eqb Pos.eqb andb orb].
    destruct (forallb _ _); [done|]. by intros [].
  - intros H. exfalso. destruct H as [bs H]. rewrite !zlen_cons in H.
    pose proof (zlen_nonneg ups).
    rewrite (proj2 (Z.eqb_neq (1 + (1 + zlen ups)) 1)) in H by lia. cbn in H.
    by rewrite (proj2 (Z.ltb_lt 0 _)) in H by lia.
Qed.

Lemma only_ENV ups : forallb (fun u => is_ENV u.1) ups = true ->
  forall tr i, loaded_upvalues tr i ups = [] /\
    concat (map (fun u => if is_ENV u.1 || is_nil u.2 then [] else retains u.2) ups) = [].
Proof.
  induction ups as [|[n x] ups IH]; [done|]. cbn. intros [-> H]%andb_prop tr i. cbn.
  by apply IH.
Qed.

Lemma transported_retains v : is_Some (enc 0 0 v) -> retains (transported v) = retains v.
Proof.
  induction v as [| | | | | |es mt IH| |is_lua code ups _|ptr mt|] using lua_value_rect';
    intros He; try done.
  - cbn [enc] in He. destruct He as [bs He]. apply bind_Some in He as (body & He & _).
    cbn [transported retains]. revert body He.
    induction IH as [|[k x] es [Hk Hx] _ IH]; intros body He; [done|]. cbn in *.
    apply bind_Some in He as (bk & Ek & He). apply bind_Some in He as (bx & Ex & He).
    apply bind_Some in He as (b & Eb & _). rewrite Hk, Hx, (IH b) by eauto. done.
  - apply enc_function in He. cbn [transported]. destruct (only_ENV ups He transported 1) as [-> E].
    rewrite bare_retains by apply bare_rebuilt. by symmetry.
Qed.
End Writes.

(** ** Objects that count their references *)

(** What a kind of object promises to those that keep userdata of it: [obj_new] makes an
    object with one reference, [retain] and [__gc] count, and the object is freed with the
    last reference.  [obj_idle] is what holds of it between calls. *)
Class Counted (T : Type) := {
  obj_new : T;
  obj_refs : T -> Z;
  obj_idle : T -> Prop;
  obj_retain : Z -> M (world T) unit;
  obj_gc : Z -> M (world T) unit;
}.

Class CountedOk {T} (K : Counted T) : Prop := {
  new_one : obj_refs obj_new = 1 /\ obj_idle obj_new;
  retain_counts p w x : objs w !! p = Some x -> obj_idle x ->
    exists w' x', obj_retain p w = Done tt w' /\ objs w' = <[p := x']> (objs w) /\
      obj_idle x' /\ obj_refs x' = obj_refs x + 1;
  gc_counts p w x : objs w !! p = Some x -> obj_idle x ->
    exists w', obj_gc p w = Done tt w' /\
      if obj_refs x =? 1 then objs w' = delete p (objs w)
      else exists x', objs w' = <[p := x']> (objs w) /\ obj_idle x' /\
             obj_refs x' = obj_refs x - 1
}.

Section Instances.
Context `{TH : THAtomic} {THok : THAtomicOk TH}.

(** Objects released with [release] and retained without a lock. *)
Lemma release_counts {T} (refs : T -> Z) set_refs p w x :
  (forall r, refs (set_refs r x) = r) -> objs w !! p = Some x ->
  exists b w', release refs set_refs p w = Some (b, w') /\
    if refs x =? 1 then objs w' = delete p (objs w)
    else objs w' = <[p := set_refs (refs x - 1) x]> (objs w).
Proof.
  intros Hset Ex. unfold release. rewrite Ex, TH_decrement.
  eexists _, _. split; [done|]. cbn.
  destruct (Z.eqb_spec (refs x) 1), (Z.eqb_spec (refs x - 1) 0); by lia || done.
Qed.

Ltac counted_free refs set_refs :=
  split; [done | |]; intros p w x Ex _;
  [ eexists _, _; unfold obj_retain; cbn; unfold on_object; rewrite Ex; cbn;
    rewrite TH_increment; done
  | destruct (release_counts refs set_refs p w x (fun _ => eq_refl) Ex) as (b & w' & Er & H);
    exists w'; cbn [obj_gc obj_refs obj_idle] in *; split;
    [ cbv [mbnd mret mutex_gc sharedtable_gc marshal_gc marshal_close]; by rewrite Er
    | destruct (_ =? 1); eauto ] ].

#[export] Instance mutex_counted : Counted mutex_t := {|
  obj_new := mutex_create;
  obj_refs := Mutex.ref_count;
  obj_idle _ := True;
  obj_retain := mutex_retain;
  obj_gc := mutex_gc;
|}.

#[export] Instance mutex_counted_ok : CountedOk mutex_counted.
Proof. unfold mutex_counted. counted_free Mutex.ref_count Mutex.set_ref_count. Qed.

(** An empty shared table, as [sharedtable_create] makes one. *)
#[export] Instance sharedtable_counted : Counted sharedtable_t := {|
  obj_new := new_table BUFFER_SIZE BUFFER_SIZE;
  obj_refs := SharedTable.ref_count;
  obj_idle _ := True;
  obj_retain := sharedtable_retain;
  obj_gc := sharedtable_gc;
|}.

#[export] Instance sharedtable_counted_ok : CountedOk sharedtable_counted.
Proof. unfold sharedtable_counted. counted_free SharedTable.ref_count SharedTable.set_ref_count. Qed.

#[export] Instance marshal_counted : Counted marshal_t := {|
  obj_new := marshal_new DEFAULT_MARSHAL_SIZE DEFAULT_MARSHAL_SIZE;
  obj_refs := Marshal.refcount;
  obj_idle _ := True;
  obj_retain p := marshal_retain (Some p);
  obj_gc p := marshal_gc (Some p) ;;; mret tt;
|}.

#[export] Instance marshal_counted_ok : CountedOk marshal_counted.
Proof. unfold marshal_counted. counted_free Marshal.refcount Marshal.set_refcount. Qed.

(** Channels count under their mutex; the calls are thread 0's. *)
#[export] Instance channel_counted : Counted channel_t := {|
  obj_new := channel_create;
  obj_refs := Channel.refcount;
  obj_idle c := Channel.mutex c = mutex_init true;
  obj_retain p := on_object (Some p) str_invalid (channel_retain 0);
  obj_gc p := channel_gc 0 (Some p) ;;; mret tt;
|}.

#[export] Instance channel_counted_ok : CountedOk channel_counted.
Proof.
  unfold channel_counted. split; [done | |]; cbn [obj_refs obj_idle obj_retain obj_gc]; intros p w x Ex Hx.
  - cbn. rewrite Ex. unfold channel_retain. rewrite lock_run by done.
    unfold mbnd, upd, modify_st. rewrite unlock_last by done. cbn. eexists _, _.
    split; [done|]. split; [done|]. by rewrite TH_increment.
  - unfold mbnd, channel_gc. rewrite Ex, Hx. cbn. rewrite TH_decrement.
    destruct (Z.eqb_spec (Channel.refcount x) 1), (Z.eqb_spec (Channel.refcount x - 1) 0);
      cbn; try lia; eexists; (split; [done|]); [done|]. eexists. split; [done|]. by cbn.
Qed.
End Instances.

(** ** Objects that carry values *)

(** What is promised by an object that threads write values to and read values from:
    [cr_flight] says which values are on their way, in any order; a write calls [retain]
    on the pointers it returns, [cr_room] bounds it, and when [cr_fits] holds no save is made
    twice; [cr_other] are the other calls. *)
Class Carrier `{L : LuaApi} (C : Type) := {
  cr_calls : Type;
  cr_new : C;
  cr_flight : C -> list lua_value -> Prop;
  cr_room : Z -> list lua_value -> C -> Prop;
  cr_fits : Z -> list lua_value -> C -> Prop;
  cr_write : Z -> list lua_value -> C -> option (list Z * C);
  cr_read : Z -> C -> option (option lua_value * C);
  cr_other : Z -> cr_calls -> C -> option C;
}.

(** What a write that returns has retained. *)
Definition write_log `{L : LuaApi} (fits : Prop) (vs : list lua_value) (log : list Z) : Prop :=
  (forall p, p ∈ log -> p ∈ values_refs vs) /\ values_refs vs ⊆ refs_of log /\
  (fits -> log = concat (map retains vs)).

(** A write may be refused, with nothing retained; a read takes one of the values, or none. *)
Class CarrierOk `{L : LuaApi} {C} (Cr : Carrier C) : Prop := {
  cr_new_ok : cr_flight cr_new [];
  cr_write_ok t vs c items : cr_flight c items -> forallb (writable 0) vs = true -> cr_room t vs c ->
    exists log c', cr_write t vs c = Some (log, c') /\
      (log = [] /\ cr_flight c' items \/
       write_log (cr_fits t vs c) vs log /\ cr_flight c' (items ++ vs));
  cr_read_ok t c items : cr_flight c items ->
    exists o c', cr_read t c = Some (o, c') /\
      match o with
      | None => cr_flight c' items
      | Some x => exists v rest, x = transported v /\ items ≡ₚ v :: rest /\ cr_flight c' rest
      end;
  cr_other_ok t k c items : cr_flight c items ->
    exists c', cr_other t k c = Some c' /\ cr_flight c' items;
}.

Section Carriers.
Context `{L : LuaApi} {Lok : LuaApiOk L}.

(** A loop that saved everything. *)
Lemma write_loop_log fuel n vs rb num q' :
  ring_ok rb -> forallb (writable 0) vs = true ->
  write_loop fuel n 0 vs (mk_qc (mk_sv rb []) num) = Done 0 q' ->
  write_log (rcb rb + total_len 0 vs <= cb rb) vs (sv_retained (qc_sv q')).
Proof.
  intros Hok Hw E. split; [|split].
  1, 2: by destruct (write_loop_logs _ _ _ _ _ _ _ E) as (l & -> & I & Z1); auto.
  intros Hf. apply (write_loop_fits n vs fuel _ 0 q') in E; done.
Qed.

(** Channels; [close] is the other call that changes one. *)
Inductive channel_call := ChannelClose.

#[export] Instance channel_carrier : Carrier channel_t := {|
  cr_calls := channel_call;
  cr_new := channel_create;
  cr_flight := chan_rep;
  cr_room _ vs c := num_items c + zlen vs < U32_MOD /\
    rcb (Channel.rb c) + total_len 0 vs + DEFAULT_CHANNEL_SIZE < 2 ^ 63;
  cr_fits _ vs c := rcb (Channel.rb c) + total_len 0 vs <= cb (Channel.rb c);
  cr_write t vs c :=
    match channel_write (channel_write_fuel c vs) t vs (c, []) with
    | Done _ (c', log) => Some (log, c') | _ => None end;
  cr_read t c :=
    match channel_read t true (c, []) with Done (_, v) (c', _) => Some (v, c') | _ => None end;
  cr_other t _ c := match channel_close t (c, []) with Done _ (c', _) => Some c' | _ => None end;
|}.

#[export] Instance channel_carrier_ok : CarrierOk channel_carrier.
Proof.
  split; cbn [cr_flight cr_new cr_write cr_read cr_other cr_room cr_fits channel_carrier].
  - apply create_rep.
  - intros t vs c items Hc Hw [Hn Hb]. destruct (closed c) eqn:Ecl.
    + rewrite (write_closed _ _ _ _ items) by done. eexists _, _. split; [done|]. by left.
    + rewrite (rep_num _ _ Hc) in Hn.
      destruct (write_open t (channel_write_fuel c vs) c [] items vs Hc Ecl Hw)
        as (c' & log & E & Hc' & _); [done | done | lia |].
      destruct (channel_write_loop _ _ _ _ _ _ _ _ Hc Ecl E) as (q' & El & ->).
      rewrite E. eexists _, _. split; [done|]. right. split; [|done].
      eapply write_loop_log; [by destruct (rep_holds _ _ Hc) | done | done].
  - intros t c [|v items] Hc.
    + rewrite read_empty by (done || by rewrite orb_true_r). by eexists _, _.
    + destruct (read_item t true c [] v items Hc) as (c' & -> & Hc' & _).
      eexists _, _. split; [done|]. by exists v, items.
  - intros t _ c items Hc. destruct (channel_close_spec t c [] items Hc) as (c' & -> & Hc' & _).
    by exists c'.
Qed.

(** Workqueues; their other call is [drain], whether it is refused, sleeps or returns. *)
Inductive workqueue_call := WorkqueueDrain.

Definition workqueue_items (w : workqueue_t) (items : list lua_value) : Prop :=
  0 < WorkQueue.size_increment w < FIFO_MAX /\ zlen items < U32_MOD /\
  exists a, WorkQueue.simulates (owner_thread w) (WorkQueue.size_increment w) (w, []) a
      (Z.max (rcb (q_rb (questions w))) (rcb (q_rb (answers w)))) /\
    items ≡ₚ WorkQueue.Spec.aw_questions a ++ WorkQueue.Spec.aw_answers a.

Definition workqueue_carrier (owner size inc : Z) : Carrier workqueue_t := {|
  cr_calls := workqueue_call;
  cr_new := fresh_workqueue owner size inc;
  cr_flight := workqueue_items;
  cr_room _ vs w := q_num_items (questions w) + q_num_items (answers w) + zlen vs < U32_MOD /\
    Z.max (rcb (q_rb (questions w))) (rcb (q_rb (answers w))) + total_len 0 vs < FIFO_MAX;
  cr_fits t vs w := rcb (q_rb (write_end t w)) + total_len 0 vs <= cb (q_rb (write_end t w));
  cr_write t vs w :=
    match workqueue_write (queue_write_fuel (write_end t w) 0 vs) t vs (w, []) with
    | Done _ (w', log) => Some (log, w') | _ => None end;
  cr_read t w :=
    match workqueue_read t true (w, []) with Done v (w', _) => Some (v, w') | _ => None end;
  cr_other t _ w :=
    match workqueue_drain t (w, []) with
    | Done _ (w', _) | Blocked (w', _) | Raised _ (w', _) => Some w' | _ => None end;
|}.

(** The log of a write to a queue is the log of its loop. *)
Lemma queue_write_loop fuel t vs inc upval q items q' log :
  queue_rep q items ->
  workqueue_queue_write fuel t vs inc upval (q, []) = Done tt (q', log) ->
  exists c', write_loop fuel inc upval vs (mk_qc (mk_sv (q_rb q) []) (q_num_items q)) = Done 0 c' /\
    log = sv_retained (qc_sv c').
Proof.
  intros [_ _ _ Hmu] E. unfold workqueue_queue_write, mbnd in E. rewrite qlock_free in E by done.
  unfold q_on_core, zoom in E. cbn in E.
  destruct (write_loop _ _ _ _ _) as [r c'|? ?|?| |]; try done. exists c'.
  destruct (Z.eqb_spec r 0) as [->|]; cbn [negb] in E.
  - split; [done|]. unfold qsignal, modify_st in E. rewrite qunlock_held in E by done.
    by injection E as _ <-.
  - by rewrite qunlock_held in E by done.
Qed.

(** The state of a method with another log. *)
Lemma simulates_log owner inc w log log' a used :
  WorkQueue.simulates owner inc (w, log) a used ->
  WorkQueue.simulates owner inc (w, log') a (Z.max (rcb (q_rb (questions w))) (rcb (q_rb (answers w)))).
Proof. intros []. split; cbn in *; try done; lia. Qed.

Lemma workqueue_items_of owner inc w log a used :
  0 < inc < FIFO_MAX -> WorkQueue.simulates owner inc (w, log) a used -> items_of a < U32_MOD ->
  workqueue_items w (Spec.aw_questions a ++ WorkQueue.Spec.aw_answers a).
Proof.
  intros Hi Hs Hn. pose proof Hs as [Ho Hinc]. cbn in Ho, Hinc. unfold workqueue_items.
  rewrite Ho, Hinc. split; [done|]. split; [by rewrite zlen_app|]. exists a.
  split; [by eapply simulates_log | done].
Qed.

Lemma workqueue_items_perm w items items' :
  items ≡ₚ items' -> workqueue_items w items -> workqueue_items w items'.
Proof.
  intros Hp (Hi & Hn & a & Hs & Ha). split; [done|]. split.
  - by rewrite <- Hp.
  - exists a. split; [done|]. by rewrite <- Hp.
Qed.

Lemma workqueue_write_logs fuel t vs w items w' log :
  workqueue_items w items -> forallb (writable 0) vs = true ->
  workqueue_write fuel t vs (w, []) = Done tt (w', log) ->
  write_log (rcb (q_rb (write_end t w)) + total_len 0 vs <= cb (q_rb (write_end t w))) vs log.
Proof.
  intros (_ & _ & a & Hs & _) Hw E.
  pose proof (sim_questions _ _ _ _ _ Hs) as Hq. pose proof (sim_answers _ _ _ _ _ Hs) as Ha.
  cbn [fst] in Hq, Ha. unfold workqueue_write, write_any, mbnd, get_st, write_end in *. cbn in E.
  destruct (owner_thread w =? t); unfold on_questions, on_answers, zoom in E; cbn in E;
    destruct (workqueue_queue_write _ _ _ _ _ _) as [[] [q' log']| | | |] eqn:Ew; try done;
    injection E as _ <-; eapply queue_write_loop in Ew as (c' & El & ->); try done;
    (eapply write_loop_log; [|exact Hw|exact El]; by destruct (qr_holds _ _ Hq), (qr_holds _ _ Ha)).
Qed.

Lemma workqueue_write_carried t vs w items :
  workqueue_items w items -> forallb (writable 0) vs = true ->
  q_num_items (questions w) + q_num_items (answers w) + zlen vs < U32_MOD ->
  Z.max (rcb (q_rb (questions w))) (rcb (q_rb (answers w))) + total_len 0 vs < FIFO_MAX ->
  exists w' log, workqueue_write (queue_write_fuel (write_end t w) 0 vs) t vs (w, [])
      = Done tt (w', log) /\ workqueue_items w' (items ++ vs).
Proof.
  intros (Hi & _ & a & Hs & Hp) Hw Hn Hb.
  pose proof (qr_num _ _ (sim_questions _ _ _ _ _ Hs)) as E1.
  pose proof (qr_num _ _ (sim_answers _ _ _ _ _ Hs)) as E2. cbn in E1, E2.
  assert (items_of a + zlen vs < U32_MOD) as Hn' by (unfold items_of; lia).
  destruct (WorkQueue.write_sim _ _ Hi _ _ _ t 0 vs Hs Hw Hn' Hb) as ([w' log'] & E & Hs').
  cbn [wq_step] in E. unfold workqueue_write. cbn [fst] in E.
  destruct (write_any _ _ _ _ _) as [[] s'| | | |]; try done. injection E as ->.
  exists w', log'. split; [done|].
  apply (workqueue_items_of _ _ _ _ _ _ Hi) in Hs'.
  - eapply workqueue_items_perm; [|exact Hs']. rewrite Hp. cbn.
    destruct (_ =? _); cbn; [|by rewrite app_assoc]. rewrite <- !app_assoc. f_equiv.
    apply Permutation_app_comm.
  - unfold items_of in *. cbn. destruct (_ =? _); cbn; rewrite zlen_app; lia.
Qed.

(** A read that does not wait takes the first value of the queue the thread reads. *)
Lemma take_flight t items waiting :
  match WorkQueue.Spec.take t true items waiting with
  | (WorkQueue.Spec.Value None, rest, _) => rest = items
  | (WorkQueue.Spec.Value (Some x), rest, _) => exists v, x = transported v /\ items = v :: rest
  | _ => False
  end.
Proof. destruct items as [|v items]; cbn; eauto. Qed.

Lemma workqueue_read_carried t w items :
  workqueue_items w items ->
  exists o w' log, workqueue_read t true (w, []) = Done o (w', log) /\
    match o with
    | None => workqueue_items w' items
    | Some x => exists v rest, x = transported v /\ items ≡ₚ v :: rest /\ workqueue_items w' rest
    end.
Proof.
  intros (Hi & Hn & a & Hs & Hp).
  assert (items_of a < U32_MOD) as Hn' by (unfold items_of; rewrite Hp, zlen_app in Hn; lia).
  destruct (WorkQueue.read_sim _ _ Hi _ _ _ t true Hs) as ([w' log'] & E & Hs' & Hle).
  assert (workqueue_items w' (WorkQueue.Spec.aw_questions (WorkQueue.Spec.step (owner_thread w) a
    (WorkQueue.Spec.Read t true)).2 ++ WorkQueue.Spec.aw_answers (WorkQueue.Spec.step
    (owner_thread w) a (WorkQueue.Spec.Read t true)).2)) as Hw'
    by (eapply workqueue_items_of; [exact Hi | exact Hs' | lia]).
  clear Hs' Hle. cbn [wq_step WorkQueue.Spec.step] in E, Hw'.
  pose proof (take_flight t (WorkQueue.Spec.aw_answers a) (WorkQueue.Spec.aw_waiting_a a)) as Ha.
  pose proof (take_flight t (WorkQueue.Spec.aw_questions a) (WorkQueue.Spec.aw_waiting_q a)) as Hq.
  destruct (owner_thread w =? t).
  - destruct (WorkQueue.Spec.take t true (WorkQueue.Spec.aw_answers a) _) as [[[|o| |] l] wt];
      cbn [fst snd] in E, Hw', Ha; try done.
    destruct (workqueue_read _ _ _) as [o' s'|? ?|?| |]; try done. injection E as -> ->.
    exists o, w', log'. split; [done|]. destruct o as [x|].
    + destruct Ha as (v & -> & Ea). exists v, (WorkQueue.Spec.aw_questions a ++ l). split; [done|].
      split; [|done]. rewrite Hp, Ea. by rewrite Permutation_middle.
    + subst l. by eapply workqueue_items_perm; [symmetry|].
  - destruct (WorkQueue.Spec.take t true (WorkQueue.Spec.aw_questions a) _) as [[[|o| |] l] wt];
      cbn [fst snd] in E, Hw', Hq; try done.
    destruct (workqueue_read _ _ _) as [o' s'|? ?|?| |]; try done. injection E as -> ->.
    exists o, w', log'. split; [done|]. destruct o as [x|].
    + destruct Hq as (v & -> & Eq). exists v, (l ++ WorkQueue.Spec.aw_answers a). split; [done|].
      split; [|done]. by rewrite Hp, Eq.
    + subst l. by eapply workqueue_items_perm; [symmetry|].
Qed.

Lemma workqueue_drain_carried t w items :
  workqueue_items w items ->
  exists w', match workqueue_drain t (w, []) with
    | Done _ (w', _) | Blocked (w', _) | Raised _ (w', _) => Some w' | _ => None end = Some w' /\
    workqueue_items w' items.
Proof.
  intros (Hi & Hn & a & Hs & Hp).
  assert (items_of a < U32_MOD) as Hn' by (unfold items_of; rewrite Hp, zlen_app in Hn; lia).
  destruct (WorkQueue.drain_sim _ _ _ _ _ t Hs Hn') as ([w' log'] & E & Hs' & Hle).
  exists w'. split.
  - cbn [wq_step] in E. by destruct (workqueue_drain t (w, [])) as [? []|? []|[]| |]; simplify_eq.
  - apply (workqueue_items_of _ _ _ _ _ _ Hi) in Hs'; [|lia].
    eapply workqueue_items_perm; [|exact Hs']. rewrite Hp. cbn.
    destruct (_ =? _); [|done]. by destruct a as [[|??] ? ? ?].
Qed.

Lemma workqueue_carrier_ok owner size inc :
  0 < size < FIFO_MAX -> 0 < inc < FIFO_MAX -> CarrierOk (workqueue_carrier owner size inc).
Proof.
  intros Hsz Hi. split; cbn [cr_flight cr_new cr_write cr_read cr_other cr_room cr_fits workqueue_carrier].
  - apply (workqueue_items_of owner inc _ [] (WorkQueue.Spec.mk_aw [] [] [] []) 0); try done.
    unfold FIFO_MAX in *. split; cbn; try done; apply init_queue_rep; lia.
  - intros t vs w items Hw Hvs [Hn Hb].
    destruct (workqueue_write_carried t vs w items Hw Hvs Hn Hb) as (w' & log & E & Hw').
    pose proof (workqueue_write_logs _ _ _ _ _ _ _ Hw Hvs E). rewrite E. by eexists _, _; eauto.
  - intros t w items Hw. destruct (workqueue_read_carried t w items Hw) as (o & w' & log & -> & H).
    by exists o, w'.
  - intros t _ w items. apply workqueue_drain_carried.
Qed.
End Carriers.

(** ** Userdata sent through a channel or a workqueue *)

(** A carrier, the objects of one kind, and the userdata the Lua states hold of them: a
    pointer occurs in [held] once for each userdata that is alive. *)
Record sys (C T : Type) := mk_sys { carrier : C; boxes : world T; held : gmultiset Z }.
Arguments mk_sys {C T} carrier boxes held.
Arguments carrier {C T} s.
Arguments boxes {C T} s.
Arguments held {C T} s.

(** What threads do: make an object, write values, read one (without waiting), make another
    call on the carrier, or collect a userdata. *)
Inductive sys_op (calls : Type) :=
  | New (p : Z)
  | Send (t : Z) (vs : list lua_value)
  | Receive (t : Z)
  | Other (t : Z) (k : calls)
  | Collect (p : Z).
Arguments New {calls} p.
Arguments Send {calls} t vs.
Arguments Receive {calls} t.
Arguments Other {calls} t k.
Arguments Collect {calls} p.

Section System.
Context `{L : LuaApi} {Lok : LuaApiOk L}.
Context {C : Type} {Cr : Carrier C} {Crok : CarrierOk Cr}.
Context {T : Type} {K : Counted T} {Kok : CountedOk K}.

Fixpoint retain_all (l : list Z) : M (world T) unit :=
  match l with [] => mret tt | p :: l' => obj_retain p ;;; retain_all l' end.

(** One step; the [retain] calls of a write are those of its log.  [None] is a step that goes
    wrong: an object used after it was freed, say. *)
Definition sys_step (s : sys C T) (o : sys_op cr_calls) : option (sys C T) :=
  match o with
  | New p =>
      Some (mk_sys (carrier s) (mk_world (<[p := obj_new]> (objs (boxes s))) (retain_log (boxes s)))
              (held s ⊎ {[+ p +]}))
  | Send t vs =>
      '(log, c) ← cr_write t vs (carrier s);
      match retain_all log (boxes s) with
      | Done _ w => Some (mk_sys c w (held s))
      | _ => None end
  | Receive t =>
      '(v, c) ← cr_read t (carrier s);
      Some (mk_sys c (boxes s) (held s ⊎ refs_of (from_option retains [] v)))
  | Other t k => c ← cr_other t k (carrier s); Some (mk_sys c (boxes s) (held s))
  | Collect p =>
      match obj_gc p (boxes s) with
      | Done _ w => Some (mk_sys (carrier s) w (held s ∖ {[+ p +]}))
      | _ => None end
  end.

(** What a program can do: [calloc] gives a free address, the userdata in the values written
    are held, a userdata that is collected was alive; and what bounds the carrier: values
    [rb_save] accepts, sizes in range. *)
Definition allowed (s : sys C T) (o : sys_op cr_calls) : Prop :=
  match o with
  | New p => objs (boxes s) !! p = None
  | Send t vs =>
      (forall p, p ∈ values_refs vs -> p ∈ held s) /\ forallb (writable 0) vs = true /\
      cr_room t vs (carrier s)
  | Receive _ | Other _ _ => True
  | Collect p => p ∈ held s
  end.

(** The states that steps of a kind [P] lead to. *)
Inductive reachable (P : sys C T -> sys_op cr_calls -> Prop) : sys C T -> Prop :=
  | reach_init : reachable P (mk_sys cr_new (mk_world ∅ []) ∅)
  | reach_step s o s' : reachable P s -> P s o -> sys_step s o = Some s' -> reachable P s'.

(** Steps whose writes need no growth of the buffer: no save is made twice. *)
Definition fitting (s : sys C T) (o : sys_op cr_calls) : Prop :=
  allowed s o /\ match o with Send t vs => cr_fits t vs (carrier s) | _ => True end.

(** *** References that are counted *)

(** Every reference of [m] is to an object that exists and counts it. *)
Definition covered (w : world T) (m : gmultiset Z) : Prop :=
  forall p, p ∈ m -> exists x, objs w !! p = Some x /\ obj_idle x /\
    Z.of_nat (multiplicity p m) <= obj_refs x.

Lemma covered_sub w m m' : covered w m -> m' ⊆ m -> covered w m'.
Proof.
  intros H Hs p Hp. destruct (H p) as (x & Ex & Hi & Hx); [multiset_solver|].
  exists x. split; [done|]. split; [done|]. specialize (Hs p). lia.
Qed.

Lemma covered_new w m p log : covered w m -> objs w !! p = None ->
  covered (mk_world (<[p := obj_new]> (objs w)) log) (m ⊎ {[+ p +]}).
Proof.
  intros H Hp q Hq. cbn [objs]. destruct (decide (q = p)) as [->|Hne].
  - rewrite lookup_insert_eq. exists obj_new. destruct new_one as [E1 Hi]. split; [done|].
    split; [done|]. assert (p ∉ m) as Hm.
    { intros Hm. destruct (H p Hm) as (x & Ex & _). by rewrite Hp in Ex. }
    rewrite multiplicity_disj_union, multiplicity_singleton_eq, E1.
    rewrite elem_of_multiplicity in Hm. lia.
  - rewrite lookup_insert_ne by done. destruct (H q) as (x & Ex & Hi & Hx); [multiset_solver|].
    exists x. split; [done|]. split; [done|].
    rewrite multiplicity_disj_union, multiplicity_singleton_ne by done. lia.
Qed.

Lemma covered_retain w m p : covered w m -> p ∈ m ->
  exists w', obj_retain p w = Done tt w' /\ covered w' (m ⊎ {[+ p +]}).
Proof.
  intros H Hp. destruct (H p Hp) as (x & Ex & Hi & Hx).
  destruct (retain_counts p w x Ex Hi) as (w' & x' & E & Ew & Hi' & Hr).
  exists w'. split; [done|]. intros q Hq. rewrite Ew, multiplicity_disj_union.
  destruct (decide (q = p)) as [->|Hne].
  - rewrite lookup_insert_eq, multiplicity_singleton_eq. exists x'. split; [done|].
    split; [done|]. lia.
  - rewrite lookup_insert_ne, multiplicity_singleton_ne by done.
    destruct (H q) as (y & Ey & Hj & Hy); [multiset_solver|]. exists y. split; [done|].
    split; [done|]. lia.
Qed.

Lemma covered_retain_all l : forall w m, covered w m -> (forall p, p ∈ l -> p ∈ m) ->
  exists w', retain_all l w = Done tt w' /\ covered w' (m ⊎ refs_of l).
Proof.
  induction l as [|p l IH]; intros w m H Hl.
  - exists w. split; [done|]. by apply (covered_sub _ _ _ H); multiset_solver.
  - destruct (covered_retain w m p H) as (w1 & E & H1); [set_solver|].
    destruct (IH w1 _ H1) as (w' & E' & H'); [intros q Hq; multiset_solver|].
    exists w'. cbn [retain_all]. unfold mbnd. rewrite E. split; [done|].
    apply (covered_sub _ _ _ H'). unfold refs_of. rewrite list_to_set_disj_cons. multiset_solver.
Qed.

Lemma covered_gc w m p : covered w m -> p ∈ m ->
  exists w', obj_gc p w = Done tt w' /\ covered w' (m ∖ {[+ p +]}).
Proof.
  intros H Hp. destruct (H p Hp) as (x & Ex & Hi & Hx).
  destruct (gc_counts p w x Ex Hi) as (w' & E & Ew). exists w'. split; [done|].
  apply elem_of_multiplicity in Hp. intros q Hq. rewrite elem_of_multiplicity in Hq.
  rewrite multiplicity_difference in *. destruct (decide (q = p)) as [->|Hne].
  - rewrite multiplicity_singleton_eq in *. rewrite (proj2 (Z.eqb_neq _ _)) in Ew by lia.
    destruct Ew as (x' & -> & Hi' & Hr). rewrite lookup_insert_eq. exists x'.
    split; [done|]. split; [done|]. lia.
  - rewrite multiplicity_singleton_ne in * by done.
    destruct (H q) as (y & Ey & Hj & Hy); [apply elem_of_multiplicity; lia|].
    exists y. split; [|split; [done|lia]].
    destruct (obj_refs x =? 1); [|destruct Ew as (x' & Ew & _)]; rewrite Ew;
      [by rewrite lookup_delete_ne | by rewrite lookup_insert_ne].
Qed.

(** *** The invariant, step by step *)

(** The references are the userdata alive and those in the values on their way. *)
Record counted_sys (s : sys C T) (items : list lua_value) : Prop := {
  cs_carried : cr_flight (carrier s) items;
  cs_saved : Forall (fun v => is_Some (enc 0 0 v)) items;
  cs_refs : covered (boxes s) (held s ⊎ values_refs items);
}.

Lemma writable_saved vs : forallb (writable 0) vs = true ->
  Forall (fun v => is_Some (enc 0 0 v)) vs.
Proof.
  intros Hw. apply List.Forall_forall. intros v Hv. rewrite forallb_forall in Hw.
  destruct (writable_item 0 (or_introl eq_refl) v (Hw v Hv)) as (bs & _ & Eb & _). by exists bs.
Qed.

Lemma send_step s items t vs : counted_sys s items -> allowed s (Send t vs) ->
  exists s' items', sys_step s (Send t vs) = Some s' /\ counted_sys s' items'.
Proof.
  intros [Hc Hs Hr] (Hin & Hw & Hroom). cbn [sys_step].
  destruct (cr_write_ok t vs _ items Hc Hw Hroom) as (log & c' & -> & [[-> Hc']|[(Il & Sl & _) Hc']]).
  - by eexists _, items.
  - destruct (covered_retain_all log (boxes s) _ Hr) as (w' & E & Hr').
    { intros p Hp. apply Il, Hin in Hp. multiset_solver. }
    cbn. rewrite E. eexists _, (items ++ vs). split; [done|]. split; cbn; [done | |].
    + apply Forall_app. split; [done|]. by apply writable_saved.
    + apply (covered_sub _ _ _ Hr'). rewrite values_refs_app. multiset_solver.
Qed.

(** What a value read takes from those on their way. *)
Lemma values_refs_taken items v rest : items ≡ₚ v :: rest ->
  Forall (fun v => is_Some (enc 0 0 v)) items ->
  Forall (fun v => is_Some (enc 0 0 v)) rest /\
  values_refs items = refs_of (retains (transported v)) ⊎ values_refs rest.
Proof.
  intros Hp Hs. rewrite Hp in Hs. inversion Hs as [|? ? Hv Hs']; subst. split; [done|].
  rewrite (values_refs_perm _ _ Hp), values_refs_cons, transported_retains by done. done.
Qed.

Lemma receive_step s items t : counted_sys s items ->
  exists s' items', sys_step s (Receive t) = Some s' /\ counted_sys s' items'.
Proof.
  intros [Hc Hs Hr]. cbn [sys_step].
  destruct (cr_read_ok t _ items Hc) as ([x|] & c' & -> & H).
  - destruct H as (v & rest & -> & Hp & Hc').
    destruct (values_refs_taken _ _ _ Hp Hs) as [Hs' E]. eexists _, rest. split; [done|].
    split; [done | done |]. cbn [boxes held from_option]. rewrite E in Hr.
    apply (covered_sub _ _ _ Hr). clear. multiset_solver.
  - eexists _, items. split; [done|]. split; cbn; [done | done |].
    apply (covered_sub _ _ _ Hr); multiset_solver.
Qed.

Lemma sys_step_counted s items o : counted_sys s items -> allowed s o ->
  exists s' items', sys_step s o = Some s' /\ counted_sys s' items'.
Proof.
  intros H Ha. destruct o as [p|t vs|t|t k|p];
    [ | by apply send_step with items | by apply receive_step with items | | ];
    destruct H as [Hc Hs Hr]; cbn in Ha |- *.
  - eexists _, items. split; [done|]. split; cbn; [done | done |].
    apply (covered_sub _ _ _ (covered_new _ _ p (retain_log (boxes s)) Hr Ha)). multiset_solver.
  - destruct (cr_other_ok t k _ items Hc) as (c' & -> & Hc'). by eexists _, items.
  - destruct (covered_gc (boxes s) _ p Hr) as (w' & -> & Hr'); [multiset_solver|].
    eexists _, items. split; [done|]. split; cbn; [done | done |].
    apply (covered_sub _ _ _ Hr'). multiset_solver.
Qed.

Lemma reachable_counted s : reachable allowed s -> exists items, counted_sys s items.
Proof.
  induction 1 as [|s o s' _ [items H] Ha E].
  - exists []. split; [apply cr_new_ok | done |]. intros p Hp. multiset_solver.
  - destruct (sys_step_counted s items o H Ha) as (s1 & items' & E1 & H1).
    rewrite E in E1. injection E1 as <-. eauto.
Qed.

(** C10: objects sent through a channel or a workqueue stay alive while anything refers to them.
    However threads make objects, write values with userdata in them, read them, close the
    channel (or drain the workqueue) and let userdata be collected, every userdata that is held
    and every one in a value on its way points to an object that exists and counts at least
    that many references; and no call that can come next goes wrong.  For every kind of
    object that counts ([Counted]) and every [Carrier], and values [rb_save] accepts
    ([allowed]); a retry of a save that did not fit counts again. *)
Theorem references_keep_objects_alive s : reachable allowed s ->
  (exists items, cr_flight (carrier s) items /\
     forall p, p ∈ held s ⊎ values_refs items ->
       exists x, objs (boxes s) !! p = Some x /\
         Z.of_nat (multiplicity p (held s ⊎ values_refs items)) <= obj_refs x) /\
  forall o, allowed s o -> exists s', sys_step s o = Some s'.
Proof.
  intros H. destruct (reachable_counted s H) as [items Hc]. split.
  - exists items. split; [apply Hc|]. intros p Hp. destruct (cs_refs _ _ Hc p Hp) as (x & ? & _ & ?).
    eauto.
  - intros o Ha. destruct (sys_step_counted s items o Hc Ha) as (s' & _ & E & _). eauto.
Qed.

(** *** Without growth the counts are exact *)

(** The objects are those referred to, each with the count of its references. *)
Definition exactly (w : world T) (m : gmultiset Z) : Prop :=
  forall p, match objs w !! p with
  | Some x => obj_idle x /\ obj_refs x = Z.of_nat (multiplicity p m) /\ p ∈ m
  | None => p ∉ m
  end.

Lemma exactly_at w m p : exactly w m -> p ∈ m ->
  exists x, objs w !! p = Some x /\ obj_idle x /\ obj_refs x = Z.of_nat (multiplicity p m).
Proof. intros H Hp. specialize (H p). destruct (objs w !! p); [|done]. destruct H as (? & ? & _). eauto. Qed.

Lemma exactly_new w m p log : exactly w m -> objs w !! p = None ->
  exactly (mk_world (<[p := obj_new]> (objs w)) log) (m ⊎ {[+ p +]}).
Proof.
  intros H Hp q. pose proof (H q) as Hq. cbn [objs]. rewrite multiplicity_disj_union.
  destruct (decide (q = p)) as [->|Hne].
  - rewrite Hp in Hq. rewrite lookup_insert_eq, multiplicity_singleton_eq.
    destruct new_one as [E Hi]. rewrite elem_of_multiplicity in Hq.
    split; [done|]. split; [lia | multiset_solver].
  - rewrite lookup_insert_ne, multiplicity_singleton_ne by done.
    destruct (objs w !! q); [|multiset_solver]. destruct Hq as (? & ? & ?).
    split; [done|]. split; [lia | multiset_solver].
Qed.

Lemma exactly_retain w m p : exactly w m -> p ∈ m ->
  exists w', obj_retain p w = Done tt w' /\ exactly w' (m ⊎ {[+ p +]}).
Proof.
  intros H Hp. destruct (exactly_at w m p H Hp) as (x & Ex & Hi & Hx).
  destruct (retain_counts p w x Ex Hi) as (w' & x' & E & Ew & Hi' & Hr).
  exists w'. split; [done|]. intros q. pose proof (H q) as Hq.
  rewrite Ew, multiplicity_disj_union. destruct (decide (q = p)) as [->|Hne].
  - rewrite lookup_insert_eq, multiplicity_singleton_eq.
    split; [done|]. split; [lia | multiset_solver].
  - rewrite lookup_insert_ne, multiplicity_singleton_ne by done.
    destruct (objs w !! q); [|multiset_solver]. destruct Hq as (? & ? & ?).
    split; [done|]. split; [lia | multiset_solver].
Qed.

Lemma exactly_retain_all l : forall w m, exactly w m -> (forall p, p ∈ l -> p ∈ m) ->
  exists w', retain_all l w = Done tt w' /\ exactly w' (m ⊎ refs_of l).
Proof.
  induction l as [|p l IH]; intros w m H Hl.
  - exists w. split; [done|]. change (refs_of []) with (∅ : gmultiset Z).
    by rewrite (right_id_L ∅ (⊎)).
  - destruct (exactly_retain w m p H) as (w1 & E & H1); [set_solver|].
    destruct (IH w1 _ H1) as (w' & E' & H'); [intros q Hq; multiset_solver|].
    exists w'. cbn [retain_all]. unfold mbnd. rewrite E. split; [done|].
    unfold refs_of in *. rewrite list_to_set_disj_cons. by rewrite (assoc_L (⊎)).
Qed.

Lemma exactly_gc w m p : exactly w m -> p ∈ m ->
  exists w', obj_gc p w = Done tt w' /\ exactly w' (m ∖ {[+ p +]}).
Proof.
  intros H Hp. destruct (exactly_at w m p H Hp) as (x & Ex & Hi & Hx).
  destruct (gc_counts p w x Ex Hi) as (w' & E & Ew). exists w'. split; [done|].
  rewrite elem_of_multiplicity in Hp. intros q. pose proof (H q) as Hq.
  assert (q ∈ m ∖ {[+ p +]} <-> (0 < multiplicity q m - multiplicity q {[+ p +]})%nat) as Hin
    by by rewrite elem_of_multiplicity, multiplicity_difference.
  rewrite multiplicity_difference. destruct (decide (q = p)) as [->|Hne].
  - rewrite multiplicity_singleton_eq in *. destruct (Z.eqb_spec (obj_refs x) 1).
    + rewrite Ew, lookup_delete_eq, Hin. lia.
    + destruct Ew as (x' & -> & Hi' & Hr). rewrite lookup_insert_eq, Hin.
      split; [done|]. lia.
  - rewrite multiplicity_singleton_ne in * by done. rewrite Nat.sub_0_r in *.
    assert (objs w' !! q = objs w !! q) as ->.
    { destruct (obj_refs x =? 1); [by rewrite Ew, lookup_delete_ne|].
      destruct Ew as (x' & -> & _). by rewrite lookup_insert_ne. }
    destruct (objs w !! q); rewrite elem_of_multiplicity in Hq; rewrite Hin; [tauto | lia].
Qed.

Record exact_sys (s : sys C T) (items : list lua_value) : Prop := {
  es_carried : cr_flight (carrier s) items;
  es_saved : Forall (fun v => is_Some (enc 0 0 v)) items;
  es_refs : exactly (boxes s) (held s ⊎ values_refs items);
}.

Lemma send_exact s items t vs : exact_sys s items -> fitting s (Send t vs) ->
  exists s' items', sys_step s (Send t vs) = Some s' /\ exact_sys s' items'.
Proof.
  intros [Hc Hs Hr] [(Hin & Hw & Hroom) Hfit]. cbn [sys_step].
  destruct (cr_write_ok t vs _ items Hc Hw Hroom) as (log & c' & -> & [[-> Hc']|[(_ & _ & Hl) Hc']]).
  - by eexists _, items.
  - rewrite (Hl Hfit).
    destruct (exactly_retain_all (concat (map retains vs)) (boxes s) _ Hr) as (w' & E & Hr').
    { intros p Hp. apply elem_of_refs in Hp. apply Hin in Hp. multiset_solver. }
    cbn. rewrite E. eexists _, (items ++ vs). split; [done|]. split; cbn; [done | |].
    + apply Forall_app. split; [done|]. by apply writable_saved.
    + rewrite values_refs_app. by rewrite (assoc_L (⊎)).
Qed.

Lemma receive_exact s items t : exact_sys s items ->
  exists s' items', sys_step s (Receive t) = Some s' /\ exact_sys s' items'.
Proof.
  intros [Hc Hs Hr]. cbn [sys_step].
  destruct (cr_read_ok t _ items Hc) as ([x|] & c' & -> & H).
  - destruct H as (v & rest & -> & Hp & Hc').
    destruct (values_refs_taken _ _ _ Hp Hs) as [Hs' E]. eexists _, rest. split; [done|].
    split; [done | done |]. cbn [boxes held from_option]. rewrite E in Hr. by rewrite <- (assoc_L (⊎)).
  - eexists _, items. split; [done|]. split; cbn; [done | done |]. by rewrite (right_id_L ∅ (⊎)).
Qed.

Lemma sys_step_exact s items o : exact_sys s items -> fitting s o ->
  exists s' items', sys_step s o = Some s' /\ exact_sys s' items'.
Proof.
  intros H Ha. destruct o as [p|t vs|t|t k|p];
    [ | by apply send_exact with items | by apply receive_exact with items | | ];
    destruct H as [Hc Hs Hr], Ha as [Ha _]; cbn in Ha |- *.
  - eexists _, items. split; [done|]. split; cbn; [done | done |].
    pose proof (exactly_new _ _ p (retain_log (boxes s)) Hr Ha) as H.
    by replace (held s ⊎ {[+ p +]} ⊎ values_refs items)
      with (held s ⊎ values_refs items ⊎ {[+ p +]}) by (clear; multiset_solver).
  - destruct (cr_other_ok t k _ items Hc) as (c' & -> & Hc'). by eexists _, items.
  - destruct (exactly_gc (boxes s) _ p Hr) as (w' & -> & Hr'); [multiset_solver|].
    eexists _, items. split; [done|]. split; cbn; [done | done |].
    by replace (held s ∖ {[+ p +]} ⊎ values_refs items)
      with ((held s ⊎ values_refs items) ∖ {[+ p +]}) by (clear -Ha; multiset_solver).
Qed.

(** C11: where no save is made twice and none is given up nothing is leaked: as long as the
    values written are ones [rb_save] accepts ([allowed]; see [refused_write_leaks_reference])
    and fit the buffer they are written to, the objects that exist are exactly those a userdata
    or a value on its way refers to, each counts exactly its references, and it is freed when
    the last of them goes.  For channels and workqueues alike ([Carrier]). *)
Theorem objects_are_those_referred_to s : reachable fitting s ->
  exists items, cr_flight (carrier s) items /\
    forall p, match objs (boxes s) !! p with
    | Some x => obj_refs x = Z.of_nat (multiplicity p (held s ⊎ values_refs items)) /\
                0 < obj_refs x
    | None => p ∉ held s ⊎ values_refs items
    end.
Proof.
  intros H. assert (exists items, exact_sys s items) as [items [Hc _ Hr]].
  { induction H as [|s o s' _ [items H] Ha E].
    - exists []. split; [apply cr_new_ok | done |]. intros p.
      cbn [boxes held objs]. rewrite lookup_empty. rewrite (left_id_L ∅ (⊎)).
      by intros Hp%gmultiset_elem_of_empty.
    - destruct (sys_step_exact s items o H Ha) as (s1 & items' & E1 & H1).
      rewrite E in E1. injection E1 as <-. eauto. }
  exists items. split; [done|]. intros p. specialize (Hr p).
  destruct (objs (boxes s) !! p); [|done]. destruct Hr as (_ & -> & Hp).
  rewrite elem_of_multiplicity in Hp. split; [done | lia].
Qed.
End System.

(** ** A concrete run *)

Section Runs.
#[local] Existing Instance RefLua.api_ok.
#[local] Instance lua53 : LuaApi := RefLua.api 503 false.
#[local] Existing Instance ref_TH.

(** A table with a boxed mutex in it. *)
Definition sample_message : lua_value :=
  LTable [(LString (str "m"), LUserdata 4096 (Some (mk_mt None (Some (str "ipc.mutex")) true)))] None.

Section Run.
Context {C : Type} {Cr : Carrier C}.

Definition sys_init : sys C mutex_t := mk_sys cr_new (mk_world ∅ []) ∅.

Definition sys_run (os : list (sys_op cr_calls)) : sys C mutex_t :=
  foldl (fun s o => default s (sys_step s o)) sys_init os.

Lemma sys_run_snoc P os o :
  reachable P (sys_run os) -> P (sys_run os) o ->
  from_option (fun _ => true) false (sys_step (sys_run os) o) = true ->
  reachable P (sys_run (os ++ [o])).
Proof.
  intros H Ha E. unfold sys_run at 1. rewrite foldl_app. cbn [foldl]. fold (sys_run os).
  destruct (sys_step (sys_run os) o) as [s|] eqn:Es; [|done]. by eapply reach_step.
Qed.

Lemma reachable_weaken (P Q : sys C mutex_t -> sys_op cr_calls -> Prop) s :
  (forall s o, P s o -> Q s o) -> reachable P s -> reachable Q s.
Proof. intros H. induction 1; [apply reach_init | eapply reach_step; eauto]. Qed.

(** A mutex is made, written in a table by thread 1 and read by thread 2; the first userdata
    is collected. *)
Definition sample_run : list (sys_op cr_calls) :=
  [New 4096; Send 1 [sample_message]; Receive 2; Collect 4096].
End Run.

(** The last steps of that run, in any carrier. *)
Ltac sample_steps :=
  apply (sys_run_snoc _ [_; _; _]);
    [|split; [by apply Nat.leb_le; vm_compute | done] | by vm_compute];
  apply (sys_run_snoc _ [_; _]); [|done | by vm_compute];
  apply (sys_run_snoc _ [_]);
    [apply (sys_run_snoc _ []); [apply reach_init | done | by vm_compute] | |by vm_compute];
  split; [|by vm_compute]; split; [|split; [|split]]; [|by vm_compute ..];
  intros p Hp; apply elem_of_refs in Hp; cbn in Hp;
  apply list_elem_of_singleton in Hp as ->; by apply Nat.leb_le; vm_compute.

Lemma sample_fitting : reachable fitting (sys_run (C := channel_t) sample_run).
Proof. sample_steps. Qed.

(** A write that is refused after a userdata of the value has been saved has counted a reference
    that nothing will give back. *)
Theorem refused_write_leaks_reference :
  let mutex := LUserdata 4096 (Some (mk_mt None (Some (str "ipc.mutex")) true)) in
  let v := LTable [(LInteger 1, mutex); (LInteger 2, LThread)] None in
  exists c, channel_write 9 1 [v] (channel_create, []) = Raised (ErrCode EPERM) (c, [4096]) /\
    num_items c = 0 /\ contents (Channel.rb c) = [].
Proof.
  cbv zeta. eexists. split; [vm_compute; reflexivity|]. split; reflexivity.
Qed.

(** A workqueue of thread 1. *)
#[local] Instance small_workqueue : Carrier workqueue_t := workqueue_carrier 1 256 256.
#[local] Instance small_workqueue_ok : CarrierOk small_workqueue.
Proof. by apply workqueue_carrier_ok. Qed.

Lemma workqueue_sample_fitting : reachable fitting (sys_run (C := workqueue_t) sample_run).
Proof. sample_steps. Qed.

(** The object is still there for the second userdata, whether it came through a channel or
    through a workqueue. *)
Lemma references_keep_objects_alive_witness :
  let s := sys_run (C := channel_t) sample_run in
  let w := sys_run (C := workqueue_t) sample_run in
  (multiplicity 4096 (held s) = 1%nat /\
   exists x, objs (boxes s) !! 4096 = Some x /\ 1 <= obj_refs x) /\
  (multiplicity 4096 (held w) = 1%nat /\
   exists x, objs (boxes w) !! 4096 = Some x /\ 1 <= obj_refs x) /\
  exists s', sys_step s (Collect 4096) = Some s'.
Proof.
  assert (reachable allowed (sys_run (C := channel_t) sample_run)) as H
    by (eapply reachable_weaken; [|apply sample_fitting]; by intros ? ? []).
  assert (reachable allowed (sys_run (C := workqueue_t) sample_run)) as Hw
    by (eapply reachable_weaken; [|apply workqueue_sample_fitting]; by intros ? ? []).
  assert (forall (m i : gmultiset Z) r, 4096 ∈ m -> Z.of_nat (multiplicity 4096 (m ⊎ i)) <= r -> 1 <= r)
    as Hle.
  { intros m i r Hin Hx. rewrite multiplicity_disj_union in Hx.
    rewrite elem_of_multiplicity in Hin. lia. }
  intros s w. destruct (references_keep_objects_alive s H) as [(items & _ & Hr) Hs].
  destruct (references_keep_objects_alive w Hw) as [(items' & _ & Hr') _].
  assert (4096 ∈ held s) as Hin by (by apply Nat.leb_le; vm_compute).
  assert (4096 ∈ held w) as Hin' by (by apply Nat.leb_le; vm_compute).
  assert (multiplicity 4096 (held s) = 1%nat) as Hm by by vm_compute.
  assert (multiplicity 4096 (held w) = 1%nat) as Hm' by by vm_compute.
  pose proof (Hs (Collect 4096) Hin) as Hc. clear Hs. clearbody s w.
  destruct (Hr 4096) as (x & Ex & Hx); [by apply gmultiset_elem_of_disj_union; left|].
  destruct (Hr' 4096) as (y & Ey & Hy); [by apply gmultiset_elem_of_disj_union; left|].
  split; [|split; [|exact Hc]]; (split; [done|]); eauto.
Defined.

(** At the end of both runs the mutex has one reference. *)
Lemma objects_are_those_referred_to_witness :
  (exists x, objs (boxes (sys_run (C := channel_t) sample_run)) !! 4096 = Some x /\ obj_refs x = 1) /\
  (exists x, objs (boxes (sys_run (C := workqueue_t) sample_run)) !! 4096 = Some x /\
     obj_refs x = 1).
Proof.
  destruct (objects_are_those_referred_to _ sample_fitting) as (items & _ & H).
  destruct (objects_are_those_referred_to _ workqueue_sample_fitting) as (items' & _ & H').
  specialize (H 4096). specialize (H' 4096). split; [clear H' | clear H].
  - destruct (objs (boxes (sys_run (C := channel_t) sample_run)) !! 4096) as [x|] eqn:E.
    + clear H. exists x. split; [done|]. vm_compute in E. by injection E as <-.
    + clear H. by vm_compute in E.
  - destruct (objs (boxes (sys_run (C := workqueue_t) sample_run)) !! 4096) as [x|] eqn:E.
    + clear H'. exists x. split; [done|]. vm_compute in E. by injection E as <-.
    + clear H'. by vm_compute in E.
Defined.
End Runs.
