(* ===== verification/TaskPool.v ===== *)
(** * Pools of background tasks ([src/lua/BackgroundTaskPool.lua]), the client of workqueues
    and maps that comes with the library.

    The thread that makes the pool owns a workqueue and writes tasks to it; the threads of a map
    read them, run them, and write the results back.  The workqueue is the one of [WorkQueue],
    call by call; what the functions of the tasks do is a relation. *)
From S2P Require Import Prelude RingBuffer Lua Serialize Growth Fifo WorkQueue.

#[local] Open Scope ipc_scope.

(** ** Lua tables as messages *)

Definition key_id : list byte := str "id".
Definition key_func : list byte := str "func".
Definition key_args : list byte := str "args".
Definition key_success : list byte := str "success".
Definition key_failure : list byte := str "failure".

(** [t.name] of a table without a metatable. *)
Fixpoint entry_of (name : list byte) (es : list (lua_value * lua_value)) : lua_value :=
  match es with
  | [] => LNil
  | (LString s, x) :: es' => if bool_decide (s = name) then x else entry_of name es'
  | _ :: es' => entry_of name es'
  end.
Definition field (name : list byte) (v : lua_value) : lua_value :=
  match v with LTable es _ => entry_of name es | _ => LNil end.

Definition truthy (v : lua_value) : bool :=
  match v with LNil | LBoolean false => false | _ => true end.

Section Messages.
Context `{L : LuaApi}.

(** [{ id = id, func = func, args = args }] *)
Definition task_msg (id : Z) (func args : lua_value) : lua_value :=
  LTable [(LString key_id, lua_pushinteger id); (LString key_func, func);
          (LString key_args, args)] None.

(** [{ id = id, success = ret }] or [{ id = id, failure = ret }]; a nil makes no entry. *)
Definition result_msg (id : lua_value) (ok : bool) (ret : lua_value) : lua_value :=
  LTable ((LString key_id, id) ::
    if is_nil ret then [] else [(LString (if ok then key_success else key_failure), ret)]) None.

(** The number under [id], of a message. *)
Definition msg_id (v : lua_value) : option Z :=
  match field key_id v with LNil => None | n => Some (lua_tointeger n) end.
End Messages.

(** ** The pool *)

(** A thread of the map: in [q:read()], running a task, or ended. *)
Inductive worker := Reading | Running (task : lua_value) | Stopped.

(** The upvalues of the pool's functions, and its threads; [joinable] is that [m] is not nil. *)
Record pool := mk_pool {
  p_wq : wst;
  numTasks : Z;
  numResults : Z;
  successes : gmap Z lua_value;
  failures : gmap Z lua_value;
  joinable : bool;
  workers : list worker;
}.

Definition set_wq q s := mk_pool q (numTasks s) (numResults s) (successes s) (failures s)
  (joinable s) (workers s).
Definition set_workers ws s := mk_pool (p_wq s) (numTasks s) (numResults s) (successes s)
  (failures s) (joinable s) ws.

(** What [getResult] comes back with: results, an error raised, or nothing. *)
Inductive pool_reply := Results (v : lua_value) | Error (v : lua_value) | Nothing.

Section Pool.
Context `{L : LuaApi}.
(** The thread that made the pool, those of the map, and the options. *)
Context (owner : Z) (thread : nat -> Z) (poolSize : nat) (closeOnLastTask : bool).

Definition on_wq {A} : M wst A -> M pool A := zoom p_wq set_wq.

(** [q:write(v)] and [q:read(doNotBlock)] by thread [t]. *)
Definition q_write (t : Z) (v : lua_value) : M pool unit :=
  let! s := get_st in
  on_wq (workqueue_write (queue_write_fuel (write_end t (p_wq s).1) 0 [v]) t [v]).
Definition q_read (t : Z) (doNotBlock : bool) : M pool (option lua_value) :=
  on_wq (workqueue_read t doNotBlock).

Definition hasResult (s : pool) (id : option Z) : bool :=
  match id with
  | None => false
  | Some id => truthy (default LNil (successes s !! id)) || truthy (default LNil (failures s !! id))
  end.

(** [t[id] = v]; a nil removes the entry. *)
Definition assign (id : Z) (v : lua_value) (t : gmap Z lua_value) : gmap Z lua_value :=
  if is_nil v then delete id t else <[id := v]> t.

Definition store_result (result : lua_value) (s : pool) : pool :=
  let id := lua_tointeger (field key_id result) in
  let failure := field key_failure result in
  mk_pool (p_wq s) (numTasks s) (numResults s + 1)
    (if truthy failure then successes s else assign id (field key_success result) (successes s))
    (if truthy failure then assign id failure (failures s) else failures s)
    (joinable s) (workers s).

(** The loop of [isDone]: at most one turn for each result that is missing. *)
Fixpoint isDone_loop (fuel : nat) (id : option Z) (shouldBlock : bool) : M pool unit :=
  let! s := get_st in
  if (numResults s <? numTasks s) && negb (hasResult s id) then
    match fuel with
    | O => out_of_fuel
    | S fuel' =>
        let! result := q_read owner (negb shouldBlock) in
        match result with
        | Some v =>
            if truthy v then modify_st (store_result v) ;;; isDone_loop fuel' id shouldBlock
            else mret tt
        | None => mret tt
        end
    end
  else mret tt.

Definition isDone (id : option Z) (shouldBlock : bool) : M pool bool :=
  let! s := get_st in
  isDone_loop (Z.to_nat (numTasks s - numResults s)) id shouldBlock ;;;
  let! s := get_st in
  mret ((numResults s =? numTasks s) || hasResult s id).

Definition str_assertion : list byte := str "assertion failed!".

(** [args] is the table of the arguments. *)
Definition addTask (func args : lua_value) : M pool Z :=
  if negb (is_function func) then raise (ErrLua str_assertion) else
  isDone None false ;;;
  modify_st (fun s => mk_pool (p_wq s) (numTasks s + 1) (numResults s) (successes s) (failures s)
                        (joinable s) (workers s)) ;;;
  let! s := get_st in
  q_write owner (task_msg (numTasks s) func args) ;;;
  mret (numTasks s).

Definition hasTask (s : pool) : bool := numResults s <? numTasks s.

Definition stopped (w : worker) : bool := match w with Stopped => true | _ => false end.

(** [m:join(); m = nil]: the owner sleeps until the threads have ended. *)
Definition join : M pool unit := fun s =>
  if forallb stopped (workers s) then
    Done tt (mk_pool (p_wq s) (numTasks s) (numResults s) (successes s) (failures s) false (workers s))
  else Blocked s.

(** The end of [getResult]: the result is taken out of its table. *)
Definition take_result (id : option Z) : M pool pool_reply := fun s =>
  let id := default (numResults s) id in
  let v := default LNil (successes s !! id) in
  let e := default LNil (failures s !! id) in
  if truthy v then
    Done (Results v) (mk_pool (p_wq s) (numTasks s) (numResults s) (delete id (successes s))
                        (failures s) (joinable s) (workers s))
  else if truthy e then
    Done (Error e) (mk_pool (p_wq s) (numTasks s) (numResults s) (successes s)
                      (delete id (failures s)) (joinable s) (workers s))
  else Done Nothing s.

Fixpoint repeat_st (n : nat) (body : M pool unit) : M pool unit :=
  match n with O => mret tt | S n' => body ;;; repeat_st n' body end.

Definition getResult (id : option Z) : M pool pool_reply :=
  isDone id true ;;;
  let! s := get_st in
  (if closeOnLastTask && (numResults s =? numTasks s) && joinable s
   then repeat_st poolSize (q_write owner LNil) ;;; join else mret tt) ;;;
  take_result id.

(** The rest of the call when the owner wakes up in [m:join()]. *)
Definition getResult_joined (id : option Z) : M pool pool_reply := join ;;; take_result id.

(** A thread of the map reads: a task to run, or nil to end; it sleeps when there is neither. *)
Definition worker_read (i : nat) : M pool unit :=
  let! s := get_st in
  match workers s !! i with
  | Some Reading =>
      let! task := q_read (thread i) false in
      let w := match task with
               | Some v => if truthy v then Running v else Stopped
               | None => Stopped
               end in
      modify_st (fun s => set_workers (<[i := w]> (workers s)) s)
  | _ => undef
  end.

(** It writes what [pcall] returned. *)
Definition worker_write (i : nat) (ok : bool) (ret : lua_value) : M pool unit :=
  let! s := get_st in
  match workers s !! i with
  | Some (Running task) =>
      q_write (thread i) (result_msg (field key_id task) ok ret) ;;;
      modify_st (fun s => set_workers (<[i := Reading]> (workers s)) s)
  | _ => undef
  end.
End Pool.

(** ** The calls on the queue *)

Section Calls.
Context `{L : LuaApi} {Lok : LuaApiOk L}.
Context (owner inc : Z) (thread : nat -> Z).
Hypothesis Hinc : 0 < inc < FIFO_MAX.
Import WorkQueue.Spec.

(** A queue as the pool uses it: [a] what it holds, [used] a bound on its bytes. *)
Definition queued (s : pool) (a : awq) (used : Z) : Prop :=
  simulates owner inc (p_wq s) a used /\ items_of a < U32_MOD.

Lemma q_read_spec t nb s a used : queued s a used ->
  let '(r, a') := step owner a (Read t nb) in
  exists q', q_read t nb s = (match r with Value v => Done v (set_wq q' s)
                                         | _ => Blocked (set_wq q' s) end) /\
    queued (set_wq q' s) a' used.
Proof.
  intros [Hs Hn]. destruct (read_sim owner inc Hinc (p_wq s) a used t nb Hs) as (q' & E & Hs' & Hle).
  destruct (step owner a (Read t nb)) as [r a']. cbn [fst snd] in *. exists q'.
  split; [|split; [done | lia]]. cbn [wq_step] in E. unfold q_read, on_wq, zoom.
  destruct (workqueue_read t nb (p_wq s)) as [v s'|? ?|s'| |]; try done; by injection E as <- ->.
Qed.

Lemma q_write_spec t v s a used :
  queued s a used -> writable 0 v = true -> items_of a + 1 < U32_MOD ->
  used + total_len 0 [v] < FIFO_MAX ->
  exists q', q_write t v s = Done tt (set_wq q' s) /\
    queued (set_wq q' s) (step owner a (Write t 0 [v])).2 (used + total_len 0 [v]).
Proof.
  intros [Hs _] Hw Hn Hb.
  destruct (write_sim owner inc Hinc (p_wq s) a used t 0 [v] Hs) as (q' & E & Hs').
  { cbn. by rewrite Hw. } { done. } { done. }
  exists q'. split.
  - cbn [wq_step] in E. unfold q_write, mbnd, get_st, on_wq, zoom, workqueue_write.
    destruct (write_any _ _ _ _ _) as [[] s'|? ?|s'| |]; try done. by injection E as ->.
  - split; [done|]. unfold items_of in *. cbn. destruct (owner =? t); cbn; rewrite zlen_app;
      change (zlen [v]) with 1; lia.
Qed.
End Calls.

(** ** What is true of a pool *)

Section Invariant.
Context `{L : LuaApi} {Lok : LuaApiOk L}.
Hypothesis H53 : 503 <= LUA_VERSION_NUM.
Context (owner inc : Z) (thread : nat -> Z) (poolSize : nat) (closeOnLastTask : bool).
Hypothesis Hinc : 0 < inc < FIFO_MAX.
Hypothesis Hthread : forall i, thread i <> owner.
(** What a function does when it is called with arguments: [runs f args true t] for the table [t]
    of its results, [runs f args false e] for an error. *)
Context (runs : lua_value -> lua_value -> bool -> lua_value -> Prop).
Hypothesis runs_table : forall f args ret, runs f args true ret -> exists es mt, ret = LTable es mt.
Import WorkQueue.Spec.

(** The tasks given to [addTask], in order: the first has id 1. *)
Definition task_at (tasks : list (lua_value * lua_value)) (id : Z) : option (lua_value * lua_value) :=
  if id <=? 0 then None else tasks !! Z.to_nat (id - 1).

(** What running task [id] may give, on the copies that were sent. *)
Definition result_of (tasks : list (lua_value * lua_value)) (id : Z) (ok : bool) (ret : lua_value)
  : Prop :=
  exists f args, task_at tasks id = Some (f, args) /\ runs (transported f) (transported args) ok ret.

Definition is_question (tasks : list (lua_value * lua_value)) (v : lua_value) : Prop :=
  v = LNil \/ exists id f args, task_at tasks id = Some (f, args) /\ v = task_msg id f args.
Definition is_answer (tasks : list (lua_value * lua_value)) (v : lua_value) : Prop :=
  exists id ok ret, v = result_msg (lua_pushinteger id) ok ret /\ result_of tasks id ok ret.
Definition is_worker (tasks : list (lua_value * lua_value)) (w : worker) : Prop :=
  match w with
  | Running v => exists id f args, task_at tasks id = Some (f, args) /\
                   v = transported (task_msg id f args)
  | _ => True
  end.

Definition worker_id (w : worker) : option Z :=
  match w with Running v => msg_id v | _ => None end.

(** The ids of the tasks that wait, run, or are answered. *)
Definition pending (s : pool) (a : awq) : list Z :=
  omap msg_id (aw_questions a) ++ omap worker_id (workers s) ++ omap msg_id (aw_answers a).

(** [received] are the ids of the results the owner has read, [given] those [getResult] has
    come back with. *)
Record pool_ok (tasks : list (lua_value * lua_value)) (given received : list Z) (s : pool)
    (a : awq) : Prop := {
  ok_questions : Forall (is_question tasks) (aw_questions a);
  ok_workers : Forall (is_worker tasks) (workers s);
  ok_answers : Forall (is_answer tasks) (aw_answers a);
  ok_ids : pending s a ++ received ≡ₚ seqZ 1 (numTasks s);
  ok_tasks : numTasks s = zlen tasks;
  ok_results : numResults s = zlen received;
  ok_successes id v : successes s !! id = Some v ->
    id ∈ received /\ id ∉ given /\ exists ret, v = transported ret /\ result_of tasks id true ret;
  ok_failures id v : failures s !! id = Some v ->
    id ∈ received /\ id ∉ given /\ successes s !! id = None /\ truthy v = true /\
    exists ret, v = transported ret /\ result_of tasks id false ret;
  ok_kept id : id ∈ received -> id ∉ given -> successes s !! id = None ->
    failures s !! id = None -> exists ret, result_of tasks id false ret /\ truthy ret = false;
  ok_given : NoDup given /\ forall id, id ∈ given -> id ∈ received;
  ok_threads : length (workers s) = poolSize;
  ok_open : closeOnLastTask = false -> LNil ∉ aw_questions a /\ Stopped ∉ workers s;
}.

(** *** Messages *)

Lemma pushed id : lua_pushinteger id = LInteger id.
Proof. unfold lua_pushinteger. by rewrite (proj2 (Z.leb_le _ _) H53). Qed.

Lemma truthy_transported v : truthy (transported v) = truthy v.
Proof. by destruct v. Qed.

Lemma transported_task id f args : transported (task_msg id f args)
  = LTable [(LString key_id, LInteger id); (LString key_func, transported f);
            (LString key_args, transported args)] None.
Proof. unfold task_msg. by rewrite pushed. Qed.

Lemma task_id id f args : msg_id (task_msg id f args) = Some id.
Proof. unfold task_msg. by rewrite pushed. Qed.

Lemma received_task_id id f args : msg_id (transported (task_msg id f args)) = Some id.
Proof. by rewrite transported_task. Qed.

Lemma result_id id ok ret : msg_id (result_msg (lua_pushinteger id) ok ret) = Some id.
Proof. by rewrite pushed. Qed.

Lemma result_fields id ok ret :
  let m := transported (result_msg (lua_pushinteger id) ok ret) in
  truthy m = true /\ lua_tointeger (field key_id m) = id /\
  field key_success m = (if ok then transported ret else LNil) /\
  field key_failure m = (if ok then LNil else transported ret).
Proof.
  rewrite pushed. unfold result_msg. split; [done|]. split; [done|].
  destruct ok; destruct (is_nil ret) eqn:E; try done; by destruct ret.
Qed.

(** *** A result that is read *)

Lemma assign_eq id v t : assign id v t !! id = if is_nil v then None else Some v.
Proof. unfold assign. by destruct (is_nil v); rewrite ?lookup_delete_eq, ?lookup_insert_eq. Qed.
Lemma assign_ne id id' v t : id' <> id -> assign id v t !! id' = t !! id'.
Proof.
  intros. unfold assign. by destruct (is_nil v); rewrite ?lookup_delete_ne, ?lookup_insert_ne.
Qed.
Lemma truthy_not_nil v : truthy v = true -> is_nil v = false.
Proof. by destruct v. Qed.

(** The two tables of results after result [ret] of task [id] is stored. *)
Definition stored (id : Z) (ok : bool) (ret : lua_value) (s s' : pool) : Prop :=
  (forall i, successes s' !! i
     = if decide (i = id) then if ok then Some (transported ret) else None else successes s !! i) /\
  (forall i, failures s' !! i
     = if decide (i = id) then if negb ok && truthy ret then Some (transported ret) else None
       else failures s !! i).

Lemma store_result_stored id ok ret s :
  (ok = true -> is_nil ret = false) -> successes s !! id = None -> failures s !! id = None ->
  stored id ok ret s (store_result (transported (result_msg (lua_pushinteger id) ok ret)) s).
Proof.
  intros Hn Ns Nf. destruct (result_fields id ok ret) as (_ & Eid & Es & Ef).
  unfold stored, store_result. rewrite Eid, Es, Ef. cbn [successes failures].
  destruct ok; cbn [truthy negb andb]; [|rewrite truthy_transported; destruct (truthy ret) eqn:Et];
    (split; intros i; (case_decide as Hi; [subst i|]));
    rewrite ?assign_eq, ?assign_ne, ?transported_nil by done; try done.
  - by rewrite Hn.
  - by rewrite (truthy_not_nil _ Et).
Qed.

(** A result moves from the answers to those received. *)
Lemma receive_ids tasks given received s a a' id ok ret :
  pool_ok tasks given received s a ->
  aw_answers a = result_msg (lua_pushinteger id) ok ret :: aw_answers a' ->
  aw_questions a' = aw_questions a ->
  pending s a' ++ id :: received ≡ₚ seqZ 1 (numTasks s) /\ id ∉ received.
Proof.
  intros Hok Ea Eq.
  assert (pending s a' ++ id :: received ≡ₚ seqZ 1 (numTasks s)) as Hp.
  { rewrite <- (ok_ids _ _ _ _ _ Hok). unfold pending. rewrite Ea, Eq. cbn [omap list_omap].
    rewrite result_id, <- !app_assoc. cbn [app].
    apply Permutation_app_head, Permutation_app_head. by rewrite <- Permutation_middle. }
  split; [done|].
  assert (NoDup (pending s a' ++ id :: received)) as Hnd by (rewrite Hp; apply NoDup_seqZ).
  by apply NoDup_app in Hnd as (_ & _ & [Hnd _]%NoDup_cons).
Qed.

Lemma stored_ok tasks given received s s' a a' id ok ret :
  pool_ok tasks given received s a -> result_of tasks id ok ret -> id ∉ received ->
  stored id ok ret s s' -> Forall (is_question tasks) (aw_questions a') ->
  Forall (is_worker tasks) (workers s') -> Forall (is_answer tasks) (aw_answers a') ->
  pending s' a' ++ id :: received ≡ₚ seqZ 1 (numTasks s') ->
  numTasks s' = numTasks s -> numResults s' = numResults s + 1 ->
  workers s' = workers s -> aw_questions a' = aw_questions a ->
  pool_ok tasks given (id :: received) s' a'.
Proof.
  intros [_ _ _ _ Ht Hr Hs Hf Hk [Hg Hgr] Hl Ho] Hres Hfresh [As Af] Hq Hw Ha Hids En Er Ews Eqs.
  assert (id ∉ given) as Hng by (intros ?%Hgr; done).
  split; try done.
  - congruence.
  - rewrite zlen_cons. lia.
  - intros i v. rewrite As. case_decide as Hi; [subst i|].
    + destruct ok; [|done]. intros [= <-]. split; [set_solver|]. split; [done | by eexists].
    + intros (? & ? & ?)%Hs. split; [set_solver | done].
  - intros i v. rewrite As, Af. case_decide as Hi; [subst i|].
    + destruct ok; [done|]. destruct (truthy ret) eqn:Et; [|done]. intros [= <-].
      split; [set_solver|]. split; [done|]. split; [done|].
      rewrite truthy_transported. split; [done | by eexists].
    + intros (? & ? & ? & ?)%Hf. split; [set_solver | done].
  - intros i [->|Hin]%elem_of_cons Hni; rewrite As, Af.
    + rewrite !decide_True by done. destruct ok; [done|]. destruct (truthy ret) eqn:Et; [done|].
      intros _ _. by exists ret.
    + rewrite !decide_False by (by intros ->). by apply Hk.
  - split; [done|]. intros i Hi. apply elem_of_cons. auto.
  - by rewrite Ews.
  - by rewrite Ews, Eqs.
Qed.

Lemma store_ok tasks given received s a a' v :
  pool_ok tasks given received s a -> aw_answers a = v :: aw_answers a' ->
  aw_questions a' = aw_questions a ->
  exists received', pool_ok tasks given received' (store_result (transported v) s) a'.
Proof.
  intros Hok Ea Eq. pose proof Hok as [Hq Hw Ha Hids Ht Hr Hs Hf Hk [Hg Hgr] _ _]. rewrite Ea in Ha.
  apply Forall_cons in Ha as [(id & ok & ret & -> & Hres) Ha].
  destruct (receive_ids _ _ _ _ _ _ _ _ _ Hok Ea Eq) as [Hp Hfresh].
  exists (id :: received).
  assert (lua_tointeger (field key_id (transported (result_msg (lua_pushinteger id) ok ret))) = id)
    as Eid by apply result_fields.
  apply (stored_ok _ _ _ _ _ _ _ _ _ _ Hok Hres Hfresh); try done; [|by rewrite Eq].
  apply store_result_stored.
  - intros ->. destruct Hres as (f & args & _ & (es & mt & ->)%runs_table). done.
  - destruct (successes s !! id) eqn:E; [|done]. by destruct (Hs id _ E).
  - destruct (failures s !! id) eqn:E; [|done]. by destruct (Hf id _ E).
Qed.

(** *** The owner reads results *)

(** What the owner's reads leave alone. *)
Definition unread_parts (s s' : pool) (a a' : awq) : Prop :=
  numTasks s' = numTasks s /\ joinable s' = joinable s /\ workers s' = workers s /\
  aw_questions a' = aw_questions a /\ items_of a' <= items_of a.

Lemma pool_ok_queue tasks given received s a q a' :
  pool_ok tasks given received s a -> aw_questions a' = aw_questions a ->
  aw_answers a' = aw_answers a -> pool_ok tasks given received (set_wq q s) a'.
Proof.
  intros [] Eq Ea. split; cbn; rewrite ?Eq, ?Ea; try done. unfold pending in *. cbn.
  by rewrite Eq, Ea.
Qed.

Lemma owner_reads nb s a used : queued owner inc s a used ->
  exists q' a', queued owner inc (set_wq q' s) a' used /\ aw_questions a' = aw_questions a /\
    match aw_answers a with
    | v :: rest => q_read owner nb s = Done (Some (transported v)) (set_wq q' s) /\
        aw_answers a' = rest
    | [] => q_read owner nb s = (if nb then Done None (set_wq q' s) else Blocked (set_wq q' s)) /\
        aw_answers a' = []
    end.
Proof.
  intros H. pose proof (q_read_spec owner inc Hinc owner nb s a used H) as Hr. cbn [step] in Hr.
  rewrite Z.eqb_refl in Hr. destruct (aw_answers a) as [|v rest]; cbn [take] in Hr;
    [destruct nb|]; destruct Hr as (q' & E & Hq'); eexists q', _; (split; [exact Hq' | done]).
Qed.

Lemma answer_truthy tasks v : is_answer tasks v -> truthy (transported v) = true.
Proof. intros (id & ok & ret & -> & _). by apply result_fields. Qed.

Lemma isDone_loop_ok tasks given id block fuel : forall received s a used,
  queued owner inc s a used -> pool_ok tasks given received s a ->
  (Z.to_nat (numTasks s - numResults s) <= fuel)%nat ->
  exists s' a' received', queued owner inc s' a' used /\ pool_ok tasks given received' s' a' /\
    unread_parts s s' a a' /\
    (isDone_loop owner fuel id block s = Done tt s' /\
       (numTasks s' <= numResults s' \/ hasResult s' id = true \/
        block = false /\ aw_answers a' = []) \/
     isDone_loop owner fuel id block s = Blocked s' /\ block = true /\ aw_answers a' = [] /\
       numResults s' < numTasks s').
Proof.
  induction fuel as [|fuel IH]; intros received s a used Hq Hok Hf; cbn [isDone_loop];
    unfold mbnd, get_st;
    (destruct ((numResults s <? numTasks s) && negb (hasResult s id)) eqn:Ec;
     [|eexists s, a, received; split; [done|]; split; [done|]; split; [by split|]; left;
       split; [done|]; apply andb_false_iff in Ec as [?%Z.ltb_ge|?%negb_false_iff]; auto]).
  - apply andb_prop in Ec as [?%Z.ltb_lt _]. lia.
  - apply andb_prop in Ec as [Hlt%Z.ltb_lt _].
    destruct (owner_reads (negb block) s a used Hq) as (q' & a' & Hq' & Eqs & Hr).
    destruct (aw_answers a) as [|v rest] eqn:Ea.
    + destruct Hr as [-> Ea']. exists (set_wq q' s), a', received. split; [done|].
      split; [eapply pool_ok_queue; [done | done | congruence]|].
      split; [repeat split; try done; unfold items_of; by rewrite Eqs, Ea, Ea'|].
      destruct block; cbn [negb]; [right | left]; (split; [done|]); auto.
    + destruct Hr as [-> Ea'].
      assert (is_answer tasks v) as Hv
        by (pose proof (ok_answers _ _ _ _ _ Hok) as Hall; rewrite Ea in Hall; by inversion Hall).
      rewrite (answer_truthy _ _ Hv). unfold modify_st.
      destruct (store_ok tasks given received s a a' v) as (received' & Hok');
        [done | congruence | done |].
      destruct (IH received' (store_result (transported v) (set_wq q' s)) a' used)
        as (s2 & a2 & received2 & ? & ? & (E1 & E2 & E3 & E4 & E5) & Hres).
      * by destruct Hq'.
      * eapply (pool_ok_queue _ _ _ _ _ q') in Hok'; [exact Hok' | done | done].
      * cbn. lia.
      * exists s2, a2, received2. split; [done|]. split; [done|]. split; [|done].
        split; [exact E1|]. split; [exact E2|]. split; [exact E3|]. split; [congruence|].
        unfold items_of in *. rewrite Eqs, Ea, Ea', zlen_cons in *. lia.
Qed.

Lemma isDone_ok tasks given id block received s a used :
  queued owner inc s a used -> pool_ok tasks given received s a ->
  exists s' a' received', queued owner inc s' a' used /\ pool_ok tasks given received' s' a' /\
    unread_parts s s' a a' /\
    (isDone owner id block s = Done ((numResults s' =? numTasks s') || hasResult s' id) s' /\
       (block = true -> numTasks s' <= numResults s' \/ hasResult s' id = true) \/
     isDone owner id block s = Blocked s' /\ block = true /\ aw_answers a' = [] /\
       numResults s' < numTasks s').
Proof.
  intros Hq Hok.
  destruct (isDone_loop_ok tasks given id block _ received s a used Hq Hok (le_n _))
    as (s' & a' & received' & ? & ? & ? & [[E H]|[E H]]);
    exists s', a', received'; (split; [done|]); (split; [done|]); (split; [done|]);
    unfold isDone, mbnd, get_st; rewrite E; [left | right]; (split; [done|]); [|done].
  intros ->. by destruct H as [?|[?|[? _]]]; [left | right |].
Qed.

(** *** A task is added *)

Lemma task_at_app tasks l id x : task_at tasks id = Some x -> task_at (tasks ++ l) id = Some x.
Proof. unfold task_at. destruct (id <=? 0); [done|]. apply lookup_app_l_Some. Qed.

Lemma task_at_new tasks x : task_at (tasks ++ [x]) (zlen tasks + 1) = Some x.
Proof.
  pose proof (zlen_nonneg tasks). unfold task_at. rewrite (proj2 (Z.leb_gt _ _)) by lia.
  replace (Z.to_nat (zlen tasks + 1 - 1)) with (length tasks) by (unfold zlen; lia).
  by apply list_lookup_middle.
Qed.

Lemma result_of_app tasks l id ok ret : result_of tasks id ok ret -> result_of (tasks ++ l) id ok ret.
Proof. intros (f & args & E & H). exists f, args. split; [by apply task_at_app | done]. Qed.

Lemma add_ok tasks given received s a q a' f args :
  pool_ok tasks given received s a ->
  aw_questions a' = aw_questions a ++ [task_msg (numTasks s + 1) f args] ->
  aw_answers a' = aw_answers a ->
  pool_ok (tasks ++ [(f, args)]) given received
    (mk_pool q (numTasks s + 1) (numResults s) (successes s) (failures s) (joinable s) (workers s)) a'.
Proof.
  intros [Hq Hw Ha Hids Ht Hr Hs Hf Hk Hg Hl Ho] Eq Ea. pose proof (zlen_nonneg tasks).
  split; cbn [workers numTasks numResults successes failures]; rewrite ?Eq, ?Ea.
  - apply Forall_app. split.
    + eapply Forall_impl; [exact Hq|]. intros v [->|(id & g & b & E & ->)]; [by left|].
      right. exists id, g, b. split; [by apply task_at_app | done].
    + constructor; [|done]. right. exists (numTasks s + 1), f, args. split; [|done].
      rewrite Ht. apply task_at_new.
  - eapply Forall_impl; [exact Hw|]. intros [|v|] Hv; try done.
    destruct Hv as (id & g & b & E & ->). exists id, g, b. split; [by apply task_at_app | done].
  - eapply Forall_impl; [exact Ha|]. intros v (id & ok & ret & -> & E). exists id, ok, ret.
    split; [done | by apply result_of_app].
  - unfold pending in *. cbn. rewrite Eq, Ea, omap_app. cbn [omap list_omap]. rewrite task_id.
    rewrite seqZ_app by lia. rewrite <- Hids.
    change (seqZ (1 + numTasks s) 1) with [1 + numTasks s].
    replace (1 + numTasks s) with (numTasks s + 1) by lia.
    rewrite <- !app_assoc. rewrite (Permutation_app_comm [_]), <- !app_assoc. done.
  - rewrite zlen_app, Ht. done.
  - done.
  - intros id v (? & ? & ret & ? & ?)%Hs. split; [done|]. split; [done|].
    exists ret. split; [done | by apply result_of_app].
  - intros id v (? & ? & ? & ? & ret & ? & ?)%Hf. do 4 (split; [done|]).
    exists ret. split; [done | by apply result_of_app].
  - intros id H1 H2 H3 H4. destruct (Hk id H1 H2 H3 H4) as (ret & ? & ?).
    exists ret. split; [by apply result_of_app | done].
  - done.
  - done.
  - intros Hc. destruct (Ho Hc) as [Hn Hst]. split; [|done].
    intros [|[=]%list_elem_of_singleton]%elem_of_app. done.
Qed.

(** Room for [n] more values of [bytes] bytes in all. *)
Definition room (s : pool) (n bytes : Z) : Prop :=
  q_num_items (questions (p_wq s).1) + q_num_items (answers (p_wq s).1) + n < U32_MOD /\
  Z.max (rcb (q_rb (questions (p_wq s).1))) (rcb (q_rb (answers (p_wq s).1))) + bytes < FIFO_MAX.

(** The pool in a state of the library: nobody is in the middle of a call. *)
Definition pool_inv (tasks : list (lua_value * lua_value)) (given : list Z) (s : pool) : Prop :=
  exists received a used, queued owner inc s a used /\ pool_ok tasks given received s a.

Lemma queued_tight s a used : queued owner inc s a used ->
  queued owner inc s a
    (Z.max (rcb (q_rb (questions (p_wq s).1))) (rcb (q_rb (answers (p_wq s).1)))) /\
  items_of a = q_num_items (questions (p_wq s).1) + q_num_items (answers (p_wq s).1).
Proof.
  intros [[] Hn]. split; [split; [split; try done; lia | done]|].
  unfold items_of. by rewrite (qr_num _ _ sim_questions), (qr_num _ _ sim_answers).
Qed.

Lemma addTask_ok tasks given s f args :
  pool_inv tasks given s -> is_function f = true ->
  writable 0 (task_msg (numTasks s + 1) f args) = true -> room s 1 (total_len 0 [task_msg (numTasks s + 1) f args]) ->
  exists s', addTask owner f args s = Done (numTasks s + 1) s' /\ numTasks s' = numTasks s + 1 /\
    pool_inv (tasks ++ [(f, args)]) given s'.
Proof.
  intros (received & a & used & Hq & Hok) Hfun Hw [Hn Hb].
  apply queued_tight in Hq as [Hq En]. rewrite <- En in Hn.
  destruct (isDone_ok tasks given None false received s a _ Hq Hok)
    as (s1 & a1 & received1 & Hq1 & Hok1 & (E1 & E2 & E3 & E4 & E5) & [[Ed _]|[_ [? _]]]); [|done].
  set (s2 := mk_pool (p_wq s1) (numTasks s1 + 1) (numResults s1) (successes s1) (failures s1)
    (joinable s1) (workers s1)).
  rewrite <- E1 in *.
  destruct (q_write_spec owner inc Hinc owner (task_msg (numTasks s1 + 1) f args) s2 a1
    (Z.max (rcb (q_rb (questions (p_wq s).1))) (rcb (q_rb (answers (p_wq s).1)))))
    as (q' & Ew & Hq'); [by destruct Hq1 | done | lia | done|].
  exists (set_wq q' s2). unfold addTask. rewrite Hfun. cbn [negb]. unfold mbnd, modify_st, get_st. rewrite Ed. cbn [numTasks].
  fold s2. change (numTasks s2) with (numTasks s1 + 1). rewrite Ew. split; [done|].
  split; [done|]. eexists received1, _, _. split; [exact Hq'|].
  apply (add_ok tasks given received1 s1 a1 q' _ f args Hok1); cbn; by rewrite Z.eqb_refl.
Qed.

(** *** The threads of the map *)

Lemma omap_insert {A B} (f : A -> option B) (l : list A) i x y : l !! i = Some x ->
  omap f (<[i := y]> l) ++ omap f [x] ≡ₚ omap f l ++ omap f [y].
Proof.
  revert i. induction l as [|z l IH]; intros [|i] E; try done.
  - injection E as ->. cbn. destruct (f x), (f y); cbn; rewrite ?app_nil_r; try done.
    + rewrite <- Permutation_cons_append, Permutation_swap. by rewrite <- Permutation_cons_append.
    + by rewrite <- Permutation_cons_append.
    + by rewrite <- Permutation_cons_append.
  - cbn [insert list_insert omap list_omap]. apply IH in E.
    destruct (f z); [|done]. cbn [app]. by rewrite E.
Qed.

Lemma elem_of_update {A} (l : list A) i x y : x ∈ <[i := y]> l -> x = y \/ x ∈ l.
Proof.
  intros [j [(_ & <- & _)|[_ H]]%list_lookup_insert_Some]%list_elem_of_lookup; [by left|].
  right. by eapply list_elem_of_lookup_2.
Qed.

Lemma worker_read_ok tasks given s i : pool_inv tasks given s -> workers s !! i = Some Reading ->
  exists s', (worker_read thread i s = Done tt s' \/ worker_read thread i s = Blocked s') /\
    pool_inv tasks given s'.
Proof.
  intros (received & a & used & Hq & Hok) Hi.
  pose proof (q_read_spec owner inc Hinc (thread i) false s a used Hq) as Hr. cbn [step] in Hr.
  rewrite (proj2 (Z.eqb_neq owner (thread i))) in Hr by (by intros E; apply (Hthread i)).
  unfold worker_read, mbnd, get_st. rewrite Hi.
  destruct (aw_questions a) as [|v rest] eqn:Ea; cbn [take] in Hr; destruct Hr as (q' & -> & Hq').
  - exists (set_wq q' s). split; [by right|]. eexists received, _, used. split; [exact Hq'|].
    by apply (pool_ok_queue _ _ _ _ _ _ _ Hok).
  - unfold modify_st. eexists. split; [by left|]. eexists received, _, used. split; [exact Hq'|].
    destruct Hok as [Hqs Hw Ha Hids Ht Hres Hs Hf Hk Hg Hl Ho]. rewrite Ea in Hqs.
    apply Forall_cons in Hqs as [Hv Hqs].
    set (w := if truthy (transported v) then Running (transported v) else Stopped).
    assert (is_worker tasks w /\ omap worker_id [w] = omap msg_id [v]) as [Hww Hwid].
    { subst w. destruct Hv as [->|(id & f & args & E & ->)]; [done|].
      rewrite transported_task. cbn [truthy]. rewrite <- transported_task. split.
      - by exists id, f, args.
      - cbn [omap list_omap worker_id]. by rewrite received_task_id, task_id. }
    split; cbn; try done.
    + by apply Forall_insert.
    + unfold pending in *. cbn. rewrite <- Hids, Ea. rewrite <- !app_assoc.
      change (omap msg_id (v :: rest)) with (omap msg_id ([v] ++ rest)).
      rewrite omap_app, <- Hwid.
      pose proof (omap_insert worker_id (workers s) i Reading w Hi) as Hp. cbn [omap list_omap worker_id] in Hp.
      rewrite app_nil_r in Hp. rewrite !app_assoc. do 2 f_equiv. rewrite <- !app_assoc.
      cbn [omap list_omap]. rewrite Hp. rewrite (Permutation_app_comm (omap worker_id (workers s))).
      rewrite !app_assoc. f_equiv. apply Permutation_app_comm.
    + by rewrite length_insert.
    + intros Hc. destruct (Ho Hc) as [Hn Hst]. rewrite Ea in Hn.
      apply not_elem_of_cons in Hn as [Hv' Hn]. split; [done|].
      intros [Ew|]%elem_of_update; [|done]. subst w.
      destruct Hv as [->|(id & f & args & _ & ->)]; [done|]. by rewrite transported_task in Ew.
Qed.

Lemma worker_write_ok tasks given s i v ok ret :
  pool_inv tasks given s -> workers s !! i = Some (Running v) ->
  runs (field key_func v) (field key_args v) ok ret ->
  writable 0 (result_msg (field key_id v) ok ret) = true ->
  room s 1 (total_len 0 [result_msg (field key_id v) ok ret]) ->
  exists s', worker_write thread i ok ret s = Done tt s' /\ pool_inv tasks given s'.
Proof.
  intros (received & a & used & Hq & Hok) Hi Hruns Hw [Hn Hb].
  apply queued_tight in Hq as [Hq En]. rewrite <- En in Hn.
  destruct (q_write_spec owner inc Hinc (thread i) (result_msg (field key_id v) ok ret) s a _ Hq Hw Hn Hb)
    as (q' & Ew & Hq').
  unfold worker_write, mbnd, get_st, modify_st. rewrite Hi, Ew.
  eexists. split; [done|]. eexists received, _, _. split; [exact Hq'|]. clear Hq'.
  destruct Hok as [Hqs Hws Ha Hids Ht Hres Hs Hf Hk Hg Hl Ho].
  assert (is_worker tasks (Running v)) as (id & f & args & E & ->) by (by eapply Forall_lookup_1).
  rewrite transported_task in Hruns. cbn [field entry_of] in Hruns.
  assert (field key_id (transported (task_msg id f args)) = lua_pushinteger id) as Eid
    by (by rewrite transported_task, pushed).
  rewrite Eid in *. cbn [step]. rewrite (proj2 (Z.eqb_neq owner (thread i)))
    by (by intros Et; apply (Hthread i)).
  split; cbn; try done.
  - by apply Forall_insert.
  - apply Forall_app. split; [done|]. constructor; [|done]. exists id, ok, ret.
    split; [done|]. by exists f, args.
  - unfold pending in *. cbn. rewrite <- Hids, omap_app.
    pose proof (omap_insert worker_id (workers s) i _ Reading Hi) as Hp.
    cbn [omap list_omap worker_id] in Hp |- *. rewrite received_task_id, app_nil_r in Hp.
    rewrite result_id. rewrite <- !app_assoc. f_equiv. rewrite <- Hp, <- !app_assoc. f_equiv.
    cbn [app]. by rewrite <- Permutation_middle.
  - by rewrite length_insert.
  - intros Hc. destruct (Ho Hc) as [Hnil Hst]. split; [done|]. by intros [|]%elem_of_update.
Qed.

(** *** A result is taken *)

(** What [getResult] may come back with for task [i]: its results, its error, each once; nothing
    for a task that has given its result, for a number that is no task, and for a task that
    failed with nil or false. *)
Definition reply_ok (tasks : list (lua_value * lua_value)) (given : list Z) (i : Z) (r : pool_reply) : Prop :=
  match r with
  | Results v => i ∉ given /\ exists ret, result_of tasks i true ret /\ v = transported ret
  | Error e => i ∉ given /\ exists ret, result_of tasks i false ret /\ e = transported ret
  | Nothing => i ∈ given \/ ~ 1 <= i <= zlen tasks \/
      exists ret, result_of tasks i false ret /\ truthy ret = false
  end.

Definition given_after (given : list Z) (i : Z) (r : pool_reply) : list Z :=
  match r with Nothing => given | _ => i :: given end.

Lemma received_all tasks given received s a : pool_ok tasks given received s a ->
  numTasks s <= numResults s -> forall i, 1 <= i <= zlen tasks -> i ∈ received.
Proof.
  intros [] Hn i Hi. pose proof (zlen_nonneg (pending s a)). pose proof (zlen_nonneg tasks).
  assert (zlen (pending s a ++ received) = numTasks s) as Hl
    by (rewrite ok_ids0; unfold zlen; rewrite length_seqZ; lia).
  rewrite zlen_app in Hl. assert (pending s a = []) as E
    by (destruct (pending s a) as [|x l]; [done|]; rewrite zlen_cons in *;
        pose proof (zlen_nonneg l); lia).
  rewrite E in ok_ids0. cbn [app] in ok_ids0. rewrite ok_ids0. apply elem_of_seqZ. lia.
Qed.

(** The invariant once the tables have changed: entries may only go, and those of the ids that
    are given have gone. *)
Lemma taken_ok tasks given given' received s a ts tf :
  pool_ok tasks given received s a ->
  (forall id v, ts !! id = Some v -> successes s !! id = Some v /\ id ∉ given') ->
  (forall id v, tf !! id = Some v -> failures s !! id = Some v /\ id ∉ given') ->
  (forall id, id ∈ received -> id ∉ given' -> ts !! id = successes s !! id /\ tf !! id = failures s !! id) ->
  (forall id, id ∈ given -> id ∈ given') -> NoDup given' -> (forall id, id ∈ given' -> id ∈ received) ->
  pool_ok tasks given' received
    (mk_pool (p_wq s) (numTasks s) (numResults s) ts tf (joinable s) (workers s)) a.
Proof.
  intros [Hq Hw Ha Hids Ht Hr Hs Hf Hk Hg Hl Ho] H1 H2 H3 Hsub Hnd Hin.
  split; cbn [workers numTasks numResults successes failures]; try done.
  - intros id v [E ?]%H1. by destruct (Hs id v E) as (? & _ & ?).
  - intros id v [E ?]%H2. destruct (Hf id v E) as (? & _ & Hn & ? & ?).
    split; [done|]. split; [done|]. split; [|done]. destruct (ts !! id) eqn:Et; [|done].
    apply H1 in Et as [Et _]. congruence.
  - intros id Hi Hng. destruct (H3 id Hi Hng) as [-> ->]. apply Hk; [done|]. auto.
Qed.

Lemma take_result_ok tasks given received s a id :
  pool_ok tasks given received s a ->
  (numTasks s <= numResults s \/ hasResult s id = true) ->
  let i := default (numResults s) id in
  exists r s', take_result id s = Done r s' /\ reply_ok tasks given i r /\ p_wq s' = p_wq s /\
    pool_ok tasks (given_after given i r) received s' a.
Proof.
  intros Hok Hdone i. pose proof Hok as [Hq Hw Ha Hids Ht Hr Hs Hf Hk [Hg Hgr] Hl Ho].
  unfold take_result. fold i.
  destruct (truthy (default LNil (successes s !! i))) eqn:Es;
    [|destruct (truthy (default LNil (failures s !! i))) eqn:Ef].
  - destruct (successes s !! i) as [v|] eqn:E; [|done]. cbn.
    destruct (Hs i v E) as (Hi & Hng & ret & -> & Hret).
    eexists _, _. split; [done|]. split; [split; [done|by exists ret]|]. split; [done|].
    apply (taken_ok _ _ _ _ _ _ _ _ Hok); cbn.
    + intros id' v [Hne E']%lookup_delete_Some. split; [done|].
      apply Hs in E' as (_ & Hn & _). by intros [->|?]%elem_of_cons.
    + intros id' v E'. split; [done|]. apply Hf in E' as (_ & Hn & Hnone & _).
      intros [->|?]%elem_of_cons; [congruence | done].
    + intros id' _ [Hne _]%not_elem_of_cons. by rewrite lookup_delete_ne.
    + intros id'. by right.
    + by constructor.
    + by intros id' [->|?%Hgr]%elem_of_cons.
  - destruct (failures s !! i) as [v|] eqn:E; [|done]. cbn.
    destruct (Hf i v E) as (Hi & Hng & Hn & _ & ret & -> & Hret).
    eexists _, _. split; [done|]. split; [split; [done|by exists ret]|]. split; [done|].
    apply (taken_ok _ _ _ _ _ _ _ _ Hok); cbn.
    + intros id' v E'. split; [done|]. apply Hs in E' as E2. destruct E2 as (_ & Hn' & _).
      intros [->|?]%elem_of_cons; [congruence | done].
    + intros id' v [Hne E']%lookup_delete_Some. split; [done|].
      apply Hf in E' as (_ & Hn' & _). by intros [->|?]%elem_of_cons.
    + intros id' _ [Hne _]%not_elem_of_cons. by rewrite lookup_delete_ne.
    + intros id'. by right.
    + by constructor.
    + by intros id' [->|?%Hgr]%elem_of_cons.
  - eexists Nothing, s. split; [done|]. split; [|done]. cbn.
    destruct (decide (i ∈ given)) as [|Hng]; [by left|].
    destruct (decide (1 <= i <= zlen tasks)) as [Hi|]; [|by right; left].
    assert (i ∈ received) as Hin.
    { destruct Hdone as [Hd|Hd]; [by eapply received_all|]. destruct id as [i'|]; [|done].
      subst i. cbn in Hd, Es, Ef. by rewrite Es, Ef in Hd. }
    destruct (successes s !! i) as [v|] eqn:E1.
    { destruct (Hs i v E1) as (_ & _ & ret & -> & f & args & _ & Hruns).
      apply runs_table in Hruns as (es & mt & ->). done. }
    destruct (failures s !! i) as [v|] eqn:E2.
    { destruct (Hf i v E2) as (_ & _ & _ & Htr & _). cbn in Ef. congruence. }
    right. right. by apply Hk.
Qed.

(** *** [getResult] *)

Lemma nil_len : total_len 0 [LNil] = 1.
Proof. done. Qed.

Lemma write_nils_ok tasks given received n : forall s a used,
  closeOnLastTask = true -> queued owner inc s a used -> pool_ok tasks given received s a ->
  items_of a + Z.of_nat n < U32_MOD -> used + Z.of_nat n < FIFO_MAX ->
  exists q' a', repeat_st n (q_write owner LNil) s = Done tt (set_wq q' s) /\
    queued owner inc (set_wq q' s) a' (used + Z.of_nat n) /\
    pool_ok tasks given received (set_wq q' s) a' /\
    aw_questions a' = aw_questions a ++ replicate n LNil.
Proof.
  induction n as [|n IH]; intros s a used Hcl Hq Hok Hn Hb; cbn [repeat_st].
  - exists (p_wq s), a. rewrite Z.add_0_r. destruct s. split; [done|]. split; [done|].
    split; [done|]. by rewrite app_nil_r.
  - destruct (q_write_spec owner inc Hinc owner LNil s a used Hq) as (q1 & E & Hq1);
      [done | lia | rewrite nil_len; lia|].
    unfold mbnd. rewrite E. rewrite nil_len in Hq1. cbn [step] in Hq1. rewrite Z.eqb_refl in Hq1.
    destruct (IH _ _ _ Hcl Hq1) as (q2 & a2 & E2 & Hq2 & Hok2 & Hne).
    + destruct Hok as [Hqs Hw Ha Hids Ht Hr Hs Hf Hk Hg Hl Ho]. split; cbn; try done.
      * apply Forall_app. split; [done|]. constructor; [by left | done].
      * unfold pending in *. cbn. rewrite omap_app. cbn. by rewrite app_nil_r.
      * congruence.
    + unfold items_of in *. cbn. rewrite zlen_app. change (zlen [LNil]) with 1. lia.
    + lia.
    + exists q2, a2. split; [exact E2|].
      replace (used + Z.of_nat (S n)) with (used + 1 + Z.of_nat n) by lia.
      split; [done|]. split; [done|]. rewrite Hne. cbn. by rewrite <- app_assoc.
Qed.

(** A thread of the map has something to do: it runs a task, or is in [q:read()] with a
    question there. *)
Definition can_move (s : pool) (a : awq) : Prop :=
  exists i w, workers s !! i = Some w /\
    match w with Running _ => True | Reading => aw_questions a <> [] | Stopped => False end.

(** Why the owner may sleep: a thread has something to do; or it waits for a task while every
    thread has ended, and that is so only in a pool without threads or one that
    [closeOnLastTask] has closed. *)
Definition busy (s : pool) : Prop :=
  exists a used, queued owner inc s a used /\
    (can_move s a \/
     aw_answers a = [] /\ pending s a <> [] /\ forallb stopped (workers s) = true /\
       (poolSize = 0%nat \/ closeOnLastTask = true)).

Lemma pending_left tasks given received s a : pool_ok tasks given received s a ->
  numResults s < numTasks s -> pending s a <> [].
Proof.
  intros [] Hlt E. rewrite E in ok_ids0. cbn [app] in ok_ids0.
  assert (zlen received = numTasks s); [|lia].
  rewrite ok_ids0. unfold zlen. rewrite length_seqZ. pose proof (zlen_nonneg tasks). lia.
Qed.

(** A thread that has not ended can move when there is a question. *)
Lemma alive_moves s a : aw_questions a <> [] -> forallb stopped (workers s) = false -> can_move s a.
Proof.
  intros Hq Hst. assert (exists w, w ∈ workers s /\ stopped w = false) as (w & Hw & Hs).
  { induction (workers s) as [|w ws IH]; [done|]. cbn in Hst.
    destruct (stopped w) eqn:E; [|exists w; split; [by left | done]].
    destruct IH as (w' & ? & ?); [done|]. exists w'. split; [by right | done]. }
  apply list_elem_of_lookup in Hw as [i Hi]. exists i, w. split; [done|]. by destruct w.
Qed.

(** The owner waits for a task: a thread has it or can take it, if the pool is open. *)
Lemma waiting_busy tasks given received s a used :
  queued owner inc s a used -> pool_ok tasks given received s a -> aw_answers a = [] ->
  numResults s < numTasks s -> busy s.
Proof.
  intros Hq Hok Ha Hlt. pose proof (pending_left _ _ _ _ _ Hok Hlt) as Hp.
  exists a, used. split; [done|].
  destruct (aw_questions a) as [|q qs] eqn:Eq.
  - left. unfold pending in Hp. rewrite Eq, Ha, app_nil_r in Hp. cbn [omap list_omap app] in Hp.
    destruct (omap worker_id (workers s)) as [|id ids] eqn:Eo; [done|].
    assert (id ∈ omap worker_id (workers s)) as (w & Hw & Hid)%list_elem_of_omap
      by (rewrite Eo; by left).
    apply list_elem_of_lookup in Hw as [i Hi]. exists i, w. split; [done|]. by destruct w.
  - destruct (forallb stopped (workers s)) eqn:Hst; [|left; apply alive_moves; congruence].
    right. split; [done|]. split; [done|]. split; [done|].
    pose proof (ok_threads _ _ _ _ _ Hok) as Hl. destruct (workers s) as [|w ws] eqn:Ew; [by left|].
    right. cbn in Hst. destruct w; try done.
    destruct closeOnLastTask eqn:Hc; [done|]. destruct (ok_open _ _ _ _ _ Hok Hc) as [_ Hno].
    rewrite Ew in Hno. by destruct Hno; left.
Qed.

Lemma results_le tasks given received s a : pool_ok tasks given received s a ->
  numResults s <= numTasks s.
Proof.
  intros []. pose proof (zlen_nonneg (pending s a)). pose proof (zlen_nonneg tasks).
  assert (zlen (pending s a ++ received) = numTasks s) as Hl
    by (rewrite ok_ids0; unfold zlen; rewrite length_seqZ; lia).
  rewrite zlen_app in Hl. lia.
Qed.

Lemma join_ok tasks given received s a used :
  queued owner inc s a used -> pool_ok tasks given received s a ->
  exists s', queued owner inc s' a used /\ pool_ok tasks given received s' a /\
    successes s' = successes s /\ failures s' = failures s /\ numTasks s' = numTasks s /\
    numResults s' = numResults s /\
    (join s = Done tt s' \/
     join s = Blocked s' /\ (aw_questions a <> [] -> busy s')).
Proof.
  intros Hq Hok. unfold join. destruct (forallb stopped (workers s)) eqn:E.
  - exists (mk_pool (p_wq s) (numTasks s) (numResults s) (successes s) (failures s) false (workers s)).
    split; [by destruct Hq|]. split; [by destruct Hok|]. do 4 (split; [done|]). by left.
  - exists s. do 6 (split; [done|]). right. split; [done|]. intros Hn.
    exists a, used. split; [done|]. left. by apply alive_moves.
Qed.

(** The end of the call, for a task whose result is there or when all are. *)
Lemma joined_ok tasks given id received s a used :
  queued owner inc s a used -> pool_ok tasks given received s a ->
  numTasks s <= numResults s ->
  exists s', pool_inv tasks given s' /\
    (getResult_joined id s = Blocked s' /\ (aw_questions a <> [] -> busy s') \/
     exists r s'', getResult_joined id s = Done r s'' /\ reply_ok tasks given (default (numResults s) id) r /\
       pool_inv tasks (given_after given (default (numResults s) id) r) s'').
Proof.
  intros Hq Hok Hd.
  destruct (join_ok tasks given received s a used Hq Hok)
    as (s' & Hq' & Hok' & Es & Ef & En & Er & [E|[E Hb]]); exists s';
    (split; [by exists received, a, used|]); unfold getResult_joined, mbnd; rewrite E.
  - right. destruct (take_result_ok tasks given received s' a id Hok') as (r & s'' & E2 & Hrep & Ew & Hok2);
      [left; lia|].
    rewrite Er in *. exists r, s''. split; [done|]. split; [done|]. exists received, a, used.
    split; [|done]. destruct Hq' as [Hsim Hn]. split; [|done]. by rewrite Ew.
  - by left.
Qed.

Lemma getResult_ok tasks given id s :
  pool_inv tasks given s -> room s (Z.of_nat poolSize) (Z.of_nat poolSize) ->
  (exists s', getResult owner poolSize closeOnLastTask id s = Blocked s' /\ busy s' /\
     pool_inv tasks given s') \/
  (exists r s', getResult owner poolSize closeOnLastTask id s = Done r s' /\
     reply_ok tasks given (default (zlen tasks) id) r /\
     pool_inv tasks (given_after given (default (zlen tasks) id) r) s').
Proof.
  intros (received & a & used & Hq & Hok) [Hn Hb].
  apply queued_tight in Hq as [Hq En]. rewrite <- En in Hn.
  destruct (isDone_ok tasks given id true received s a _ Hq Hok)
    as (s1 & a1 & received1 & Hq1 & Hok1 & (E1 & E2 & E3 & E4 & E5) & [[Ed Hd]|(Ed & _ & Ea & Hlt)]);
    unfold getResult, mbnd, get_st; rewrite Ed.
  2:{ left. exists s1. split; [done|]. split; [by eapply waiting_busy | by eexists _, _, _]. }
  specialize (Hd eq_refl).
  destruct (closeOnLastTask && (numResults s1 =? numTasks s1) && joinable s1) eqn:Ec.
  - apply andb_prop in Ec as [[Hcl Eall%Z.eqb_eq]%andb_prop _].
    destruct (write_nils_ok tasks given received1 poolSize s1 a1 _ Hcl Hq1 Hok1)
      as (q2 & a2 & Ew & Hq2 & Hok2 & Enil); [lia | done|].
    destruct (joined_ok tasks given id received1 (set_wq q2 s1) a2 _ Hq2 Hok2)
      as (s3 & Hinv & H); [cbn; lia|].
    rewrite Ew. unfold getResult_joined, mbnd in H.
    assert (default (zlen tasks) id = default (numResults (set_wq q2 s1)) id) as Eid
      by (rewrite (ok_tasks _ _ _ _ _ Hok1) in Eall; cbn; by rewrite Eall).
    rewrite Eid. destruct H as [[H Hbusy]|(r & s4 & H & Hrep & Hinv4)].
    + left. exists s3. split; [destruct (join _); exact H|]. split; [|done]. apply Hbusy.
      intros E. rewrite Enil in E. apply app_eq_nil in E as [_ E]. pose proof (ok_threads _ _ _ _ _ Hok2) as Hl.
      apply (f_equal length) in E. rewrite length_replicate in E. rewrite E in Hl.
      apply nil_length_inv in Hl. unfold join, take_result in H.
      rewrite Hl in H. cbn in H. by repeat case_match.
    + right. exists r, s4. split; [|done]. destruct (join _); exact H.
  - right. unfold mret.
    destruct (take_result_ok tasks given received1 s1 a1 id Hok1 Hd) as (r & s2 & E & Hrep & Ew & Hok2).
    exists r, s2. split; [done|].
    assert (reply_ok tasks given (default (zlen tasks) id) r /\
      pool_ok tasks (given_after given (default (zlen tasks) id) r) received1 s2 a1) as [? ?].
    { destruct id as [i|]; [done|]. destruct Hd as [Hd|]; [|done].
      assert (numResults s1 = zlen tasks) as <-; [|done].
      rewrite <- (ok_tasks _ _ _ _ _ Hok1). pose proof (results_le _ _ _ _ _ Hok1). lia. }
    split; [done|]. eexists received1, a1, _. split; [|done].
    destruct Hq1 as [Hsim Hn1]. split; [|done]. rewrite Ew. exact Hsim.
Qed.

(** *** The states of a pool *)

(** [BackgroundTaskPool(poolSize, opt)]; the thread has the workqueue to itself, and those of
    the map have just opened it. *)
Definition BackgroundTaskPool (size : Z) : pool :=
  mk_pool (fresh_workqueue owner size inc, []) 0 0 ∅ ∅ true (replicate poolSize Reading).

(** What the threads may do, in any order: the owner calls the functions of the pool (a call that
    sleeps is made again when the thread is woken), and each thread of the map reads a task and
    writes what the task gives.  The values are ones [rb_save] accepts, their number and sizes
    are in range. *)
Inductive reach (size : Z) : list (lua_value * lua_value) -> list Z -> pool -> Prop :=
  | reach_new : reach size [] [] (BackgroundTaskPool size)
  | reach_add tasks given s f args id s' :
      reach size tasks given s -> is_function f = true ->
      writable 0 (task_msg (numTasks s + 1) f args) = true -> room s 1 (total_len 0 [task_msg (numTasks s + 1) f args]) ->
      addTask owner f args s = Done id s' -> reach size (tasks ++ [(f, args)]) given s'
  | reach_isDone tasks given s id b s' :
      reach size tasks given s -> isDone owner id false s = Done b s' -> reach size tasks given s'
  | reach_get tasks given s id r s' :
      reach size tasks given s -> room s (Z.of_nat poolSize) (Z.of_nat poolSize) ->
      getResult owner poolSize closeOnLastTask id s = Done r s' ->
      reach size tasks (given_after given (default (zlen tasks) id) r) s'
  | reach_get_sleeps tasks given s id s' :
      reach size tasks given s -> room s (Z.of_nat poolSize) (Z.of_nat poolSize) ->
      getResult owner poolSize closeOnLastTask id s = Blocked s' -> reach size tasks given s'
  | reach_joined tasks given s id r s' :
      reach size tasks given s -> numResults s = numTasks s ->
      getResult_joined id s = Done r s' ->
      reach size tasks (given_after given (default (zlen tasks) id) r) s'
  | reach_read tasks given s i s' :
      reach size tasks given s -> workers s !! i = Some Reading ->
      worker_read thread i s = Done tt s' \/ worker_read thread i s = Blocked s' ->
      reach size tasks given s'
  | reach_write tasks given s i v ok ret s' :
      reach size tasks given s -> workers s !! i = Some (Running v) ->
      runs (field key_func v) (field key_args v) ok ret ->
      writable 0 (result_msg (field key_id v) ok ret) = true ->
      room s 1 (total_len 0 [result_msg (field key_id v) ok ret]) ->
      worker_write thread i ok ret s = Done tt s' -> reach size tasks given s'.

Lemma new_inv size : 0 < size < FIFO_MAX -> pool_inv [] [] (BackgroundTaskPool size).
Proof.
  intros Hs. exists [], (mk_aw [] [] [] []), 0. unfold FIFO_MAX in *. split.
  - split; [|done]. split; cbn; try done; apply init_queue_rep; lia.
  - split; cbn; try done; try (intros ? ?; by rewrite lookup_empty).
    + by apply Forall_replicate.
    + unfold pending. cbn. by induction poolSize.
    + split; [constructor|]. by intros ? ?%elem_of_nil.
    + apply length_replicate.
    + intros _. split; [apply not_elem_of_nil|]. by intros [? _]%elem_of_replicate.
Qed.

(** The same call on the same state. *)
#[local] Ltac determined E1 :=
  match type of E1 with ?x = _ => match goal with E : x = _ |- _ =>
    first [constr_eq E E1; fail 1 | rewrite E in E1; simplify_eq] end end.

Lemma reach_inv size tasks given s : 0 < size < FIFO_MAX ->
  reach size tasks given s -> pool_inv tasks given s.
Proof.
  intros Hsz. induction 1 as [|tasks given s f args id s' _ IH Hfun Hw Hr E
    |tasks given s id b s' _ IH E|tasks given s id r s' _ IH Hr E|tasks given s id s' _ IH Hr E
    |tasks given s id r s' _ IH En E|tasks given s i s' _ IH Hi E
    |tasks given s i v ok ret s' _ IH Hi Hrun Hw Hr E].
  - by apply new_inv.
  - destruct (addTask_ok _ _ _ _ _ IH Hfun Hw Hr) as (s1 & E1 & _ & H). by determined E1.
  - destruct IH as (received & a & used & Hq & Hok).
    destruct (isDone_ok tasks given id false received s a used Hq Hok)
      as (s1 & a1 & received1 & Hq1 & Hok1 & _ & [[E1 _]|[_ [? _]]]); [|done].
    determined E1. by eexists _, _, _.
  - destruct (getResult_ok tasks given id s IH Hr) as [(s1 & E1 & _)|(r1 & s1 & E1 & _ & H)];
      by determined E1.
  - destruct (getResult_ok tasks given id s IH Hr) as [(s1 & E1 & _ & H)|(r1 & s1 & E1 & _)];
      by determined E1.
  - destruct IH as (received & a & used & Hq & Hok).
    destruct (joined_ok tasks given id received s a used Hq Hok)
      as (s1 & _ & [[E1 _]|(r1 & s2 & E1 & _ & H)]); [lia | by determined E1 |].
    determined E1. by rewrite En, (ok_tasks _ _ _ _ _ Hok) in H.
  - destruct (worker_read_ok tasks given s i IH Hi) as (s1 & [E1|E1] & H); destruct E; by determined E1.
  - destruct (worker_write_ok tasks given s i v ok ret IH Hi Hrun Hw Hr) as (s1 & E1 & H).
    by determined E1.
Qed.

(** C14: on Lua 5.3 or later, for tasks and results [rb_save] accepts and sizes in range ([reach]),
    whatever the order in which the threads of a pool run, every task given to [addTask] is in
    exactly one place: waiting in the workqueue, being run, answered, or received, and
    [getResult] never goes wrong.  It comes back with the results (or raises the error) of the
    task asked for, run on copies of its function and arguments, once for each task; with
    nothing only for a task that has given its result, a number that is no task, or a task that
    failed with nil or false.  In a pool with threads and without [closeOnLastTask] it sleeps
    only while a thread has a task to run; [busy] says what else may be when the pool has no
    thread, or was closed before the task was added ([task_added_after_close_waits]). *)
Theorem pool_gives_results size tasks given s :
  0 < size < FIFO_MAX -> reach size tasks given s ->
  (exists a received, queue_rep (questions (p_wq s).1) (aw_questions a) /\
     queue_rep (answers (p_wq s).1) (aw_answers a) /\
     pending s a ++ received ≡ₚ seqZ 1 (zlen tasks) /\
     NoDup given /\ forall id, id ∈ given -> id ∈ received) /\
  (room s (Z.of_nat poolSize) (Z.of_nat poolSize) -> forall id,
     (exists s', getResult owner poolSize closeOnLastTask id s = Blocked s' /\ busy s') \/
     (exists r s', getResult owner poolSize closeOnLastTask id s = Done r s' /\
        reply_ok tasks given (default (zlen tasks) id) r)) /\
  (forall id, exists b s', isDone owner id false s = Done b s') /\
  forall f args, is_function f = true -> let msg := task_msg (zlen tasks + 1) f args in
    writable 0 msg = true -> room s 1 (total_len 0 [msg]) ->
    exists s', addTask owner f args s = Done (zlen tasks + 1) s'.
Proof.
  intros Hsz H. apply reach_inv in H; [|done]. split; [|split; [|split]].
  - destruct H as (received & a & used & [Hq _] & Hok). exists a, received.
    split; [by destruct Hq|]. split; [by destruct Hq|].
    destruct Hok. rewrite <- ok_tasks0. done.
  - intros Hr id. destruct (getResult_ok tasks given id s H Hr) as [(s1 & ? & ? & _)|(r & s1 & ? & ? & _)];
      [left | right]; eauto.
  - intros id. destruct H as (received & a & used & Hq & Hok).
    destruct (isDone_ok tasks given id false received s a used Hq Hok)
      as (s1 & a1 & received1 & _ & _ & _ & [[E1 _]|[_ [? _]]]); [eauto | done].
  - intros f args Hfun msg. pose proof H as (received & a & used & _ & Hok).
    subst msg. rewrite <- (ok_tasks _ _ _ _ _ Hok). intros Hw Hr.
    destruct (addTask_ok tasks given s f args H Hfun Hw Hr) as (s' & E & _). eauto.
Qed.
End Invariant.

(** ** Concrete runs *)

Section Runs.
#[local] Existing Instance RefLua.api_ok.
#[local] Instance lua53 : LuaApi := RefLua.api 503 false.

Definition a_function : lua_value := LFunction true [Byte.x01] [].
Definition some_args : lua_value := LTable [(LInteger 1, LInteger 7)] None.
Definition one_result : lua_value := LTable [(LInteger 1, some_args)] None.

(** A pool of one thread, thread 2, made by thread 1. *)
Definition thread_of (i : nat) : Z := 2 + Z.of_nat i.
Lemma thread_of_other i : thread_of i <> 1.
Proof. unfold thread_of. lia. Qed.

(** Every function returns the table of its arguments. *)
Definition returns_args (f args : lua_value) (ok : bool) (ret : lua_value) : Prop :=
  ok = true /\ ret = LTable [(LInteger 1, args)] None.
Lemma returns_args_table f args ret : returns_args f args true ret -> exists es mt, ret = LTable es mt.
Proof. intros [_ ->]. eauto. Qed.

(** The state a call that returns leaves. *)
Definition after {A} (o : outcome pool A) (s : pool) : pool :=
  match o with Done _ s' => s' | _ => s end.

Definition after_sleep {A} (o : outcome pool A) (s : pool) : pool :=
  match o with Blocked s' => s' | _ => s end.

Definition pool_new : pool := BackgroundTaskPool 1 256 1 256.
Definition pool_asked : pool := after (addTask 1 a_function some_args pool_new) pool_new.
Definition pool_running : pool := after (worker_read thread_of 0 pool_asked) pool_asked.

(** The worker's answer: [ok] and [ret]. *)
Definition pool_answered (ok : bool) (ret : lua_value) : pool :=
  after (worker_write thread_of 0 ok ret pool_running) pool_running.

Lemma sample_answered close :
  reach 1 256 thread_of 1 close returns_args 256 [(a_function, some_args)] []
    (pool_answered true one_result).
Proof.
  apply (reach_write 1 256 thread_of 1 close returns_args 256 _ _ pool_running 0
    (transported (task_msg 1 a_function some_args)) true one_result); [|by vm_compute ..].
  apply (reach_read 1 256 thread_of 1 close returns_args 256 _ _ pool_asked 0);
    [|by vm_compute | left; by vm_compute].
  apply (reach_add 1 256 thread_of 1 close returns_args 256 [] [] pool_new a_function some_args 1);
    [|by vm_compute ..].
  apply reach_new.
Qed.

(** The task is answered: [getResult] comes back with the table of its arguments, or, when it
    closes the pool, sleeps until the thread has ended. *)
Lemma pool_gives_results_witness :
  (exists s', getResult 1 1 false (Some 1) (pool_answered true one_result)
     = Done (Results one_result) s') /\
  exists s', getResult 1 1 true (Some 1) (pool_answered true one_result) = Blocked s' /\ busy 1 256 1 true s'.
Proof.
  split.
  - destruct (pool_gives_results (L := lua53) ltac:(by vm_compute) 1 256 thread_of 1 false
      ltac:(done) thread_of_other returns_args returns_args_table 256 _ _ _ ltac:(done)
      (sample_answered false)) as (_ & H & _).
    destruct (H ltac:(by vm_compute) (Some 1)) as [(s' & E & _)|(r & s' & E & _)]; clear H;
      [exfalso; clear -E; by vm_compute in E|].
    assert (match getResult 1 1 false (Some 1) (pool_answered true one_result) with
            | Done r _ => r | _ => Nothing end = Results one_result) as Er
      by (vm_compute; reflexivity).
    rewrite E in Er. subst r. by exists s'.
  - destruct (pool_gives_results (L := lua53) ltac:(by vm_compute) 1 256 thread_of 1 true
      ltac:(done) thread_of_other returns_args returns_args_table 256 _ _ _ ltac:(done)
      (sample_answered true)) as (_ & H & _).
    destruct (H ltac:(by vm_compute) (Some 1)) as [(s' & E & Hb)|(r & s' & E & _)]; clear H.
    + exists s'. split; [exact E | exact Hb].
    + exfalso. clear -E. by vm_compute in E.
Defined.

(** With [closeOnLastTask] the first result closes the pool.  A task added afterwards is queued,
    and [getResult] sleeps for it with no thread left to take it. *)
Theorem task_added_after_close_waits :
  let s1 := after_sleep (getResult 1 1 true (Some 1) (pool_answered true one_result)) pool_new in
  let s2 := after (worker_read thread_of 0 s1) s1 in
  exists s3 s4 s5, getResult_joined (Some 1) s2 = Done (Results one_result) s3 /\
    addTask 1 a_function some_args s3 = Done 2 s4 /\
    getResult 1 1 true (Some 2) s4 = Blocked s5 /\ forallb stopped (workers s5) = true.
Proof.
  cbv zeta. eexists _, _, _. split; [vm_compute; reflexivity|].
  split; [vm_compute; reflexivity|]. split; [vm_compute; reflexivity | reflexivity].
Qed.

(** A task that fails with nil passes for one that has not been answered until all are, and then
    for one without results: the failure is lost. *)
Lemma silent_failure :
  exists s', getResult 1 1 false (Some 1) (pool_answered false LNil) = Done Nothing s'.
Proof. eexists. vm_compute. reflexivity. Qed.
End Runs.
