(* ===== verification/Tree.v ===== *)
(** * The tree of nodes of an allReduce ([src/lua/Tree.lua]): which node connects to which.

    [rcsvAllPairs] tells [linkFunc] the pairs of a parent and a child; the node that has them
    sent to it connects to its parent ([tree[from].connect = addresses[to]]).  Nodes are
    numbered from 1, and node 1 is the root. *)
From S2P Require Import Prelude.
From stdpp Require Import sorting.

#[local] Open Scope Z_scope.

(** [link(to, from, depth)], which looks whether both nodes exist. *)
Definition link (numNodes a b : Z) (d : nat) : list (Z * Z * nat) :=
  if (a <=? numNodes) && (b <=? numNodes) then [(a, b, d)] else [].

(** The pairs [linkFunc] is called with, in order; [depth] is [maxDepth - 1], which is not
    negative for two nodes or more.  (The trees of the library do not call [Tree] for one node;
    its depth would be -1, and a recursion that tests for 0 never ends.) *)
Fixpoint rcsvAllPairs (base numNodes index : Z) (depth : nat) : list (Z * Z * nat) :=
  match depth with
  | O =>
      let skip := base ^ 1 in
      concat (map (fun j => link numNodes (index + 1) j 0) (seqZ (index + 2) (skip - 1)))
  | S depth' =>
      let skip := base ^ Z.of_nat depth in
      link numNodes (index + 1) (index + skip + 1) depth ++
      concat (map (fun c => rcsvAllPairs base numNodes (index + c * skip) depth') (seqZ 0 base))
  end.

(** The node that connects, in a pair. *)
Definition from (l : Z * Z * nat) : Z := l.1.2.

Lemma elem_of_link n a b d x : x ∈ link n a b d <-> x = (a, b, d) /\ a <= n /\ b <= n.
Proof.
  unfold link. destruct (Z.leb_spec a n), (Z.leb_spec b n); cbn;
    rewrite ?list_elem_of_singleton, ?elem_of_nil; naive_solver lia.
Qed.

Lemma elem_of_concat_map {A B} (f : A -> list B) (l : list A) y :
  y ∈ concat (map f l) <-> exists x, x ∈ l /\ y ∈ f x.
Proof.
  induction l as [|a l IH]; cbn.
  - rewrite elem_of_nil. split; [done|]. by intros (x & ?%elem_of_nil & _).
  - rewrite elem_of_app, IH. set_solver.
Qed.

(** What is linked: counted from the first node of the block, a child is its parent and, at depth 0,
    up to [base - 1] more, at depth [t], exactly [base ^ t] more. *)
Lemma linked base n index d : 2 <= base -> forall a j t, (a, j, t) ∈ rcsvAllPairs base n index d ->
  a <= n /\ j <= n /\ (t <= d)%nat /\ exists q c, 0 <= q /\ 1 <= c < base /\
    a = index + 1 + q * base ^ (Z.of_nat t + 1) /\ j = a + c * base ^ Z.of_nat t /\
    (t <> 0%nat -> c = 1).
Proof.
  intros Hb. revert index. induction d as [|d IH]; intros index a j t; cbn [rcsvAllPairs].
  - rewrite elem_of_concat_map. intros (j' & Hj & [[= -> -> ->] [Ha Hj']]%elem_of_link).
    apply elem_of_seqZ in Hj. rewrite Z.pow_1_r in Hj.
    split; [done|]. split; [done|]. split; [done|]. exists 0, (j' - index - 1).
    cbn. rewrite Z.mul_1_r. lia.
  - rewrite elem_of_app, elem_of_link, elem_of_concat_map.
    intros [([= -> -> ->] & Ha & Hj)|(c & Hc & H)].
    + split; [done|]. split; [done|]. split; [done|]. exists 0, 1. lia.
    + apply elem_of_seqZ in Hc. destruct (IH _ a j t H) as (Ha & Hj & Ht & q & c' & Hq & Hc' & -> & -> & H1).
      split; [done|]. split; [done|]. split; [lia|].
      exists (c * base ^ (Z.of_nat d - Z.of_nat t) + q), c'.
      assert (base ^ Z.of_nat (S d) = base ^ (Z.of_nat d - Z.of_nat t) * base ^ (Z.of_nat t + 1)) as E.
      { rewrite <- Z.pow_add_r by lia. f_equal. lia. }
      pose proof (Z.pow_nonneg base (Z.of_nat d - Z.of_nat t) ltac:(lia)).
      split; [nia|]. split; [done|]. rewrite E. split; [|split; [|done]]; lia.
Qed.

(** Links go from a node to one before it. *)
Lemma link_order base n d a j t : 2 <= base -> (a, j, t) ∈ rcsvAllPairs base n 0 d ->
  1 <= a < j /\ j <= n.
Proof.
  intros Hb H. destruct (linked base n 0 d Hb a j t H) as (_ & Hj & _ & q & c & Hq & Hc & -> & -> & _).
  pose proof (Z.pow_pos_nonneg base (Z.of_nat t) ltac:(lia) ltac:(lia)).
  pose proof (Z.pow_pos_nonneg base (Z.of_nat t + 1) ltac:(lia) ltac:(lia)). nia.
Qed.

(** ** Base 2 *)

(** The nodes [m], ..., [m + k - 1] that exist. *)
Definition nodes (n m k : Z) : list Z := seqZ m (Z.min k (n + 1 - m)).

Lemma nodes_app n m k1 k2 : 0 <= k1 -> 0 <= k2 ->
  nodes n m (k1 + k2) = nodes n m k1 ++ nodes n (m + k1) k2.
Proof.
  intros. unfold nodes. destruct (Z.le_gt_cases k1 (n + 1 - m)).
  - replace (Z.min (k1 + k2) (n + 1 - m)) with (k1 + Z.min k2 (n + 1 - (m + k1))) by lia.
    rewrite (Z.min_l k1) by lia. destruct (Z.le_gt_cases 0 (Z.min k2 (n + 1 - (m + k1)))).
    + by rewrite seqZ_app by lia.
    + rewrite (seqZ_nil (m + k1)), app_nil_r by lia. f_equal. lia.
  - rewrite (seqZ_nil (m + k1)), app_nil_r by lia. f_equal. lia.
Qed.

Lemma from_link n a b d : a <= b -> map from (link n a b d) = nodes n b 1.
Proof.
  intros. unfold link, nodes.
  destruct (Z.leb_spec b n); [rewrite (proj2 (Z.leb_le a n)), Z.min_l by lia; done|].
  rewrite andb_false_r. by rewrite seqZ_nil by lia.
Qed.

(** With base 2 each node of the block but the first is linked once. *)
Lemma binary_links n d : forall index,
  map from (rcsvAllPairs 2 n index d) ≡ₚ nodes n (index + 2) (2 ^ (Z.of_nat d + 1) - 1).
Proof.
  induction d as [|d IH]; intros index; cbn [rcsvAllPairs].
  - change (2 ^ 1 - 1) with 1. change (seqZ (index + 2) 1) with [index + 2]. cbn [map concat].
    rewrite app_nil_r, from_link by lia. done.
  - set (skip := 2 ^ Z.of_nat (S d)).
    assert (0 < skip) by (apply Z.pow_pos_nonneg; lia).
    change (seqZ 0 2) with [0; 1]. cbn [map concat]. rewrite app_nil_r, !map_app, from_link, !IH by lia.
    replace (2 ^ (Z.of_nat d + 1)) with skip by (unfold skip; f_equal; lia).
    replace (2 ^ (Z.of_nat (S d) + 1) - 1) with ((skip - 1) + (1 + (skip - 1)))
      by (unfold skip; rewrite Z.pow_add_r by lia; lia).
    rewrite !nodes_app by lia. rewrite Z.mul_0_l, Z.mul_1_l, Z.add_0_r.
    replace (index + 2 + (skip - 1)) with (index + skip + 1) by lia.
    replace (index + skip + 1 + 1) with (index + skip + 2) by lia.
    rewrite !app_assoc. f_equiv. apply Permutation_app_comm.
Qed.

(** The parents above a node. *)
Inductive above (links : list (Z * Z * nat)) : Z -> Z -> Prop :=
  | above_refl j : above links j j
  | above_link a b j t : (b, j, t) ∈ links -> above links a b -> above links a j.

Lemma binary_tree_links n d :
  1 <= n <= 2 ^ (Z.of_nat d + 1) ->
  map from (rcsvAllPairs 2 n 0 d) ≡ₚ seqZ 2 (n - 1) /\
  (forall a j t, (a, j, t) ∈ rcsvAllPairs 2 n 0 d -> 1 <= a < j) /\
  forall j, 1 <= j <= n -> above (rcsvAllPairs 2 n 0 d) 1 j.
Proof.
  intros Hn.
  assert (map from (rcsvAllPairs 2 n 0 d) ≡ₚ seqZ 2 (n - 1)) as Hp.
  { rewrite binary_links. unfold nodes. replace (Z.min _ _) with (n - 1) by lia. done. }
  assert (forall a j t, (a, j, t) ∈ rcsvAllPairs 2 n 0 d -> 1 <= a < j) as Ho
    by (intros a j t H; by destruct (link_order 2 n d a j t ltac:(lia) H)).
  split; [done|]. split; [done|]. intros j. induction (Z.lt_wf 0 j) as [j _ IH]. intros Hj.
  destruct (decide (j = 1)) as [->|Hne]; [constructor|].
  assert (j ∈ map from (rcsvAllPairs 2 n 0 d)) as Hin by (rewrite Hp; apply elem_of_seqZ; lia).
  apply list_elem_of_fmap in Hin as ([[a j'] t] & E & Hin). cbn in E. subst j'.
  destruct (Ho a j t Hin). eapply above_link; [exact Hin|]. apply IH; lia.
Qed.

(** With base 2 the links make a tree of all the nodes, rooted at node 1: every node but the
    first has exactly one parent, which comes before it, node 1 has none, and from every node the
    parents lead up to node 1, provided the depth covers the nodes, as
    [ceil(log(numNodes) / log(2)) - 1] does. *)
Theorem binary_tree_spans n d :
  1 <= n <= 2 ^ (Z.of_nat d + 1) ->
  map from (rcsvAllPairs 2 n 0 d) ≡ₚ seqZ 2 (n - 1) /\
  (forall a j t, (a, j, t) ∈ rcsvAllPairs 2 n 0 d -> 1 <= a < j) /\
  forall j, 1 <= j <= n -> above (rcsvAllPairs 2 n 0 d) 1 j.
Proof. apply binary_tree_links. Qed.

(** ** One round of [allReduceInner] *)

(** The clients of a node's server are its children, in the order of their numbers. *)
Definition children (links : list (Z * Z * nat)) (a : Z) : list Z :=
  merge_sort Z.le (map from (filter (fun l => l.1.1 = a) links)).

(** The node a client is connected to: the [connect] that was assigned last. *)
Definition parent (links : list (Z * Z * nat)) (j : Z) : option Z :=
  foldl (fun connect l => if from l =? j then Some l.1.1 else connect) None links.

Section AllReduce.
Context {A : Type} (reduce : A -> A -> A) (links : list (Z * Z * nat)).
(** The value of each node, and whether it was called with [zero]. *)
Context (value : Z -> A) (zero : Z -> bool).

(** What node [a] sends up: its value reduced with what its children send, in order, and how many
    of them are done.  Going down the tree takes at most [fuel] steps. *)
Fixpoint reduced (fuel : nat) (a : Z) : A * Z :=
  let own := (value a, if zero a then 1 else 0) in
  match fuel with
  | O => own
  | S fuel' =>
      foldl (fun acc c => let r := reduced fuel' c in (reduce acc.1 r.1, acc.2 + r.2)) own
        (children links a)
  end.

(** What node [j] ends with: what its parent sends down, or, at the root, what it has reduced.
    Each node sends its children the [value] and [numDone] it has itself received, so going down
    from the root is going up to it; that a value arrives as it was sent is [Tensor] and
    [Cliser], and the order in which the children are served is not modelled. *)
Fixpoint allReduceInner (fuel : nat) (n : nat) (j : Z) : A * Z :=
  match parent links j, fuel with
  | Some a, S fuel' => allReduceInner fuel' n a
  | _, _ => reduced n j
  end.

(** The nodes below [a], in the order their values are reduced. *)
Fixpoint below (fuel : nat) (a : Z) : list Z :=
  match fuel with
  | O => []
  | S fuel' => concat (map (fun c => c :: below fuel' c) (children links a))
  end.

Definition dones (l : list Z) : Z := zlen (filter (fun j => zero j = true) l).

Context (reduce_assoc : Assoc (=) reduce).

Lemma foldl_reduce x y l : reduce x (foldl reduce y l) = foldl reduce (reduce x y) l.
Proof.
  revert y. induction l as [|z l IH]; intros y; [done|]. cbn. by rewrite IH, reduce_assoc.
Qed.

Lemma dones_app l k : dones (l ++ k) = dones l + dones k.
Proof. unfold dones. by rewrite filter_app, zlen_app. Qed.

Lemma dones_one a : dones [a] = if zero a then 1 else 0.
Proof. unfold dones. rewrite filter_cons, filter_nil. by destruct (zero a). Qed.

Lemma reduced_below fuel : forall a,
  reduced fuel a = (foldl reduce (value a) (map value (below fuel a)), dones (a :: below fuel a)).
Proof.
  induction fuel as [|fuel IH]; intros a; cbn [reduced below]; [by rewrite dones_one|].
  change (a :: ?l) with ([a] ++ l). rewrite dones_app, dones_one.
  generalize (value a), (if zero a then 1 else 0).
  induction (children links a) as [|c cs IHc]; intros x k; cbn [foldl map concat].
  - change (dones []) with 0. by rewrite Z.add_0_r.
  - rewrite IHc, IH. cbn [fst snd]. rewrite foldl_reduce, (dones_app (c :: below fuel c)).
    rewrite map_app, foldl_app. f_equal. lia.
Qed.

Context (reduce_comm : Comm (=) reduce).

Lemma foldl_reduce_perm l k : l ≡ₚ k -> forall x, foldl reduce x l = foldl reduce x k.
Proof.
  induction 1 as [|y l k _ IH|y z l|l k m _ IH1 _ IH2]; intros x; cbn; [done | done | | congruence].
  by rewrite <- !reduce_assoc, (reduce_comm y z).
Qed.
End AllReduce.

(** *** The nodes below the first are the others *)

Section Spanning.
Context (links : list (Z * Z * nat)) (n : Z).
Hypothesis Hn : 1 <= n.
Hypothesis Hfrom : map from links ≡ₚ seqZ 2 (n - 1).
Hypothesis Horder : forall a j t, (a, j, t) ∈ links -> 1 <= a < j.

Lemma elem_of_children a j : j ∈ children links a <-> exists t, (a, j, t) ∈ links.
Proof.
  unfold children. rewrite merge_sort_Permutation, list_elem_of_fmap. split.
  - intros ([[a' j'] t] & -> & [E H]%list_elem_of_filter). cbn in *. subst a'. eauto.
  - intros (t & H). exists (a, j, t). split; [done|]. by apply list_elem_of_filter.
Qed.

(** A node has one parent. *)
Lemma one_link a b j t u : (a, j, t) ∈ links -> (b, j, u) ∈ links -> (a, j, t) = (b, j, u).
Proof.
  intros H1 H2. assert (NoDup (map from links)) as Hnd by (rewrite Hfrom; apply NoDup_seqZ).
  clear Hfrom Horder. induction links as [|l ls IH]; [by apply elem_of_nil in H1|].
  cbn in Hnd. apply NoDup_cons in Hnd as [Hl Hnd].
  apply elem_of_cons in H1 as [<-|H1], H2 as [<-|H2]; try done; [| |by apply IH];
    destruct Hl; apply list_elem_of_fmap; eexists; (split; [|done]); done.
Qed.

Lemma children_NoDup a : NoDup (children links a).
Proof.
  unfold children. rewrite merge_sort_Permutation.
  assert (NoDup (map from links)) as Hnd by (rewrite Hfrom; apply NoDup_seqZ).
  clear Hfrom Horder. induction links as [|l ls IH]; [constructor|].
  cbn in Hnd. apply NoDup_cons in Hnd as [Hl Hnd]. rewrite filter_cons. case_decide; [|by apply IH].
  cbn. constructor; [|by apply IH]. intros Hin. apply Hl.
  apply list_elem_of_fmap in Hin as (l' & -> & [_ Hin]%list_elem_of_filter).
  apply list_elem_of_fmap. by exists l'.
Qed.

Lemma above_le a j : above links a j -> a <= j.
Proof. induction 1 as [|a b j t H _ IH]; [lia|]. apply Horder in H. lia. Qed.

Lemma above_trans a b j : above links a b -> above links b j -> above links a j.
Proof. intros H1. induction 1 as [|a' b j t H _ IH]; [done|]. eapply above_link; eauto. Qed.

(** The parents above a node are a chain. *)
Lemma above_chain a b j : above links a j -> above links b j -> above links a b \/ above links b a.
Proof.
  intros H1. revert b. induction H1 as [j|a c j t Hl H1 IH]; intros b H2; [by right|].
  inversion H2 as [|? c' ? u Hl' H2']; subst; [left; by eapply above_link|].
  pose proof (one_link _ _ _ _ _ Hl Hl') as [= <- <-]. by apply IH.
Qed.

Lemma elem_of_below fuel : forall a j, n - a <= Z.of_nat fuel ->
  j ∈ below links fuel a <-> above links a j /\ j <> a.
Proof.
  assert (forall a j t, (a, j, t) ∈ links -> j <= n) as Hle.
  { intros a j t H. assert (j ∈ map from links) as Hj by (apply list_elem_of_fmap; by exists (a, j, t)).
    rewrite Hfrom in Hj. apply elem_of_seqZ in Hj. lia. }
  assert (forall a j, above links a j -> j <> a -> exists c t, (a, c, t) ∈ links /\ above links c j) as Hstep.
  { intros a j H. induction H as [|a b j t Hl H IH]; [done|]. intros _.
    destruct (decide (b = a)) as [->|Hne]; [exists j, t; split; [done | constructor]|].
    destruct (IH Hne) as (c & u & Hc & Ha). exists c, u. split; [done|]. by eapply above_link. }
  induction fuel as [|fuel IH]; intros a j Hf; cbn [below].
  - rewrite elem_of_nil. split; [done|]. intros [H Hne].
    destruct (Hstep a j H Hne) as (c & t & Hc & _). pose proof (Horder _ _ _ Hc).
    pose proof (Hle _ _ _ Hc). lia.
  - rewrite elem_of_concat_map. split.
    + intros (c & [t Hc]%elem_of_children & Hj). pose proof (Horder _ _ _ Hc).
      assert (above links a c) as Hac by (eapply above_link; [done | constructor]).
      apply elem_of_cons in Hj as [->|Hj]; [split; [done | lia]|].
      apply IH in Hj as [Hj _]; [|lia]. split; [by eapply above_trans|].
      apply above_le in Hj. lia.
    + intros [H Hne]. destruct (Hstep a j H Hne) as (c & t & Hc & Hj).
      pose proof (Horder _ _ _ Hc). exists c. split; [apply elem_of_children; by exists t|].
      apply elem_of_cons. destruct (decide (j = c)); [by left|]. right. apply IH; [lia | done].
Qed.

(** Two children of a node have nothing below them in common. *)
Lemma siblings a c1 c2 t1 t2 j : (a, c1, t1) ∈ links -> (a, c2, t2) ∈ links ->
  above links c1 j -> above links c2 j -> c1 = c2.
Proof.
  assert (forall c c' t t', (a, c, t) ∈ links -> (a, c', t') ∈ links -> above links c c' -> c = c') as H.
  { intros c c' t t' H1 H2 Ha. inversion Ha as [|? b ? u Hl Hb]; [done|]; subst.
    pose proof (one_link _ _ _ _ _ H2 Hl) as [= <- _]. apply above_le in Hb. apply Horder in H1. lia. }
  intros H1 H2 Ha1 Ha2. destruct (above_chain c1 c2 j Ha1 Ha2); [by eapply H | symmetry; by eapply H].
Qed.

Lemma below_NoDup fuel : forall a, n - a <= Z.of_nat fuel -> NoDup (below links fuel a).
Proof.
  induction fuel as [|fuel IH]; intros a Hf; cbn [below]; [constructor|].
  assert (forall c, c ∈ children links a -> exists t, (a, c, t) ∈ links) as Hcs
    by (intros; by apply elem_of_children).
  pose proof (children_NoDup a) as Hnd. induction (children links a) as [|c cs IHc]; [constructor|].
  apply NoDup_cons in Hnd as [Hc Hnd]. cbn [map concat].
  destruct (Hcs c ltac:(left)) as [t Ht]. pose proof (Horder _ _ _ Ht).
  assert (forall d j, d ∈ c :: cs -> j ∈ d :: below links fuel d -> above links d j) as Hb.
  { intros d j Hd [->|Hj]%elem_of_cons; [constructor|].
    destruct (Hcs d Hd) as [u Hu]. pose proof (Horder _ _ _ Hu).
    by apply elem_of_below in Hj as [? _]; [|lia]. }
  apply NoDup_app. split; [|split].
  - constructor; [|apply IH; lia]. rewrite elem_of_below by lia. by intros [_ ?].
  - intros j Hj (d & Hd & Hjd)%elem_of_concat_map.
    destruct (Hcs d ltac:(by right)) as [u Hu].
    assert (c = d) as ->; [|done].
    eapply (siblings a c d); [done | done | eapply Hb; [left | done] | eapply Hb; [by right | done]].
  - apply IHc; [|done]. intros d Hd. apply Hcs. by right.
Qed.
End Spanning.

(** *** The parent of a node *)

Lemma parent_snoc links l j :
  parent (links ++ [l]) j = if from l =? j then Some l.1.1 else parent links j.
Proof. unfold parent. by rewrite foldl_app. Qed.

Lemma parent_None links j : j ∉ map from links -> parent links j = None.
Proof.
  induction links as [|l ls IH] using rev_ind; [done|]. rewrite map_app, parent_snoc. intros H.
  rewrite (proj2 (Z.eqb_neq (from l) j)) by set_solver. apply IH. set_solver.
Qed.

Lemma parent_Some links j : j ∈ map from links ->
  exists a t, parent links j = Some a /\ (a, j, t) ∈ links.
Proof.
  induction links as [|l ls IH] using rev_ind; [by intros ?%elem_of_nil|].
  rewrite map_app, parent_snoc. intros Hin. destruct (Z.eqb_spec (from l) j) as [E|Hne].
  - destruct l as [[a j'] t]. cbn in *. subst j'. exists a, t. split; [done|]. set_solver.
  - apply elem_of_app in Hin as [Hin|Hin]; [|set_solver].
    destruct (IH Hin) as (a & t & E & H). exists a, t. split; [done|]. set_solver.
Qed.

(** Every node gets what the root has reduced. *)
Lemma received_root {A} (reduce : A -> A -> A) links value zero n fuel : forall j,
  map from links ≡ₚ seqZ 2 (Z.of_nat n - 1) -> (forall a j t, (a, j, t) ∈ links -> 1 <= a < j) ->
  1 <= j <= Z.of_nat n -> j <= Z.of_nat fuel + 1 ->
  allReduceInner reduce links value zero fuel n j = reduced reduce links value zero n 1.
Proof.
  induction fuel as [|fuel IH]; intros j Hfrom Ho Hj Hf; cbn [allReduceInner];
    destruct (decide (j = 1)) as [->|Hne]; try lia;
    try (rewrite parent_None by (rewrite Hfrom, elem_of_seqZ; lia); done).
  destruct (parent_Some links j) as (a & t & -> & Hin); [rewrite Hfrom, elem_of_seqZ; lia|].
  apply Ho in Hin. apply IH; [done | done | lia | lia].
Qed.

(** C15: in one round of [allReduceInner] on the tree of base 2 every node ends with the same pair:
    the values of all the nodes reduced, for a [reduce] that is associative and commutative, and
    the number of nodes that are done, so that all of them leave in the same round. *)
Theorem allReduce_reaches_all {A} (reduce : A -> A -> A) (value : Z -> A) (zero : Z -> bool) n d j :
  Assoc (=) reduce -> Comm (=) reduce -> 1 <= n <= 2 ^ (Z.of_nat d + 1) -> 1 <= j <= n ->
  allReduceInner reduce (rcsvAllPairs 2 n 0 d) value zero (Z.to_nat n) (Z.to_nat n) j
  = (foldl reduce (value 1) (map value (seqZ 2 (n - 1))), dones zero (seqZ 1 n)).
Proof.
  intros Ha Hc Hn Hj. destruct (binary_tree_links n d Hn) as (Hp & Ho & Hup).
  set (links := rcsvAllPairs 2 n 0 d) in *.
  rewrite received_root; try done; [|by rewrite Z2Nat.id by lia | lia | lia].
  rewrite reduced_below by done.
  assert (below links (Z.to_nat n) 1 ≡ₚ seqZ 2 (n - 1)) as Hb.
  { apply NoDup_Permutation; [apply (below_NoDup links n); by (done || lia) | apply NoDup_seqZ|].
    intros i. rewrite (elem_of_below links n) by (done || lia). rewrite elem_of_seqZ. split.
    - intros [H Hne]. pose proof (above_le links Ho 1 i H). split; [lia|].
      inversion H as [|? b ? t Hin _]; [done|]; subst.
      assert (i ∈ map from links) as Hi by (apply list_elem_of_fmap; by exists (b, i, t)).
      rewrite Hp in Hi. apply elem_of_seqZ in Hi. lia.
    - intros Hi. split; [apply Hup; lia | lia]. }
  f_equal.
  - apply foldl_reduce_perm; [done | done|]. by apply Permutation_map.
  - unfold dones. rewrite seqZ_cons by lia. rewrite !filter_cons.
    replace (Z.succ 1) with 2 by lia. replace (Z.pred n) with (n - 1) by lia.
    case_decide; rewrite ?zlen_cons; by rewrite Hb.
Qed.

(** ** Other bases *)

(** With a larger base only the first two blocks of each depth above 0 are linked: node
    [2 * base + 1] has no parent, whatever the depth, and is no part of the tree. *)
Lemma wide_tree_misses_nodes base n d a t :
  3 <= base -> (a, 2 * base + 1, t) ∉ rcsvAllPairs base n 0 d.
Proof.
  intros Hb H. destruct (linked base n 0 d ltac:(lia) _ _ _ H) as (_ & _ & _ & q & c & Hq & Hc & -> & E & H1).
  destruct t as [|t].
  - cbn [Z.of_nat] in E. rewrite Z.add_0_l, Z.pow_1_r, Z.pow_0_r in E.
    destruct (Z.le_gt_cases q 1); nia.
  - rewrite (H1 ltac:(done)) in E.
    replace (Z.of_nat (S t)) with (Z.of_nat t + 1) in E by lia.
    rewrite !Z.pow_add_r, Z.pow_1_r in E by lia.
    pose proof (Z.pow_pos_nonneg base (Z.of_nat t) ltac:(lia) ltac:(lia)).
    assert (2 = base ^ Z.of_nat t * (q * base + 1)) as E2
      by (apply (Z.mul_reg_l _ _ base); lia).
    assert (base ^ Z.of_nat t <> 2) as Hno.
    { destruct t as [|t]; [done|]. rewrite Nat2Z.inj_succ, Z.pow_succ_r by lia.
      pose proof (Z.pow_pos_nonneg base (Z.of_nat t) ltac:(lia) ltac:(lia)). nia. }
    destruct (Z.eq_dec q 0) as [->|]; [lia|].
    assert (base <= q * base) by nia. nia.
Qed.

(** ** Concrete runs *)

(** Six nodes: 1 has the children 2, 3 and 5, 3 has 4, and 5 has 6. *)
Lemma binary_tree_spans_witness :
  rcsvAllPairs 2 6 0 2 = [(1, 5, 2%nat); (1, 3, 1%nat); (1, 2, 0%nat); (3, 4, 0%nat); (5, 6, 0%nat)] /\
  above (rcsvAllPairs 2 6 0 2) 1 6.
Proof.
  split; [reflexivity|]. destruct (binary_tree_spans 6 2 ltac:(cbn; lia)) as (_ & _ & H).
  apply H. lia.
Defined.

(** Nine nodes with base 4: nodes 2 to 8 are linked, node 9 is not. *)
Example base_four_misses_nine : map from (rcsvAllPairs 4 9 0 1) = [5; 2; 3; 4; 6; 7; 8].
Proof. reflexivity. Qed.

(** The sum of six nodes, two of which are done. *)
Lemma allReduce_reaches_all_witness :
  allReduceInner Z.add (rcsvAllPairs 2 6 0 2) (fun j => j * j) (fun j => 4 <? j) 6 6 4 = (91, 2).
Proof.
  exact (allReduce_reaches_all Z.add (fun j => j * j) (fun j => 4 <? j) 6 2 4
    ltac:(intros ? ? ?; lia) ltac:(intros ? ?; lia) ltac:(cbn; lia) ltac:(lia)).
Defined.
