(* ===== verification/Module.v ===== *)
(** * The module's tables ([src/ipc.c]): the functions of the library, the metatables of its
    userdata, and which userdata can be sent.

    [luaopen_libipc] fills the registry of a Lua state.  A metatable is the map of its
    fields; the functions are named, one constructor for each C function of the tables. *)
From stdpp Require Import strings.
From S2P Require Import Prelude RingBuffer Lua Serialize Roundtrip Channel.

#[local] Open Scope ipc_scope.

(** ** The C functions *)

Inductive c_function :=
  | ipc_is_osx | workqueue_open | cliser_server | cliser_client | ipc_getpid | ipc_getppid
  | ipc_gettid | ipc_fork | ipc_waitpid | map_open | map_extended_open | spawn_open | flock_open
  | mutex_create | sharedtable_create | sharedtable_size | marshal_open | ipc_is_devel
  | channel_create
  | workqueue_close | workqueue_read | workqueue_write | workqueue_writeup | workqueue_drain
  | workqueue_retain | workqueue_metatablename | workqueue_gc
  | cliser_server_close | cliser_server_clients | cliser_server_broadcast
  | cliser_server_recv_any | cliser_server_net_stats
  | cliser_server_send | cliser_server_recv | cliser_server_tag | cliser_server_id
  | cliser_server_client_close | cliser_server_client_address
  | cliser_client_close | cliser_client_send | cliser_client_recv | cliser_client_recv_async
  | cliser_client_retain | cliser_client_metatablename | cliser_client_net_stats
  | map_join | map_check_errors
  | spawn_stdin | spawn_stdout | spawn_stdout_file_id | spawn_wait | spawn_pid | spawn_running
  | spawn_gc
  | flock_close
  | mutex_lock | mutex_unlock | mutex_barrier | mutex_retain | mutex_metatablename | mutex_gc
  | sharedtable_retain | sharedtable_metatablename | sharedtable_gc | sharedtable_read
  | sharedtable_write | sharedtable_len | sharedtable_pairs
  | marshal_close | marshal_read | marshal_retain | marshal_metatablename | marshal_gc
  | channel_close | channel_closed | channel_drained | channel_read | channel_write
  | channel_num_items | channel_retain | channel_metatablename | channel_gc
  (** The instances of generic/cliser.c, by element type. *)
  | Lcliser_storage_read (real : string) | Lcliser_storage_write (real : string)
  | Lcliser_tensor_read (real : string) | Lcliser_tensor_write (real : string).

#[export] Instance c_function_eq : EqDecision c_function.
Proof. solve_decision. Defined.

(** ** The tables *)

Definition luaL_Reg : Type := list (string * c_function).

#[local] Open Scope string_scope.

Definition ipc_routines : luaL_Reg := [
  ("isOSX", ipc_is_osx);
  ("workqueue", workqueue_open);
  ("server", cliser_server);
  ("client", cliser_client);
  ("getpid", ipc_getpid);
  ("getppid", ipc_getppid);
  ("gettid", ipc_gettid);
  ("fork", ipc_fork);
  ("waitpid", ipc_waitpid);
  ("map", map_open);
  ("map_extended", map_extended_open);
  ("spawn", spawn_open);
  ("flock", flock_open);
  ("mutex", mutex_create);
  ("sharedtable", sharedtable_create);
  ("sharedtable_size", sharedtable_size);
  ("marshal", marshal_open);
  ("isDevel", ipc_is_devel);
  ("channel", channel_create)].

Definition workqueue_routines : luaL_Reg := [
  ("close", workqueue_close);
  ("read", workqueue_read);
  ("write", workqueue_write);
  ("writeup", workqueue_writeup);
  ("drain", workqueue_drain);
  ("retain", workqueue_retain);
  ("metatablename", workqueue_metatablename);
  ("__gc", workqueue_gc)].

Definition server_routines : luaL_Reg := [
  ("close", cliser_server_close);
  ("clients", cliser_server_clients);
  ("broadcast", cliser_server_broadcast);
  ("recvAny", cliser_server_recv_any);
  ("netStats", cliser_server_net_stats)].

Definition server_client_routines : luaL_Reg := [
  ("send", cliser_server_send);
  ("recv", cliser_server_recv);
  ("tag", cliser_server_tag);
  ("id", cliser_server_id);
  ("close", cliser_server_client_close);
  ("address", cliser_server_client_address)].

Definition client_routines : luaL_Reg := [
  ("close", cliser_client_close);
  ("__gc", cliser_client_close);
  ("send", cliser_client_send);
  ("recv", cliser_client_recv);
  ("recvAsync", cliser_client_recv_async);
  ("retain", cliser_client_retain);
  ("metatablename", cliser_client_metatablename);
  ("netStats", cliser_client_net_stats)].

Definition map_routines : luaL_Reg := [
  ("join", map_join);
  ("checkErrors", map_check_errors)].

Definition spawn_routines : luaL_Reg := [
  ("stdin", spawn_stdin);
  ("stdout", spawn_stdout);
  ("stdoutFileId", spawn_stdout_file_id);
  ("wait", spawn_wait);
  ("pid", spawn_pid);
  ("running", spawn_running);
  ("__gc", spawn_gc)].

Definition flock_routines : luaL_Reg := [
  ("close", flock_close);
  ("__gc", flock_close)].

Definition mutex_routines : luaL_Reg := [
  ("lock", mutex_lock);
  ("unlock", mutex_unlock);
  ("barrier", mutex_barrier);
  ("retain", mutex_retain);
  ("metatablename", mutex_metatablename);
  ("__gc", mutex_gc)].

Definition sharedtable_routines : luaL_Reg := [
  ("retain", sharedtable_retain);
  ("metatablename", sharedtable_metatablename);
  ("__gc", sharedtable_gc);
  ("__index", sharedtable_read);
  ("__newindex", sharedtable_write);
  ("__len", sharedtable_len);
  ("__pairs", sharedtable_pairs)].

Definition marshal_routines : luaL_Reg := [
  ("close", marshal_close);
  ("read", marshal_read);
  ("retain", marshal_retain);
  ("metatablename", marshal_metatablename);
  ("__gc", marshal_gc)].

Definition channel_routines : luaL_Reg := [
  ("close", channel_close);
  ("closed", channel_closed);
  ("drained", channel_drained);
  ("read", channel_read);
  ("write", channel_write);
  ("num_items", channel_num_items);
  ("retain", channel_retain);
  ("metatablename", channel_metatablename);
  ("__gc", channel_gc)].

(** ** Opening the library *)

(** A field of a metatable: a function, or the metatable itself (its [__index]). *)
Inductive field := Fun (f : c_function) | Itself.

Notation fields := (gmap string field).
Notation lua_registry := (gmap string fields).

Definition luaT_setfuncs (routines : luaL_Reg) (mt : fields) : fields :=
  foldl (fun mt e => <[e.1 := Fun e.2]> mt) mt routines.

(** An existing metatable of the name is used as it is. *)
Definition luaL_newmetatable (nm : string) (reg : lua_registry) : lua_registry :=
  match reg !! nm with Some _ => reg | None => <[nm := ∅]> reg end.

(** One block of [luaopen_libipc]; [index]: whether the metatable is its own [__index]. *)
Definition register_type (nm : string) (index : bool) (routines : luaL_Reg) (reg : lua_registry)
  : lua_registry :=
  let reg := luaL_newmetatable nm reg in
  alter (fun mt => luaT_setfuncs routines (if index then <["__index" := Itself]> mt else mt))
    nm reg.

(** [Lcliser_(Init)]: the functions are added to torch's metatables if torch is loaded. *)
Definition Lcliser_Init (real : string) (reg : lua_registry) : lua_registry :=
  let add rd wr mt :=
    <["_cliser_write" := Fun wr]> (<["_cliser_read" := Fun rd]> (mt : fields)) in
  alter (add (Lcliser_tensor_read real) (Lcliser_tensor_write real)) ("torch." +:+ real +:+ "Tensor")
    (alter (add (Lcliser_storage_read real) (Lcliser_storage_write real))
       ("torch." +:+ real +:+ "Storage") reg).

(** What [require 'libipc'] returns: functions, and the table [channel], which can be called
    ([__call] of its metatable) and has the names of the statuses. *)
Inductive entry :=
  | Routine (f : c_function)
  | Callable (statuses : gmap string Z) (call : c_function).

Definition statuses : gmap string Z :=
  <["DRAINED" := STATUS_DRAINED]> (<["CLOSED" := STATUS_CLOSED]> (<["OPEN" := STATUS_OPEN]> ∅)).

Definition set_channel_table (m : gmap string entry) : gmap string entry :=
  <["channel" := Callable statuses channel_create]> m.

(** (Built without CUDA; [signal] aside.) *)
Definition luaopen_libipc (reg : lua_registry) : lua_registry * gmap string entry :=
  let reg := register_type "ipc.workqueue" true workqueue_routines reg in
  let reg := register_type "ipc.server" true server_routines reg in
  let reg := register_type "ipc.server.client" true server_client_routines reg in
  let reg := register_type "ipc.client" true client_routines reg in
  let reg := register_type "ipc.map" true map_routines reg in
  let reg := register_type "ipc.spawn" true spawn_routines reg in
  let reg := register_type "ipc.flock" true flock_routines reg in
  let reg := register_type "ipc.mutex" true mutex_routines reg in
  let reg := register_type "ipc.marshal" true marshal_routines reg in
  let reg := register_type "ipc.sharedtable" false sharedtable_routines reg in
  let reg := register_type "ipc.channel" true channel_routines reg in
  let reg := foldl (fun reg real => Lcliser_Init real reg) reg
               ["Char"; "Byte"; "Short"; "Int"; "Long"; "Float"; "Double"] in
  (reg, set_channel_table (foldl (fun m e => <[e.1 := Routine e.2]> m) ∅ ipc_routines)).

(** ** The functions on processes *)

#[local] Close Scope string_scope.

(** The system calls; [sys_fork] is -1 when it fails. *)
Class Processes := {
  os : Type;
  sys_getpid : os -> Z;
  sys_getppid : os -> Z;
  sys_pthread_self : os -> Z;
  sys_fork : os -> Z * os;
  sys_getenv : list byte -> os -> option (list byte);
}.

Section Process.
Context `{L : LuaApi} `{PR : Processes}.

Definition ipc_getpid_run : M os lua_value := fun s => Done (lua_pushinteger (sys_getpid s)) s.
Definition ipc_getppid_run : M os lua_value := fun s => Done (lua_pushinteger (sys_getppid s)) s.
Definition ipc_gettid_run : M os lua_value := fun s => Done (lua_pushinteger (sys_pthread_self s)) s.

(** The result of [fork] is pushed whatever it is. *)
Definition ipc_fork_run : M os lua_value := fun s =>
  let '(pid, s') := sys_fork s in Done (lua_pushinteger pid) s'.

(** Not on a Mac: nothing is returned. *)
Definition ipc_is_osx_run : M os (option lua_value) := mret None.

(** Not on a Mac: whether the variable starts with a 1. *)
Definition ipc_is_devel_run : M os lua_value := fun s =>
  Done (LBoolean (match sys_getenv (str "CKOIA_DEVEL_MODE") s with
                  | Some (b :: _) => bool_decide (b = Byte.x31)
                  | _ => false
                  end)) s.

(** A failed [fork] is not an error: -1 comes back as a process id. *)
Lemma failed_fork_returns s s' :
  sys_fork s = (-1, s') -> ipc_fork_run s = Done (lua_pushinteger (-1)) s'.
Proof. intros E. unfold ipc_fork_run. by rewrite E. Qed.
End Process.

#[local] Open Scope string_scope.

(** ** What the serializer sees of the userdata *)

(** The names the [metatablename] methods answer. *)
Definition workqueue_name : string := "ipc.workqueue".
Definition client_name : string := "ipc.client".
Definition mutex_name : string := "ipc.mutex".
Definition sharedtable_name : string := "ipc.sharedtable".
Definition marshal_name : string := "ipc.marshal".
Definition channel_name : string := "ipc.channel".

Definition metatablename_answer (f : c_function) : option string :=
  match f with
  | workqueue_metatablename => Some workqueue_name
  | cliser_client_metatablename => Some client_name
  | mutex_metatablename => Some mutex_name
  | sharedtable_metatablename => Some sharedtable_name
  | marshal_metatablename => Some marshal_name
  | channel_metatablename => Some channel_name
  | _ => None
  end.

(** [luaL_callmeta] on a field that is a function. *)
Definition callmeta (mt : fields) (nm : string) : option c_function :=
  match mt !! nm with Some (Fun f) => Some f | _ => None end.

(** A metatable of the library as [rb_save] asks it: no [luaT] type name. *)
Definition view (mt : fields) : metatable :=
  mk_mt None (str <$> (callmeta mt "metatablename" ≫= metatablename_answer))
    (bool_decide (is_Some (callmeta mt "retain"))).

(** The types of userdata the library makes. *)
Definition type_names : list string :=
  ["ipc.workqueue"; "ipc.server"; "ipc.server.client"; "ipc.client"; "ipc.map"; "ipc.spawn";
   "ipc.flock"; "ipc.mutex"; "ipc.marshal"; "ipc.sharedtable"; "ipc.channel"].

(** Those that can be sent to another thread. *)
Definition sendable : list string :=
  ["ipc.workqueue"; "ipc.client"; "ipc.mutex"; "ipc.marshal"; "ipc.sharedtable"; "ipc.channel"].

(** An interpreter where the library has been opened, on a registry without its types. *)
Definition ipc_loaded `(L : LuaApi) (reg : lua_registry) : Prop :=
  (forall nm, nm ∈ type_names -> reg !! nm = None) /\
  forall nm mt, (luaopen_libipc reg).1 !! nm = Some mt ->
    nm ∈ type_names -> luaL_getmetatable (str nm) = Some (view mt).

(** *** Each metatable depends on its own name only *)

Definition agree (nm : string) (reg1 reg2 : lua_registry) : Prop := reg1 !! nm = reg2 !! nm.

Lemma agree_alter nm k f reg1 reg2 :
  agree nm reg1 reg2 -> agree nm (alter f k reg1) (alter f k reg2).
Proof. unfold agree. intros E. rewrite !lookup_alter. case_decide; [subst; by rewrite E | done]. Qed.

Lemma agree_register nm k index routines reg1 reg2 :
  agree nm reg1 reg2 -> agree nm (register_type k index routines reg1) (register_type k index routines reg2).
Proof.
  intros E. apply agree_alter. unfold agree, luaL_newmetatable in *.
  destruct (decide (k = nm)) as [->|Hne].
  - rewrite <- E. destruct (reg1 !! nm) eqn:E1; [by rewrite E1|]. by rewrite !lookup_insert_eq.
  - destruct (reg1 !! k), (reg2 !! k); by rewrite ?lookup_insert_ne.
Qed.

Lemma agree_init nm real reg1 reg2 :
  agree nm reg1 reg2 -> agree nm (Lcliser_Init real reg1) (Lcliser_Init real reg2).
Proof. intros E. by do 2 apply agree_alter. Qed.

#[local] Hint Resolve agree_register agree_init : ipc.

Lemma agree_open nm reg1 reg2 :
  agree nm reg1 reg2 -> agree nm (luaopen_libipc reg1).1 (luaopen_libipc reg2).1.
Proof. intros E. unfold luaopen_libipc. cbn [fst foldl]. auto 20 with ipc. Qed.

(** What the metatables answer, type by type. *)
Definition type_view (nm : string) : option (metatable * bool) :=
  (fun mt => (view mt, bool_decide (is_Some (callmeta mt "__gc")))) <$>
    ((luaopen_libipc ∅).1 !! nm).

Lemma type_views nm : nm ∈ type_names ->
  type_view nm
  = Some (if bool_decide (nm ∈ sendable) then mk_mt None (Some (str nm)) true
          else mk_mt None None false,
          negb (bool_decide (nm ∈ ["ipc.server"; "ipc.server.client"; "ipc.map"]))).
Proof.
  unfold type_names. intros Hnm. repeat (apply elem_of_cons in Hnm as [->|Hnm]);
    [vm_compute; reflexivity .. | by apply not_elem_of_nil in Hnm].
Qed.

#[local] Close Scope string_scope.

(** The finite facts on the names that can be sent. *)
Definition name_ok (nm : string) : bool :=
  bool_decide (cstr (str nm) = str nm) && (zlen (str nm) <=? 32).

Lemma sendable_ok nm : nm ∈ sendable -> cstr (str nm) = str nm /\ zlen (str nm) <= 32.
Proof.
  intros H. assert (forallb name_ok sendable = true) as Hok by (vm_compute; reflexivity).
  rewrite forallb_forall in Hok. apply list_elem_of_In, Hok, andb_prop in H as [H1 H2].
  apply bool_decide_eq_true in H1. split; [done | by apply Z.leb_le].
Qed.

Lemma none_iff {A} (o : option A) (P : Prop) `{Decision P} :
  bool_decide (is_Some o) = negb (bool_decide P) -> (o = None <-> P).
Proof.
  intros E. destruct o as [a|]; cbn in E; case_bool_decide; try done.
Qed.

Section Theorems.
Context `{L : LuaApi} {Lok : LuaApiOk L}.

(** A userdata whose metatable answers its own name and has [retain]: the bytes of its save,
    and its copy. *)
Lemma userdata_saved nm p upval :
  0 < p -> cstr (str nm) = str nm -> luaL_getmetatable (str nm) = Some (mk_mt None (Some (str nm)) true) ->
  let v := LUserdata p (Some (mk_mt None (Some (str nm)) true)) in
  transported v = v /\ retains v = [p] /\
  exists bs, enc 0 upval v = Some bs /\ zlen bs = 17 + zlen (str nm).
Proof.
  intros Hp Hc Hm v. cbn [transported userdata_name mt_typename mt_metatablename retains enc].
  cbn. rewrite !Hc, Hm, (proj2 (Z.eqb_neq p 0)) by lia. split; [done|]. split; [done|]. eexists. split; [done|].
  rewrite !zlen_app. unfold size_bytes. rewrite zlen_char, !zlen_le8. lia.
Qed.

(** A closed handle: the name and the pointer are written, and [retain] raises. *)
Lemma closed_handle_saved nm upval rb rs :
  cstr (str nm) = str nm -> zlen (str nm) <= 32 -> ring_ok rb -> 64 <= free_space rb ->
  exists st, rb_save 0 upval (LUserdata 0 (Some (mk_mt None (Some (str nm)) true))) (mk_sv rb rs)
    = Raised (ErrLua str_not_open) st /\ sv_retained st = rs.
Proof.
  intros Hc Hl Hok Hroom. unfold rb_save. cbn [rb_save_at]. change (negb (0 =? 0)) with false.
  cbn iota. unfold userdata_name. cbn. rewrite Hc.
  assert (writes true (RB_WRITE (char_bytes (- LUA_TUSERDATA)) >>?
    RB_WRITE (size_bytes (zlen (str nm))) >>? RB_WRITE (str nm) >>? RB_WRITE (le_split 8 0))
    (char_bytes (- LUA_TUSERDATA) ++ size_bytes (zlen (str nm)) ++ str nm ++ le_split 8 0) []) as Hw.
  { do 3 (apply writes_seq0; [auto with ipc|]). auto with ipc. }
  destruct (Hw (mk_sv rb rs) Hok) as [F _]. destruct F as (rb' & E & _).
  { rewrite !zlen_app, zlen_char, !zlen_le_split. unfold size_bytes. rewrite zlen_le_split.
    cbn [sv_rb]. lia. }
  rewrite app_nil_r in E. exists (mk_sv rb' rs). split; [|done].
  apply and_then_zero in E as (s1 & E1 & (s2 & E2 & (s3 & E3 & E4)%and_then_zero)%and_then_zero).
  unfold and_then, mbnd. rewrite E1. cbn [Z.eqb]. rewrite E2. cbn [Z.eqb]. rewrite E3.
  cbn [Z.eqb]. by rewrite E4.
Qed.

End Theorems.

(** ** A concrete run *)

Section Runs.

(** A registry with one of torch's metatables, and an interpreter on it. *)
Definition sample_registry : lua_registry := {[ "torch.FloatTensor"%string := ∅ ]}.

#[local] Instance loaded_api : LuaApi :=
  let R := RefLua.api 503 false in {|
  LUA_VERSION_NUM := LUA_VERSION_NUM;
  lua_dump := lua_dump;
  lua_complete := lua_complete;
  lua_reads_to_end := lua_reads_to_end;
  lua_upvalue_names := lua_upvalue_names;
  luaL_getmetatable nm :=
    view <$> (luaopen_libipc sample_registry).1 !! Stdlib.Strings.String.string_of_list_byte nm;
  luaT_pushmetatable _ := None;
  lua_rawequal := lua_rawequal;
  lua_key_ok := lua_key_ok;
  lua_settable := lua_settable;
  lua_number_of_integer := lua_number_of_integer;
  lua_tointeger_number := lua_tointeger_number;
|}.

#[local] Instance loaded_api_ok : LuaApiOk loaded_api.
Proof. destruct (RefLua.api_ok 503 false). by split. Qed.

Lemma loaded_api_loaded : ipc_loaded loaded_api sample_registry.
Proof.
  split.
  - intros nm Hnm. apply not_elem_of_dom. intros Hd.
    assert (nm = "torch.FloatTensor"%string) as -> by set_solver.
    by apply (bool_decide_pack _) in Hnm; vm_compute in Hnm.
  - intros nm mt E _. cbn [luaL_getmetatable loaded_api]. unfold str.
    by rewrite Stdlib.Strings.String.string_of_list_byte_of_string, E.
Qed.

End Runs.
